(* ===== verification/_CoqProject ===== *)
-Q . S2P
Prelude.v
Names.v
Types.v
Wire.v
Builder.v
Roundtrip.v
Cache.v
Acl.v
Security.v
Rrl.v
Rebinding.v
Blocklist.v
CnameCheck.v
Trie.v
TrieProofs.v
TrieBuild.v
TrieLookup.v
Blocklists.v
ServerSelection.v
QueryProcessor.v
Upstream.v
RateLimiter.v
EventLoop.v
RootHints.v
Interfaces.v
Resolver.v
ResolverLinks.v
ResolverInv.v
ResolverSteps.v
ResolverProps.v
ResolverLog.v
ResolverRuns.v
Service.v
ServiceProps.v
SocketAddress.v
TcpListener.v
TcpProofs.v
TcpProps.v
TcpLinks.v
UdpListener.v
UdpProps.v
Server.v
ServerProps.v
Counts.v
Config.v
ConfigProps.v
Main.v
MainProps.v
