(* ===== verification/Prelude.v ===== *)
(** * DNSentinel: verification of the resolver core

    DNSentinel is a recursive DNS resolver with policy filtering.  This
    library models the C++ core (src/core) as executable Rocq definitions and
    proves the properties its parts rely on, and what they guarantee together.

    ** The program and the files

    A query arrives as bytes on a socket, is parsed into a message, goes
    through the query pipeline (access control, rate limit, block lists,
    resolution, checks on the answer, response rate limiting) and leaves as
    bytes again.  One event loop on one thread calls every component back.  The
    files follow the source tree, in dependency order.

    - Prelude: machine integers, bytes, the [outcome] type and shared lemmas.
    - Names: struct Name of types.h and wire/name.cpp.  Canonical and original
      labels, presentation format, comparison, hashing, [is_subdomain_of].
    - Types: the message structures of types.h, their comparisons and their
      well-formedness.
    - Wire: wire/parser.cpp, wire/byte_io.h, wire/edns.cpp.  [parse] and
      everything it calls, with every buffer access checked.
    - Builder: wire/builder.cpp.  The writer with name compression, rollback
      and truncation between RRsets, [build], [build_tcp], [make_response].
    - Roundtrip: parsing what the builder writes.
    - Cache: cache/cache.cpp.  Shards with an LRU list, an index and a byte
      budget; lookup, insert, evict, flush, statistics.
    - Acl: policy/acl.cpp.  Subnets, matching, parsing and printing.
    - Security: security/bailiwick.cpp and security/zero_x20.cpp.
    - Rrl: security/rrl.cpp, response rate limiting.
    - Rebinding: policy/rebinding.cpp, private addresses in answers.
    - Blocklist: the lookup result and the class [Blocklist], the interface
      through which the CNAME check and the query pipeline use a list.
    - CnameCheck: policy/cname_check.cpp, against that interface.
    - Trie: policy/blocklist_trie.cpp.  The builder, list-file parsing, the
      breadth-first array layout and the binary-searching lookup.
      TrieProofs (keys, sorting, children of a node), TrieBuild (the loop
      invariant of [build]) and TrieLookup (the reference, the refinement and
      the [Blocklist] instance) are its proofs.
    - Blocklists: policy/blocklists.cpp, loading and reloading the lists.
    - ServerSelection: resolver/server_selection.cpp.
    - QueryProcessor: server/query_processor.cpp, the pipeline of one query,
      against [Blocklist], [InetPton] and the limiter interface [RateLimit].
    - Upstream: resolver/upstream.cpp, one query to one server over UDP or TCP,
      with the event loop's registrations for it.
    - RateLimiter: policy/rate_limiter.cpp, token buckets in IEEE 754 doubles
      (SpecFloat), and the instance of [RateLimit].
    - EventLoop: net/event_loop.cpp.  The tables of descriptors and timers,
      dispatching, due timers and the run loop.
    - RootHints: resolver/root_hints.cpp.
    - Interfaces: the classes [AnswerCache] and [UpstreamService], what the
      resolver uses of the cache and of the upstream client, with the instances
      that Cache and Upstream provide.
    - Resolver: resolver/recursive_resolver.cpp, every function of its Impl,
      against those classes.  ResolverLinks (who waits for whom), ResolverInv
      (the invariant), ResolverSteps (each step keeps it), ResolverProps (the
      properties), ResolverLog (the log only grows) and ResolverRuns (concrete
      runs) are its proofs.
    - Service: the handler of main.cpp, that is, the pipeline over the resolver,
      with what its callbacks capture; ServiceProps are its proofs.
    - SocketAddress: net/socket_address.h.
    - TcpListener: net/tcp_listener.cpp.  Accepting, reassembly, pipelining,
      back-pressure, idle timers, over a handler that keeps a state of its own.
      TcpProofs (the invariant), TcpProps (the properties) and TcpLinks (the
      streams against the handler's record of queries and replies) are its
      proofs.
    - UdpListener: net/udp_listener.cpp; UdpProps are its proofs.
    - Server: the service behind its two listeners, from datagram to packet and
      from stream to stream.  ServerProps are its proofs, against facts about
      the service that any listener keeps ([ServiceFact]); Counts follows the
      limiters' counters as such a fact.
    - Config: server/config.cpp, against the class [Yaml]; ConfigProps are its
      proofs.
    - Main: main.cpp.  The command line, the log, start-up, reloading and
      reporting while the loop runs, shutdown; MainProps are its proofs.

    ** Conventions

    A byte is a [Z] in [0, 256), a string or buffer a [list Z]; 8-, 16-, 32-
    and 64-bit arithmetic wraps through [u8], [u16], [u32] and [u64] where the
    source relies on the width.  A [std::expected] is an [outcome] or a sum;
    an [outcome] also has [Fault], which stands for what the C++ must not do:
    an access out of range, a size that wraps below zero, an iterator to an
    erased element, a loop beyond its bound.  Theorems that a function
    "never faults" therefore cover memory safety and termination.  The
    assertions of the builder are functions of their own ([name_asserts],
    [rdata_asserts], [rr_asserts]), shown to hold in Roundtrip.

    State is passed explicitly, or through a small monad where the source
    threads it through many calls (the resolver's [M], the configuration's
    [conf], start-up's [boot]).  The operations of one object are atomic, as
    they are on the event loop's thread or under the object's lock, and where
    threads really interleave (a reload's worker) the steps are a relation or
    operations of their own.

    Callbacks are data: a timer or descriptor is registered with a value that
    says what it will do, a caller of the resolver is a number, and what a
    responder captures is a record.  Each component has its own view of the one
    event loop, with its own registrations.  What a component does to the
    outside is recorded in order ([r_log], [tl_log], [ul_log], [sv_log],
    [d_log]), and theorems over runs speak about these logs.

    Clocks, random sources, the file system and the results of system calls are
    arguments, mostly streams.  The C library's [inet_pton] and [inet_ntop] and
    the YAML library are the classes [InetPton], [InetNtop] and [Yaml], with
    only the laws they are documented to have.  Error texts are data where the
    source composes them from data.

    ** Fuel

    Loops that are not structural take fuel, and the theorems show that it
    suffices: [read_name] gets 256 turns (the 255-byte limit bounds the labels
    and the jump limit the pointers), TXT and OPT data one turn per byte, a
    CNAME chain one hop per answer record and one more, the trie's [build_loop]
    one turn per key byte and one for the root, [lower_bound] the number of
    children, the cache's eviction loop the number of nodes.  In the resolver
    [kTaskFuel] bounds the nesting of sub-queries by their depth limit,
    [kServerFuel] the retry rounds, [kChainFuel] the 8-bit hop counter, and the
    search for the closest zone takes one turn per label; a limit of 255 hops
    makes that loop endless in the source, which is a theorem here.  A due-timer
    round has one turn per timer; the TCP listener's [process_messages] re-enters
    itself once ([kDepth]) and takes one turn per buffered byte.

    ** What the theorems show

    - Wire format: no input makes [parse] fault; what it accepts is well
      formed; a pointer that does not go backwards is an error; parsing what
      [build] emits gives the message back, whole when it fits and otherwise
      cut between RRsets where the next one would not fit, with TC set unless
      only additional records are missing; sizes stay within the limit, a
      rolled-back record leaves no trace and the writer's assertions hold.
    - Names: parsed names respect RFC 1035; printing and parsing is the
      identity; printed names hold only printable ASCII; [is_subdomain_of] is
      a partial order.
    - Cache: any sequence of operations agrees with an abstract recency list
      per shard, memory stays within its budget, live data is never replaced
      by less trusted data, only live data is served and keys do not
      interfere.
    - Policy: subnets match exactly the addresses that share their prefix; the
      private ranges are exactly the documented ones and [strip] removes
      exactly those; a CNAME chain always ends and the first blocked hop is
      found; the trie's lookup equals a reference over the plain entries, an
      allow beating every block; reloading is atomic in every interleaving.
    - Security: bailiwick filtering keeps exactly the records of the zone;
      0x20 randomisation changes only letter case, one bit per letter;
      response rate limiting sends at most its cap per window and key, with a
      bounded table and unambiguous keys; a client gets exactly its burst at
      one instant, in exact double arithmetic, and a flood of addresses cannot
      grow the table.
    - Server selection: the least-ranked candidate is picked, the pruned table
      is the ideal one, estimates and timeouts stay in range and recover.
    - Upstream queries: only a datagram that matches in id, question and letter
      case is taken, forgeries below the threshold never cut a query short, TCP
      responses are reassembled, and in any sequence of operations each query
      is called back at most once, always has a timer and leaks no descriptor.
    - Event loop: due timers run exactly once, in order, and a stale event never
      reaches a callback it was not collected for.
    - Resolver: in any sequence of calls, timers and upstream events nothing
      faults, every task waits for exactly one thing, every caller is told once
      and by its deadline, the upstream queries of a client query are bounded,
      answers lead from the question asked, and nothing outside the answering
      server's zone is stored.  Of two defects the endless CNAME cycle at a
      limit of 255 is a theorem, and a query of type 0 that makes a name appear
      not to exist is a run in ResolverRuns.
    - Pipeline: only admitted queries reach the resolver, each query gets at
      most one response and it is its own, and what the client sees has been
      through the CNAME and rebinding checks.
    - Listeners: the bytes of every TCP connection are accounted for, connection
      limits hold, and destruction leaves nothing behind; over UDP exactly the
      well-formed queries are handed over and each packet goes back to its
      query's sender, from the address the query arrived on and within the size
      allowed.
    - Configuration: every setting takes effect within its range, unknown ones
      are errors, what an error says is true of the node whose line it names,
      and an accepted configuration is one the other components were proved for.
    - Together: pipeline and resolver account for every query (Service); the
      packets given to the system and the bytes on every connection are the
      replies to distinct queries received there, and obey the policy, also where
      a reply over TCP brings in queries from inside a callback of the resolver (Server);
      start-up ends in one of its documented ways, a daemon that has started
      keeps serving over both transports and reloading whatever happens, its trie
      answers every look-up by the files it was read from, and the limits it
      reports, together with the replies the system refused and the connections
      that had gone, account for every query without a reply (Main).

    ** Not modelled

    Mutexes, shared pointers and the masks of epoll; a callback that destroys
    the resolver; the one table of the event loop that the components share
    (each has its own view, so that the order of events of different components
    is the order of the operations in a run); sigaction and the usage text; the
    destructors that run when start-up fails; counters for the log and memory
    estimates, where a file's comment says so.  Tests, benchmarks, the lab and
    the dashboard are not part of the resolver core. *)

From stdpp Require Import base tactics numbers list list_numbers fin_maps gmap strings.
From Stdlib Require Import ZArith Lia.

(** ** Bytes and machine integers

    A byte, a [char] and a [uint8_t] are a [Z] in [0, 256); a [std::string],
    a [std::vector<uint8_t>] and a [std::span<const uint8_t>] are a
    [list Z] of bytes. *)

Declare Scope dns_scope.
Delimit Scope dns_scope with dns.

Definition is_byte (b : Z) : Prop := (0 ≤ b < 256)%Z.
Definition is_u16 (v : Z) : Prop := (0 ≤ v < 65536)%Z.
Definition is_u32 (v : Z) : Prop := (0 ≤ v < 4294967296)%Z.

Global Instance is_byte_dec b : Decision (is_byte b).
Proof. unfold is_byte. apply _. Defined.
Global Instance is_u16_dec v : Decision (is_u16 v).
Proof. unfold is_u16. apply _. Defined.
Global Instance is_u32_dec v : Decision (is_u32 v).
Proof. unfold is_u32. apply _. Defined.

(** Close a decidable goal on concrete data by evaluating its decision. *)
Ltac by_compute := apply (bool_decide_unpack _); vm_compute; exact I.

(** A string literal of the source as its bytes. *)
Definition str (s : string) : list Z :=
  map (λ c, Z.of_N (Ascii.N_of_ascii c)) (String.list_ascii_of_string s).
Arguments str s%_string.

(** [static_cast<uintN_t>]. *)
Definition u8 (v : Z) : Z := (v mod 256)%Z.
Definition u16 (v : Z) : Z := (v mod 65536)%Z.
Definition u32 (v : Z) : Z := (v mod 4294967296)%Z.
Definition u64 (v : Z) : Z := (v mod 18446744073709551616)%Z.

(** [container.size()] as a [size_t]. *)
Definition zlen {A} (l : list A) : Z := Z.of_nat (length l).

(** ** Outcomes of C++ code

    [Ok] is a returned value, [Err] a [std::unexpected].  [Fault] is what the
    C++ code must never do: read outside a buffer, use an invalid iterator, let a [size_t] subtraction
    wrap below zero, or spin past the number of iterations the model allows a
    loop.  The safety theorems say that no input reaches a [Fault]. *)

Inductive fault := OutOfBounds | SizeWrap | OutOfFuel | Dangling.

Inductive outcome (E A : Type) :=
| Ok (a : A)
| Err (e : E)
| Fault (f : fault).
Arguments Ok {E A} a.
Arguments Err {E A} e.
Arguments Fault {E A} f.

Global Instance outcome_ret {E} : MRet (outcome E) := λ A a, Ok a.
Global Instance outcome_bind {E} : MBind (outcome E) := λ A B k m,
  match m with Ok a => k a | Err e => Err e | Fault f => Fault f end.
Global Instance outcome_fmap {E} : FMap (outcome E) := λ A B k m,
  match m with Ok a => Ok (k a) | Err e => Err e | Fault f => Fault f end.

Lemma bind_Ok {E A B} (k : A → outcome E B) a : (Ok a ≫= k) = k a.
Proof. done. Qed.

Lemma Ok_pair_inj {E A B} (a a' : A) (b b' : B) :
  Ok (E:=E) (a, b) = Ok (a', b') → a = a' ∧ b = b'.
Proof. by intros [= -> ->]. Qed.

(** [safe m Q]: [m] does not fault, and a value it returns satisfies [Q]. *)
Definition safe {E A} (m : outcome E A) (Q : A → Prop) : Prop :=
  match m with Ok a => Q a | Err _ => True | Fault _ => False end.

Section safe.
Context {E A B : Type}.
Implicit Types (m : outcome E A) (k : A → outcome E B).

Lemma safe_bind m k (Q : B → Prop) :
  safe m (λ a, safe (k a) Q) → safe (m ≫= k) Q.
Proof. destruct m; simpl; auto. Qed.

Lemma safe_mono m (P Q : A → Prop) :
  safe m P → (∀ a, P a → Q a) → safe m Q.
Proof. destruct m; simpl; auto. Qed.

Lemma safe_Ok m (Q : A → Prop) a : safe m Q → m = Ok a → Q a.
Proof. by intros ? ->. Qed.

Lemma safe_no_fault m (Q : A → Prop) f : safe m Q → m ≠ Fault f.
Proof. by intros ? ->. Qed.
End safe.

(** ** Checked primitives *)

Section checked.
Context {E : Type}.

(** [buf[off]]: undefined behaviour past the end of a span. *)
Definition byte_at (buf : list Z) (off : nat) : outcome E Z :=
  match buf !! off with Some b => Ok b | None => Fault OutOfBounds end.

(** [a - b] on [size_t]; a wrap is marked instead of computed. *)
Definition size_sub (a b : nat) : outcome E nat :=
  if decide (b ≤ a) then Ok (a - b) else Fault SizeWrap.

(** [buf.subspan(off, n)]. *)
Definition subspan (buf : list Z) (off n : nat) : outcome E (list Z) :=
  if decide (off + n ≤ length buf) then Ok (take n (drop off buf)) else Fault OutOfBounds.

Lemma safe_byte_at buf off (Q : Z → Prop) :
  off < length buf → (∀ b, buf !! off = Some b → Q b) → safe (byte_at buf off) Q.
Proof.
  intros [b Hb]%lookup_lt_is_Some_2 HQ. unfold byte_at. rewrite Hb. by apply HQ.
Qed.

Lemma safe_size_sub a b (Q : nat → Prop) :
  b ≤ a → Q (a - b) → safe (size_sub a b) Q.
Proof. intros. unfold size_sub. by rewrite decide_True. Qed.

Lemma size_sub_Ok a b : b ≤ a → size_sub a b = Ok (a - b).
Proof. intros. unfold size_sub. by rewrite decide_True. Qed.

Lemma safe_subspan buf off n (Q : list Z → Prop) :
  off + n ≤ length buf →
  Q (take n (drop off buf)) → safe (subspan buf off n) Q.
Proof. intros. unfold subspan. by rewrite decide_True. Qed.
End checked.

(** ** Integer facts shared by the components *)

Lemma lor_shiftl_add a b n :
  (0 ≤ n → 0 ≤ b < 2 ^ n → Z.lor (Z.shiftl a n) b = a * 2 ^ n + b)%Z.
Proof.
  intros Hn Hb. assert (Hdisj : Z.land (Z.shiftl a n) b = 0%Z).
  { apply Z.bits_inj'. intros i Hi. rewrite Z.land_spec, Z.bits_0.
    destruct (Z.lt_ge_cases i n).
    - by rewrite Z.shiftl_spec_low.
    - destruct (Z.eq_dec b 0) as [->|]; [by rewrite Z.testbit_0_l, andb_false_r|].
      rewrite (Z.bits_above_log2 b i), andb_false_r; [done|lia|].
      apply Z.log2_lt_pow2; [lia|]. pose proof (Z.pow_le_mono_r 2 n i). lia. }
  rewrite <-Z.lxor_lor by done. rewrite <-Z.add_nocarry_lxor by done.
  by rewrite Z.shiftl_mul_pow2.
Qed.

(** Split a number into its high part and its low [n] bits. *)
Lemma div_mod_pow2 v n : (0 ≤ n → v = Z.shiftr v n * 2 ^ n + v mod 2 ^ n)%Z.
Proof.
  intros Hn. rewrite Z.shiftr_div_pow2 by done.
  pose proof (Z.div_mod v (2 ^ n)). lia.
Qed.

Lemma u8_byte v : is_byte (u8 v).
Proof. unfold is_byte, u8. apply Z.mod_pos_bound. lia. Qed.

Lemma u8_id v : is_byte v → u8 v = v.
Proof. unfold is_byte, u8. apply Z.mod_small. Qed.

Lemma u16_id v : is_u16 v → u16 v = v.
Proof. unfold is_u16, u16. apply Z.mod_small. Qed.

Lemma u16_range v : is_u16 (u16 v).
Proof. unfold is_u16, u16. apply Z.mod_pos_bound. lia. Qed.

Lemma zlen_nonneg {A} (l : list A) : (0 ≤ zlen l)%Z.
Proof. unfold zlen. lia. Qed.

Lemma zlen_cons {A} (x : A) l : zlen (x :: l) = (zlen l + 1)%Z.
Proof. unfold zlen. simpl. lia. Qed.

Lemma zlen_app {A} (a b : list A) : zlen (a ++ b) = (zlen a + zlen b)%Z.
Proof. unfold zlen. rewrite length_app. lia. Qed.

(** ** Filters that keep everything or nothing *)

Section filters.
Context {A : Type} (P : A → Prop) `{!∀ x, Decision (P x)}.

Lemma filter_keep l : Forall P l → filter P l = l.
Proof. induction 1 as [|x l Hx _ IH]; [done|]. by rewrite filter_cons_True, IH. Qed.

Lemma filter_drop l : Forall (λ x, ¬ P x) l → filter P l = [].
Proof. induction 1 as [|x l Hx _ IH]; [done|]. by rewrite filter_cons_False. Qed.
End filters.

Lemma Forall2_filter {A B} (Φ : A → B → Prop) (P : A → Prop) (Q : B → Prop)
    `{!∀ x, Decision (P x), !∀ y, Decision (Q y)} l k :
  Forall2 (λ x y, Φ x y ∧ (P x ↔ Q y)) l k → Forall2 Φ (filter P l) (filter Q k).
Proof.
  induction 1 as [|x y l k [Hxy Hiff] _ IH]; [constructor|]. rewrite !filter_cons.
  destruct (decide (P x)), (decide (Q y)); try tauto. by constructor.
Qed.

Lemma Forall2_and_l {A B} (Φ : A → B → Prop) (P : A → Prop) l k :
  Forall2 Φ l k → Forall P l → Forall2 (λ x y, Φ x y ∧ P x) l k.
Proof. induction 1; intros HP; inv HP; constructor; auto. Qed.

Lemma existsb_orb {A} (f g : A → bool) (w : bool) l :
  existsb f l || (w && existsb g l) = existsb (λ x, f x || (w && g x)) l.
Proof.
  induction l as [|x l IH]; cbn [existsb]; [by destruct w|]. rewrite <-IH.
  destruct (f x), (g x), w, (existsb f l), (existsb g l); done.
Qed.

Create HintDb dns.
#[export] Hint Resolve u8_byte u16_range zlen_nonneg : dns.

(** One step of a [safe] goal: unfold a bind, split a guard, discharge a
    checked primitive with arithmetic. *)
Ltac safe_step :=
  lazymatch goal with
  | |- safe (_ ≫= _) _ => apply safe_bind
  | |- safe (Err _) _ => exact I
  | |- safe (byte_at _ _) _ => apply safe_byte_at; [lia|intros]
  | |- safe (size_sub _ _) _ => apply safe_size_sub; [lia|]
  | |- safe (subspan _ _ _) _ => apply safe_subspan; [lia|]
  | |- safe (if decide _ then _ else _) _ => case_decide
  | |- safe (if ?b then _ else _) _ => let E := fresh "E" in destruct b eqn:E
  end.
Ltac safe_go := repeat (safe_step; cbv beta).
