(* ===== verification/Names.v ===== *)
(** * Domain names: [types.h] (struct Name) and [wire/name.cpp]

    A name is a list of labels, kept twice: canonical (lower case), for
    comparison, and in the case it was received or randomised in.  The root
    has no labels.  The file models every operation of [Name] and shows what
    the rest of the program relies on: names that come out of the parser or
    of [from_string] are well formed, the presentation format is unambiguous
    (printing then parsing gives the same name back), and
    [is_subdomain_of] is the suffix order on whole labels. *)

From stdpp Require Import base tactics numbers list.
From Stdlib Require Import ZArith Lia.
From S2P Require Import Prelude.

Definition kMaxLabelLength : nat := 63.
Definition kMaxNameWireLength : nat := 255.

Record Name := mkName { labels : list (list Z); original_case : list (list Z) }.

(** The root name, also the default-constructed one. *)
Definition root_name : Name := mkName [] [].

Global Instance Name_eq_dec : EqDecision Name.
Proof. solve_decision. Defined.

(** ** Operations *)

Definition ascii_lower (c : Z) : Z :=
  if ((65 <=? c) && (c <=? 90))%Z then (c - 65 + 97)%Z else c.

Definition is_digit (c : Z) : bool := ((48 <=? c) && (c <=? 57))%Z.

(** '.', '\', double quote, '(', ')', ';', '@', '$' *)
Definition needs_backslash (c : Z) : bool :=
  existsb (Z.eqb c) [46; 92; 34; 40; 41; 59; 64; 36]%Z.

Definition lower (s : list Z) : list Z := map ascii_lower s.

Definition append_label (n : Name) (raw : list Z) : Name :=
  mkName (labels n ++ [lower raw]) (original_case n ++ [raw]).

Definition label_count (n : Name) : nat := length (labels n).

Definition wire_length (n : Name) : nat :=
  fold_left (λ len label, len + (1 + length label)) (labels n) 1.

(** [finish_label]: [None] for an empty label or a name over 255 bytes. *)
Definition finish_label (label : list Z) (wire_len : nat) (name : Name) : option (nat * Name) :=
  match label with
  | [] => None
  | _ =>
    let wire_len' := wire_len + (1 + length label) in
    if decide (kMaxNameWireLength < wire_len') then None
    else Some (wire_len', append_label name label)
  end.

(** [label.push_back(c)] guarded by the label length limit. *)
Definition push_char (label : list Z) (c : Z) : option (list Z) :=
  if decide (length label = kMaxLabelLength) then None else Some (label ++ [c]).

(** The [for] loop of [from_string]; the remaining text is the list argument. *)
Fixpoint from_string_loop (text label : list Z) (wire_len : nat) (name : Name) : option Name :=
  match text with
  | [] =>
    match label with
    | [] => Some name
    | _ => snd <$> finish_label label wire_len name
    end
  | c :: rest =>
    if (c =? 46)%Z then
      '(wire_len', name') ← finish_label label wire_len name;
      from_string_loop rest [] wire_len' name'
    else if (c =? 92)%Z then
      match rest with
      | [] => None
      | d1 :: rest1 =>
        if is_digit d1 then
          match rest1 with
          | d2 :: d3 :: rest2 =>
            if is_digit d2 && is_digit d3 then
              let value := ((d1 - 48) * 100 + (d2 - 48) * 10 + (d3 - 48))%Z in
              if (255 <? value)%Z then None
              else label' ← push_char label value;
                   from_string_loop rest2 label' wire_len name
            else None
          | _ => None
          end
        else label' ← push_char label d1; from_string_loop rest1 label' wire_len name
      end
    else label' ← push_char label c; from_string_loop rest label' wire_len name
  end.

Definition from_string (text : list Z) : option Name :=
  if decide (text = [46%Z]) then Some root_name
  else if decide (text = []) then None
  else from_string_loop text [] 1 root_name.

(** One byte of a label in presentation format. *)
Definition escape_char (c : Z) : list Z :=
  if needs_backslash c then [92; c]%Z
  else if ((c <? 33) || (126 <? c))%Z then [92; 48 + c / 100; 48 + c / 10 mod 10; 48 + c mod 10]%Z
  else [c].

Definition to_string (n : Name) : list Z :=
  match labels n with
  | [] => [46%Z]
  | ls => concat (map (λ label, concat (map escape_char label) ++ [46%Z]) ls)
  end.

(** [std::equal(first1, last1, first2)]; the second range is long enough. *)
Fixpoint std_equal (a b : list (list Z)) : bool :=
  match a, b with
  | [], _ => true
  | x :: a', y :: b' => bool_decide (x = y) && std_equal a' b'
  | _ :: _, [] => false
  end.

Definition is_subdomain_of (n zone : Name) : bool :=
  if decide (length (labels n) < length (labels zone)) then false
  else std_equal (reverse (labels zone)) (reverse (labels n)).

Definition parent (n : Name) : Name :=
  match labels n with
  | [] => root_name
  | _ :: ls =>
    mkName ls (if decide (length (original_case n) = length (labels n))
               then drop 1 (original_case n) else ls)
  end.

(** One step of 64-bit FNV-1a. *)
Definition fnv_mix (h b : Z) : Z := u64 (Z.lxor h b * 1099511628211).

Definition hash_label (h : Z) (label : list Z) : Z :=
  fold_left fnv_mix label (fnv_mix h (u8 (zlen label))).

Definition name_hash (n : Name) : Z :=
  fold_left hash_label (labels n) 14695981039346656037%Z.

(** [operator==] compares the canonical labels only. *)
Definition name_eqb (a b : Name) : bool := bool_decide (labels a = labels b).

(** The labels as they are written on the wire. *)
Definition as_written (n : Name) : list (list Z) :=
  if decide (length (original_case n) = length (labels n)) then original_case n else labels n.

(** ** Well-formedness *)

Definition label_wf (l : list Z) : Prop :=
  Forall is_byte l ∧ 1 ≤ length l ≤ kMaxLabelLength.

Record name_wf (n : Name) : Prop := {
  nwf_labels : Forall label_wf (original_case n);
  nwf_lower : labels n = map lower (original_case n);
  nwf_wire : wire_length n ≤ kMaxNameWireLength;
}.

Global Instance label_wf_dec l : Decision (label_wf l).
Proof. unfold label_wf. apply _. Defined.

Global Instance name_wf_dec n : Decision (name_wf n).
Proof.
  destruct (decide (Forall label_wf (original_case n) ∧
    labels n = map lower (original_case n) ∧ wire_length n ≤ kMaxNameWireLength)) as [H|H]; [left|right].
  - abstract (destruct H as (?&?&?); by split).
  - abstract (intros [???]; by apply H).
Defined.

(** The equivalence behind [operator==]: equal up to letter case. *)
Global Instance name_equiv : Equiv Name := λ a b, labels a = labels b.
Global Instance name_equiv_equivalence : Equivalence (≡@{Name}).
Proof. split; unfold equiv, name_equiv; repeat intro; congruence. Qed.

Definition labels_size (ls : list (list Z)) : nat := sum_list_with (λ l, 1 + length l) ls.

(** ** Lengths *)

Lemma fold_wire_length ls acc :
  fold_left (λ len (label : list Z), len + (1 + length label)) ls acc = acc + labels_size ls.
Proof.
  revert acc. induction ls as [|l ls IH]; intros acc; simpl; [lia|].
  rewrite IH. unfold labels_size. simpl. lia.
Qed.

Lemma wire_length_labels n : wire_length n = 1 + labels_size (labels n).
Proof. apply fold_wire_length. Qed.

Lemma labels_size_app a b : labels_size (a ++ b) = labels_size a + labels_size b.
Proof. unfold labels_size. apply sum_list_with_app. Qed.

(** ** Case folding *)

Lemma ascii_lower_idemp c : ascii_lower (ascii_lower c) = ascii_lower c.
Proof. unfold ascii_lower. repeat case_match; lia. Qed.

Lemma lower_idemp s : lower (lower s) = lower s.
Proof.
  unfold lower. rewrite map_map. apply map_ext. apply ascii_lower_idemp.
Qed.

Lemma length_lower s : length (lower s) = length s.
Proof. apply length_map. Qed.

Lemma labels_size_lower ls : labels_size (map lower ls) = labels_size ls.
Proof.
  unfold labels_size. induction ls as [|l ls IH]; [done|].
  cbn [map sum_list_with]. by rewrite length_lower, IH.
Qed.

Lemma lower_is_byte s : Forall is_byte s → Forall is_byte (lower s).
Proof.
  intros H. apply Forall_map. eapply Forall_impl; [exact H|].
  intros c Hc. unfold is_byte, ascii_lower in *. simpl. case_match; lia.
Qed.

Lemma label_wf_lower l : label_wf l → label_wf (lower l).
Proof. intros [Hb Hl]. split; [by apply lower_is_byte|by rewrite length_lower]. Qed.

Section wf_facts.
Context (n : Name) (Hwf : name_wf n).

Lemma name_wf_same_length : length (original_case n) = length (labels n).
Proof using Hwf. by rewrite (nwf_lower n Hwf), length_map. Qed.

Lemma name_wf_canonical : Forall label_wf (labels n).
Proof using Hwf.
  rewrite (nwf_lower n Hwf). apply Forall_map. eapply Forall_impl; [apply Hwf|].
  apply label_wf_lower.
Qed.

Lemma name_wf_lower_labels : map lower (labels n) = labels n.
Proof using Hwf.
  rewrite (nwf_lower n Hwf), map_map. apply map_ext, lower_idemp.
Qed.
End wf_facts.

Lemma root_name_wf : name_wf root_name.
Proof. split; [constructor|done|]. rewrite wire_length_labels. vm_compute. lia. Qed.

(** Appending a label keeps a name well formed while it fits. *)
Lemma append_label_wf n l :
  name_wf n → label_wf l → wire_length n + (1 + length l) ≤ kMaxNameWireLength →
  name_wf (append_label n l).
Proof.
  intros [H1 H2 H3] Hl Hlen. split; simpl.
  - apply Forall_app; auto.
  - rewrite H2, map_app. done.
  - rewrite wire_length_labels in *. simpl. rewrite labels_size_app.
    unfold labels_size at 2. simpl. rewrite length_lower. lia.
Qed.

Lemma wire_length_append n l : wire_length (append_label n l) = wire_length n + (1 + length l).
Proof.
  rewrite !wire_length_labels. simpl. rewrite labels_size_app.
  unfold labels_size at 2. simpl. rewrite length_lower. lia.
Qed.

(** ** Presentation format *)

Lemma push_char_some label c label' :
  push_char label c = Some label' → label' = label ++ [c] ∧ length label ≠ kMaxLabelLength.
Proof. unfold push_char. case_decide; naive_solver. Qed.

Lemma finish_label_some label w n w' n' :
  finish_label label w n = Some (w', n') →
  label ≠ [] ∧ w' = w + (1 + length label) ∧ w' ≤ kMaxNameWireLength ∧ n' = append_label n label.
Proof.
  unfold finish_label. destruct label as [|c l]; [done|].
  case_decide as Hd; intros [= <- <-]. split_and!; try done. simpl in *. lia.
Qed.

(** What the loop keeps: the name so far is well formed, its wire length is
    the counter, and the label so far is short enough. *)
Record loop_inv (label : list Z) (w : nat) (n : Name) : Prop := {
  li_bytes : Forall is_byte label;
  li_short : length label ≤ kMaxLabelLength;
  li_name : name_wf n;
  li_wire : w = wire_length n;
}.

Lemma loop_inv_push label w n c label' :
  loop_inv label w n → is_byte c → push_char label c = Some label' → loop_inv label' w n.
Proof.
  intros [] Hc [-> ?]%push_char_some. split; auto.
  - apply Forall_app; auto.
  - rewrite length_app. simpl. lia.
Qed.

Lemma loop_inv_finish label w n w' n' :
  loop_inv label w n → finish_label label w n = Some (w', n') → loop_inv [] w' n'.
Proof.
  intros [Hb Hs Hn ->] (Hne & -> & Hle & ->)%finish_label_some.
  assert (label_wf label) by (split; [done|]; destruct label; simpl in *; [done|lia]).
  split; [constructor|simpl; lia|by apply append_label_wf|by rewrite wire_length_append].
Qed.

Lemma digit_value_byte d1 d2 d3 :
  is_digit d1 = true → is_digit d2 = true → is_digit d3 = true →
  (255 <? (d1 - 48) * 100 + (d2 - 48) * 10 + (d3 - 48))%Z = false →
  is_byte ((d1 - 48) * 100 + (d2 - 48) * 10 + (d3 - 48)).
Proof. unfold is_digit, is_byte. lia. Qed.

Lemma from_string_loop_wf text : ∀ label w n r,
  Forall is_byte text → loop_inv label w n →
  from_string_loop text label w n = Some r → name_wf r.
Proof.
  induction text as [text IH] using (induction_ltof1 _ (@length Z)). unfold ltof in IH.
  intros label w n r Hb Hinv. destruct text as [|c rest]; cbn [from_string_loop].
  { destruct label; [intros [= <-]; apply Hinv|].
    intros ([w' n'] & Hf & ->)%fmap_Some. apply (loop_inv_finish _ _ _ _ _ Hinv Hf). }
  inv Hb. case_match; [|case_match].
  - intros ([w' n'] & Hf & Hr)%bind_Some.
    eapply IH; [| |exact (loop_inv_finish _ _ _ _ _ Hinv Hf)|exact Hr]; [simpl; lia|done].
  - destruct rest as [|d1 rest1]; [done|]. decompose_Forall_hyps.
    destruct (is_digit d1) eqn:?; [destruct rest1 as [|d2 [|d3 rest2]]; try done|].
    + decompose_Forall_hyps.
      destruct (is_digit d2) eqn:?, (is_digit d3) eqn:?; try done; simpl.
      case_match eqn:Hv; [done|]. intros (label' & Hp & Hr)%bind_Some.
      eapply IH; [..|exact Hr]; [simpl; lia|done|].
      eapply loop_inv_push; [done| |exact Hp]. by apply digit_value_byte.
    + intros (label' & Hp & Hr)%bind_Some.
      eapply IH; [..|exact Hr]; [simpl; lia|done|]. by eapply loop_inv_push.
  - intros (label' & Hp & Hr)%bind_Some.
    eapply IH; [..|exact Hr]; [simpl; lia|done|]. by eapply loop_inv_push.
Qed.

Lemma from_string_valid text n : Forall is_byte text → from_string text = Some n → name_wf n.
Proof.
  unfold from_string. intros Hb. case_decide; [intros [= <-]; apply root_name_wf|].
  case_decide; [done|]. apply from_string_loop_wf; [done|].
  split; [constructor|simpl; lia|apply root_name_wf|by rewrite wire_length_labels].
Qed.

(** Reading back one escaped byte pushes exactly that byte. *)
Lemma from_string_loop_escape c rest label w n :
  is_byte c → length label < kMaxLabelLength →
  from_string_loop (escape_char c ++ rest) label w n = from_string_loop rest (label ++ [c]) w n.
Proof.
  intros Hc Hlen.
  assert (Hpush : push_char label c = Some (label ++ [c])).
  { unfold push_char. rewrite decide_False; [done|lia]. }
  unfold escape_char. destruct (needs_backslash c) eqn:Hnb.
  - cbn. replace (is_digit c) with false; [by rewrite Hpush|].
    unfold needs_backslash, is_digit in *. simpl in Hnb. lia.
  - unfold is_byte in Hc. case_match eqn:Hpr.
    + cbn -[Z.div Z.modulo Z.add Z.mul Z.sub].
      assert (is_digit (48 + c / 100) = true ∧ is_digit (48 + c / 10 mod 10) = true
              ∧ is_digit (48 + c mod 10) = true) as (-> & -> & ->).
      { unfold is_digit. repeat split; Z.div_mod_to_equations; lia. }
      simpl andb. cbv iota.
      replace ((48 + c / 100 - 48) * 100 + (48 + c / 10 mod 10 - 48) * 10 + (48 + c mod 10 - 48))%Z
        with c by (Z.div_mod_to_equations; lia).
      rewrite (proj2 (Z.ltb_ge 255 c)) by lia. by rewrite Hpush.
    + unfold needs_backslash in Hnb. simpl in Hnb. cbn.
      rewrite (proj2 (Z.eqb_neq c 46)), (proj2 (Z.eqb_neq c 92)) by lia. by rewrite Hpush.
Qed.

Lemma from_string_loop_label l : ∀ rest label w n,
  Forall is_byte l → length label + length l ≤ kMaxLabelLength →
  from_string_loop (concat (map escape_char l) ++ rest) label w n
  = from_string_loop rest (label ++ l) w n.
Proof.
  induction l as [|c l IH]; intros rest label w n Hb Hlen; [by rewrite app_nil_r|].
  inv Hb. cbn [map concat] in *. rewrite <-app_assoc.
  simpl in Hlen. rewrite from_string_loop_escape by (done || lia).
  rewrite IH; [by rewrite <-app_assoc|done|]. rewrite length_app. simpl. lia.
Qed.

Lemma from_string_loop_labels ls : ∀ w n,
  Forall label_wf ls → map lower ls = ls → w + labels_size ls ≤ kMaxNameWireLength →
  from_string_loop (concat (map (λ l, concat (map escape_char l) ++ [46%Z]) ls)) [] w n
  = Some (mkName (labels n ++ ls) (original_case n ++ ls)).
Proof.
  induction ls as [|l ls IH]; intros w n Hwf Hlow Hlen.
  { simpl. rewrite !app_nil_r. by destruct n. }
  inv Hwf. match goal with H : label_wf l |- _ => destruct H as [Hb Hl] end.
  cbn [map concat]. rewrite <-!app_assoc, from_string_loop_label by (done || (simpl; lia)).
  injection Hlow as Hl1 Hl2. unfold labels_size in Hlen. cbn [sum_list_with] in Hlen.
  destruct l as [|c l]; [simpl in Hl; lia|].
  cbn -[lower]. unfold finish_label. simpl app. cbv iota.
  rewrite decide_False by (simpl length in *; lia). cbn [mbind option_bind].
  rewrite IH; [|done|done|unfold labels_size; simpl length in *; lia].
  unfold append_label. cbn [labels original_case]. by rewrite Hl1, <-!app_assoc.
Qed.

Lemma escape_char_length c : 1 ≤ length (escape_char c).
Proof. unfold escape_char. repeat case_match; simpl; lia. Qed.

Lemma to_string_long n :
  labels n ≠ [] → Forall label_wf (labels n) → 2 ≤ length (to_string n).
Proof.
  unfold to_string. destruct (labels n) as [|[|c l] ls]; [done|..]; intros _ Hwf; inv Hwf.
  - match goal with H : label_wf [] |- _ => destruct H as [_ ?] end. simpl in *. lia.
  - cbn [map concat]. rewrite !length_app. simpl. pose proof (escape_char_length c). lia.
Qed.

(** ** The suffix order on labels *)

Lemma std_equal_prefix a b : std_equal a b = true ↔ a `prefix_of` b.
Proof.
  revert b. induction a as [|x a IH]; intros [|y b]; simpl.
  - split; [|done]. intros _. apply prefix_nil.
  - split; [|done]. intros _. apply prefix_nil.
  - split; [done|]. intros H. by apply prefix_nil_not in H.
  - rewrite andb_true_iff, bool_decide_eq_true, IH. split.
    + intros [-> ?]. by apply prefix_cons.
    + intros H. split; [by eapply prefix_cons_inv_1|by eapply prefix_cons_inv_2].
Qed.

Lemma is_subdomain_of_suffix n zone :
  is_subdomain_of n zone = true ↔ labels zone `suffix_of` labels n.
Proof.
  unfold is_subdomain_of. case_decide as Hlen.
  - split; [done|]. intros Hs%suffix_length. lia.
  - rewrite std_equal_prefix, <-suffix_prefix_reverse. done.
Qed.

Lemma is_subdomain_of_trans a b c :
  is_subdomain_of a b = true → is_subdomain_of b c = true → is_subdomain_of a c = true.
Proof. rewrite !is_subdomain_of_suffix. intros. by etrans. Qed.

Lemma is_subdomain_of_refl a : is_subdomain_of a a = true.
Proof. by rewrite is_subdomain_of_suffix. Qed.

Lemma is_subdomain_of_root a : is_subdomain_of a root_name = true.
Proof. rewrite is_subdomain_of_suffix. simpl. apply suffix_nil. Qed.

Lemma is_subdomain_of_antisymm a b :
  is_subdomain_of a b = true → is_subdomain_of b a = true → a ≡ b.
Proof.
  rewrite !is_subdomain_of_suffix. intros H1 H2. unfold equiv, name_equiv.
  apply (anti_symm suffix); done.
Qed.

(** Names that compare equal have the same subdomains and superdomains. *)
Global Instance is_subdomain_of_proper : Proper ((≡) ==> (≡) ==> (=)) is_subdomain_of.
Proof.
  intros a a' Ha b b' Hb. unfold is_subdomain_of. unfold equiv, name_equiv in *.
  by rewrite Ha, Hb.
Qed.

Global Instance name_hash_proper : Proper ((≡) ==> (=)) name_hash.
Proof. intros a b H. unfold name_hash. unfold equiv, name_equiv in H. by rewrite H. Qed.

Lemma name_eqb_equiv a b : name_eqb a b = true ↔ a ≡ b.
Proof. unfold name_eqb. by rewrite bool_decide_eq_true. Qed.

(** The parent drops one label, keeps a name well formed, and is a proper
    ancestor unless the name is the root. *)
Lemma parent_labels n : labels (parent n) = tail (labels n).
Proof. unfold parent. by destruct (labels n). Qed.

Lemma parent_wf n : name_wf n → name_wf (parent n).
Proof.
  intros Hwf. pose proof (name_wf_same_length n Hwf) as Hlen. destruct Hwf as [H1 H2 H3].
  unfold parent. destruct (labels n) as [|l ls] eqn:Hl; [apply root_name_wf|].
  rewrite decide_True by done.
  destruct (original_case n) as [|o os]; [done|]. simpl in H2. injection H2 as _ ->.
  inv H1. split; simpl; [done|done|].
  rewrite wire_length_labels in *. rewrite Hl in H3.
  cbn [labels]. unfold labels_size in *. cbn [sum_list_with] in H3. lia.
Qed.

Lemma parent_ancestor n : is_subdomain_of n (parent n) = true.
Proof.
  rewrite is_subdomain_of_suffix, parent_labels. destruct (labels n) as [|l ls]; [done|].
  by exists [l].
Qed.

(** ** Properties *)

(** Every name [from_string] accepts satisfies the RFC 1035 limits (labels
    of 1 to 63 bytes, at most 255 bytes on the wire) and the class invariant
    (the canonical labels are the lower-cased originals). *)
Lemma from_string_wf text n :
  Forall is_byte text → from_string text = Some n → name_wf n.
Proof. apply from_string_valid. Qed.

Definition ex_text : list Z := [87; 119; 46; 92; 48; 52; 54; 97]%Z. (* Ww.\046a *)

Lemma from_string_wf_witness : ∃ n, from_string ex_text = Some n ∧ name_wf n.
Proof.
  eexists. split; [vm_compute; reflexivity|].
  apply (from_string_wf ex_text); [by_compute|vm_compute; reflexivity].
Defined.

(** C27: presentation format round trip.  Printing a well-formed name and
    parsing the text gives a name with the same canonical labels (printing is
    of the canonical form, so the parsed original case is canonical too). *)
Theorem from_string_to_string n :
  name_wf n → from_string (to_string n) = Some (mkName (labels n) (labels n)).
Proof.
  intros Hwf. destruct (decide (labels n = [])) as [He|Hne].
  { unfold to_string. by rewrite He. }
  pose proof (to_string_long n Hne (name_wf_canonical n Hwf)) as Hlen.
  unfold from_string. rewrite decide_False by (intros E; rewrite E in Hlen; simpl in Hlen; lia).
  rewrite decide_False by (intros E; rewrite E in Hlen; simpl in Hlen; lia).
  unfold to_string. destruct (labels n) as [|l ls] eqn:Hl; [done|]. rewrite <-Hl.
  rewrite from_string_loop_labels; [done|by apply name_wf_canonical|by apply name_wf_lower_labels|].
  rewrite <-wire_length_labels. apply Hwf.
Qed.

Definition ex_name : Name := append_label (append_label root_name [87; 46]%Z) [99; 200; 109]%Z.

Lemma from_string_to_string_witness :
  name_wf ex_name ∧ from_string (to_string ex_name) = Some (mkName (labels ex_name) (labels ex_name)).
Proof. split; [by_compute|]. apply (from_string_to_string ex_name). by_compute. Defined.

(** The printed form of a name only has printable ASCII bytes, so it is
    safe to log whatever bytes a hostile server put in the labels. *)
Lemma to_string_printable n :
  Forall (Forall is_byte) (labels n) → Forall (λ c, (33 ≤ c ≤ 126)%Z) (to_string n).
Proof.
  assert (He : ∀ c, is_byte c → Forall (λ c, (33 ≤ c ≤ 126)%Z) (escape_char c)).
  { intros c Hc. unfold is_byte in Hc. unfold escape_char, needs_backslash. simpl.
    repeat case_match; repeat constructor; Z.div_mod_to_equations; lia. }
  intros Hb. unfold to_string. destruct (labels n) as [|l ls]; [repeat constructor; lia|].
  revert Hb. generalize (l :: ls). intros ks Hb. apply Forall_concat, Forall_map.
  eapply Forall_impl; [exact Hb|]. intros k Hk. apply Forall_app. split; [|repeat constructor; lia].
  apply Forall_concat, Forall_map. eapply Forall_impl; [exact Hk|]. exact He.
Qed.

Lemma to_string_printable_witness :
  Forall (λ c, (33 ≤ c ≤ 126)%Z) (to_string ex_name).
Proof.
  apply (to_string_printable ex_name). by_compute.
Defined.

(** [is_subdomain_of] is the suffix order on whole canonical labels: it
    holds exactly when the zone's labels end the name's, the root contains
    every name, it is reflexive and transitive, and two names inside each
    other are equal up to case. *)
Lemma is_subdomain_of_order :
  (∀ n zone, is_subdomain_of n zone = true ↔ ∃ pre, labels n = pre ++ labels zone) ∧
  (∀ n, is_subdomain_of n root_name = true) ∧
  (∀ n, is_subdomain_of n n = true) ∧
  (∀ a b c, is_subdomain_of a b = true → is_subdomain_of b c = true → is_subdomain_of a c = true) ∧
  (∀ a b, is_subdomain_of a b = true → is_subdomain_of b a = true → name_eqb a b = true).
Proof.
  split_and!; [apply is_subdomain_of_suffix|apply is_subdomain_of_root|apply is_subdomain_of_refl
    |apply is_subdomain_of_trans|].
  intros a b H1 H2. by apply name_eqb_equiv, is_subdomain_of_antisymm.
Qed.
