(* ===== verification/Types.v ===== *)
(** * DNS data types: [include/dnsentinel/types.h]

    The structures every component works on, with the comparison operators
    of the C++ types.  Enumerations with a fixed underlying type whose
    values arrive by [static_cast] from the wire ([RRType], [RCode]) are
    integers with named constants, since any value of the underlying type
    can occur; [TrustRank] and [ParseError] are only ever built from their
    enumerators. *)

From stdpp Require Import base tactics numbers list.
From Stdlib Require Import ZArith Lia.
From S2P Require Import Prelude Names.

(** ** Header and enumerations *)

Record Header := mkHeader {
  h_id : Z; h_qr : bool; h_opcode : Z; h_aa : bool; h_tc : bool; h_rd : bool;
  h_ra : bool; h_ad : bool; h_cd : bool; h_rcode : Z;
  h_qdcount : Z; h_ancount : Z; h_nscount : Z; h_arcount : Z;
}.

Definition default_header : Header :=
  mkHeader 0 false 0 false false false false false false 0 0 0 0 0.

Module RCode.
Definition NoError : Z := 0.
Definition FormErr : Z := 1.
Definition ServFail : Z := 2.
Definition NXDomain : Z := 3.
Definition NotImp : Z := 4.
Definition Refused : Z := 5.
End RCode.

Module RRType.
Definition A : Z := 1.
Definition NS : Z := 2.
Definition CNAME : Z := 5.
Definition SOA : Z := 6.
Definition PTR : Z := 12.
Definition MX : Z := 15.
Definition TXT : Z := 16.
Definition AAAA : Z := 28.
Definition OPT : Z := 41.
Definition DS : Z := 43.
Definition RRSIG : Z := 46.
Definition NSEC : Z := 47.
Definition DNSKEY : Z := 48.
End RRType.

Module TrustRank.
Inductive t := Additional | Glue | Authority | Answer.
(** The enumerators' values, which is what [>] compares. *)
Definition rank (r : t) : Z :=
  match r with Additional => 1 | Glue => 2 | Authority => 3 | Answer => 4 end.
Global Instance eq_dec : EqDecision t.
Proof. solve_decision. Defined.
End TrustRank.

(** ** Records *)

(** An address is its bytes in memory order (4 for [A], 16 for [AAAA]). *)
Inductive RData :=
| RDataA (addr : list Z)
| RDataAAAA (addr : list Z)
| RDataNS (nsdname : Name)
| RDataCNAME (target : Name)
| RDataSOA (mname rname : Name) (serial refresh retry expire minimum : Z)
| RDataMX (preference : Z) (exchange : Name)
| RDataTXT (strings : list (list Z))
| RDataPTR (ptrdname : Name)
| RDataRaw (data : list Z).

Record RR := mkRR {
  rr_name : Name; rr_type : Z; rr_cls : Z; rr_ttl : Z; rr_rdata : RData; rr_trust : TrustRank.t;
}.

Record Question := mkQuestion { q_qname : Name; q_qtype : Z; q_qclass : Z }.

Record EdnsInfo := mkEdns {
  e_udp_payload_size : Z; e_extended_rcode : Z; e_version : Z; e_dnssec_ok : bool;
}.

Record Message := mkMessage {
  m_header : Header;
  m_questions : list Question;
  m_answers : list RR;
  m_authority : list RR;
  m_additional : list RR;
  m_edns : option EdnsInfo;
}.

Definition default_message : Message := mkMessage default_header [] [] [] [] None.

Global Instance Header_eq_dec : EqDecision Header.
Proof. solve_decision. Defined.
Global Instance RData_eq_dec : EqDecision RData.
Proof. solve_decision. Defined.
Global Instance RR_eq_dec : EqDecision RR.
Proof. solve_decision. Defined.
Global Instance Question_eq_dec : EqDecision Question.
Proof. solve_decision. Defined.
Global Instance EdnsInfo_eq_dec : EqDecision EdnsInfo.
Proof. solve_decision. Defined.
Global Instance Message_eq_dec : EqDecision Message.
Proof. solve_decision. Defined.

(** ** [operator==]

    Names inside compare up to case, and [RR]'s trust rank is local metadata
    that is not compared; everything else is member-wise. *)

Definition rdata_eqb (a b : RData) : bool :=
  match a, b with
  | RDataA x, RDataA y => bool_decide (x = y)
  | RDataAAAA x, RDataAAAA y => bool_decide (x = y)
  | RDataNS x, RDataNS y => name_eqb x y
  | RDataCNAME x, RDataCNAME y => name_eqb x y
  | RDataSOA m1 r1 s1 f1 t1 e1 n1, RDataSOA m2 r2 s2 f2 t2 e2 n2 =>
    name_eqb m1 m2 && name_eqb r1 r2 && bool_decide (s1 = s2 ∧ f1 = f2 ∧ t1 = t2 ∧ e1 = e2 ∧ n1 = n2)
  | RDataMX p x, RDataMX q y => bool_decide (p = q) && name_eqb x y
  | RDataTXT x, RDataTXT y => bool_decide (x = y)
  | RDataPTR x, RDataPTR y => name_eqb x y
  | RDataRaw x, RDataRaw y => bool_decide (x = y)
  | _, _ => false
  end.

Definition rr_eqb (a b : RR) : bool :=
  name_eqb (rr_name a) (rr_name b) && bool_decide (rr_type a = rr_type b) &&
  bool_decide (rr_cls a = rr_cls b) && bool_decide (rr_ttl a = rr_ttl b) &&
  rdata_eqb (rr_rdata a) (rr_rdata b).

Definition question_eqb (a b : Question) : bool :=
  name_eqb (q_qname a) (q_qname b) && bool_decide (q_qtype a = q_qtype b) &&
  bool_decide (q_qclass a = q_qclass b).

(** [std::vector::operator==]. *)
Fixpoint vector_eqb {A} (eqb : A → A → bool) (a b : list A) : bool :=
  match a, b with
  | [], [] => true
  | x :: a', y :: b' => eqb x y && vector_eqb eqb a' b'
  | _, _ => false
  end.

Definition message_eqb (a b : Message) : bool :=
  bool_decide (m_header a = m_header b) &&
  vector_eqb question_eqb (m_questions a) (m_questions b) &&
  vector_eqb rr_eqb (m_answers a) (m_answers b) &&
  vector_eqb rr_eqb (m_authority a) (m_authority b) &&
  vector_eqb rr_eqb (m_additional a) (m_additional b) &&
  bool_decide (m_edns a = m_edns b).

(** ** Range invariants of the fixed-width members *)

Record header_wf (h : Header) : Prop := {
  hwf_id : is_u16 (h_id h);
  hwf_opcode : (0 ≤ h_opcode h < 16)%Z;
  hwf_rcode : (0 ≤ h_rcode h < 16)%Z;
  hwf_qdcount : is_u16 (h_qdcount h);
  hwf_ancount : is_u16 (h_ancount h);
  hwf_nscount : is_u16 (h_nscount h);
  hwf_arcount : is_u16 (h_arcount h);
}.

Definition question_wf (q : Question) : Prop :=
  name_wf (q_qname q) ∧ is_u16 (q_qtype q) ∧ is_u16 (q_qclass q).

Definition edns_wf (e : EdnsInfo) : Prop :=
  is_u16 (e_udp_payload_size e) ∧ is_byte (e_extended_rcode e) ∧ is_byte (e_version e).

Definition bytes_wf (s : list Z) : Prop := Forall is_byte s.

(** A record whose data has the layout its type and class call for; the
    class of every [A] and [AAAA] with a parsed address is IN (1). *)
Definition rdata_wf (type cls : Z) (d : RData) : Prop :=
  match d with
  | RDataA a => type = RRType.A ∧ cls = 1%Z ∧ length a = 4 ∧ bytes_wf a
  | RDataAAAA a => type = RRType.AAAA ∧ cls = 1%Z ∧ length a = 16 ∧ bytes_wf a
  | RDataNS n => type = RRType.NS ∧ name_wf n
  | RDataCNAME n => type = RRType.CNAME ∧ name_wf n
  | RDataPTR n => type = RRType.PTR ∧ name_wf n
  | RDataMX p n => type = RRType.MX ∧ is_u16 p ∧ name_wf n
  | RDataSOA m r s f t e n =>
    type = RRType.SOA ∧ name_wf m ∧ name_wf r ∧
    is_u32 s ∧ is_u32 f ∧ is_u32 t ∧ is_u32 e ∧ is_u32 n
  | RDataTXT ss => type = RRType.TXT ∧ Forall (λ s, bytes_wf s ∧ (zlen s ≤ 255)%Z) ss
  | RDataRaw s =>
    bytes_wf s ∧
    (type = RRType.A ∨ type = RRType.AAAA → cls ≠ 1%Z) ∧
    type ∉ [RRType.NS; RRType.CNAME; RRType.PTR; RRType.MX; RRType.SOA; RRType.TXT; RRType.OPT]
  end.

Record rr_wf (r : RR) : Prop := {
  rwf_name : name_wf (rr_name r);
  rwf_type : is_u16 (rr_type r);
  rwf_cls : is_u16 (rr_cls r);
  rwf_ttl : (0 ≤ rr_ttl r < 2147483648)%Z;
  rwf_rdata : rdata_wf (rr_type r) (rr_cls r) (rr_rdata r);
}.

Global Instance question_wf_dec q : Decision (question_wf q).
Proof. unfold question_wf. apply _. Defined.
Global Instance edns_wf_dec e : Decision (edns_wf e).
Proof. unfold edns_wf. apply _. Defined.
Global Instance bytes_wf_dec s : Decision (bytes_wf s).
Proof. unfold bytes_wf. apply _. Defined.
Global Instance rdata_wf_dec t c d : Decision (rdata_wf t c d).
Proof. destruct d; unfold rdata_wf; apply _. Defined.
Global Instance rr_wf_dec r : Decision (rr_wf r).
Proof.
  destruct (decide (name_wf (rr_name r) ∧ is_u16 (rr_type r) ∧ is_u16 (rr_cls r) ∧
    (0 ≤ rr_ttl r < 2147483648)%Z ∧ rdata_wf (rr_type r) (rr_cls r) (rr_rdata r))) as [H|H]; [left|right].
  - abstract (destruct H as (?&?&?&?&?); by split).
  - abstract (intros [?????]; by apply H).
Defined.
Global Instance header_wf_dec h : Decision (header_wf h).
Proof.
  destruct (decide (is_u16 (h_id h) ∧ (0 ≤ h_opcode h < 16)%Z ∧ (0 ≤ h_rcode h < 16)%Z ∧
    is_u16 (h_qdcount h) ∧ is_u16 (h_ancount h) ∧ is_u16 (h_nscount h) ∧ is_u16 (h_arcount h)))
    as [H|H]; [left|right].
  - abstract (destruct H as (?&?&?&?&?&?&?); by split).
  - abstract (intros [???????]; by apply H).
Defined.

(** ** Facts about the comparison operators *)

Lemma name_eqb_refl n : name_eqb n n = true.
Proof. by apply name_eqb_equiv. Qed.

Lemma rdata_eqb_refl d : rdata_eqb d d = true.
Proof. destruct d; simpl; rewrite ?name_eqb_refl, ?bool_decide_true; done. Qed.

Lemma rr_eqb_refl r : rr_eqb r r = true.
Proof. unfold rr_eqb. by rewrite name_eqb_refl, rdata_eqb_refl, !bool_decide_true. Qed.

Lemma vector_eqb_Forall2 {A} (eqb : A → A → bool) a b :
  vector_eqb eqb a b = true ↔ Forall2 (λ x y, eqb x y = true) a b.
Proof.
  revert b. induction a as [|x a IH]; intros [|y b]; simpl.
  - split; [constructor|done].
  - split; [done|]. by inversion 1.
  - split; [done|]. by inversion 1.
  - rewrite andb_true_iff, IH. split; [by intros [??]; constructor|by inversion 1].
Qed.
