(* ===== verification/Wire.v ===== *)
(** * Wire format, reading: [wire/byte_io.h], [wire/edns.cpp], [wire/parser.cpp]

    The parser takes untrusted bytes.  Every buffer access is a checked
    read of [Prelude] and every [size_t] subtraction a checked subtraction,
    so the theorem that [parse] never faults says that no packet makes the
    C++ parser read out of bounds, wrap a size, or loop: [read_name] is
    given [read_name_fuel] iterations, which its own limits (255 bytes of
    name, 128 jumps) make sufficient for every input. *)

From stdpp Require Import base tactics numbers list strings.
From Stdlib Require Import ZArith Lia.
From S2P Require Import Prelude Names Types.

(** ** [wire/byte_io.h] *)

Section byte_io.
Context {E : Type}.

Definition load_u16 (buf : list Z) (off : nat) : outcome E Z :=
  b0 ← byte_at buf off;
  b1 ← byte_at buf (off + 1);
  Ok (u16 (Z.lor (Z.shiftl b0 8) b1)).

Definition load_u32 (buf : list Z) (off : nat) : outcome E Z :=
  b0 ← byte_at buf off;
  b1 ← byte_at buf (off + 1);
  b2 ← byte_at buf (off + 2);
  b3 ← byte_at buf (off + 3);
  Ok (Z.lor (Z.lor (Z.lor (Z.shiftl b0 24) (Z.shiftl b1 16)) (Z.shiftl b2 8)) b3).
End byte_io.

(** The bytes [put_u16] and [put_u32] push. *)
Definition put_u16 (v : Z) : list Z := [u8 (Z.shiftr v 8); u8 v].
Definition put_u32 (v : Z) : list Z := put_u16 (u16 (Z.shiftr v 16)) ++ put_u16 (u16 v).

Definition store_u16 (out : list Z) (off : nat) (v : Z) : list Z :=
  <[off + 1 := u8 v]> (<[off := u8 (Z.shiftr v 8)]> out).

(** ** Errors *)

Inductive ParseError :=
| BufferTooShort | InvalidHeader | LabelTooLong | NameTooLong | CompressionLoop
| InvalidLabelType | SectionOverflow | RDataLengthMismatch | MalformedRData | InvalidOpt.

Global Instance ParseError_eq_dec : EqDecision ParseError.
Proof. solve_decision. Defined.

Definition parse_error_to_string (e : ParseError) : list Z :=
  match e with
  | BufferTooShort => str "buffer too short"
  | InvalidHeader => str "invalid header"
  | LabelTooLong => str "label too long"
  | NameTooLong => str "name too long"
  | CompressionLoop => str "compression loop"
  | InvalidLabelType => str "invalid label type"
  | SectionOverflow => str "section counts exceed message size"
  | RDataLengthMismatch => str "rdata length mismatch"
  | MalformedRData => str "malformed rdata"
  | InvalidOpt => str "invalid OPT record"
  end.

Abbreviation res := (outcome ParseError).

Definition kHeaderSize : nat := 12.
Definition kMinQuestionSize : Z := 5.
Definition kMinRRSize : Z := 11.
Definition kRRFixedSize : nat := 10.
Definition kMaxPointerJumps : nat := 128.
Definition kClassIN : Z := 1.

(** ** EDNS *)

Definition kEdnsUdpPayloadSize : Z := 1232.
Definition kClassicUdpSize : Z := 512.
Definition kOptRecordSize : Z := 11.

(** The option walk of [parse_opt]; each turn consumes at least four bytes. *)
Fixpoint check_options (fuel : nat) (rdata : list Z) (pos : nat) : res unit :=
  match fuel with
  | O => Fault OutOfFuel
  | S fuel =>
    if decide (pos < length rdata) then
      rem ← size_sub (length rdata) pos;
      if decide (rem < 4) then Err MalformedRData else
      opt_len ← load_u16 rdata (pos + 2);
      rem ← size_sub (length rdata) (pos + 4);
      if decide (rem < Z.to_nat opt_len) then Err MalformedRData else
      check_options fuel rdata (pos + 4 + Z.to_nat opt_len)
    else Ok ()
  end.

Definition parse_opt (cls ttl : Z) (rdata : list Z) : res EdnsInfo :=
  _ ← check_options (S (length rdata)) rdata 0;
  Ok (mkEdns cls (u8 (Z.shiftr ttl 24)) (u8 (Z.shiftr ttl 16))
             (negb (Z.land ttl 0x8000 =? 0)%Z)).

(** The bytes [write_opt] appends. *)
Definition write_opt (edns : EdnsInfo) : list Z :=
  let ttl := Z.lor (Z.lor (Z.shiftl (e_extended_rcode edns) 24) (Z.shiftl (e_version edns) 16))
                   (if e_dnssec_ok edns then 0x8000 else 0)%Z in
  [0%Z] ++ put_u16 RRType.OPT ++ put_u16 (e_udp_payload_size edns) ++ put_u32 ttl ++ put_u16 0.

(** [std::clamp(v, lo, hi)]. *)
Definition clamp (v lo hi : Z) : Z := if (v <? lo)%Z then lo else if (hi <? v)%Z then hi else v.

Definition max_udp_response_size (client_edns : option EdnsInfo) (our_limit : Z) : Z :=
  match client_edns with
  | None => kClassicUdpSize
  | Some e => clamp (e_udp_payload_size e) kClassicUdpSize (Z.max our_limit kClassicUdpSize)
  end.

(** ** Names *)

(** The [while (true)] of [read_name].  [pos] is the caller's cursor,
    [seg] is [segment_start]. *)
Fixpoint read_name_loop (fuel : nat) (msg : list Z) (pos cur seg wire_len jumps : nat)
    (jumped : bool) (name : Name) : res (Name * nat) :=
  match fuel with
  | O => Fault OutOfFuel
  | S fuel =>
    if decide (length msg ≤ cur) then Err BufferTooShort else
    len ← byte_at msg cur;
    if (Z.land len 0xC0 =? 0x00)%Z then
      if (len =? 0)%Z then Ok (name, if jumped then pos else cur + 1)
      else
        rem ← size_sub (length msg) cur;
        rem ← size_sub rem 1;
        if decide (rem < Z.to_nat len) then Err BufferTooShort else
        let wire_len := wire_len + (1 + Z.to_nat len) in
        if decide (kMaxNameWireLength < wire_len) then Err NameTooLong else
        label ← subspan msg (cur + 1) (Z.to_nat len);
        read_name_loop fuel msg pos (cur + (1 + Z.to_nat len)) seg wire_len jumps jumped
          (append_label name label)
    else if (Z.land len 0xC0 =? 0xC0)%Z then
      rem ← size_sub (length msg) cur;
      if decide (rem < 2) then Err BufferTooShort else
      v ← load_u16 msg cur;
      let target := Z.to_nat (Z.land v 0x3FFF) in
      if decide (seg ≤ target ∨ kMaxPointerJumps < jumps + 1) then Err CompressionLoop else
      read_name_loop fuel msg (if jumped then pos else cur + 2) target target wire_len (jumps + 1)
        true name
    else Err InvalidLabelType
  end.

(** At most 127 labels (each takes two of 255 bytes), 128 jumps and the end. *)
Definition read_name_fuel : nat := 256.

Definition read_name (msg : list Z) (pos : nat) : res (Name * nat) :=
  read_name_loop read_name_fuel msg pos pos pos 1 0 false root_name.

(** ** Questions and records *)

Definition read_question (msg : list Z) (pos : nat) : res (Question * nat) :=
  '(qname, pos) ← read_name msg pos;
  rem ← size_sub (length msg) pos;
  if decide (rem < 4) then Err BufferTooShort else
  qtype ← load_u16 msg pos;
  qclass ← load_u16 msg (pos + 2);
  Ok (mkQuestion qname qtype qclass, pos + 4).

(** [name_rdata]: a name that must end exactly at the RDATA end. *)
Definition name_rdata (mk : Name → RData) (msg : list Z) (pos fin : nat) : res RData :=
  '(n, pos) ← read_name msg pos;
  if decide (pos ≠ fin) then Err RDataLengthMismatch else Ok (mk n).

(** The TXT loop: length-prefixed strings, each turn at least one byte. *)
Fixpoint read_strings (fuel : nat) (rdata : list Z) (p : nat) (acc : list (list Z)) : res RData :=
  match fuel with
  | O => Fault OutOfFuel
  | S fuel =>
    if decide (p < length rdata) then
      n ← byte_at rdata p;
      rem ← size_sub (length rdata) (p + 1);
      if decide (rem < Z.to_nat n) then Err MalformedRData else
      s ← subspan rdata (p + 1) (Z.to_nat n);
      read_strings fuel rdata (p + 1 + Z.to_nat n) (acc ++ [s])
    else Ok (RDataTXT acc)
  end.

Definition read_rdata (msg : list Z) (pos rdlen : nat) (type cls : Z) : res RData :=
  let fin := pos + rdlen in
  rdata ← subspan msg pos rdlen;
  if ((type =? RRType.A) && (cls =? kClassIN))%Z then
    if decide (rdlen ≠ 4) then Err RDataLengthMismatch else Ok (RDataA rdata)
  else if ((type =? RRType.AAAA) && (cls =? kClassIN))%Z then
    if decide (rdlen ≠ 16) then Err RDataLengthMismatch else Ok (RDataAAAA rdata)
  else if (type =? RRType.NS)%Z then name_rdata RDataNS msg pos fin
  else if (type =? RRType.CNAME)%Z then name_rdata RDataCNAME msg pos fin
  else if (type =? RRType.PTR)%Z then name_rdata RDataPTR msg pos fin
  else if (type =? RRType.MX)%Z then
    if decide (rdlen < 2) then Err RDataLengthMismatch else
    preference ← load_u16 msg pos;
    '(exchange, pos) ← read_name msg (pos + 2);
    if decide (pos ≠ fin) then Err RDataLengthMismatch else Ok (RDataMX preference exchange)
  else if (type =? RRType.SOA)%Z then
    '(mname, pos) ← read_name msg pos;
    '(rname, pos) ← read_name msg pos;
    if decide (fin < pos) then Err RDataLengthMismatch else
    rem ← size_sub fin pos;
    if decide (rem ≠ 20) then Err RDataLengthMismatch else
    serial ← load_u32 msg pos;
    refresh ← load_u32 msg (pos + 4);
    retry ← load_u32 msg (pos + 8);
    expire ← load_u32 msg (pos + 12);
    minimum ← load_u32 msg (pos + 16);
    Ok (RDataSOA mname rname serial refresh retry expire minimum)
  else if (type =? RRType.TXT)%Z then read_strings (S (length rdata)) rdata 0 []
  else Ok (RDataRaw rdata).

(** RFC 2181 §8: a TTL with the top bit set is zero. *)
Definition sanitize_ttl (ttl : Z) : Z := if (Z.land ttl 0x80000000 =? 0)%Z then ttl else 0%Z.

(** One turn of the loop of [read_section]. *)
Definition read_record (msg : list Z) (is_additional : bool) (pos : nat) (out : list RR)
    (edns : option EdnsInfo) : res (nat * list RR * option EdnsInfo) :=
  '(owner, pos) ← read_name msg pos;
  rem ← size_sub (length msg) pos;
  if decide (rem < kRRFixedSize) then Err BufferTooShort else
  type ← load_u16 msg pos;
  cls ← load_u16 msg (pos + 2);
  ttl ← load_u32 msg (pos + 4);
  rdlen ← load_u16 msg (pos + 8);
  let pos := pos + kRRFixedSize in
  rem ← size_sub (length msg) pos;
  if decide (rem < Z.to_nat rdlen) then Err BufferTooShort else
  if (type =? RRType.OPT)%Z then
    if negb is_additional || bool_decide (is_Some edns) || negb (label_count owner =? 0)%nat
    then Err InvalidOpt
    else
      rdata ← subspan msg pos (Z.to_nat rdlen);
      info ← parse_opt cls ttl rdata;
      Ok (pos + Z.to_nat rdlen, out, Some info)
  else
    rdata ← read_rdata msg pos (Z.to_nat rdlen) type cls;
    Ok (pos + Z.to_nat rdlen,
        out ++ [mkRR owner type cls (sanitize_ttl ttl) rdata TrustRank.Additional], edns).

Fixpoint read_section (msg : list Z) (count : nat) (is_additional : bool) (pos : nat)
    (out : list RR) (edns : option EdnsInfo) : res (nat * list RR * option EdnsInfo) :=
  match count with
  | O => Ok (pos, out, edns)
  | S count =>
    '(pos, out, edns) ← read_record msg is_additional pos out edns;
    read_section msg count is_additional pos out edns
  end.

Fixpoint read_questions (msg : list Z) (count pos : nat) (out : list Question) :
    res (nat * list Question) :=
  match count with
  | O => Ok (pos, out)
  | S count =>
    '(q, pos) ← read_question msg pos;
    read_questions msg count pos (out ++ [q])
  end.

Definition bit_set (b mask : Z) : bool := negb (Z.land b mask =? 0)%Z.

Definition parse_header (data : list Z) : res Header :=
  if decide (length data < kHeaderSize) then Err BufferTooShort else
  b2 ← byte_at data 2;
  b3 ← byte_at data 3;
  id ← load_u16 data 0;
  qdcount ← load_u16 data 4;
  ancount ← load_u16 data 6;
  nscount ← load_u16 data 8;
  arcount ← load_u16 data 10;
  Ok (mkHeader id (bit_set b2 0x80) (Z.land (Z.shiftr b2 3) 0x0F) (bit_set b2 0x04)
        (bit_set b2 0x02) (bit_set b2 0x01) (bit_set b3 0x80) (bit_set b3 0x20)
        (bit_set b3 0x10) (Z.land b3 0x0F) qdcount ancount nscount arcount).

Definition parse (data : list Z) : res Message :=
  h ← parse_header data;
  let min_needed := (h_qdcount h * kMinQuestionSize +
                     (h_ancount h + h_nscount h + h_arcount h) * kMinRRSize)%Z in
  rem ← size_sub (length data) kHeaderSize;
  if (Z.of_nat rem <? min_needed)%Z then Err SectionOverflow else
  '(pos, questions) ← read_questions data (Z.to_nat (h_qdcount h)) kHeaderSize [];
  '(pos, answers, edns) ← read_section data (Z.to_nat (h_ancount h)) false pos [] None;
  '(pos, authority, edns) ← read_section data (Z.to_nat (h_nscount h)) false pos [] edns;
  '(pos, additional, edns) ← read_section data (Z.to_nat (h_arcount h)) true pos [] edns;
  Ok (mkMessage h questions answers authority additional edns).

(** ** Reading integers *)

Lemma bytes_lookup buf i b : bytes_wf buf → buf !! i = Some b → is_byte b.
Proof. intros H Hb. by eapply Forall_lookup_1. Qed.

Lemma be16_value b0 b1 :
  is_byte b0 → is_byte b1 → u16 (Z.lor (Z.shiftl b0 8) b1) = (b0 * 256 + b1)%Z.
Proof.
  unfold is_byte. intros. rewrite lor_shiftl_add by lia.
  apply u16_id. unfold is_u16. lia.
Qed.

Lemma be32_value b0 b1 b2 b3 :
  is_byte b0 → is_byte b1 → is_byte b2 → is_byte b3 →
  Z.lor (Z.lor (Z.lor (Z.shiftl b0 24) (Z.shiftl b1 16)) (Z.shiftl b2 8)) b3
  = (((b0 * 256 + b1) * 256 + b2) * 256 + b3)%Z.
Proof.
  unfold is_byte. intros.
  replace (Z.shiftl b0 24) with (Z.shiftl (Z.shiftl (Z.shiftl b0 8) 8) 8)
    by (rewrite !Z.shiftl_shiftl by lia; done).
  replace (Z.shiftl b1 16) with (Z.shiftl (Z.shiftl b1 8) 8) by (rewrite Z.shiftl_shiftl by lia; done).
  rewrite <-!Z.shiftl_lor. rewrite !lor_shiftl_add by lia. lia.
Qed.

(** The two bytes of a 16-bit value. *)
Lemma u16_split v : is_u16 v → (u8 (Z.shiftr v 8) * 256 + u8 v = v)%Z.
Proof.
  unfold is_u16, u8. intros Hv. rewrite Z.shiftr_div_pow2 by lia. change (2 ^ 8)%Z with 256%Z.
  Z.div_mod_to_equations. lia.
Qed.

Section safe_loads.
Context {E : Type} (buf : list Z) (Hbuf : bytes_wf buf).

Lemma safe_load_u16 off (Q : Z → Prop) :
  off + 2 ≤ length buf → (∀ v, is_u16 v → Q v) → safe (E:=E) (load_u16 buf off) Q.
Proof using Hbuf.
  intros Hoff HQ. unfold load_u16. safe_go. simpl. apply HQ.
  rewrite be16_value by (eapply bytes_lookup; eauto).
  repeat match goal with H : buf !! _ = Some _ |- _ => apply bytes_lookup in H; [|done] end.
  unfold is_byte, is_u16 in *. lia.
Qed.

Lemma safe_load_u32 off (Q : Z → Prop) :
  off + 4 ≤ length buf → (∀ v, is_u32 v → Q v) → safe (E:=E) (load_u32 buf off) Q.
Proof using Hbuf.
  intros Hoff HQ. unfold load_u32. safe_go. simpl. apply HQ.
  rewrite be32_value by (eapply bytes_lookup; eauto).
  repeat match goal with H : buf !! _ = Some _ |- _ => apply bytes_lookup in H; [|done] end.
  unfold is_byte, is_u32 in *. lia.
Qed.
End safe_loads.

Lemma bytes_wf_take_drop n off buf : bytes_wf buf → bytes_wf (take n (drop off buf)).
Proof. intros. by apply Forall_take, Forall_drop. Qed.
#[export] Hint Resolve bytes_wf_take_drop : dns.

Ltac wire_step :=
  lazymatch goal with
  | |- safe (load_u16 _ _) _ => apply safe_load_u16; [done|lia|intros]
  | |- safe (load_u32 _ _) _ => apply safe_load_u32; [done|lia|intros]
  | |- _ => safe_step
  end.
Ltac wire_go := repeat (wire_step; cbv beta).

(** ** Safety of the parser, function by function *)

Section parser_safe.
Context (msg : list Z) (Hmsg : bytes_wf msg).

Lemma label_bytes_small len :
  is_byte len → Z.land len 0xC0 = 0%Z → (len < 64)%Z.
Proof using.
  intros Hb Hl. assert (Hd : (len = Z.shiftr len 6 * 2 ^ 6 + len mod 2 ^ 6)%Z) by (apply div_mod_pow2; lia).
  destruct (Z.lt_ge_cases len 64) as [|Hge]; [done|exfalso].
  assert (Hs : (1 ≤ Z.shiftr len 6 < 4)%Z).
  { rewrite Z.shiftr_div_pow2 by lia. unfold is_byte in Hb. change (2 ^ 6)%Z with 64%Z.
    split; [apply Z.div_le_lower_bound; lia|apply Z.div_lt_upper_bound; lia]. }
  assert (Z.shiftr (Z.land len 0xC0) 6 = Z.shiftr len 6) as Heq.
  { rewrite Z.shiftr_land. change (Z.shiftr 0xC0 6) with (Z.ones 2).
    rewrite Z.land_ones by lia. apply Z.mod_small. change (2 ^ 2)%Z with 4%Z. lia. }
  rewrite Hl in Heq. rewrite Z.shiftr_0_l in Heq. lia.
Qed.

Lemma read_name_loop_safe fuel : ∀ pos cur seg wl jumps jumped name,
  name_wf name → wl = wire_length name → wl ≤ kMaxNameWireLength → jumps ≤ kMaxPointerJumps →
  2 + (kMaxNameWireLength - wl) + 2 * (kMaxPointerJumps - jumps) ≤ 2 * fuel →
  safe (read_name_loop fuel msg pos cur seg wl jumps jumped name)
    (λ '(n, p), name_wf n ∧ if jumped then p = pos else cur < p ≤ length msg).
Proof using Hmsg.
  induction fuel as [|fuel IH];
    intros pos cur seg wl jumps jumped name Hn Hwl Hw Hj Hfuel;
    [unfold kMaxNameWireLength, kMaxPointerJumps in *; lia|].
  cbn [read_name_loop]. wire_go.
  - (* end of the name *) simpl. destruct jumped; split; auto; lia.
  - (* a label *)
    assert (Hb : is_byte b) by (eapply bytes_lookup; eauto).
    apply Z.eqb_eq in E. apply Z.eqb_neq in E0.
    pose proof (label_bytes_small b Hb E) as Hsmall. unfold is_byte in Hb.
    wire_go. eapply safe_mono; [apply IH|].
    + apply append_label_wf; [done| |].
      * split; [by apply bytes_wf_take_drop|]. unfold kMaxLabelLength.
        rewrite length_take, length_drop. lia.
      * rewrite <-Hwl, length_take, length_drop. lia.
    + rewrite wire_length_append, length_take, length_drop. lia.
    + lia.
    + done.
    + lia.
    + intros [n p] [? Hp]. split; [done|]. destruct jumped; [done|lia].
  - (* a pointer *)
    wire_go. eapply safe_mono; [apply IH|]; try (done || lia).
    intros [n p] [? ->]. split; [done|]. destruct jumped; [done|lia].
Qed.

Lemma read_name_safe pos :
  safe (read_name msg pos) (λ '(n, p), name_wf n ∧ pos < p ≤ length msg).
Proof using Hmsg.
  apply (read_name_loop_safe _ _ _ _ _ _ false); [apply root_name_wf|done|..];
    unfold kMaxNameWireLength, kMaxPointerJumps, read_name_fuel; lia.
Qed.
End parser_safe.

Ltac name_step :=
  eapply safe_mono; [by apply read_name_safe|]; intros [? ?] [? ?]; cbv beta iota.

Definition edns_count (e : option EdnsInfo) : nat := match e with Some _ => 1 | None => 0 end.

Section parser_safe2.
Context (msg : list Z) (Hmsg : bytes_wf msg).

Lemma read_question_safe pos :
  safe (read_question msg pos) (λ '(q, p), question_wf q ∧ pos < p ≤ length msg).
Proof using Hmsg.
  unfold read_question. apply safe_bind. name_step. wire_go. simpl.
  split; [|lia]. unfold question_wf. simpl. auto.
Qed.

Lemma name_rdata_safe mk pos fin (Q : RData → Prop) :
  (∀ n, name_wf n → Q (mk n)) → safe (name_rdata mk msg pos fin) Q.
Proof using Hmsg.
  intros HQ. unfold name_rdata. apply safe_bind. name_step. wire_go. by apply HQ.
Qed.

Lemma read_strings_safe rdata (Hrd : bytes_wf rdata) fuel : ∀ p acc,
  p ≤ length rdata → length rdata + 1 ≤ fuel + p →
  Forall (λ s, bytes_wf s ∧ (zlen s ≤ 255)%Z) acc →
  safe (read_strings fuel rdata p acc) (λ d, ∀ cls, rdata_wf RRType.TXT cls d).
Proof using.
  induction fuel as [|fuel IH]; intros p acc Hp Hf Hacc; cbn [read_strings]; [lia|].
  wire_go; [|by split].
  assert (Hb : is_byte b) by (eapply bytes_lookup; eauto). unfold is_byte in Hb.
  apply IH; [lia|lia|]. apply Forall_app. split; [done|]. repeat constructor.
  - by apply bytes_wf_take_drop.
  - unfold zlen. rewrite length_take, length_drop. lia.
Qed.

Lemma read_rdata_safe pos rdlen type cls :
  pos + rdlen ≤ length msg → type ≠ RRType.OPT →
  safe (read_rdata msg pos rdlen type cls) (rdata_wf type cls).
Proof using Hmsg.
  intros Hlen Hopt. unfold read_rdata. apply safe_bind. wire_step. cbv beta.
  pose proof (bytes_wf_take_drop rdlen pos msg Hmsg) as Hrd.
  assert (length (take rdlen (drop pos msg)) = rdlen) as Hrl by (rewrite length_take, length_drop; lia).
  wire_go; rewrite ?andb_true_iff, ?andb_false_iff, ?Z.eqb_eq, ?Z.eqb_neq in *.
  - simpl. unfold kClassIN in *. destruct E. split_and!; try done. lia.
  - simpl. unfold kClassIN in *. destruct E0. split_and!; try done. lia.
  - apply name_rdata_safe. by split.
  - apply name_rdata_safe. by split.
  - apply name_rdata_safe. by split.
  - (* MX *) name_step. wire_go. by split_and!.
  - (* SOA *) name_step. apply safe_bind. name_step. wire_go. by split_and!.
  - (* TXT *) subst type. eapply safe_mono; [apply read_strings_safe; [done|simpl; lia..|constructor]|].
    auto.
  - (* anything else *) simpl. split_and!; [done|unfold kClassIN in *; tauto|].
    rewrite !not_elem_of_cons. split_and!; try done. apply not_elem_of_nil.
Qed.

Lemma check_options_safe rdata (Hrd : bytes_wf rdata) fuel : ∀ p,
  p ≤ length rdata → length rdata + 1 ≤ fuel + p →
  safe (check_options fuel rdata p) (λ _, True).
Proof using.
  induction fuel as [|fuel IH]; intros p Hp Hf; cbn [check_options]; [lia|].
  wire_go; [|done]. apply IH; lia.
Qed.

Lemma parse_opt_safe cls ttl rdata :
  bytes_wf rdata → is_u16 cls → safe (parse_opt cls ttl rdata) edns_wf.
Proof using.
  intros Hrd Hcls. unfold parse_opt. apply safe_bind.
  eapply safe_mono; [apply check_options_safe; [done|simpl; lia..]|].
  intros _ _. simpl. unfold edns_wf. simpl. auto with dns.
Qed.
End parser_safe2.

Lemma sanitize_ttl_range ttl : is_u32 ttl → (0 ≤ sanitize_ttl ttl < 2147483648)%Z.
Proof.
  unfold is_u32, sanitize_ttl. intros Ht. destruct (_ =? 0)%Z eqn:E; [|lia].
  apply Z.eqb_eq in E. destruct (Z.lt_ge_cases ttl 2147483648) as [|Hge]; [lia|exfalso].
  assert (Hbit : Z.testbit (Z.land ttl 0x80000000) 31 = true).
  { rewrite Z.land_spec. change (Z.testbit 0x80000000 31) with true. rewrite andb_true_r.
    rewrite Z.testbit_true by lia. change (2 ^ 31)%Z with 2147483648%Z.
    replace (ttl / 2147483648)%Z with 1%Z; [done|].
    apply Z.div_unique with (ttl - 2147483648)%Z; lia. }
  by rewrite E, Z.testbit_0_l in Hbit.
Qed.

Section parser_safe3.
Context (msg : list Z) (Hmsg : bytes_wf msg).

Lemma read_record_safe add pos out edns :
  pos ≤ length msg → Forall rr_wf out → from_option edns_wf True edns →
  safe (read_record msg add pos out edns)
    (λ '(p, out', edns'), pos ≤ p ≤ length msg ∧ Forall rr_wf out' ∧ from_option edns_wf True edns' ∧
       length out' + edns_count edns' = S (length out + edns_count edns) ∧
       (add = false → edns' = edns)).
Proof using Hmsg.
  intros Hpos Hout Hedns. unfold read_record, kRRFixedSize. apply safe_bind. name_step. wire_go.
  - rewrite !orb_false_iff, bool_decide_eq_false in *.
    destruct E0 as [[Hadd Hnone] _]. apply negb_false_iff in Hadd as ->.
    eapply safe_mono; [by apply parse_opt_safe; auto with dns|]. intros info Hinfo. simpl.
    destruct edns; [by destruct Hnone|]. simpl. split_and!; try done; lia.
  - apply Z.eqb_neq in E.
    eapply safe_mono; [apply read_rdata_safe; [done|lia|done]|]. intros rd Hrd. simpl.
    split_and!; try done; [lia..| |rewrite length_app; simpl; lia].
    apply Forall_app. split; [done|]. constructor; [|constructor].
    split; try done. by apply sanitize_ttl_range.
Qed.

Lemma read_section_safe count : ∀ add pos out edns,
  pos ≤ length msg → Forall rr_wf out → from_option edns_wf True edns →
  safe (read_section msg count add pos out edns)
    (λ '(p, out', edns'), pos ≤ p ≤ length msg ∧ Forall rr_wf out' ∧ from_option edns_wf True edns' ∧
       length out' + edns_count edns' = count + (length out + edns_count edns) ∧
       (add = false → edns' = edns)).
Proof using Hmsg.
  induction count as [|count IH]; intros add pos out edns Hpos Hout Hedns; cbn [read_section].
  { simpl. split_and!; auto; lia. }
  apply safe_bind. eapply safe_mono; [by apply read_record_safe|].
  intros [[p out'] edns'] (? & ? & ? & ? & Hsame).
  eapply safe_mono; [apply IH; [lia|done..]|]. intros [[p2 out2] edns2] (? & ? & ? & ? & Hsame2).
  split_and!; try (done || lia). intros Hadd. by rewrite Hsame2, Hsame.
Qed.

Lemma read_questions_safe count : ∀ pos out,
  pos ≤ length msg → Forall question_wf out →
  safe (read_questions msg count pos out)
    (λ '(p, out'), pos ≤ p ≤ length msg ∧ Forall question_wf out' ∧ length out' = count + length out).
Proof using Hmsg.
  induction count as [|count IH]; intros pos out Hpos Hout; cbn [read_questions].
  { simpl. split_and!; auto. }
  apply safe_bind. eapply safe_mono; [by apply read_question_safe|].
  intros [q p] [Hq ?]. eapply safe_mono; [apply IH; [lia|]|].
  { apply Forall_app. auto. }
  intros [p2 out2] (? & ? & Hlen). rewrite length_app in Hlen. simpl in *. split_and!; try done; lia.
Qed.

Lemma parse_header_safe :
  safe (parse_header msg) (λ h, header_wf h ∧ kHeaderSize ≤ length msg).
Proof using Hmsg.
  unfold parse_header, kHeaderSize. wire_go. simpl. split; [|lia].
  assert (∀ b, 0 ≤ Z.land b 15 < 16)%Z as Hnib.
  { intros x. change 15%Z with (Z.ones 4). rewrite Z.land_ones by lia.
    apply Z.mod_pos_bound. lia. }
  split; try done; apply Hnib.
Qed.
End parser_safe3.

(** What a parsed message satisfies: every member is in range, every name,
    record and question is well formed, and the sections have as many entries
    as the header announced (an OPT record counts as an additional one). *)
Record message_wf (m : Message) : Prop := {
  mwf_header : header_wf (m_header m);
  mwf_questions : Forall question_wf (m_questions m);
  mwf_answers : Forall rr_wf (m_answers m);
  mwf_authority : Forall rr_wf (m_authority m);
  mwf_additional : Forall rr_wf (m_additional m);
  mwf_edns : from_option edns_wf True (m_edns m);
  mwf_qdcount : zlen (m_questions m) = h_qdcount (m_header m);
  mwf_ancount : zlen (m_answers m) = h_ancount (m_header m);
  mwf_nscount : zlen (m_authority m) = h_nscount (m_header m);
  mwf_arcount : (zlen (m_additional m) + Z.of_nat (edns_count (m_edns m)))%Z = h_arcount (m_header m);
}.

Lemma parse_safe data : bytes_wf data → safe (parse data) message_wf.
Proof.
  intros Hd. unfold parse. apply safe_bind.
  eapply safe_mono; [by apply parse_header_safe|]. intros h [Hh Hlen]. wire_go.
  eapply safe_mono; [by apply read_questions_safe|]. intros [p1 qs] (? & ? & Hq).
  apply safe_bind. eapply safe_mono; [apply read_section_safe; [done|lia|done..]|].
  intros [[p2 an] e2] (? & ? & ? & Han & He2). apply safe_bind.
  eapply safe_mono; [apply read_section_safe; [done|lia|done..]|].
  intros [[p3 ns] e3] (? & ? & ? & Hns & He3). apply safe_bind.
  eapply safe_mono; [apply read_section_safe; [done|lia|done..]|].
  intros [[p4 ar] e4] (? & ? & ? & Har & _). simpl.
  rewrite He2 in * by done. rewrite He3 in * by done. simpl in *.
  pose proof Hh as [???????]. unfold is_u16 in *.
  split; try done; simpl; unfold zlen; lia.
Qed.

(** ** Properties *)

(** C2: memory safety and termination of the parser.  On any input bytes
    [parse] returns a message or an error: it never reads outside the packet,
    never lets a [size_t] subtraction wrap, and never exhausts the iteration
    bounds of its loops (256 per name, one per byte for TXT and OPT data). *)
Theorem parse_never_faults data f : bytes_wf data → parse data ≠ Fault f.
Proof. intros. by eapply safe_no_fault, parse_safe. Qed.

(** An A query for [a.b] with an EDNS OPT record. *)
Definition ex_query : list Z :=
  [18; 52; 1; 0; 0; 1; 0; 0; 0; 0; 0; 1; 1; 97; 1; 98; 0; 0; 1; 0; 1;
   0; 0; 41; 4; 208; 0; 0; 128; 0; 0; 0]%Z.

Lemma parse_never_faults_witness : parse ex_query ≠ Fault OutOfBounds.
Proof. apply (parse_never_faults ex_query). by_compute. Defined.

(** C22: every parsed message is well formed: names within the RFC 1035
    limits, integers within their widths, record data laid out as the type
    demands, TTLs below 2^31, and section lengths equal to the header's counts. *)
Theorem parse_wf data m : bytes_wf data → parse data = Ok m → message_wf m.
Proof. intros. by eapply safe_Ok; [apply parse_safe|]. Qed.

Lemma parse_wf_witness : ∃ m, parse ex_query = Ok m ∧ message_wf m.
Proof.
  eexists. split; [vm_compute; reflexivity|].
  apply (parse_wf ex_query); [by_compute|vm_compute; reflexivity].
Defined.

Lemma land_c0_pointer b : (192 ≤ b < 256)%Z → Z.land b 0xC0 = 0xC0%Z.
Proof.
  intros Hb. replace b with (Z.lor (Z.shiftl 3 6) (b - 192))%Z at 1.
  - rewrite Z.land_lor_distr_l. change (Z.land (Z.shiftl 3 6) 0xC0) with 0xC0%Z.
    replace (Z.land (b - 192) 0xC0) with 0%Z; [done|].
    change 0xC0%Z with (Z.shiftl 3 6) at 2. symmetry.
    apply Z.bits_inj'. intros i Hi. rewrite Z.land_spec, Z.bits_0.
    destruct (Z.lt_ge_cases i 6).
    + by rewrite (Z.shiftl_spec_low 3), andb_false_r.
    + rewrite (Z.bits_above_log2 (b - 192)); [done|lia|].
      destruct (Z.eq_dec (b - 192) 0) as [->|]; [simpl; lia|].
      apply Z.log2_lt_pow2; [lia|]. pose proof (Z.pow_le_mono_r 2 6 i). lia.
  - rewrite lor_shiftl_add by lia. lia.
Qed.

Lemma pointer_value b0 b1 :
  (192 ≤ b0 < 256)%Z → is_byte b1 →
  Z.land (u16 (Z.lor (Z.shiftl b0 8) b1)) 0x3FFF = ((b0 - 192) * 256 + b1)%Z.
Proof.
  unfold is_byte. intros. rewrite be16_value by (unfold is_byte; lia).
  change 0x3FFF%Z with (Z.ones 14). rewrite Z.land_ones by lia. change (2 ^ 14)%Z with 16384%Z.
  symmetry. apply Z.mod_unique with 3%Z; lia.
Qed.

(** A compression pointer that points at itself or ahead of the name it
    is part of is rejected, whatever surrounds it: the classic ways to make a
    name parser loop. *)
Lemma forward_pointer_rejected msg pos b0 b1 :
  bytes_wf msg → msg !! pos = Some b0 → msg !! (pos + 1) = Some b1 → (192 ≤ b0)%Z →
  (Z.of_nat pos ≤ (b0 - 192) * 256 + b1)%Z →
  read_name msg pos = Err CompressionLoop.
Proof.
  intros Hm H0 H1 Hb Ht.
  pose proof (bytes_lookup _ _ _ Hm H0) as Hb0. pose proof (bytes_lookup _ _ _ Hm H1) as Hb1.
  unfold is_byte in Hb0. apply lookup_lt_Some in H1 as Hl1.
  unfold read_name. change read_name_fuel with (S 255). generalize 255. intros fuel.
  cbn [read_name_loop]. rewrite decide_False by lia. unfold byte_at. rewrite H0. cbn [mbind outcome_bind].
  rewrite land_c0_pointer by lia. cbn [Z.eqb Pos.eqb].
  unfold size_sub. rewrite decide_True by lia. cbn [mbind outcome_bind].
  rewrite decide_False by lia. unfold load_u16, byte_at. rewrite H0, H1. cbn [mbind outcome_bind].
  rewrite pointer_value by (done || lia). rewrite decide_True; [done|]. left. lia.
Qed.

Lemma forward_pointer_rejected_witness :
  read_name [192; 0]%Z 0 = Err CompressionLoop.
Proof. apply (forward_pointer_rejected [192; 0]%Z 0 192 0); [by_compute|done|done|lia|lia]. Defined.

(** The UDP response size limit is always between 512 and the larger of
    512 and our own limit; without EDNS it is 512, and a client that advertised
    more than 512 never gets more than it advertised. *)
Lemma max_udp_response_size_bounds client our_limit :
  (kClassicUdpSize ≤ max_udp_response_size client our_limit ≤ Z.max our_limit kClassicUdpSize)%Z ∧
  (client = None → max_udp_response_size client our_limit = kClassicUdpSize) ∧
  (∀ e, client = Some e → (kClassicUdpSize ≤ e_udp_payload_size e)%Z →
     (max_udp_response_size client our_limit ≤ e_udp_payload_size e)%Z).
Proof.
  unfold max_udp_response_size, clamp. destruct client as [e|]; split_and!; try done; try lia.
  - repeat case_match; lia.
  - repeat case_match; lia.
  - intros e' [= <-] ?. repeat case_match; lia.
Qed.
