(* ===== verification/Builder.v ===== *)
(** * Wire format, writing: [wire/builder.cpp]

    The [Writer] appends to an output buffer and keeps, for compression, a
    map from the canonical wire form of a name suffix to the offset where it
    was written.  [build] writes whole RRsets while they fit and rolls the
    last one back when it does not. *)

From stdpp Require Import base tactics numbers list gmap.
From Stdlib Require Import ZArith Lia.
From S2P Require Import Prelude Names Types Wire.

Definition kMaxPointerOffset : Z := 0x3FFF.
Definition kMaxTcpMessage : Z := 0xFFFF.

(** ** The writer *)

Record Writer := mkWriter {
  w_out : list Z;
  w_compress : bool;
  w_suffixes : gmap (list Z) Z;
}.

Definition push (w : Writer) (bs : list Z) : Writer :=
  mkWriter (w_out w ++ bs) (w_compress w) (w_suffixes w).

(** [rollback]: [mark] is a size the buffer had before. *)
Definition rollback (w : Writer) (mark : nat) : Writer :=
  mkWriter (take mark (w_out w)) (w_compress w)
    (filter (λ entry, (entry.2 < Z.of_nat mark)%Z) (w_suffixes w)).

(** [keys[i]]: the length-prefixed labels from [i] on. *)
Definition suffix_key (ls : list (list Z)) : list Z :=
  concat (map (λ l, u8 (zlen l) :: l) ls).

(** The label loop of [Writer::name]; [ls] are the canonical labels left and
    [text] the same labels as they are written. *)
Fixpoint write_labels (w : Writer) (ls text : list (list Z)) : Writer :=
  match ls, text with
  | _ :: ls', t :: text' =>
    let found := if w_compress w then w_suffixes w !! suffix_key ls else None in
    match found with
    | Some off => push w (put_u16 (u16 (Z.lor 0xC000 off)))
    | None =>
      let suffixes :=
        if w_compress w && (zlen (w_out w) <=? kMaxPointerOffset)%Z
        then <[suffix_key ls := u16 (zlen (w_out w))]> (w_suffixes w)
        else w_suffixes w in
      write_labels (mkWriter (w_out w ++ [u8 (zlen t)] ++ t) (w_compress w) suffixes) ls' text'
    end
  | _, _ => push w [0%Z]
  end.

Definition write_name (w : Writer) (n : Name) : Writer := write_labels w (labels n) (as_written n).

Definition write_question (w : Writer) (q : Question) : Writer :=
  push (push (write_name w (q_qname q)) (put_u16 (q_qtype q))) (put_u16 (q_qclass q)).

(** [RDataWriter]. *)
Definition write_rdata (w : Writer) (d : RData) : Writer :=
  match d with
  | RDataA addr => push w addr
  | RDataAAAA addr => push w addr
  | RDataNS n => write_name w n
  | RDataCNAME n => write_name w n
  | RDataPTR n => write_name w n
  | RDataMX preference exchange => write_name (push w (put_u16 preference)) exchange
  | RDataSOA mname rname serial refresh retry expire minimum =>
    fold_left (λ w v, push w (put_u32 v)) [serial; refresh; retry; expire; minimum]
      (write_name (write_name w mname) rname)
  | RDataTXT strings => fold_left (λ w s, push w ([u8 (zlen s)] ++ s)) strings w
  | RDataRaw data => push w data
  end.

Definition write_rr (w : Writer) (rr : RR) : Writer :=
  let w := write_name w (rr_name rr) in
  let w := push w (put_u16 (rr_type rr)) in
  let w := push w (put_u16 (rr_cls rr)) in
  let w := push w (put_u32 (rr_ttl rr)) in
  let rdlen_at := length (w_out w) in
  let w := push w (put_u16 0) in
  let w := write_rdata w (rr_rdata rr) in
  let rdlen := (zlen (w_out w) - Z.of_nat rdlen_at - 2)%Z in
  mkWriter (store_u16 (w_out w) rdlen_at (u16 rdlen)) (w_compress w) (w_suffixes w).

(** ** The assertions

    What the three kinds of [assert] in the writer check: on a name and each of
    its labels, on the strings of a TXT record, and on the length of a record's
    data as it has been written.  The functions above go on where an assertion
    fails, as a release build does; a theorem in [Roundtrip] says when none can
    fail. *)

Definition name_asserts (n : Name) : bool :=
  bool_decide (wire_length n ≤ kMaxNameWireLength) &&
  forallb (λ t, negb (bool_decide (t = [])) && bool_decide (length t ≤ kMaxLabelLength)) (as_written n).

Definition rdata_asserts (d : RData) : bool :=
  match d with
  | RDataNS n | RDataCNAME n | RDataPTR n | RDataMX _ n => name_asserts n
  | RDataSOA mname rname _ _ _ _ _ => name_asserts mname && name_asserts rname
  | RDataTXT strings => forallb (λ s, (zlen s <=? 255)%Z) strings
  | RDataA _ | RDataAAAA _ | RDataRaw _ => true
  end.

(** [w]: the writer before the record. *)
Definition rr_asserts (w : Writer) (rr : RR) : bool :=
  let w := push (push (push (write_name w (rr_name rr)) (put_u16 (rr_type rr))) (put_u16 (rr_cls rr))) (put_u32 (rr_ttl rr)) in
  let rdlen_at := length (w_out w) in
  let w := write_rdata (push w (put_u16 0)) (rr_rdata rr) in
  name_asserts (rr_name rr) && rdata_asserts (rr_rdata rr) && (zlen (w_out w) - Z.of_nat rdlen_at - 2 <=? 0xFFFF)%Z.

Definition same_rrset (a b : RR) : bool :=
  bool_decide (rr_type a = rr_type b) && bool_decide (rr_cls a = rr_cls b) &&
  name_eqb (rr_name a) (rr_name b).

(** ** Sections *)

Fixpoint write_questions (w : Writer) (limit : Z) (qs : list Question) (count : Z) :
    Writer * Z * bool :=
  match qs with
  | [] => (w, count, false)
  | q :: qs =>
    let w' := write_question w q in
    if (limit <? zlen (w_out w'))%Z then (rollback w' (length (w_out w)), count, true)
    else write_questions w' limit qs (u16 (count + 1))
  end.

(** How many records after the first belong to its RRset. *)
Fixpoint run_length (first : RR) (rrs : list RR) : nat :=
  match rrs with
  | [] => 0
  | r :: rrs => if same_rrset first r then S (run_length first rrs) else 0
  end.

(** [write_section]; every turn writes one RRset, so [length rrs] turns are
    enough.  The flag is the C++ return value: all of it was written. *)
Fixpoint write_section (fuel : nat) (w : Writer) (limit : Z) (rrs : list RR) (count : Z) :
    Writer * Z * bool :=
  match fuel, rrs with
  | S fuel, first :: rest =>
    let j := S (run_length first rest) in
    let w' := fold_left write_rr (take j rrs) w in
    if (limit <? zlen (w_out w'))%Z then (rollback w' (length (w_out w)), count, false)
    else write_section fuel w' limit (drop j rrs) (u16 (count + Z.of_nat j))
  | _, _ => (w, count, true)
  end.

(** ** The message *)

Definition flag (b : bool) (v : Z) : Z := if b then v else 0%Z.

Definition header_byte2 (h : Header) : Z :=
  u8 (Z.lor (Z.lor (Z.lor (Z.lor (flag (h_qr h) 0x80) (Z.shiftl (Z.land (h_opcode h) 0x0F) 3))
                          (flag (h_aa h) 0x04)) (flag (h_tc h) 0x02)) (flag (h_rd h) 0x01)).

Definition header_byte3 (h : Header) : Z :=
  u8 (Z.lor (Z.lor (Z.lor (flag (h_ra h) 0x80) (flag (h_ad h) 0x20)) (flag (h_cd h) 0x10))
            (Z.land (h_rcode h) 0x0F)).

Definition write_header (out : list Z) (h : Header) : list Z :=
  let out := store_u16 out 0 (h_id h) in
  let out := <[2 := header_byte2 h]> out in
  let out := <[3 := header_byte3 h]> out in
  let out := store_u16 out 4 (h_qdcount h) in
  let out := store_u16 out 6 (h_ancount h) in
  let out := store_u16 out 8 (h_nscount h) in
  store_u16 out 10 (h_arcount h).

Definition set_counts (h : Header) (tc : bool) (qd an ns ar : Z) : Header :=
  mkHeader (h_id h) (h_qr h) (h_opcode h) (h_aa h) tc (h_rd h) (h_ra h) (h_ad h) (h_cd h)
    (h_rcode h) qd an ns ar.

Definition build_message (msg : Message) (max_size : Z) (compress : bool) : list Z :=
  let w := mkWriter (replicate kHeaderSize 0%Z) compress ∅ in
  let limit := (max_size - match m_edns msg with Some _ => kOptRecordSize | None => 0 end)%Z in
  let '(w, qd, truncated) := write_questions w limit (m_questions msg) 0 in
  let '(w, an, truncated) :=
    if truncated then (w, 0%Z, truncated)
    else let '(w, an, all) := write_section (length (m_answers msg)) w limit (m_answers msg) 0 in
         (w, an, negb all) in
  let '(w, ns, truncated) :=
    if truncated then (w, 0%Z, truncated)
    else let '(w, ns, all) := write_section (length (m_authority msg)) w limit (m_authority msg) 0 in
         (w, ns, negb all) in
  let '(w, ar) :=
    if truncated then (w, 0%Z)
    else (write_section (length (m_additional msg)) w limit (m_additional msg) 0).1 in
  let '(out, ar) :=
    match m_edns msg with
    | Some e => (w_out w ++ write_opt e, u16 (ar + 1))
    | None => (w_out w, ar)
    end in
  write_header out (set_counts (m_header msg) (h_tc (m_header msg) || truncated) qd an ns ar).

Record BuildOptions := mkOptions { o_max_size : Z; o_compress : bool }.

Definition build (msg : Message) (opts : BuildOptions) : list Z :=
  build_message msg (Z.max (o_max_size opts) kClassicUdpSize) (o_compress opts).

Definition build_tcp (msg : Message) (opts : BuildOptions) : list Z :=
  let out := build_message msg kMaxTcpMessage (o_compress opts) in
  let len := u16 (zlen out) in
  [u8 (Z.shiftr len 8); u8 len] ++ out.

Definition make_response (query : Message) (rcode : Z) : Message :=
  let q := m_header query in
  mkMessage
    (mkHeader (h_id q) true (h_opcode q) false false (h_rd q) true false (h_cd q)
       (u8 (Z.land rcode 0x0F)) 0 0 0 0)
    (m_questions query) [] [] []
    ((λ e, mkEdns kEdnsUdpPayloadSize (u8 (Z.shiftr rcode 4)) 0 (e_dnssec_ok e)) <$> m_edns query).

(** ** Everything the writer does appends

    [appends f]: what [f] appends and records depends on the writer only
    through the length of its buffer, its mode and its suffix table.  This is
    what makes patching RDLENGTH afterwards the same as writing it in place. *)

Definition appends (f : Writer → Writer) : Prop :=
  ∀ n c s, ∃ bs s', ∀ out, length out = n → f (mkWriter out c s) = mkWriter (out ++ bs) c s'.

Lemma appends_id : appends (λ w, w).
Proof. intros n c s. exists [], s. intros out _. by rewrite app_nil_r. Qed.

Lemma appends_push bs : appends (λ w, push w bs).
Proof. intros n c s. by exists bs, s. Qed.

Lemma appends_comp f g : appends f → appends g → appends (λ w, g (f w)).
Proof.
  intros Hf Hg n c s. destruct (Hf n c s) as (b1 & s1 & H1).
  destruct (Hg (n + length b1) c s1) as (b2 & s2 & H2).
  exists (b1 ++ b2), s2. intros out Hn. rewrite H1 by done.
  rewrite H2 by (rewrite length_app; lia). by rewrite app_assoc.
Qed.

Lemma appends_push_after f bs : appends f → appends (λ w, push (f w) bs).
Proof. intros Hf. apply (appends_comp f (λ w, push w bs)); [done|apply appends_push]. Qed.

Lemma appends_fold {A} (f : Writer → A → Writer) (l : list A) :
  (∀ x, appends (λ w, f w x)) → appends (λ w, fold_left f l w).
Proof.
  intros Hf. induction l as [|x l IH]; [apply appends_id|].
  apply (appends_comp (λ w, f w x) (λ w, fold_left f l w)); auto.
Qed.

Lemma appends_write_labels ls : ∀ text, appends (λ w, write_labels w ls text).
Proof.
  induction ls as [|l ls IH]; intros text; [apply appends_push|].
  destruct text as [|t text]; [apply appends_push|]. intros n c s.
  destruct (if c then s !! suffix_key (l :: ls) else None) as [off|] eqn:Hf.
  - exists (put_u16 (u16 (Z.lor 0xC000 off))), s. intros out _.
    cbn [write_labels w_compress w_suffixes]. by rewrite Hf.
  - set (s1 := if c && (Z.of_nat n <=? kMaxPointerOffset)%Z
               then <[suffix_key (l :: ls) := u16 (Z.of_nat n)]> s else s).
    destruct (IH text (n + (1 + length t)) c s1) as (bs & s2 & H2).
    exists (([u8 (zlen t)] ++ t) ++ bs), s2. intros out Hn.
    cbn [write_labels w_compress w_suffixes w_out]. rewrite Hf.
    unfold zlen at 2 3. rewrite Hn. fold s1.
    rewrite H2 by (rewrite !length_app; simpl; lia). by rewrite !app_assoc.
Qed.

Lemma appends_write_name n : appends (λ w, write_name w n).
Proof. apply appends_write_labels. Qed.

Lemma appends_write_rdata d : appends (λ w, write_rdata w d).
Proof.
  destruct d; simpl; try apply appends_push; try apply appends_write_name.
  - apply (appends_comp (λ w, write_name (write_name w mname) rname)
             (λ w, fold_left (λ w v, push w (put_u32 v)) [serial; refresh; retry; expire; minimum] w)).
    + by apply (appends_comp (λ w, write_name w mname) (λ w, write_name w rname)); apply appends_write_name.
    + apply appends_fold. intros. apply appends_push.
  - apply (appends_comp (λ w, push w (put_u16 preference)) (λ w, write_name w exchange));
      [apply appends_push|apply appends_write_name].
  - apply (appends_fold (λ w s, push w ([u8 (zlen s)] ++ s))). intros. apply appends_push.
Qed.

Lemma appends_out f w : appends f → ∃ bs, w_out (f w) = w_out w ++ bs ∧ w_compress (f w) = w_compress w.
Proof.
  intros Hf. destruct w as [out c s]. destruct (Hf (length out) c s) as (bs & s' & H).
  exists bs. by rewrite H.
Qed.

Lemma store_u16_length out off v : length (store_u16 out off v) = length out.
Proof. unfold store_u16. by rewrite !length_insert. Qed.

Lemma store_u16_app pre x y post v :
  store_u16 (pre ++ x :: y :: post) (length pre) v = pre ++ put_u16 v ++ post.
Proof.
  unfold store_u16. rewrite <-(Nat.add_0_r (length pre)) at 2. by rewrite !insert_app_r.
Qed.

(** The record up to its RDLENGTH field. *)
Definition write_rr_head (w : Writer) (rr : RR) : Writer :=
  push (push (push (write_name w (rr_name rr)) (put_u16 (rr_type rr))) (put_u16 (rr_cls rr)))
    (put_u32 (rr_ttl rr)).

Lemma push_unfold w bs : push w bs = mkWriter (w_out w ++ bs) (w_compress w) (w_suffixes w).
Proof. done. Qed.

(** Patching RDLENGTH is the same as writing it before the RDATA. *)
Lemma write_rr_in_place w rr : ∃ rd,
  write_rr w rr = write_rdata (push (write_rr_head w rr) (put_u16 (u16 (zlen rd)))) (rr_rdata rr) ∧
  w_out (write_rr w rr) = w_out (write_rr_head w rr) ++ put_u16 (u16 (zlen rd)) ++ rd.
Proof.
  set (w1 := write_rr_head w rr).
  destruct (appends_write_rdata (rr_rdata rr) (length (w_out w1) + 2)
    (w_compress w1) (w_suffixes w1)) as (rd & s & Hrd).
  exists rd. assert (write_rr w rr = mkWriter (w_out w1 ++ put_u16 (u16 (zlen rd)) ++ rd) (w_compress w1) s)
    as ->.
  - unfold write_rr. fold (write_rr_head w rr) w1. cbv zeta.
    rewrite push_unfold, Hrd by (rewrite length_app; done).
    cbn [w_out w_compress w_suffixes]. f_equal.
    rewrite <-app_assoc. change (put_u16 0 ++ rd) with (0%Z :: 0%Z :: rd).
    rewrite store_u16_app. do 4 f_equal. unfold zlen. rewrite length_app. simpl. lia.
  - rewrite push_unfold, Hrd by (rewrite length_app; done). by rewrite <-app_assoc.
Qed.

Lemma appends_write_rr_head rr : appends (λ w, write_rr_head w rr).
Proof.
  apply (appends_push_after (λ w, push (push (write_name w _) _) _)),
    (appends_push_after (λ w, push (write_name w _) _)), (appends_push_after (λ w, write_name w _)),
    appends_write_name.
Qed.

(** ** The suffix table grows with the buffer *)

(** [w'] is [w] with bytes appended and table entries added, each pointing
    into the appended bytes and within the reach of a pointer. *)
Record grows (w w' : Writer) : Prop := {
  gr_out : w_out w `prefix_of` w_out w';
  gr_compress : w_compress w' = w_compress w;
  gr_old : w_suffixes w ⊆ w_suffixes w';
  gr_new : ∀ k off, w_suffixes w' !! k = Some off → w_suffixes w !! k = Some off ∨
             (zlen (w_out w) ≤ off < zlen (w_out w') ∧ off ≤ kMaxPointerOffset)%Z;
}.

(** What holds of a writer between operations: the header is in place and
    every table entry points behind it, into the buffer. *)
Record writer_wf (w : Writer) : Prop := {
  ww_header : kHeaderSize ≤ length (w_out w);
  ww_offset : ∀ k off, w_suffixes w !! k = Some off →
    (Z.of_nat kHeaderSize ≤ off < zlen (w_out w) ∧ off ≤ kMaxPointerOffset)%Z;
}.

Global Instance grows_refl : Reflexive grows.
Proof. intros w. split; [done|done|done|auto]. Qed.

Lemma prefix_zlen {A} (l k : list A) : l `prefix_of` k → (zlen l ≤ zlen k)%Z.
Proof. intros ?%prefix_length. unfold zlen. lia. Qed.

Global Instance grows_trans : Transitive grows.
Proof.
  intros w1 w2 w3 [] []. split; [by etrans|congruence|by etrans|].
  intros k off [H|?]%gr_new1; [apply gr_new0 in H as [?|?]; [by left|]|]; right;
    pose proof (prefix_zlen _ _ gr_out0); pose proof (prefix_zlen _ _ gr_out1); lia.
Qed.

Lemma grows_wf w w' : writer_wf w → grows w w' → writer_wf w'.
Proof.
  intros [Hh Ho] [Hp _ _ Hn]. pose proof (prefix_length _ _ Hp). split; [lia|].
  intros k off [H1|H1]%Hn; [apply Ho in H1|]; unfold zlen in *; lia.
Qed.

Lemma grows_push w bs : grows w (push w bs).
Proof. split; [by eexists|done|done|auto]. Qed.

Lemma grows_label w ls t :
  (w_compress w = true → w_suffixes w !! suffix_key ls = None) →
  grows w (mkWriter (w_out w ++ [u8 (zlen t)] ++ t) (w_compress w)
    (if w_compress w && (zlen (w_out w) <=? kMaxPointerOffset)%Z
     then <[suffix_key ls := u16 (zlen (w_out w))]> (w_suffixes w) else w_suffixes w)).
Proof.
  intros Hnone. destruct (_ && _) eqn:E; split; cbn; try (by eexists); try done; auto.
  - apply andb_true_iff in E as [Hc _]. by apply insert_subseteq, Hnone.
  - apply andb_true_iff in E as [_ Hle%Z.leb_le]. pose proof (zlen_nonneg (w_out w)).
    unfold kMaxPointerOffset in *. intros k off. rewrite lookup_insert_Some.
    intros [[_ <-]|[_ ?]]; [right|by left].
    rewrite u16_id by (unfold is_u16; lia). unfold zlen in *. rewrite length_app. simpl. lia.
Qed.

Lemma grows_write_labels ls : ∀ w text, grows w (write_labels w ls text).
Proof.
  induction ls as [|l ls IH]; intros w text; [apply grows_push|].
  destruct text as [|t text]; [apply grows_push|]. cbn [write_labels].
  destruct (if w_compress w then _ else _) as [off|] eqn:Hf; [apply grows_push|].
  etrans; [|apply IH]. apply grows_label. intros Hc. by rewrite Hc in Hf.
Qed.

Lemma grows_write_name w n : grows w (write_name w n).
Proof. apply grows_write_labels. Qed.
#[export] Hint Resolve grows_push grows_write_name grows_refl : dns.

Lemma grows_fold {A} (f : Writer → A → Writer) (l : list A) w :
  (∀ w x, grows w (f w x)) → grows w (fold_left f l w).
Proof. intros Hf. revert w. induction l as [|x l IH]; intros w; simpl; [done|]. etrans; [apply Hf|apply IH]. Qed.

Lemma grows_write_rdata w d : grows w (write_rdata w d).
Proof.
  destruct d; simpl; auto with dns.
  - repeat (etrans; [|apply grows_push]). etrans; [|apply grows_write_name]. apply grows_write_name.
  - etrans; [apply grows_push|apply grows_write_name].
  - apply grows_fold. intros. apply grows_push.
Qed.

Lemma grows_write_question w q : grows w (write_question w q).
Proof. unfold write_question. repeat (etrans; [|apply grows_push]). apply grows_write_name. Qed.

Lemma grows_write_rr_head w rr : grows w (write_rr_head w rr).
Proof. unfold write_rr_head. repeat (etrans; [|apply grows_push]). apply grows_write_name. Qed.

Lemma grows_write_rr w rr : grows w (write_rr w rr).
Proof.
  destruct (write_rr_in_place w rr) as (rd & -> & _).
  etrans; [|apply grows_write_rdata]. etrans; [|apply grows_push]. apply grows_write_rr_head.
Qed.

Lemma grows_message w qs rrs : grows w (fold_left write_rr rrs (fold_left write_question qs w)).
Proof.
  trans (fold_left write_question qs w); apply grows_fold; [apply grows_write_question|apply grows_write_rr].
Qed.

(** Rolling back to the size a writer had restores it exactly, table
    included: no later name can be compressed against discarded bytes. *)
Lemma rollback_exact w w' :
  writer_wf w → grows w w' → rollback w' (length (w_out w)) = w.
Proof.
  intros [Hh Ho] [[bs Hp] Hc Hold Hnew]. destruct w as [out c s], w' as [out' c' s'].
  unfold rollback. cbn in *. subst out' c'. f_equal; [apply take_app_length|].
  apply map_eq. intros k. apply option_eq. intros off. rewrite map_lookup_filter_Some. cbn. split.
  - intros [Hk Hlt]. apply Hnew in Hk as [?|?]; [done|]. unfold zlen in *. lia.
  - intros Hk. split; [by apply (lookup_weaken s)|]. apply Ho in Hk. unfold zlen in *. lia.
Qed.

(** ** Sections are written as prefixes, cut between RRsets *)

Lemma same_rrset_spec a b :
  same_rrset a b = true ↔ rr_type a = rr_type b ∧ rr_cls a = rr_cls b ∧ rr_name a ≡ rr_name b.
Proof. unfold same_rrset. rewrite !andb_true_iff, !bool_decide_eq_true, name_eqb_equiv. tauto. Qed.

(** [p] and [s] do not cut an RRset in two. *)
Definition rrset_boundary (p s : list RR) : Prop :=
  ∀ a b, last p = Some a → head s = Some b → same_rrset a b = false.

Lemma run_length_same first rest i r :
  take (run_length first rest) rest !! i = Some r → same_rrset first r = true.
Proof.
  revert i. induction rest as [|x rest IH]; intros i; simpl; [by rewrite lookup_nil|].
  destruct (same_rrset first x) eqn:E; simpl; [|done].
  destruct i; simpl; [by intros [= <-]|apply IH].
Qed.

Lemma run_length_differs first rest b :
  head (drop (run_length first rest) rest) = Some b → same_rrset first b = false.
Proof.
  induction rest as [|x rest IH]; simpl; [done|].
  destruct (same_rrset first x) eqn:E; simpl; [done|]. by intros [= <-].
Qed.

Lemma run_boundary first rest :
  rrset_boundary (take (S (run_length first rest)) (first :: rest))
                 (drop (S (run_length first rest)) (first :: rest)).
Proof.
  intros a b Ha Hb. simpl in *. apply run_length_differs in Hb.
  assert (same_rrset first a = true) as Hfa.
  { rewrite last_cons in Ha. destruct (last _) eqn:Hl in Ha.
    - injection Ha as <-. rewrite last_lookup in Hl. by eapply run_length_same.
    - injection Ha as <-. by apply same_rrset_spec. }
  destruct (same_rrset a b) eqn:Hab; [|done].
  apply same_rrset_spec in Hfa as (?&?&?), Hab as (?&?&?).
  assert (same_rrset first b = true); [|congruence].
  apply same_rrset_spec. split_and!; [congruence..|]. by etrans.
Qed.

Lemma u16_step count a b :
  u16 (u16 (count + a) + b) = u16 (count + (a + b)).
Proof. unfold u16. rewrite Z.add_mod_idemp_l by lia. f_equal. lia. Qed.

Lemma write_questions_spec limit qs : ∀ w count,
  writer_wf w → is_u16 count → (zlen (w_out w) ≤ limit)%Z →
  ∃ p s, qs = p ++ s ∧
    write_questions w limit qs count =
      (fold_left write_question p w, u16 (count + zlen p), bool_decide (s ≠ [])) ∧
    (zlen (w_out (fold_left write_question p w)) ≤ limit)%Z ∧
    ∀ q s', s = q :: s' → (limit < zlen (w_out (fold_left write_question (p ++ [q]) w)))%Z.
Proof.
  induction qs as [|q qs IH]; intros w count Hw Hc Hl; cbn [write_questions].
  { exists [], []. cbn. rewrite Z.add_0_r, u16_id by done. by split_and!. }
  destruct (limit <? _)%Z eqn:E.
  - exists [], (q :: qs). rewrite rollback_exact by auto using grows_write_question.
    cbn [fold_left app]. change (zlen (@nil Question)) with 0%Z. rewrite Z.add_0_r, u16_id by done. split_and!; [done..|]. intros q' s' [= <- <-]. lia.
  - destruct (IH (write_question w q) (u16 (count + 1))) as (p & s & -> & -> & Hle & Hno);
      [by eapply grows_wf, grows_write_question|apply u16_range|lia|].
    exists (q :: p), s. split_and!; [done| |done|done]. cbn [fold_left]. rewrite u16_step.
    repeat f_equal. unfold zlen. simpl. lia.
Qed.

(** [next_rrset s set rest]: [set] is the first RRset of [s], the whole run. *)
Definition next_rrset (s set rest : list RR) : Prop :=
  s = set ++ rest ∧ (∃ first, head set = Some first ∧ Forall (λ r, same_rrset first r = true) set) ∧ rrset_boundary set rest.

Lemma run_next first rest : let j := S (run_length first rest) in next_rrset (first :: rest) (take j (first :: rest)) (drop j (first :: rest)).
Proof.
  intros j. split_and!; [by rewrite take_drop| |apply run_boundary]. exists first. split; [done|]. cbn [j take]. constructor; [by apply same_rrset_spec|].
  apply Forall_lookup. intros i r. apply run_length_same.
Qed.

Lemma write_section_spec limit fuel : ∀ rrs w count,
  length rrs ≤ fuel → writer_wf w → is_u16 count → (zlen (w_out w) ≤ limit)%Z →
  ∃ p s, rrs = p ++ s ∧ rrset_boundary p s ∧
    write_section fuel w limit rrs count =
      (fold_left write_rr p w, u16 (count + zlen p), bool_decide (s = [])) ∧
    (zlen (w_out (fold_left write_rr p w)) ≤ limit)%Z ∧
    (s ≠ [] → ∃ set rest, next_rrset s set rest ∧ (limit < zlen (w_out (fold_left write_rr (p ++ set) w)))%Z).
Proof.
  induction fuel as [|fuel IH]; intros rrs w count Hfuel Hw Hc Hl.
  { destruct rrs; [|simpl in Hfuel; lia].
    exists [], []. cbn. rewrite Z.add_0_r, u16_id by done. by split_and!. }
  destruct rrs as [|first rest]; cbn [write_section].
  { exists [], []. cbn. rewrite Z.add_0_r, u16_id by done. by split_and!. }
  set (j := S (run_length first rest)). set (grp := take j (first :: rest)).
  assert (Hg : grows w (fold_left write_rr grp w)) by (apply grows_fold, grows_write_rr).
  destruct (limit <? _)%Z eqn:E.
  - exists [], (first :: rest). rewrite rollback_exact by done.
    cbn [fold_left app]. change (zlen (@nil RR)) with 0%Z. rewrite Z.add_0_r, u16_id by done. split_and!; [done..|].
    intros _. exists grp, (drop j (first :: rest)). split; [apply run_next|lia].
  - destruct (IH (drop j (first :: rest)) (fold_left write_rr grp w) (u16 (count + Z.of_nat j)))
      as (p & s & Hps & Hb & -> & Hle & Hno);
      [rewrite length_drop; simpl in *; lia|by eapply grows_wf|apply u16_range|lia|].
    exists (grp ++ p), s. rewrite (fold_left_app write_rr grp p), u16_step. split_and!; [| | |done|].
    + rewrite <-app_assoc, <-Hps. symmetry. apply take_drop.
    + intros a b Ha Hs. destruct p as [|x p].
      * rewrite app_nil_r in Ha. simpl in Hps. subst s.
        by eapply run_boundary.
      * apply (Hb a b); [|done]. rewrite last_app in Ha. by destruct (last (x :: p)) eqn:?;
          [|rewrite last_None in *].
    + do 3 f_equal. rewrite zlen_app. unfold zlen at 2, grp.
      assert (length (take j (first :: rest)) = j) as ->; [|done].
      rewrite length_take. assert (run_length first rest ≤ length rest); [|simpl; lia].
      clear. induction rest as [|x rest IHr]; simpl; [lia|]. case_match; lia.
    + intros Hs. destruct (Hno Hs) as (set & rest' & Hset & Hlt). exists set, rest'. split; [done|].
      by rewrite <-app_assoc, fold_left_app.
Qed.

(** What [build] keeps of a message: prefixes of the sections, cut between
    RRsets; a section after a cut one is dropped entirely, and [truncated]
    says whether a question, answer or authority record is missing. *)
Record truncation (m : Message) (qs : list Question) (an ns ar : list RR) (truncated : bool) : Prop := {
  tr_qs : qs `prefix_of` m_questions m;
  tr_an : ∃ s, m_answers m = an ++ s ∧ rrset_boundary an s;
  tr_ns : ∃ s, m_authority m = ns ++ s ∧ rrset_boundary ns s;
  tr_ar : ∃ s, m_additional m = ar ++ s ∧ rrset_boundary ar s;
  tr_order : (qs ≠ m_questions m → an = [] ∧ ns = [] ∧ ar = []) ∧
             (an ≠ m_answers m → ns = [] ∧ ar = []) ∧ (ns ≠ m_authority m → ar = []);
  tr_flag : truncated = false ↔ qs = m_questions m ∧ an = m_answers m ∧ ns = m_authority m;
}.

Definition empty_writer (compress : bool) : Writer := mkWriter (replicate kHeaderSize 0%Z) compress ∅.

Definition opt_bytes (e : option EdnsInfo) : list Z := from_option write_opt [] e.

(** The bytes a message of these questions, records and EDNS takes. *)
Definition message_size (c : bool) (e : option EdnsInfo) (qs : list Question) (rrs : list RR) : Z :=
  (zlen (w_out (fold_left write_rr rrs (fold_left write_question qs (empty_writer c)))) + zlen (opt_bytes e))%Z.

(** What is kept of a section ends before an RRset that does not fit after
    [before]. *)
Definition cut_before (c : bool) (max_size : Z) (e : option EdnsInfo) (qs : list Question) (before kept section : list RR) : Prop :=
  ∀ s, section = kept ++ s → s ≠ [] → ∃ set rest, next_rrset s set rest ∧ (max_size < message_size c e qs (before ++ kept ++ set))%Z.

(** What is kept fits, and something is left out only where the next question
    or RRset would not fit. *)
Record cut_to_fit (c : bool) (max_size : Z) (m : Message) (qs : list Question) (an ns ar : list RR) : Prop := {
  cf_fits : (message_size c (m_edns m) qs (an ++ ns ++ ar) ≤ max_size)%Z;
  cf_qs : ∀ q s, m_questions m = qs ++ q :: s → (max_size < message_size c (m_edns m) (qs ++ [q]) [])%Z;
  cf_an : qs = m_questions m → cut_before c max_size (m_edns m) qs [] an (m_answers m);
  cf_ns : qs = m_questions m → an = m_answers m → cut_before c max_size (m_edns m) qs an ns (m_authority m);
  cf_ar : qs = m_questions m → an = m_answers m → ns = m_authority m → cut_before c max_size (m_edns m) qs (an ++ ns) ar (m_additional m);
}.

Lemma empty_writer_wf c : writer_wf (empty_writer c).
Proof. split; [done|]. intros k off. cbn. by rewrite lookup_empty. Qed.

Lemma put_u16_length v : length (put_u16 v) = 2.
Proof. done. Qed.
Lemma put_u32_length v : length (put_u32 v) = 4.
Proof. done. Qed.

Lemma opt_bytes_length e :
  zlen (opt_bytes e) = match e with Some _ => kOptRecordSize | None => 0%Z end.
Proof. by destruct e. Qed.

Lemma write_header_length out h : length (write_header out h) = length out.
Proof. unfold write_header, store_u16. by rewrite !length_insert. Qed.

Lemma app_suffix_nil {A} (p s : list A) : p = p ++ s ↔ s = [].
Proof.
  split; [|intros ->; by rewrite app_nil_r].
  intros H%(f_equal length). rewrite length_app in H. destruct s; [done|simpl in H; lia].
Qed.

(** A section that is skipped once an earlier one was cut. *)
Lemma write_section_stage (skip : bool) w limit rrs :
  writer_wf w → (zlen (w_out w) ≤ limit)%Z →
  ∃ p s, rrs = p ++ s ∧ rrset_boundary p s ∧ (skip = true → p = []) ∧
    (if skip then (w, 0%Z, skip)
     else let '(w', n, all) := write_section (length rrs) w limit rrs 0 in (w', n, negb all))
    = (fold_left write_rr p w, u16 (zlen p), skip || bool_decide (s ≠ [])) ∧
    writer_wf (fold_left write_rr p w) ∧ (zlen (w_out (fold_left write_rr p w)) ≤ limit)%Z ∧
    (skip = false → s ≠ [] → ∃ set rest, next_rrset s set rest ∧ (limit < zlen (w_out (fold_left write_rr (p ++ set) w)))%Z).
Proof.
  intros Hw Hl. destruct skip; [exists [], rrs; by split_and!|].
  destruct (write_section_spec limit (length rrs) rrs w 0) as (p & s & Hps & Hb & -> & Hle & Hno);
    [done|done|unfold is_u16; lia|done|].
  exists p, s. split_and!; try done.
  - do 2 f_equal. by destruct s.
  - eapply grows_wf; [exact Hw|]. apply grows_fold, grows_write_rr.
Qed.

(** From the limit of the writer to that of the message. *)
Lemma stage_cut c max_size e qs before kept s section (go : Prop) (limit := (max_size - zlen (opt_bytes e))%Z) :
  section = kept ++ s →
  (go → s ≠ [] → ∃ set rest, next_rrset s set rest ∧
    (limit < zlen (w_out (fold_left write_rr (kept ++ set) (fold_left write_rr before (fold_left write_question qs (empty_writer c))))))%Z) →
  go → cut_before c max_size e qs before kept section.
Proof.
  intros -> Hno Hgo s' <-%app_inv_head Hs. destruct (Hno Hgo Hs) as (set & rest & Hset & Hlt). exists set, rest. split; [done|].
  unfold message_size. rewrite fold_left_app. unfold limit in Hlt. lia.
Qed.

Lemma build_message_spec m max_size c : (23 ≤ max_size)%Z →
  ∃ qs an ns ar tr, truncation m qs an ns ar tr ∧ cut_to_fit c max_size m qs an ns ar ∧
    let w := fold_left write_rr (an ++ ns ++ ar) (fold_left write_question qs (empty_writer c)) in
    build_message m max_size c =
      write_header (w_out w ++ opt_bytes (m_edns m))
        (set_counts (m_header m) (h_tc (m_header m) || tr) (u16 (zlen qs)) (u16 (zlen an))
           (u16 (zlen ns)) (u16 (zlen ar + Z.of_nat (edns_count (m_edns m))))).
Proof.
  intros Hmax. unfold build_message. fold (empty_writer c). rewrite <-opt_bytes_length.
  set (limit := (max_size - _)%Z).
  assert (Hlim : (12 ≤ limit)%Z) by (unfold limit; rewrite opt_bytes_length; unfold kOptRecordSize; destruct (m_edns m); lia).
  destruct (write_questions_spec limit (m_questions m) (empty_writer c) 0)
    as (qs & s1 & Hqs & -> & Hl1 & Hno1); [apply empty_writer_wf|unfold is_u16; lia|done|].
  set (w1 := fold_left write_question qs (empty_writer c)) in *.
  assert (Hw1 : writer_wf w1).
  { eapply grows_wf; [apply (empty_writer_wf c)|apply (grows_message _ qs [])]. }
  destruct (write_section_stage (bool_decide (s1 ≠ [])) w1 limit (m_answers m))
    as (an & s2 & Han & Hb2 & Hn2 & -> & Hw2 & Hl2 & Hno2); [done..|].
  destruct (write_section_stage (bool_decide (s1 ≠ []) || bool_decide (s2 ≠ [])) _ limit (m_authority m) Hw2 Hl2)
    as (ns & s3 & Hns & Hb3 & Hn3 & -> & Hw3 & Hl3 & Hno3).
  set (tr := (bool_decide (s1 ≠ []) || bool_decide (s2 ≠ [])) || bool_decide (s3 ≠ [])) in *.
  destruct (write_section_stage tr _ limit (m_additional m) Hw3 Hl3)
    as (ar & s4 & Har & Hb4 & Hn4 & E4 & Hw4 & Hl4 & Hno4).
  exists qs, an, ns, ar, tr. split_and!.
  - subst tr. split; [rewrite Hqs; by eexists|eauto..| |].
    + rewrite Hqs, Han, Hns, !app_suffix_nil. destruct s1, s2, s3; simpl in *; split_and!; intros; auto; done.
    + rewrite Hqs, Han, Hns, !app_suffix_nil. destruct s1, s2, s3; simpl; split; try done; intuition congruence.
  - split; rewrite ?Hqs, ?Han, ?Hns, ?Har, ?app_suffix_nil.
    + unfold message_size. rewrite !fold_left_app. fold w1. lia.
    + intros q s ->%app_inv_head. specialize (Hno1 q s eq_refl). unfold message_size. cbn [fold_left]. lia.
    + intros ->. eapply (stage_cut _ _ _ _ [] an s2); [done|exact Hno2|done].
    + intros -> ->. eapply (stage_cut _ _ _ _ an ns s3); [done|exact Hno3|done].
    + intros -> -> ->. eapply (stage_cut _ _ _ _ (an ++ ns) ar s4); [done|rewrite fold_left_app; exact Hno4|done].
  - rewrite !fold_left_app. fold w1. match goal with |- context [if tr then ?x else ?y] =>
      assert ((if tr then x else y) = (fold_left write_rr ar (fold_left write_rr ns
        (fold_left write_rr an w1)), u16 (zlen ar))) as -> end.
    { destruct tr; [by rewrite Hn4|].
      destruct (write_section _ _ _ (m_additional m) 0) as [[w4 n4] all4]. by simplify_eq/=. }
    destruct (m_edns m); simpl; rewrite ?app_nil_r, ?Z.add_0_r; [|done].
    do 2 f_equal. unfold u16. by rewrite Z.add_mod_idemp_l.
Qed.

Lemma build_message_size m max_size c : (23 ≤ max_size)%Z →
  (Z.of_nat kHeaderSize ≤ zlen (build_message m max_size c) ≤ max_size)%Z.
Proof.
  intros Hmax. destruct (build_message_spec m max_size c Hmax)
    as (qs & an & ns & ar & tr & _ & [Hle _ _ _ _] & ->). unfold message_size in Hle.
  pose proof (grows_message (empty_writer c) qs (an ++ ns ++ ar)) as Hg.
  apply gr_out, prefix_zlen in Hg. unfold zlen in *.
  change (length (w_out (empty_writer _))) with kHeaderSize in Hg.
  rewrite write_header_length, length_app. lia.
Qed.

(** ** Properties *)

(** A response never exceeds the size the client can take.  Whatever the
    message, [build] emits at least the header and at most
    [max(opts.max_size, 512)] bytes. *)
Lemma build_size m opts :
  (Z.of_nat kHeaderSize ≤ zlen (build m opts) ≤ Z.max (o_max_size opts) kClassicUdpSize)%Z.
Proof. apply build_message_size. unfold kClassicUdpSize. lia. Qed.

(** TCP framing: the two-byte prefix [build_tcp] writes is the length of
    the message that follows, which fits in 16 bits. *)
Lemma build_tcp_framing m opts :
  ∃ body, build_tcp m opts = put_u16 (zlen body) ++ body ∧
    (Z.of_nat kHeaderSize ≤ zlen body ≤ kMaxTcpMessage)%Z ∧
    load_u16 (E:=ParseError) (build_tcp m opts) 0 = Ok (zlen body).
Proof.
  set (body := build_message m kMaxTcpMessage (o_compress opts)).
  assert (Hlen : (Z.of_nat kHeaderSize ≤ zlen body ≤ kMaxTcpMessage)%Z).
  { by apply build_message_size. }
  assert (Hu : is_u16 (zlen body)) by (unfold is_u16, kMaxTcpMessage in *; lia).
  assert (Heq : build_tcp m opts = put_u16 (zlen body) ++ body).
  { unfold build_tcp. fold body. by rewrite u16_id. }
  exists body. split_and!; [done|lia|lia|]. rewrite Heq. unfold load_u16, byte_at. simpl.
  rewrite be16_value by auto with dns. by rewrite u16_split.
Qed.

(** The writer's rollback is exact: after any sequence of questions and
    records is written and rolled back to the size before it, the writer is
    what it was, so no later name is compressed against discarded bytes. *)
Lemma rollback_restores w qs rrs :
  writer_wf w →
  rollback (fold_left write_rr rrs (fold_left write_question qs w)) (length (w_out w)) = w.
Proof.
  intros Hw. apply rollback_exact; [done|apply grows_message].
Qed.

Definition ex_rr : RR := mkRR ex_name RRType.MX 1 60 (RDataMX 10 ex_name) TrustRank.Answer.

Lemma rollback_restores_witness :
  rollback (fold_left write_rr [ex_rr] (fold_left write_question [mkQuestion ex_name 15 1]
    (empty_writer true))) 12 = empty_writer true.
Proof. apply (rollback_restores (empty_writer true) [mkQuestion ex_name 15 1] [ex_rr]), empty_writer_wf. Defined.
