(* ===== verification/Roundtrip.v ===== *)
(** * Reading back what was written

    [enc] describes a name in a buffer, compression pointers included; the
    writer produces names in that form ([write_name_enc]) and the reader
    decodes it ([read_name_enc]).  On top of it, [parse_build]: parsing a
    built message gives the message back, up to the letter case of compressed
    suffixes and the records truncation had to leave out. *)

From stdpp Require Import base tactics numbers list gmap.
From Stdlib Require Import ZArith Lia.
From S2P Require Import Prelude Names Types Wire Builder.

(** ** Bytes at a position *)

Definition bytes_at (F : list Z) (p : nat) (bs : list Z) : Prop :=
  ∀ i b, bs !! i = Some b → F !! (p + i) = Some b.

Lemma bytes_at_app F p a b :
  bytes_at F p (a ++ b) ↔ bytes_at F p a ∧ bytes_at F (p + length a) b.
Proof.
  unfold bytes_at. split.
  - intros H. split; intros i x Hx.
    + apply H. by apply lookup_app_l_Some.
    + rewrite <-Nat.add_assoc. apply H. rewrite lookup_app_r by lia.
      by replace (length a + i - length a) with i by lia.
  - intros [Ha Hb] i x [Hx|[Hle Hx]]%lookup_app_Some; [by apply Ha|].
    specialize (Hb _ _ Hx). by replace (p + length a + (i - length a)) with (p + i) in Hb by lia.
Qed.

Lemma bytes_at_cons F p b bs :
  bytes_at F p (b :: bs) ↔ F !! p = Some b ∧ bytes_at F (S p) bs.
Proof.
  change (b :: bs) with ([b] ++ bs). rewrite bytes_at_app. simpl.
  rewrite (Nat.add_1_r p). unfold bytes_at at 1. split; intros [H ?]; split; try done.
  - specialize (H 0 b eq_refl). by rewrite Nat.add_0_r in H.
  - intros [|i] x; simpl; [intros [= <-]; by rewrite Nat.add_0_r|done].
Qed.

Lemma bytes_at_length F p bs : bytes_at F p bs → bs ≠ [] → p + length bs ≤ length F.
Proof.
  intros H Hne. destruct (last bs) as [b|] eqn:Hl; [|by rewrite last_None in Hl].
  rewrite last_lookup in Hl. apply H, lookup_lt_Some in Hl.
  destruct bs; simpl in *; [done|lia].
Qed.

Lemma bytes_at_take F p bs :
  p + length bs ≤ length F → bytes_at F p bs → take (length bs) (drop p F) = bs.
Proof.
  intros Hlen H. apply list_eq. intros i. destruct (decide (i < length bs)) as [Hi|Hi].
  - rewrite lookup_take_lt, lookup_drop by done.
    destruct (bs !! i) as [b|] eqn:Hb; [by apply H|]. apply lookup_ge_None in Hb. lia.
  - rewrite lookup_take_ge by lia. symmetry. apply lookup_ge_None. lia.
Qed.

Section reads.
Context {E : Type} (F : list Z) (p : nat).

Lemma byte_at_bytes b : bytes_at F p [b] → byte_at (E:=E) F p = Ok b.
Proof. rewrite bytes_at_cons. intros [H _]. unfold byte_at. by rewrite H. Qed.

Lemma load_u16_bytes v : is_u16 v → bytes_at F p (put_u16 v) → load_u16 (E:=E) F p = Ok v.
Proof.
  unfold put_u16. rewrite !bytes_at_cons. intros Hv (H0 & H1 & _).
  unfold load_u16, byte_at. rewrite H0, Nat.add_1_r, H1. cbn [mbind outcome_bind].
  rewrite be16_value by auto with dns. by rewrite u16_split.
Qed.

Lemma subspan_bytes s : p + length s ≤ length F → bytes_at F p s → subspan (E:=E) F p (length s) = Ok s.
Proof. intros Hl H. unfold subspan. rewrite decide_True by done. by rewrite bytes_at_take. Qed.
End reads.

Lemma load_u32_bytes {E} F p v :
  is_u32 v → bytes_at F p (put_u32 v) → load_u32 (E:=E) F p = Ok v.
Proof.
  unfold put_u32, put_u16. rewrite bytes_at_app, !bytes_at_cons.
  intros Hv ((H0 & H1 & _) & (H2 & H3 & _)). simpl in *.
  unfold load_u32, byte_at. rewrite H0. replace (p + 1) with (S p) by lia. rewrite H1.
  rewrite H2. replace (p + 3) with (S (p + 2)) by lia. rewrite H3. cbn [mbind outcome_bind].
  rewrite be32_value by auto with dns. f_equal. unfold is_u32 in Hv. unfold u8, u16.
  rewrite !Z.shiftr_div_pow2 by lia. change (2 ^ 8)%Z with 256%Z. change (2 ^ 16)%Z with 65536%Z.
  Z.div_mod_to_equations. lia.
Qed.

(** ** Names in a buffer *)

(** [enc F seg pos ls e j]: reading [F] at [pos], inside a segment that
    started at [seg], gives the labels [ls]; the in-place bytes end at [e] and
    [j] pointers are followed.  No byte before offset 12, where the header
    is, takes part. *)
Inductive enc (F : list Z) : nat → nat → list (list Z) → nat → nat → Prop :=
| enc_end seg pos :
    kHeaderSize ≤ pos → F !! pos = Some 0%Z → enc F seg pos [] (S pos) 0
| enc_label seg pos l ls e j :
    kHeaderSize ≤ pos → label_wf l → bytes_at F pos (zlen l :: l) →
    enc F seg (pos + (1 + length l)) ls e j → enc F seg pos (l :: ls) e j
| enc_pointer seg pos target ls e j :
    kHeaderSize ≤ pos → (Z.of_nat target ≤ kMaxPointerOffset)%Z → target < seg →
    bytes_at F pos (put_u16 (u16 (Z.lor 0xC000 (Z.of_nat target)))) →
    enc F target target ls e j → enc F seg pos ls (pos + 2) (S j).

(** [F] has the bytes of [B] behind the header. *)
Definition agree (B F : list Z) : Prop :=
  ∀ i b, kHeaderSize ≤ i → B !! i = Some b → F !! i = Some b.

Lemma agree_prefix B B' F : B `prefix_of` B' → agree B' F → agree B F.
Proof. intros Hp Ha i b Hi Hb. apply Ha; [done|]. by eapply prefix_lookup_Some. Qed.

Lemma agree_bytes_at B F p bs : kHeaderSize ≤ p → agree B F → bytes_at B p bs → bytes_at F p bs.
Proof. intros Hp Ha Hb i b Hi. apply Ha; [lia|]. by apply Hb. Qed.

Lemma bytes_at_end B bs : bytes_at (B ++ bs) (length B) bs.
Proof. intros i b Hb. by rewrite lookup_app_r, Nat.add_comm, Nat.add_sub by lia. Qed.

Lemma enc_agree B F seg pos ls e j : agree B F → enc B seg pos ls e j → enc F seg pos ls e j.
Proof.
  intros Ha. induction 1; [constructor 1|constructor 2|econstructor 3]; eauto using agree_bytes_at.
Qed.

Lemma enc_seg F seg seg' pos ls e j : seg ≤ seg' → enc F seg pos ls e j → enc F seg' pos ls e j.
Proof.
  intros Hs H. revert seg' Hs. induction H; intros seg' Hs;
    [by constructor 1|constructor 2; auto|econstructor 3; eauto; lia].
Qed.

Definition append_labels (n : Name) (ls : list (list Z)) : Name := fold_left append_label ls n.

Lemma append_labels_labels ls : ∀ n, labels (append_labels n ls) = labels n ++ map lower ls.
Proof.
  induction ls as [|l ls IH]; intros n; [by rewrite app_nil_r|].
  cbn [append_labels fold_left]. fold (append_labels (append_label n l) ls).
  rewrite IH. cbn [append_label labels map]. by rewrite <-app_assoc.
Qed.

Lemma pointer_bytes target :
  (0 ≤ target ≤ kMaxPointerOffset)%Z →
  let v := u16 (Z.lor 0xC000 target) in
  is_u16 v ∧ (192 ≤ u8 (Z.shiftr v 8) < 256)%Z ∧ Z.land v 0x3FFF = target.
Proof.
  intros Ht v. unfold kMaxPointerOffset in Ht.
  assert (Hv : v = (3 * 16384 + target)%Z).
  { unfold v. change 0xC000%Z with (Z.shiftl 3 14). rewrite lor_shiftl_add by lia.
    apply u16_id. unfold is_u16. lia. }
  rewrite Hv. unfold is_u16, u8. rewrite Z.shiftr_div_pow2 by lia. change (2 ^ 8)%Z with 256%Z.
  change 0x3FFF%Z with (Z.ones 14). rewrite Z.land_ones by lia. change (2 ^ 14)%Z with 16384%Z.
  split_and!; Z.div_mod_to_equations; lia.
Qed.

Lemma label_byte_kind l : label_wf l →
  Z.land (zlen l) 0xC0 = 0%Z ∧ zlen l ≠ 0%Z ∧ Z.to_nat (zlen l) = length l.
Proof.
  intros [_ Hl]. unfold kMaxLabelLength in Hl. unfold zlen.
  split_and!; [|lia|lia].
  apply Z.bits_inj'. intros i Hi. rewrite Z.land_spec, Z.bits_0.
  destruct (Z.lt_ge_cases i 6).
  - change 0xC0%Z with (Z.shiftl 3 6). by rewrite (Z.shiftl_spec_low 3), andb_false_r.
  - rewrite (Z.bits_above_log2 (Z.of_nat (length l))); [done|lia|].
    apply Z.log2_lt_pow2; [lia|]. pose proof (Z.pow_le_mono_r 2 6 i). lia.
Qed.

(** The reader follows [enc]. *)
Lemma read_name_loop_enc F seg pos ls e j : enc F seg pos ls e j →
  ∀ fuel p wl jumps jumped name,
    length ls + j < fuel → wl + labels_size ls ≤ kMaxNameWireLength → jumps + j ≤ kMaxPointerJumps →
    read_name_loop fuel F p pos seg wl jumps jumped name
    = Ok (append_labels name ls, if jumped then p else e).
Proof.
  induction 1 as [seg pos Hp H0|seg pos l ls e j Hp Hl Hb _ IH|seg pos target ls e j Hp Ht Hseg Hb _ IH];
    intros fuel p wl jumps jumped name Hfuel Hwl Hj; (destruct fuel as [|fuel]; [lia|]);
    cbn [read_name_loop].
  - apply lookup_lt_Some in H0 as Hlt. rewrite decide_False by lia.
    unfold byte_at. rewrite H0. cbn. by rewrite Nat.add_1_r.
  - pose proof (bytes_at_length _ _ _ Hb ltac:(done)) as Hlen. simpl in Hlen.
    rewrite decide_False by lia. apply bytes_at_cons in Hb as [H0 Hb].
    destruct (label_byte_kind l Hl) as (Hk & Hnz & Hz).
    unfold byte_at. rewrite H0. cbn [mbind outcome_bind]. rewrite Hk. cbn [Z.eqb].
    rewrite (proj2 (Z.eqb_neq _ _) Hnz), Hz.
    rewrite size_sub_Ok by lia. cbn [mbind outcome_bind].
    rewrite size_sub_Ok by lia. cbn [mbind outcome_bind]. rewrite decide_False by lia.
    unfold labels_size in Hwl. cbn [sum_list_with] in Hwl. rewrite decide_False by lia.
    rewrite subspan_bytes by (rewrite ?Nat.add_1_r; done || lia). cbn [mbind outcome_bind].
    rewrite IH; [done|simpl in Hfuel; lia|unfold labels_size; lia|done].
  - destruct (pointer_bytes (Z.of_nat target)) as (Hv & Hb0 & Hland); [lia|].
    pose proof (bytes_at_length _ _ _ Hb ltac:(done)) as Hlen. simpl in Hlen.
    rewrite decide_False by lia. pose proof Hb as Hb'. apply bytes_at_cons in Hb' as [H0 _].
    unfold byte_at. rewrite H0. cbn [mbind outcome_bind]. rewrite land_c0_pointer by lia. cbn [Z.eqb Pos.eqb].
    rewrite size_sub_Ok by lia. cbn [mbind outcome_bind]. rewrite decide_False by lia.
    rewrite (load_u16_bytes _ _ _ Hv Hb). cbn [mbind outcome_bind]. rewrite Hland, Nat2Z.id.
    rewrite decide_False by lia. rewrite IH by lia. by destruct jumped.
Qed.

(** ** What the writer produces *)

Lemma suffix_key_inj a : ∀ b,
  Forall label_wf a → Forall label_wf b → suffix_key a = suffix_key b → a = b.
Proof.
  assert (Hu : ∀ l, label_wf l → u8 (zlen l) = zlen l).
  { intros l [_ Hl]. apply u8_id. unfold is_byte, zlen, kMaxLabelLength in *. lia. }
  unfold suffix_key. induction a as [|l a IH]; intros [|m b] Ha Hb; [done|done|done|].
  inv Ha. inv Hb. cbn [map concat]. rewrite !Hu by done. rewrite <-!app_comm_cons.
  intros [= Hlen Heq]. apply app_inj_1 in Heq as [-> Heq]; [|unfold zlen in Hlen; lia].
  f_equal. by apply IH.
Qed.

Lemma suffix_key_longer pre ls : pre ≠ [] → suffix_key (pre ++ ls) ≠ suffix_key ls.
Proof.
  intros Hne H%(f_equal length). unfold suffix_key in H. rewrite map_app, concat_app, length_app in H.
  destruct pre as [|l pre]; [done|]. simpl in H. lia.
Qed.

(** A table entry is good when reading at its offset gives its key's labels. *)
Definition entry_ok (B k : list Z) (off : Z) : Prop :=
  ∃ ts e j, k = suffix_key (map lower ts) ∧ Forall label_wf ts ∧
    enc B (Z.to_nat off) (Z.to_nat off) ts e j ∧ j < length ts.

Definition table_ok (w : Writer) : Prop :=
  ∀ k off, w_suffixes w !! k = Some off → entry_ok (w_out w) k off.

Lemma prefix_agree B B' : B `prefix_of` B' → agree B B'.
Proof. intros Hp i b _ Hb. by eapply prefix_lookup_Some. Qed.

Lemma entry_ok_prefix B B' k off : B `prefix_of` B' → entry_ok B k off → entry_ok B' k off.
Proof.
  intros Hp (ts & e & j & ? & ? & Henc & ?). exists ts, e, j. split_and!; try done.
  eapply enc_agree; [by apply prefix_agree|done].
Qed.

Lemma Forall_label_wf_lower ts : Forall label_wf ts → Forall label_wf (map lower ts).
Proof. intros H. apply Forall_map. eapply Forall_impl; [exact H|]. apply label_wf_lower. Qed.

(** The loop invariant of [write_labels]: [S] is where the name started;
    entries from before are good, the others are longer suffixes of the name
    being written, which a lookup of what is left cannot find. *)
Definition loop_table (start : nat) (ls : list (list Z)) (w : Writer) : Prop :=
  ∀ k off, w_suffixes w !! k = Some off →
    (off < Z.of_nat start ∧ entry_ok (w_out w) k off)%Z ∨
    ∃ pre, pre ≠ [] ∧ k = suffix_key (pre ++ ls).

(** A pointer to an earlier suffix. *)
Lemma pointer_enc w start text off : let w' := push w (put_u16 (u16 (Z.lor 0xC000 off))) in
  writer_wf w → Forall label_wf text → start ≤ length (w_out w) → loop_table start (map lower text) w →
  w_suffixes w !! suffix_key (map lower text) = Some off →
  ∃ ts j, enc (w_out w') start (length (w_out w)) ts (length (w_out w')) j ∧ map lower ts = map lower text ∧
    j ≤ length text ∧ Forall label_wf ts.
Proof.
  intros w' Hw Hwf Hs Htab Hf. destruct (ww_offset w Hw _ _ Hf) as [Hoff1 Hoff2].
  destruct (Htab _ _ Hf) as [[Hlt (ts & e & j & Hk & Hts & Henc & Hj)]|(pre & Hne & Hk)];
    [|by apply eq_sym, suffix_key_longer in Hk].
  apply suffix_key_inj in Hk; [|by apply Forall_label_wf_lower..].
  assert (Hlen : length ts = length text) by (by rewrite <-(length_map lower ts), <-Hk, length_map).
  exists ts, (S j). cbn [w' push w_out]. split_and!; [|done|lia|done].
  rewrite length_app. change (length (put_u16 _)) with 2.
  apply (enc_pointer _ _ _ (Z.to_nat off) _ e); [apply Hw|rewrite Z2Nat.id; lia|lia| |].
  - rewrite Z2Nat.id by lia. apply bytes_at_end.
  - eapply enc_agree; [|exact Henc]. apply prefix_agree. by eexists.
Qed.

Lemma write_labels_enc text : ∀ w start,
  let ls := map lower text in let w' := write_labels w ls text in
  writer_wf w → Forall label_wf text → start ≤ length (w_out w) → loop_table start ls w →
  ∃ ts j, enc (w_out w') start (length (w_out w)) ts (length (w_out w')) j ∧ map lower ts = ls ∧
    j ≤ length ls ∧ Forall label_wf ts ∧
    ∀ k off, w_suffixes w' !! k = Some off → w_suffixes w !! k = Some off ∨ entry_ok (w_out w') k off.
Proof.
  induction text as [|t text IH]; intros w start ls w' Hw Hwf Hs Htab.
  { exists [], 0. cbn. rewrite length_app, Nat.add_1_r.
    split_and!; [|done|done|constructor|by left].
    constructor; [apply Hw|]. by rewrite lookup_app_r, Nat.sub_diag. }
  inv Hwf. rename select (label_wf t) into Ht. rename select (Forall _ _) into Hwf.
  subst ls w'. cbn [map write_labels].
  change (lower t :: map lower text) with (map lower (t :: text)) in *.
  set (ls := map lower (t :: text)) in *.
  destruct (if w_compress w then _ else None) as [off|] eqn:Hf.
  - (* a pointer to an earlier suffix *)
    destruct (w_compress w); [|done].
    destruct (pointer_enc w start (t :: text) off) as (ts & j & ? & ? & ? & ?); [done|by constructor|done..|].
    exists ts, j. split_and!; [done|done|subst ls; by rewrite length_map|done|by left].
  - (* a label in place *)
    set (w1 := mkWriter _ _ _).
    assert (Hg1 : grows w w1) by (apply grows_label; intros Hc; by rewrite Hc in Hf).
    assert (Hnew : ∀ k off, w_suffixes w1 !! k = Some off → w_suffixes w !! k = Some off ∨
      k = suffix_key ls ∧ Z.to_nat off = length (w_out w)).
    { intros k off. cbn [w1 w_suffixes]. destruct (_ && _) eqn:E; [|by left].
      rewrite lookup_insert_Some. intros [[<- <-]|[_ ?]]; [right|by left]. split; [done|].
      apply andb_true_iff in E as [_ E%Z.leb_le]. unfold kMaxPointerOffset in E.
      rewrite u16_id; unfold is_u16, zlen in *; lia. }
    assert (Hlen1 : length (w_out w1) = length (w_out w) + (1 + length t)).
    { cbn [w1 w_out]. rewrite !length_app. simpl. lia. }
    destruct (IH w1 start) as (ts & j & Henc & Hlow & Hj & Hts & Hent); [by eapply grows_wf|done|lia| |].
    { intros k off [Hk|[-> _]]%Hnew; [|right; by exists [lower t]].
      destruct (Htab _ _ Hk) as [[? ?]|(pre & Hne & ->)].
      - left. split; [done|]. eapply entry_ok_prefix; [apply Hg1|done].
      - right. exists (pre ++ [lower t]). split; [by destruct pre|]. by rewrite <-app_assoc. }
    set (w' := write_labels w1 (map lower text) text) in *.
    assert (Hg2 : w_out w1 `prefix_of` w_out w') by apply grows_write_labels.
    assert (Hhere : enc (w_out w') start (length (w_out w)) (t :: ts) (length (w_out w')) j).
    { constructor; [apply Hw|done| |by rewrite <-Hlen1].
      eapply agree_bytes_at; [apply Hw|by apply prefix_agree|]. cbn [w1 w_out].
      replace (zlen t :: t) with ([u8 (zlen t)] ++ t); [apply bytes_at_end|].
      rewrite u8_id; [done|]. destruct Ht as [_ Ht]. unfold is_byte, zlen, kMaxLabelLength in *. lia. }
    exists (t :: ts), j. split_and!; [done| |subst ls; simpl; lia|by constructor|].
    + cbn [map]. by rewrite Hlow.
    + intros k off [[?|[-> Ho]]%Hnew|?]%Hent; [by left| |by right].
      right. exists (t :: ts), (length (w_out w')), j. rewrite Ho.
      split_and!; [cbn [map]; by rewrite Hlow|by constructor|by eapply enc_seg|].
      apply (f_equal length) in Hlow. rewrite !length_map in Hlow. rewrite length_map in Hj. simpl. lia.
Qed.

(** [F] holds the name [n], up to case, from [p] to [e]. *)
Definition name_at (F : list Z) (p : nat) (n : Name) (e : nat) : Prop :=
  ∃ ts j, enc F p p ts e j ∧ map lower ts = labels n ∧ j ≤ length ts.

Lemma name_at_agree B F p n e : agree B F → name_at B p n e → name_at F p n e.
Proof. intros Ha (ts & j & ? & ? & ?). exists ts, j. split_and!; eauto using enc_agree. Qed.

Lemma write_name_ok w n :
  writer_wf w → table_ok w → name_wf n →
  table_ok (write_name w n) ∧
  name_at (w_out (write_name w n)) (length (w_out w)) n (length (w_out (write_name w n))).
Proof.
  intros Hw Ht Hn. unfold write_name, as_written. rewrite decide_True by (by apply name_wf_same_length).
  rewrite (nwf_lower n Hn).
  destruct (write_labels_enc (original_case n) w (length (w_out w)))
    as (ts & j & Henc & Hlow & Hj & Hts & Hent); [done|apply Hn|done| |].
  { intros k off Hk. left. split; [|by apply Ht]. apply Hw in Hk. unfold zlen in Hk. lia. }
  split.
  - intros k off [Hk|?]%Hent; [|done].
    eapply entry_ok_prefix; [apply grows_write_labels|by apply Ht].
  - exists ts, j. split_and!; [done|by rewrite (nwf_lower n Hn)|].
    apply (f_equal length) in Hlow. rewrite length_map in Hlow. lia.
Qed.

Lemma labels_size_count ls : Forall label_wf ls → 2 * length ls ≤ labels_size ls.
Proof.
  induction 1 as [|l ls [_ Hl] _ IH]; [done|]. unfold labels_size in *. simpl in *. lia.
Qed.

Lemma read_name_at F p n e :
  name_wf n → name_at F p n e → ∃ n', read_name F p = Ok (n', e) ∧ labels n' = labels n.
Proof.
  intros Hn (ts & j & Henc & Hlow & Hj).
  assert (Hsize : 1 + labels_size ts ≤ kMaxNameWireLength).
  { rewrite <-labels_size_lower, Hlow, <-wire_length_labels. apply Hn. }
  assert (Hcount : 2 * length ts ≤ labels_size ts).
  { pose proof (labels_size_count _ (name_wf_canonical n Hn)) as Hc.
    by rewrite <-Hlow, labels_size_lower, length_map in Hc. }
  unfold kMaxNameWireLength in Hsize. exists (append_labels root_name ts). split.
  - unfold read_name, read_name_fuel.
    rewrite (read_name_loop_enc F p p ts e j Henc); [done|lia|unfold kMaxNameWireLength; lia|].
    unfold kMaxPointerJumps. lia.
  - rewrite append_labels_labels. by rewrite Hlow.
Qed.

(** ** Writers whose table can be trusted *)

Record writer_ok (w : Writer) : Prop := { wo_wf : writer_wf w; wo_table : table_ok w }.

Lemma writer_ok_push w bs : writer_ok w → writer_ok (push w bs).
Proof.
  intros [Hw Ht]. split; [by eapply grows_wf, grows_push|].
  intros k off Hk. eapply entry_ok_prefix; [by eexists|by apply Ht].
Qed.

Lemma writer_ok_name w n : writer_ok w → name_wf n → writer_ok (write_name w n).
Proof.
  intros [Hw Ht] Hn. split; [by eapply grows_wf, grows_write_name|by apply write_name_ok].
Qed.

Lemma writer_ok_fold_push {A} (f : A → list Z) l w :
  writer_ok w → writer_ok (fold_left (λ w x, push w (f x)) l w).
Proof. revert w. induction l; intros w Hw; simpl; eauto using writer_ok_push. Qed.

Lemma empty_writer_ok c : writer_ok (empty_writer c).
Proof. split; [apply empty_writer_wf|]. intros k off. cbn. by rewrite lookup_empty. Qed.
#[export] Hint Resolve writer_ok_push writer_ok_name writer_ok_fold_push : dns.

Section read_back.
Context (F : list Z).

Lemma agree_tail B bs : kHeaderSize ≤ length B → agree (B ++ bs) F → bytes_at F (length B) bs.
Proof. intros HB Ha. eapply agree_bytes_at; [done|exact Ha|apply bytes_at_end]. Qed.

Lemma agree_grows w w' : grows w w' → agree (w_out w') F → agree (w_out w) F.
Proof. intros Hg. apply agree_prefix, Hg. Qed.

Lemma writer_ok_length w : writer_ok w → kHeaderSize ≤ length (w_out w).
Proof. intros H. apply H. Qed.

(** Reading the name a writer just wrote. *)
Lemma read_written_name w n :
  writer_ok w → name_wf n → agree (w_out (write_name w n)) F →
  ∃ n', read_name F (length (w_out w)) = Ok (n', length (w_out (write_name w n))) ∧
        name_eqb n' n = true.
Proof.
  intros [Hw Ht] Hn Ha. destruct (write_name_ok w n Hw Ht Hn) as [_ Hat].
  destruct (read_name_at F (length (w_out w)) n (length (w_out (write_name w n))) Hn)
    as (n' & Hr & Hl); [by eapply name_at_agree|].
  exists n'. split; [done|]. by apply name_eqb_equiv.
Qed.

(** Reading the integers pushed after it. *)
Lemma read_pushed_u16 w v :
  writer_ok w → is_u16 v → agree (w_out (push w (put_u16 v))) F →
  load_u16 (E:=ParseError) F (length (w_out w)) = Ok v ∧ length (w_out w) + 2 ≤ length F.
Proof.
  intros Hw Hv Ha. apply agree_tail in Ha; [|by apply writer_ok_length].
  split; [by apply load_u16_bytes|]. by apply bytes_at_length in Ha.
Qed.

Lemma read_pushed_u32 w v :
  writer_ok w → is_u32 v → agree (w_out (push w (put_u32 v))) F →
  load_u32 (E:=ParseError) F (length (w_out w)) = Ok v ∧ length (w_out w) + 4 ≤ length F.
Proof.
  intros Hw Hv Ha. apply agree_tail in Ha; [|by apply writer_ok_length].
  split; [by apply load_u32_bytes|]. by apply bytes_at_length in Ha.
Qed.
End read_back.

Lemma length_push_u16 w v : length (w_out (push w (put_u16 v))) = length (w_out w) + 2.
Proof. cbn [push w_out]. by rewrite length_app. Qed.
Lemma length_push_u32 w v : length (w_out (push w (put_u32 v))) = length (w_out w) + 4.
Proof. cbn [push w_out]. by rewrite length_app. Qed.

Lemma grows_length w w' : grows w w' → length (w_out w) ≤ length (w_out w').
Proof. intros [Hp _ _ _]. by apply prefix_length. Qed.

Lemma written_name_length w n : length (w_out w) < length (w_out (write_name w n)).
Proof.
  unfold write_name. generalize (as_written n). generalize (labels n). intros ls. revert w.
  induction ls as [|l ls IH]; intros w text; cbn [write_labels];
    [|destruct text as [|t text]]; try (cbn [push w_out]; rewrite length_app; simpl; lia).
  destruct (if w_compress w then _ else _).
  - cbn [push w_out]. rewrite length_app. simpl. lia.
  - etrans; [|apply IH]. cbn [w_out]. rewrite !length_app. simpl. lia.
Qed.

(** ** Questions *)

Lemma question_ok w q : writer_ok w → question_wf q → writer_ok (write_question w q).
Proof. intros Hw (Hn & _ & _). unfold write_question. auto with dns. Qed.

Lemma read_written_question F w q :
  writer_ok w → question_wf q → agree (w_out (write_question w q)) F →
  ∃ q', read_question F (length (w_out w)) = Ok (q', length (w_out (write_question w q))) ∧
        question_eqb q' q = true.
Proof.
  intros Hw (Hn & Ht & Hc) Ha. unfold write_question in *.
  set (w1 := write_name w (q_qname q)) in *. assert (Hw1 : writer_ok w1) by (by apply writer_ok_name).
  set (w2 := push w1 _) in *. assert (Hw2 : writer_ok w2) by (by apply writer_ok_push).
  destruct (read_pushed_u16 F w2 _ Hw2 Hc Ha) as [Hr2 Hl2].
  assert (Ha2 : agree (w_out w2) F) by (eapply agree_grows; [apply grows_push|exact Ha]).
  destruct (read_pushed_u16 F w1 _ Hw1 Ht Ha2) as [Hr1 Hl1].
  destruct (read_written_name F w (q_qname q) Hw Hn) as (n' & Hr0 & Heq).
  { eapply agree_grows; [apply grows_push|exact Ha2]. }
  exists (mkQuestion n' (q_qtype q) (q_qclass q)). unfold read_question. rewrite Hr0. cbn [mbind outcome_bind].
  fold w1. unfold w2 in Hl2, Hr2. rewrite length_push_u16 in Hl2, Hr2.
  rewrite size_sub_Ok by lia. cbn [mbind outcome_bind]. rewrite decide_False by lia.
  rewrite Hr1, Hr2. cbn [mbind outcome_bind]. split.
  - repeat f_equal. unfold w2. rewrite !length_push_u16. lia.
  - unfold question_eqb. cbn. by rewrite Heq, !bool_decide_true.
Qed.

(** ** Record data *)

Lemma read_strings_back ss : ∀ pre acc fuel,
  Forall (λ s, bytes_wf s ∧ (zlen s ≤ 255)%Z) ss → length (suffix_key ss) < fuel →
  read_strings fuel (pre ++ suffix_key ss) (length pre) acc = Ok (RDataTXT (acc ++ ss)).
Proof.
  induction ss as [|s ss IH]; intros pre acc fuel Hss Hf; (destruct fuel as [|fuel]; [lia|]);
    cbn [read_strings].
  { rewrite !app_nil_r. by rewrite decide_False by lia. }
  inv Hss. rename select (_ ∧ _) into Hs. destruct Hs as [_ Hs].
  change (suffix_key (s :: ss)) with ((u8 (zlen s) :: s) ++ suffix_key ss) in *.
  rewrite u8_id in * by (unfold is_byte, zlen in *; lia).
  rewrite !length_app in *. simpl in Hf. rewrite decide_True by (simpl; lia).
  unfold byte_at. rewrite lookup_app_r, Nat.sub_diag by lia. cbn [app lookup list_lookup mbind outcome_bind].
  assert (Z.to_nat (zlen s) = length s) as -> by (unfold zlen; lia).
  rewrite size_sub_Ok by (simpl; lia). cbn [mbind outcome_bind].
  rewrite decide_False by (simpl; lia).
  replace (pre ++ zlen s :: s ++ suffix_key ss) with ((pre ++ [zlen s]) ++ s ++ suffix_key ss)
    by (by rewrite <-app_assoc).
  replace (length pre + 1) with (length (pre ++ [zlen s])) by (rewrite length_app; done).
  unfold subspan. rewrite decide_True by (rewrite !length_app; simpl; lia).
  rewrite drop_app_length, take_app_length. cbn [mbind outcome_bind].
  rewrite <-length_app, app_assoc, IH by (done || lia). by rewrite <-app_assoc.
Qed.

Lemma fold_push_out {A} (f : A → list Z) l : ∀ w,
  w_out (fold_left (λ w x, push w (f x)) l w) = w_out w ++ concat (map f l).
Proof.
  induction l as [|x l IH]; intros w; simpl; [by rewrite app_nil_r|].
  rewrite IH. cbn [push w_out]. by rewrite <-app_assoc.
Qed.

Lemma rdata_ok w type cls d : writer_ok w → rdata_wf type cls d → writer_ok (write_rdata w d).
Proof.
  intros Hw. destruct d; cbn [rdata_wf write_rdata]; intros; destruct_and?; auto 10 with dns.
Qed.

(** The data of [A], [AAAA] and opaque records, and of TXT records: bytes. *)
Lemma subspan_written F w bs :
  writer_ok w → agree (w_out w ++ bs) F → length (w_out w ++ bs) ≤ length F →
  subspan (E:=ParseError) F (length (w_out w)) (length (w_out w ++ bs) - length (w_out w)) = Ok bs.
Proof.
  intros Hw Ha Hl. rewrite length_app in *. rewrite Nat.add_comm, Nat.add_sub.
  apply subspan_bytes; [lia|]. apply agree_tail; [by apply writer_ok_length|done].
Qed.

Lemma name_rdata_back F w mk n :
  writer_ok w → name_wf n → agree (w_out (write_name w n)) F →
  ∃ n', name_rdata mk F (length (w_out w)) (length (w_out (write_name w n))) = Ok (mk n') ∧
        name_eqb n' n = true.
Proof.
  intros Hw Hn Ha. destruct (read_written_name F w n Hw Hn Ha) as (n' & Hr & Heq).
  exists n'. split; [|done]. unfold name_rdata. rewrite Hr. cbn [mbind outcome_bind].
  by rewrite decide_False by lia.
Qed.

Lemma mx_back F w p n :
  writer_ok w → is_u16 p → name_wf n → agree (w_out (write_rdata w (RDataMX p n))) F →
  ∃ n', load_u16 (E:=ParseError) F (length (w_out w)) = Ok p ∧
    read_name F (length (w_out w) + 2) = Ok (n', length (w_out (write_rdata w (RDataMX p n)))) ∧
    name_eqb n' n = true.
Proof.
  intros Hw Hp Hn Ha. cbn [write_rdata] in *.
  destruct (read_written_name F (push w (put_u16 p)) n) as (n' & Hr & Heq); [auto with dns|done|done|].
  exists n'. rewrite length_push_u16 in Hr. split_and!; [|done|done].
  apply read_pushed_u16; [done|done|]. eapply agree_grows; [apply grows_write_name|done].
Qed.

Lemma bytes_at_put_u32s F p vs : Forall is_u32 vs → bytes_at F p (concat (map put_u32 vs)) →
  ∀ i v, vs !! i = Some v → load_u32 (E:=ParseError) F (p + 4 * i) = Ok v.
Proof.
  intros Hvs Hb i v Hi. apply load_u32_bytes; [by eapply Forall_lookup_1|].
  revert p i Hb Hi. induction vs as [|x vs IH]; intros p i Hb Hi; [done|].
  cbn [map concat] in Hb. apply bytes_at_app in Hb as [Hx Hb]. inv Hvs.
  destruct i as [|i]; simpl in Hi.
  - injection Hi as ->. by rewrite Nat.mul_0_r, Nat.add_0_r.
  - replace (p + 4 * S i) with (p + length (put_u32 x) + 4 * i) by (rewrite put_u32_length; lia).
    by apply IH.
Qed.

Lemma soa_back F w m r vs :
  writer_ok w → name_wf m → name_wf r → Forall is_u32 vs →
  let w2 := write_name (write_name w m) r in
  agree (w_out (fold_left (λ w v, push w (put_u32 v)) vs w2)) F →
  ∃ m' r' p, read_name F (length (w_out w)) = Ok (m', p) ∧
    read_name F p = Ok (r', length (w_out w2)) ∧ name_eqb m' m = true ∧ name_eqb r' r = true ∧
    ∀ i v, vs !! i = Some v → load_u32 (E:=ParseError) F (length (w_out w2) + 4 * i) = Ok v.
Proof.
  intros Hw Hm Hr Hvs w2 Ha.
  assert (Hw1 : writer_ok (write_name w m)) by auto with dns.
  assert (Hw2 : writer_ok w2) by (unfold w2; auto with dns).
  assert (Ha2 : agree (w_out w2) F).
  { eapply agree_grows; [apply (grows_fold (λ w v, push w (put_u32 v)) vs)|exact Ha]. intros. apply grows_push. }
  destruct (read_written_name F w m Hw Hm) as (m' & Hrm & Hem).
  { eapply agree_grows; [apply grows_write_name|exact Ha2]. }
  destruct (read_written_name F (write_name w m) r Hw1 Hr Ha2) as (r' & Hrr & Her).
  exists m', r', (length (w_out (write_name w m))). split_and!; try done.
  apply bytes_at_put_u32s; [done|]. rewrite fold_push_out in Ha. apply agree_tail; [|done].
  by apply writer_ok_length.
Qed.

Lemma subspan_total F p n : p + n ≤ length F → subspan (E:=ParseError) F p n = Ok (take n (drop p F)).
Proof. intros. unfold subspan. by rewrite decide_True. Qed.

(** ** [read_rdata] on each type *)

(** Decide the type tests of [read_rdata], leaving the branch of type [t]. *)
Ltac dispatch t :=
  unfold read_rdata; rewrite subspan_total, bind_Ok by done;
  repeat match goal with
  | |- context [if ((t =? ?b) && ?c)%Z then _ else _] => destruct ((t =? b) && c)%Z eqn:?; try discriminate
  | |- context [if (t =? ?b)%Z then _ else _] => destruct (t =? b)%Z eqn:?; try discriminate
  end.

Section read_rdata_types.
Context (msg : list Z) (pos rdlen : nat) (cls : Z) (Hl : pos + rdlen ≤ length msg).
Let rdata := take rdlen (drop pos msg).

Lemma read_rdata_A : cls = 1%Z → rdlen = 4 → read_rdata msg pos rdlen RRType.A cls = Ok (RDataA rdata).
Proof. intros -> Hr. dispatch RRType.A. by rewrite decide_False by lia. Qed.

Lemma read_rdata_AAAA : cls = 1%Z → rdlen = 16 → read_rdata msg pos rdlen RRType.AAAA cls = Ok (RDataAAAA rdata).
Proof. intros -> Hr. dispatch RRType.AAAA. by rewrite decide_False by lia. Qed.

Lemma read_rdata_NS : read_rdata msg pos rdlen RRType.NS cls = name_rdata RDataNS msg pos (pos + rdlen).
Proof. by dispatch RRType.NS. Qed.

Lemma read_rdata_CNAME :
  read_rdata msg pos rdlen RRType.CNAME cls = name_rdata RDataCNAME msg pos (pos + rdlen).
Proof. by dispatch RRType.CNAME. Qed.

Lemma read_rdata_PTR : read_rdata msg pos rdlen RRType.PTR cls = name_rdata RDataPTR msg pos (pos + rdlen).
Proof. by dispatch RRType.PTR. Qed.

Lemma read_rdata_MX preference exchange :
  2 ≤ rdlen → load_u16 (E:=ParseError) msg pos = Ok preference →
  read_name msg (pos + 2) = Ok (exchange, pos + rdlen) →
  read_rdata msg pos rdlen RRType.MX cls = Ok (RDataMX preference exchange).
Proof.
  intros H2 Hp Hn. dispatch RRType.MX. rewrite decide_False by lia.
  rewrite Hp, bind_Ok, Hn, bind_Ok. cbv beta iota. by rewrite decide_False by lia.
Qed.

Lemma read_rdata_SOA mname rname p1 p2 serial refresh retry expire minimum :
  read_name msg pos = Ok (mname, p1) → read_name msg p1 = Ok (rname, p2) → pos + rdlen = p2 + 20 →
  (∀ i v, [serial; refresh; retry; expire; minimum] !! i = Some v →
     load_u32 (E:=ParseError) msg (p2 + 4 * i) = Ok v) →
  read_rdata msg pos rdlen RRType.SOA cls = Ok (RDataSOA mname rname serial refresh retry expire minimum).
Proof.
  intros Hm Hr Hp Hv. dispatch RRType.SOA. rewrite Hm, bind_Ok. cbv beta iota.
  rewrite Hr, bind_Ok. cbv beta iota. rewrite decide_False by lia. rewrite size_sub_Ok, bind_Ok by lia.
  rewrite decide_False by lia.
  pose proof (Hv 0 _ eq_refl) as Hv0. pose proof (Hv 1 _ eq_refl) as Hv1.
  pose proof (Hv 2 _ eq_refl) as Hv2. pose proof (Hv 3 _ eq_refl) as Hv3.
  pose proof (Hv 4 _ eq_refl) as Hv4. cbn [Nat.mul Nat.add] in Hv0, Hv1, Hv2, Hv3, Hv4.
  rewrite Nat.add_0_r in Hv0. by rewrite Hv0, Hv1, Hv2, Hv3, Hv4.
Qed.

Lemma read_rdata_TXT :
  read_rdata msg pos rdlen RRType.TXT cls = read_strings (S (length rdata)) rdata 0 [].
Proof. by dispatch RRType.TXT. Qed.

Lemma read_rdata_Raw type :
  (type = RRType.A ∨ type = RRType.AAAA → cls ≠ 1%Z) →
  type ∉ [RRType.NS; RRType.CNAME; RRType.PTR; RRType.MX; RRType.SOA; RRType.TXT; RRType.OPT] →
  read_rdata msg pos rdlen type cls = Ok (RDataRaw rdata).
Proof.
  intros Hc Ht. rewrite !not_elem_of_cons in Ht. destruct_and?. unfold read_rdata, kClassIN.
  rewrite subspan_total by done. cbn [mbind outcome_bind].
  rewrite (proj2 (Z.eqb_neq type RRType.NS)), (proj2 (Z.eqb_neq type RRType.CNAME)),
    (proj2 (Z.eqb_neq type RRType.PTR)), (proj2 (Z.eqb_neq type RRType.MX)),
    (proj2 (Z.eqb_neq type RRType.SOA)), (proj2 (Z.eqb_neq type RRType.TXT)) by done.
  destruct (type =? RRType.A)%Z eqn:E1; destruct (type =? RRType.AAAA)%Z eqn:E2;
    rewrite ?Z.eqb_eq in *; by rewrite ?(proj2 (Z.eqb_neq cls 1)) by auto.
Qed.
End read_rdata_types.

Lemma written_bytes F w bs :
  writer_ok w → agree (w_out w ++ bs) F → length (w_out w) + length bs ≤ length F →
  take (length bs) (drop (length (w_out w)) F) = bs.
Proof.
  intros Hw Ha Hl. apply bytes_at_take; [done|]. apply agree_tail; [by apply writer_ok_length|done].
Qed.

Lemma read_written_rdata F w type cls d n :
  writer_ok w → rdata_wf type cls d →
  length (w_out w) + n = length (w_out (write_rdata w d)) →
  length (w_out (write_rdata w d)) ≤ length F →
  agree (w_out (write_rdata w d)) F →
  ∃ d', read_rdata F (length (w_out w)) n type cls = Ok d' ∧ rdata_eqb d' d = true.
Proof.
  intros Hw Hd Hn Hl Ha.
  destruct d; cbn [rdata_wf] in Hd; destruct_and?; subst; cbn [write_rdata push w_out] in Ha, Hn, Hl;
    rewrite ?(fold_push_out (λ s, [u8 (zlen s)] ++ s)), ?length_app in *.
  - rewrite read_rdata_A by (done || lia). replace n with (length addr) by lia.
    rewrite written_bytes by (done || lia). eexists. by rewrite rdata_eqb_refl.
  - rewrite read_rdata_AAAA by (done || lia). replace n with (length addr) by lia.
    rewrite written_bytes by (done || lia). eexists. by rewrite rdata_eqb_refl.
  - rewrite read_rdata_NS, Hn by lia. destruct (name_rdata_back F w RDataNS nsdname) as (n' & -> & ?); eauto.
  - rewrite read_rdata_CNAME, Hn by lia.
    destruct (name_rdata_back F w RDataCNAME target) as (n' & -> & ?); eauto.
  - destruct (soa_back F w mname rname [serial; refresh; retry; expire; minimum])
      as (m' & r' & p & Hm & Hr & Hem & Her & Hv); [done..|by decompose_Forall|exact Ha|].
    exists (RDataSOA m' r' serial refresh retry expire minimum). split.
    + eapply read_rdata_SOA; [lia|done|done| |done]. rewrite Hn. cbn [fold_left]. rewrite !length_push_u32. lia.
    + simpl. by rewrite Hem, Her, bool_decide_true.
  - destruct (mx_back F w preference exchange) as (n' & Hp & Hr & Heq); [done..|].
    pose proof (written_name_length (push w (put_u16 preference)) exchange) as Hlt.
    rewrite length_push_u16 in Hlt. exists (RDataMX preference n'). split.
    + apply read_rdata_MX; [lia|lia|done|]. by rewrite Hn.
    + simpl. by rewrite Heq, bool_decide_true.
  - rewrite read_rdata_TXT by lia. change (concat (map _ strings)) with (suffix_key strings) in *.
    replace n with (length (suffix_key strings)) by lia. rewrite written_bytes by (done || lia).
    eexists. split; [apply (read_strings_back strings [] []); [done|lia]|]. apply rdata_eqb_refl.
  - rewrite read_rdata_PTR, Hn by lia.
    destruct (name_rdata_back F w RDataPTR ptrdname) as (n' & -> & ?); eauto.
  - rewrite read_rdata_Raw by (done || lia). replace n with (length data) by lia.
    rewrite written_bytes by (done || lia). eexists. by rewrite rdata_eqb_refl.
Qed.

(** ** Records *)

Lemma rr_head_ok w rr : writer_ok w → rr_wf rr → writer_ok (write_rr_head w rr).
Proof. intros Hw [Hn _ _ _ _]. unfold write_rr_head. auto 6 with dns. Qed.

Lemma rr_ok w rr : writer_ok w → rr_wf rr → writer_ok (write_rr w rr).
Proof.
  intros Hw Hr. destruct (write_rr_in_place w rr) as (rd & -> & _).
  eapply rdata_ok; [|apply Hr]. apply writer_ok_push. by apply rr_head_ok.
Qed.

Lemma question_length w q : length (w_out w) + 5 ≤ length (w_out (write_question w q)).
Proof.
  unfold write_question. rewrite !length_push_u16. pose proof (written_name_length w (q_qname q)). lia.
Qed.

Lemma rr_length w rr : length (w_out w) + 11 ≤ length (w_out (write_rr w rr)).
Proof.
  destruct (write_rr_in_place w rr) as (rd & _ & ->). rewrite !length_app, put_u16_length.
  unfold write_rr_head. rewrite length_push_u32, !length_push_u16.
  pose proof (written_name_length w (rr_name rr)). lia.
Qed.

Lemma sanitize_ttl_id ttl : (0 ≤ ttl < 2147483648)%Z → sanitize_ttl ttl = ttl.
Proof.
  intros Ht. unfold sanitize_ttl. replace (Z.land ttl 0x80000000) with 0%Z; [done|].
  symmetry. apply Z.bits_inj'. intros i Hi. rewrite Z.land_spec, Z.bits_0.
  change 0x80000000%Z with (Z.shiftl 1 31). destruct (Z.lt_ge_cases i 31).
  - by rewrite (Z.shiftl_spec_low 1), andb_false_r.
  - destruct (Z.eq_dec ttl 0) as [->|]; [by rewrite Z.testbit_0_l|].
    rewrite (Z.bits_above_log2 ttl); [done|lia|].
    apply Z.log2_lt_pow2; [lia|]. pose proof (Z.pow_le_mono_r 2 31 i). lia.
Qed.

(** The fixed part of a record: owner, type, class, TTL. *)
Lemma read_written_head F w rr :
  writer_ok w → rr_wf rr → agree (w_out (write_rr_head w rr)) F →
  ∃ n' p, read_name F (length (w_out w)) = Ok (n', p) ∧ name_eqb n' (rr_name rr) = true ∧
    length (w_out (write_rr_head w rr)) = p + 8 ∧
    load_u16 (E:=ParseError) F p = Ok (rr_type rr) ∧ load_u16 (E:=ParseError) F (p + 2) = Ok (rr_cls rr) ∧
    load_u32 (E:=ParseError) F (p + 4) = Ok (rr_ttl rr).
Proof.
  intros Hw [Hn Ht Hc Httl _] Ha. unfold write_rr_head in *.
  set (w1 := write_name w (rr_name rr)) in *. assert (Hw1 : writer_ok w1) by (by apply writer_ok_name).
  set (w2 := push w1 _) in *. assert (Hw2 : writer_ok w2) by (by apply writer_ok_push).
  set (w3 := push w2 _) in *. assert (Hw3 : writer_ok w3) by (by apply writer_ok_push).
  destruct (read_pushed_u32 F w3 (rr_ttl rr) Hw3 ltac:(unfold is_u32; lia) Ha) as [Hr3 _].
  assert (Ha3 : agree (w_out w3) F) by (eapply agree_grows; [apply grows_push|exact Ha]).
  destruct (read_pushed_u16 F w2 _ Hw2 Hc Ha3) as [Hr2 _].
  assert (Ha2 : agree (w_out w2) F) by (eapply agree_grows; [apply grows_push|exact Ha3]).
  destruct (read_pushed_u16 F w1 _ Hw1 Ht Ha2) as [Hr1 _].
  destruct (read_written_name F w (rr_name rr) Hw Hn) as (n' & Hr0 & Heq).
  { eapply agree_grows; [apply grows_push|exact Ha2]. }
  assert (Hl2 : length (w_out w2) = length (w_out w1) + 2) by apply length_push_u16.
  assert (Hl3 : length (w_out w3) = length (w_out w1) + 4) by (unfold w3; rewrite length_push_u16; lia).
  rewrite Hl2 in Hr2. rewrite Hl3 in Hr3.
  exists n', (length (w_out w1)). split_and!; try done. rewrite length_push_u32. lia.
Qed.

Lemma read_written_rr F w rr add out edns :
  let w' := write_rr w rr in
  writer_ok w → rr_wf rr → agree (w_out w') F → length (w_out w') ≤ length F →
  (zlen (w_out w') < 65536)%Z →
  ∃ rr', read_record F add (length (w_out w)) out edns = Ok (length (w_out w'), out ++ [rr'], edns) ∧
         rr_eqb rr' rr = true.
Proof.
  intros w' Hw Hrr Ha Hl Hsz. destruct (write_rr_in_place w rr) as (rd & Heq & Hout).
  set (w1 := write_rr_head w rr) in *. assert (Hw1 : writer_ok w1) by (by apply rr_head_ok).
  set (w2 := push w1 _) in *. assert (Hw2 : writer_ok w2) by (by apply writer_ok_push).
  assert (Hlen : length (w_out w') = length (w_out w2) + length rd).
  { subst w'. rewrite Hout, !length_app, put_u16_length. unfold w2. rewrite length_push_u16. lia. }
  assert (Hl2 : length (w_out w2) = length (w_out w1) + 2) by apply length_push_u16.
  assert (Hrd : is_u16 (zlen rd)) by (unfold is_u16, zlen in *; lia).
  assert (Ha2 : agree (w_out w2) F).
  { eapply agree_prefix; [|exact Ha]. subst w'. rewrite Heq. apply grows_write_rdata. }
  unfold w2 in Ha2. rewrite u16_id in Ha2 by done.
  destruct (read_pushed_u16 F w1 _ Hw1 Hrd Ha2) as [Hr2 _].
  destruct (read_written_head F w rr Hw Hrr) as (n' & p & Hn & Hne & Hp & Ht & Hc & Httl).
  { eapply agree_grows; [apply grows_push|exact Ha2]. }
  fold w1 in Hp. rewrite Hp in *.
  destruct (read_written_rdata F w2 (rr_type rr) (rr_cls rr) (rr_rdata rr) (length rd))
    as (d' & Hd & Hde); [done|apply Hrr|by rewrite <-Heq|by rewrite <-Heq|by rewrite <-Heq|].
  exists (mkRR n' (rr_type rr) (rr_cls rr) (rr_ttl rr) d' TrustRank.Additional). split.
  - unfold read_record, kRRFixedSize. rewrite Hn, bind_Ok. cbv beta iota.
    rewrite (size_sub_Ok (length F) p), bind_Ok by lia. rewrite decide_False by lia.
    rewrite Ht, bind_Ok, Hc, bind_Ok, Httl, bind_Ok, Hr2, bind_Ok.
    rewrite size_sub_Ok, bind_Ok by lia. assert (Z.to_nat (zlen rd) = length rd) as -> by (unfold zlen; lia).
    rewrite decide_False by lia. rewrite (proj2 (Z.eqb_neq _ _)).
    + replace (p + 10) with (length (w_out w2)) by lia. rewrite Hd, bind_Ok.
      rewrite sanitize_ttl_id by apply Hrr. by rewrite <-Hlen.
    + pose proof (rwf_rdata _ Hrr) as Hw'. destruct (rr_rdata rr); simpl in Hw'; destruct_and?;
        try (match goal with H : rr_type rr = _ |- _ => by rewrite H end).
      rewrite !not_elem_of_cons in *. tauto.
  - unfold rr_eqb. cbn. by rewrite Hne, Hde, !bool_decide_true.
Qed.

(** ** Sections *)

Lemma questions_ok qs : ∀ w, writer_ok w → Forall question_wf qs → writer_ok (fold_left write_question qs w).
Proof. induction qs; intros w Hw Hq; inv Hq; simpl; auto using question_ok. Qed.

Lemma rrs_ok rrs : ∀ w, writer_ok w → Forall rr_wf rrs → writer_ok (fold_left write_rr rrs w).
Proof. induction rrs; intros w Hw Hq; inv Hq; simpl; auto using rr_ok. Qed.

Lemma questions_length qs : ∀ w,
  length (w_out w) + 5 * length qs ≤ length (w_out (fold_left write_question qs w)).
Proof.
  induction qs as [|q qs IH]; intros w; simpl; [lia|].
  specialize (IH (write_question w q)). pose proof (question_length w q). lia.
Qed.

Lemma rrs_length rrs : ∀ w,
  length (w_out w) + 11 * length rrs ≤ length (w_out (fold_left write_rr rrs w)).
Proof.
  induction rrs as [|r rrs IH]; intros w; simpl; [lia|].
  specialize (IH (write_rr w r)). pose proof (rr_length w r). lia.
Qed.

Section read_sections.
Context (F : list Z).

Lemma read_written_questions qs : ∀ w out,
  let w' := fold_left write_question qs w in
  writer_ok w → Forall question_wf qs → agree (w_out w') F →
  ∃ qs', read_questions F (length qs) (length (w_out w)) out = Ok (length (w_out w'), out ++ qs') ∧
         vector_eqb question_eqb qs' qs = true.
Proof.
  induction qs as [|q qs IH]; intros w out w' Hw Hqs Ha.
  { exists []. by rewrite app_nil_r. }
  inv Hqs. subst w'. cbn [fold_left length read_questions] in *.
  destruct (read_written_question F w q) as (q' & -> & Hq); [done|done| |].
  { eapply agree_grows; [|exact Ha]. apply grows_fold, grows_write_question. }
  rewrite bind_Ok. cbv beta iota.
  destruct (IH (write_question w q) (out ++ [q'])) as (qs' & Hr & Heq); [by apply question_ok|done|done|].
  exists (q' :: qs'). rewrite Hr, <-app_assoc. split; [done|]. simpl. by rewrite Hq, Heq.
Qed.

Lemma read_written_section rrs : ∀ w add out edns,
  let w' := fold_left write_rr rrs w in
  writer_ok w → Forall rr_wf rrs → agree (w_out w') F → length (w_out w') ≤ length F →
  (zlen (w_out w') < 65536)%Z →
  ∃ rrs', read_section F (length rrs) add (length (w_out w)) out edns
            = Ok (length (w_out w'), out ++ rrs', edns) ∧
          vector_eqb rr_eqb rrs' rrs = true.
Proof.
  induction rrs as [|r rrs IH]; intros w add out edns w' Hw Hrs Ha Hl Hz.
  { exists []. by rewrite app_nil_r. }
  inv Hrs. subst w'. cbn [fold_left length read_section] in *.
  pose proof (rrs_length rrs (write_rr w r)) as Hlen.
  destruct (read_written_rr F w r add out edns) as (r' & -> & Hr);
    [done|done| |lia|unfold zlen in *; lia|].
  { eapply agree_grows; [|exact Ha]. apply grows_fold, grows_write_rr. }
  rewrite bind_Ok. cbv beta iota.
  destruct (IH (write_rr w r) add (out ++ [r']) edns) as (rs' & Hrs & Heq); [by apply rr_ok|done..|].
  exists (r' :: rs'). rewrite Hrs, <-app_assoc. split; [done|]. simpl. by rewrite Hr, Heq.
Qed.

Lemma read_section_app n1 n2 add pos out edns :
  read_section F (n1 + n2) add pos out edns =
  '(pos, out, edns) ← read_section F n1 add pos out edns; read_section F n2 add pos out edns.
Proof.
  revert pos out edns. induction n1 as [|n1 IH]; intros pos out edns; [done|]. cbn [Nat.add read_section].
  destruct (read_record F add pos out edns) as [[[p o] e]| |]; [|done..]. rewrite !bind_Ok. apply IH.
Qed.
End read_sections.

(** ** The OPT record *)

Lemma opt_ttl e : edns_wf e →
  let ttl := Z.lor (Z.lor (Z.shiftl (e_extended_rcode e) 24) (Z.shiftl (e_version e) 16))
               (if e_dnssec_ok e then 0x8000 else 0)%Z in
  is_u32 ttl ∧ u8 (Z.shiftr ttl 24) = e_extended_rcode e ∧ u8 (Z.shiftr ttl 16) = e_version e ∧
  negb (Z.land ttl 0x8000 =? 0)%Z = e_dnssec_ok e.
Proof.
  intros (_ & Hr & Hv) ttl. unfold is_byte in *.
  set (d := if e_dnssec_ok e then 0x8000%Z else 0%Z) in *.
  assert (Hd : (0 ≤ d < 65536)%Z) by (unfold d; destruct (e_dnssec_ok e); lia).
  assert (Httl : ttl = (e_extended_rcode e * 16777216 + e_version e * 65536 + d)%Z).
  { unfold ttl. replace (Z.shiftl (e_extended_rcode e) 24)
      with (Z.shiftl (Z.shiftl (e_extended_rcode e) 8) 16) by (rewrite Z.shiftl_shiftl by lia; done).
    rewrite <-Z.shiftl_lor, !lor_shiftl_add by lia. lia. }
  rewrite Httl. unfold is_u32, u8. rewrite !Z.shiftr_div_pow2 by lia.
  change (2 ^ 24)%Z with 16777216%Z. change (2 ^ 16)%Z with 65536%Z.
  split_and!; try (Z.div_mod_to_equations; lia).
  replace (Z.land _ 0x8000) with d; [unfold d; by destruct (e_dnssec_ok e)|].
  symmetry. rewrite <-Httl. unfold ttl. rewrite !Z.land_lor_distr_l.
  replace (Z.land (Z.shiftl (e_extended_rcode e) 24) 0x8000) with 0%Z;
    [replace (Z.land (Z.shiftl (e_version e) 16) 0x8000) with 0%Z|]; [unfold d; by destruct (e_dnssec_ok e)|..];
    symmetry; apply Z.bits_inj'; intros i Hi; rewrite Z.land_spec, Z.bits_0;
    change 0x8000%Z with (2 ^ 15)%Z; rewrite Z.pow2_bits_eqb by lia;
    (destruct (Z.eqb_spec 15 i); [subst i|by rewrite andb_false_r]); by rewrite Z.shiftl_spec_low.
Qed.

Lemma read_written_opt F p e out :
  kHeaderSize ≤ p → edns_wf e → bytes_at F p (write_opt e) →
  read_section F 1 true p out None = Ok (p + 11, out, Some e).
Proof.
  intros Hp He Hb. destruct (opt_ttl e He) as (Httl & Hr & Hv & Hd).
  pose proof (bytes_at_length _ _ _ Hb ltac:(done)) as Hlen. change (length (write_opt e)) with 11 in Hlen.
  unfold write_opt in Hb. rewrite !bytes_at_app, !put_u16_length, put_u32_length in Hb.
  cbn [length] in Hb. destruct Hb as ([H0 _]%bytes_at_cons & Ht & Hc & Hl & Hz).
  assert (Hn : read_name F p = Ok (root_name, p + 1)).
  { unfold read_name. change read_name_fuel with (S 255). generalize 255. intros fuel.
    cbn [read_name_loop]. rewrite decide_False by lia. unfold byte_at. by rewrite H0. }
  cbn [read_section]. unfold read_record, kRRFixedSize. rewrite Hn, bind_Ok. cbv beta iota.
  rewrite (size_sub_Ok (length F) (p + 1)), bind_Ok by lia. rewrite decide_False by lia.
  rewrite (load_u16_bytes F (p + 1) RRType.OPT) by (done || (unfold is_u16, RRType.OPT; lia)). rewrite bind_Ok.
  rewrite (load_u16_bytes F (p + 1 + 2) (e_udp_payload_size e)) by (done || apply He). rewrite bind_Ok.
  replace (p + 1 + 2 + 2) with (p + 1 + 4) in Hl by lia. rewrite (load_u32_bytes _ _ _ Httl Hl), bind_Ok.
  replace (p + 1 + 2 + 2 + 4) with (p + 1 + 8) in Hz by lia.
  rewrite (load_u16_bytes F (p + 1 + 8) 0) by (done || (unfold is_u16; lia)). rewrite bind_Ok.
  rewrite size_sub_Ok, bind_Ok by lia. rewrite decide_False by lia.
  cbn [Z.eqb RRType.OPT Pos.eqb negb orb bool_decide label_count].
  rewrite bool_decide_false by (by intros []). cbn [label_count root_name labels length Nat.eqb negb orb].
  rewrite subspan_total, bind_Ok by lia. cbn [Z.to_nat take]. rewrite Nat.add_0_r.
  unfold parse_opt. cbn [length check_options]. rewrite decide_False by (simpl; lia). rewrite !bind_Ok.
  cbv beta iota. rewrite Hr, Hv, Hd. replace (p + 1 + 10) with (p + 11) by lia. by destruct e.
Qed.

(** ** The header *)

Lemma header_flags qr aa tc rd ra ad cd opcode rcode :
  (0 ≤ opcode < 16)%Z → (0 ≤ rcode < 16)%Z →
  let h := mkHeader 0 qr opcode aa tc rd ra ad cd rcode 0 0 0 0 in
  let b2 := header_byte2 h in let b3 := header_byte3 h in
  (bit_set b2 0x80, Z.land (Z.shiftr b2 3) 0x0F, bit_set b2 0x04, bit_set b2 0x02, bit_set b2 0x01)
    = (qr, opcode, aa, tc, rd) ∧
  (bit_set b3 0x80, bit_set b3 0x20, bit_set b3 0x10, Z.land b3 0x0F) = (ra, ad, cd, rcode).
Proof.
  assert (Hall : ∀ n, n < 16 → ∀ qr aa tc rd ra ad cd, let o := Z.of_nat n in
    let h := mkHeader 0 qr o aa tc rd ra ad cd o 0 0 0 0 in
    let b2 := header_byte2 h in let b3 := header_byte3 h in
    (bit_set b2 0x80, Z.land (Z.shiftr b2 3) 0x0F, bit_set b2 0x04, bit_set b2 0x02, bit_set b2 0x01)
      = (qr, o, aa, tc, rd) ∧
    (bit_set b3 0x80, bit_set b3 0x20, bit_set b3 0x10, Z.land b3 0x0F) = (ra, ad, cd, o)).
  { do 16 (destruct n as [|n]; [intros _ [] [] [] [] [] [] []; by vm_compute|]). lia. }
  intros Ho Hr. split.
  - pose proof (proj1 (Hall (Z.to_nat opcode) ltac:(lia) qr aa tc rd ra ad cd)) as H.
    by rewrite Z2Nat.id in H by lia.
  - pose proof (proj2 (Hall (Z.to_nat rcode) ltac:(lia) qr aa tc rd ra ad cd)) as H.
    by rewrite Z2Nat.id in H by lia.
Qed.

Lemma write_header_bytes out h : kHeaderSize ≤ length out →
  write_header out h = put_u16 (h_id h) ++ [header_byte2 h; header_byte3 h] ++
    put_u16 (h_qdcount h) ++ put_u16 (h_ancount h) ++ put_u16 (h_nscount h) ++
    put_u16 (h_arcount h) ++ drop kHeaderSize out.
Proof.
  intros Hl. unfold kHeaderSize in *. do 12 (destruct out as [|? out]; [simpl in Hl; lia|]). done.
Qed.

Lemma write_header_agree out h : kHeaderSize ≤ length out → agree out (write_header out h).
Proof.
  intros Hl i b Hi Hb. rewrite write_header_bytes by done. unfold kHeaderSize in *.
  do 12 (destruct i as [|i]; [lia|]). change (drop 12 out !! i = Some b).
  by rewrite lookup_drop.
Qed.

Lemma parse_written_header out h :
  kHeaderSize ≤ length out → header_wf h → parse_header (write_header out h) = Ok h.
Proof.
  intros Hl [Hid Hop Hrc Hqd Han Hns Har]. unfold parse_header. rewrite write_header_length, decide_False by lia.
  rewrite write_header_bytes by done.
  destruct h as [id qr opcode aa tc rd ra ad cd rcode qd an ns ar]. cbn [h_id h_opcode h_rcode h_qdcount
    h_ancount h_nscount h_arcount] in *.
  destruct (header_flags qr aa tc rd ra ad cd opcode rcode Hop Hrc) as [H2 H3].
  unfold load_u16, byte_at. cbn [put_u16 app lookup list_lookup Nat.add mbind outcome_bind].
  rewrite !be16_value by auto with dns. rewrite !u16_split by done.
  set (b2 := header_byte2 _) in H2. set (b3 := header_byte3 _) in H3.
  change (header_byte2 _) with b2. change (header_byte3 _) with b3. simplify_eq. congruence.
Qed.

(** ** The whole message *)

(** A message whose members are in range; the counts of its header are not
    used, since [build] writes its own. *)
Record encodable (m : Message) : Prop := {
  en_id : is_u16 (h_id (m_header m));
  en_opcode : (0 ≤ h_opcode (m_header m) < 16)%Z;
  en_rcode : (0 ≤ h_rcode (m_header m) < 16)%Z;
  en_questions : Forall question_wf (m_questions m);
  en_answers : Forall rr_wf (m_answers m);
  en_authority : Forall rr_wf (m_authority m);
  en_additional : Forall rr_wf (m_additional m);
  en_edns : from_option edns_wf True (m_edns m);
}.

(** What a reader should get when only these sections were written. *)
Definition sent (m : Message) (tc : bool) (qs : list Question) (an ns ar : list RR) : Message :=
  mkMessage (set_counts (m_header m) tc (zlen qs) (zlen an) (zlen ns)
               (zlen ar + Z.of_nat (edns_count (m_edns m)))%Z)
    qs an ns ar (m_edns m).

(** The size of what was written, at least. *)
Lemma written_length c qs rrs e :
  let w := fold_left write_rr rrs (fold_left write_question qs (empty_writer c)) in
  12 + 5 * length qs + 11 * (length rrs + edns_count e) ≤ length (w_out w ++ opt_bytes e).
Proof.
  intros w. rewrite length_app. pose proof (rrs_length rrs (fold_left write_question qs (empty_writer c))) as H1.
  pose proof (questions_length qs (empty_writer c)) as H2. change (length (w_out (empty_writer c))) with 12 in H2.
  assert (length (opt_bytes e) = 11 * edns_count e) by (by destruct e). subst w. lia.
Qed.

Lemma read_written_additional F w ar e :
  let w' := fold_left write_rr ar w in
  writer_ok w → Forall rr_wf ar → from_option edns_wf True e →
  agree (w_out w' ++ opt_bytes e) F → length (w_out w') ≤ length F → (zlen (w_out w') < 65536)%Z →
  ∃ ar' p, read_section F (length ar + edns_count e) true (length (w_out w)) [] None = Ok (p, ar', e) ∧
           vector_eqb rr_eqb ar' ar = true.
Proof.
  intros w' Hw Har He Ha Hl Hz.
  destruct (read_written_section F ar w true [] None) as (ar' & Hr & Heq); [done|done| |done..|].
  { eapply agree_prefix; [|exact Ha]. by eexists. }
  rewrite read_section_app, Hr, bind_Ok. cbv beta iota. destruct e as [e|]; [|by eauto].
  exists ar'. eexists. split; [|exact Heq]. simpl in He. apply read_written_opt; [|done|].
  - eapply writer_ok_length. by apply rrs_ok.
  - apply agree_tail; [|done]. apply writer_ok_length. by apply rrs_ok.
Qed.

(** [parse] from the results of its stages. *)
Lemma parse_stages F h nq na nn nr p1 p2 p3 p4 qs an ns ar e :
  parse_header F = Ok h → kHeaderSize + 5 * nq + 11 * (na + (nn + nr)) ≤ length F →
  h_qdcount h = Z.of_nat nq → h_ancount h = Z.of_nat na → h_nscount h = Z.of_nat nn →
  h_arcount h = Z.of_nat nr →
  read_questions F nq kHeaderSize [] = Ok (p1, qs) →
  read_section F na false p1 [] None = Ok (p2, an, None) →
  read_section F nn false p2 [] None = Ok (p3, ns, None) →
  read_section F nr true p3 [] None = Ok (p4, ar, e) →
  parse F = Ok (mkMessage h qs an ns ar e).
Proof.
  intros Hh Hl Eq Ea En Er Rq Ra Rn Rr. unfold parse. rewrite Hh, bind_Ok.
  rewrite size_sub_Ok, bind_Ok by lia. rewrite Eq, Ea, En, Er.
  rewrite (proj2 (Z.ltb_ge _ _)) by (unfold kMinQuestionSize, kMinRRSize; lia).
  rewrite !Nat2Z.id, Rq, bind_Ok. cbv beta iota. rewrite Ra, bind_Ok. cbv beta iota.
  rewrite Rn, bind_Ok. cbv beta iota. by rewrite Rr.
Qed.

Lemma parse_written m tc c qs an ns ar :
  let m' := sent m tc qs an ns ar in
  let w := fold_left write_rr (an ++ ns ++ ar) (fold_left write_question qs (empty_writer c)) in
  encodable m' → (zlen (w_out w) + zlen (opt_bytes (m_edns m)) < 65536)%Z →
  ∃ m'', parse (write_header (w_out w ++ opt_bytes (m_edns m)) (m_header m')) = Ok m'' ∧
         message_eqb m'' m' = true.
Proof.
  intros m' w [Hid Hop Hrc Hqs Han Hns Har He] Hsz.
  pose proof (written_length c qs (an ++ ns ++ ar) (m_edns m)) as Hlen. fold w in Hlen. cbv zeta in Hlen.
  rewrite (length_app an), (length_app ns) in Hlen. rewrite <-zlen_app in Hsz.
  assert (Hhw : header_wf (m_header m')).
  { split; try done; cbn [m' sent m_header set_counts h_qdcount h_ancount h_nscount h_arcount];
      unfold is_u16, zlen in *; lia. }
  set (F := write_header _ _).
  assert (HF : length F = length (w_out w ++ opt_bytes (m_edns m))) by apply write_header_length.
  assert (Hagree : agree (w_out w ++ opt_bytes (m_edns m)) F).
  { apply write_header_agree. unfold kHeaderSize. lia. }
  unfold zlen in Hsz. rewrite length_app in Hsz, HF.
  set (w0 := empty_writer c) in *. set (w1 := fold_left write_question qs w0) in *.
  assert (Hw1 : writer_ok w1) by (apply questions_ok; [apply empty_writer_ok|done]).
  set (w2 := fold_left write_rr an w1). assert (Hw2 : writer_ok w2) by (by apply rrs_ok).
  set (w3 := fold_left write_rr ns w2). assert (Hw3 : writer_ok w3) by (by apply rrs_ok).
  assert (Hw : w = fold_left write_rr ar w3) by (unfold w; by rewrite !fold_left_app).
  assert (Hg3 : grows w3 w) by (rewrite Hw; apply grows_fold, grows_write_rr).
  assert (Hg2 : grows w2 w3) by (apply grows_fold, grows_write_rr).
  assert (Hg1 : grows w1 w2) by (apply grows_fold, grows_write_rr).
  assert (Ha3 : agree (w_out w3) F).
  { eapply agree_grows; [exact Hg3|]. eapply agree_prefix; [by eexists|exact Hagree]. }
  assert (Ha2 : agree (w_out w2) F) by (by eapply agree_grows).
  assert (Ha1 : agree (w_out w1) F) by (by eapply agree_grows).
  apply grows_length in Hg1, Hg2, Hg3. unfold zlen.
  destruct (read_written_questions F qs w0 []) as (qs' & Rq & Eq); [apply empty_writer_ok|done|done|].
  destruct (read_written_section F an w1 false [] None) as (an' & Ran & Ean); [done|done|done|fold w2; lia|fold w2; unfold zlen; lia|].
  destruct (read_written_section F ns w2 false [] None) as (ns' & Rns & Ens); [done|done|done|fold w3; lia|fold w3; unfold zlen; lia|].
  destruct (read_written_additional F w3 ar (m_edns m)) as (ar' & p & Rar & Ear);
    [done|done|done|by rewrite <-Hw|rewrite <-Hw; lia|rewrite <-Hw; unfold zlen; lia|].
  exists (mkMessage (m_header m') qs' an' ns' ar' (m_edns m)). split.
  - eapply parse_stages; [apply parse_written_header|..|exact Rq|exact Ran|exact Rns|exact Rar];
      try done; [unfold kHeaderSize; lia| |cbn; unfold zlen; lia].
    rewrite length_app in Hlen. fold F. unfold kHeaderSize. lia.
  - unfold message_eqb. cbn [sent m' m_header m_questions m_answers m_authority m_additional m_edns].
    by rewrite Eq, Ean, Ens, Ear, !bool_decide_true.
Qed.

(** ** When everything fits *)

Lemma write_questions_fits limit qs : ∀ w count,
  is_u16 count → (zlen (w_out (fold_left write_question qs w)) ≤ limit)%Z →
  write_questions w limit qs count = (fold_left write_question qs w, u16 (count + zlen qs), false).
Proof.
  induction qs as [|q qs IH]; intros w count Hc Hfit; cbn [write_questions].
  { cbn. by rewrite Z.add_0_r, u16_id. }
  pose proof (questions_length qs (write_question w q)). cbn [fold_left] in *.
  rewrite (proj2 (Z.ltb_ge _ _)) by (unfold zlen in *; lia).
  rewrite IH, u16_step by (done || apply u16_range). repeat f_equal. unfold zlen. simpl. lia.
Qed.

Lemma write_section_fits limit rrs w :
  writer_wf w → (zlen (w_out (fold_left write_rr rrs w)) ≤ limit)%Z →
  write_section (length rrs) w limit rrs 0 = (fold_left write_rr rrs w, u16 (zlen rrs), true).
Proof.
  remember (length rrs) as fuel eqn:Hf. apply eq_sym, Nat.eq_le_incl in Hf.
  replace (zlen rrs) with (0 + zlen rrs)%Z by lia.
  assert (Hc : is_u16 0) by (unfold is_u16; lia). revert Hc. generalize 0%Z as count. revert rrs w Hf.
  induction fuel as [|fuel IH]; intros rrs w Hf count Hc Hw Hfit;
    (destruct rrs as [|first rest]; [cbn; by rewrite Z.add_0_r, u16_id|]); [simpl in Hf; lia|].
  cbn [write_section]. set (j := S (run_length first rest)).
  rewrite <-(take_drop j (first :: rest)) in Hfit at 1. rewrite fold_left_app in Hfit.
  pose proof (rrs_length (drop j (first :: rest)) (fold_left write_rr (take j (first :: rest)) w)).
  rewrite (proj2 (Z.ltb_ge _ _)) by (unfold zlen in *; lia).
  rewrite IH; [|rewrite length_drop; simpl in *; lia|apply u16_range| |done].
  - rewrite <-fold_left_app, take_drop, u16_step. do 3 f_equal.
    assert (run_length first rest ≤ length rest).
    { clear. induction rest as [|x rest IHr]; simpl; [lia|]. case_match; lia. }
    unfold zlen, j. rewrite length_drop. simpl. lia.
  - eapply grows_wf; [exact Hw|]. apply grows_fold, grows_write_rr.
Qed.

(** What the whole message takes when nothing is dropped. *)
Definition full_size (m : Message) (compress : bool) : Z :=
  zlen (w_out (fold_left write_rr (m_answers m ++ m_authority m ++ m_additional m)
                 (fold_left write_question (m_questions m) (empty_writer compress))) ++
        opt_bytes (m_edns m)).

Lemma build_message_fits m max_size c : (full_size m c ≤ max_size)%Z →
  build_message m max_size c =
    write_header (w_out (fold_left write_rr (m_answers m ++ m_authority m ++ m_additional m)
                    (fold_left write_question (m_questions m) (empty_writer c))) ++ opt_bytes (m_edns m))
      (set_counts (m_header m) (h_tc (m_header m)) (u16 (zlen (m_questions m))) (u16 (zlen (m_answers m)))
         (u16 (zlen (m_authority m))) (u16 (zlen (m_additional m) + Z.of_nat (edns_count (m_edns m))))).
Proof.
  unfold full_size, build_message. fold (empty_writer c). rewrite !fold_left_app, zlen_app, opt_bytes_length.
  set (limit := (max_size - _)%Z).
  set (w1 := fold_left write_question (m_questions m) (empty_writer c)).
  set (w2 := fold_left write_rr (m_answers m) w1). set (w3 := fold_left write_rr (m_authority m) w2).
  set (w4 := fold_left write_rr (m_additional m) w3). intros Hfit.
  assert (Hl : (zlen (w_out w4) ≤ limit)%Z) by (unfold limit; lia).
  assert (Hw1 : writer_wf w1).
  { eapply grows_wf; [apply (empty_writer_wf c)|apply (grows_message _ (m_questions m) [])]. }
  assert (Hw2 : writer_wf w2) by (eapply grows_wf, grows_fold, grows_write_rr; done).
  assert (Hw3 : writer_wf w3) by (eapply grows_wf, grows_fold, grows_write_rr; done).
  pose proof (rrs_length (m_answers m) w1) as Hn2. pose proof (rrs_length (m_authority m) w2) as Hn3.
  pose proof (rrs_length (m_additional m) w3) as Hn4. fold w2 in Hn2. fold w3 in Hn3. fold w4 in Hn4.
  rewrite write_questions_fits by (fold w1; unfold is_u16, zlen in *; lia). fold w1.
  rewrite (write_section_fits _ (m_answers m)) by (done || fold w2; unfold zlen in *; lia).
  fold w2. cbn [negb].
  rewrite (write_section_fits _ (m_authority m)) by (done || fold w3; unfold zlen in *; lia).
  fold w3. cbn [negb].
  rewrite (write_section_fits _ (m_additional m)) by (done || fold w4; unfold zlen in *; lia).
  fold w4. cbn [fst]. rewrite orb_false_r.
  destruct (m_edns m); simpl; rewrite ?app_nil_r, ?Z.add_0_r; [|done].
  do 2 f_equal. unfold u16. by rewrite Z.add_mod_idemp_l.
Qed.

(** ** Properties *)

Lemma sent_encodable m qs an ns ar tr tc :
  encodable m → truncation m qs an ns ar tr → encodable (sent m tc qs an ns ar).
Proof.
  intros [Hid Hop Hrc Hqs Han Hns Har He] [[s0 E0] (s1 & E1 & _) (s2 & E2 & _) (s3 & E3 & _) _ _].
  rewrite E0 in Hqs. rewrite E1 in Han. rewrite E2 in Hns. rewrite E3 in Har.
  apply Forall_app in Hqs as [? _]. apply Forall_app in Han as [? _].
  apply Forall_app in Hns as [? _]. apply Forall_app in Har as [? _]. by split.
Qed.

Lemma small_counts m tc c qs an ns ar :
  let w := fold_left write_rr (an ++ ns ++ ar) (fold_left write_question qs (empty_writer c)) in
  (zlen (w_out w) + zlen (opt_bytes (m_edns m)) < 65536)%Z →
  m_header (sent m tc qs an ns ar) =
  set_counts (m_header m) tc (u16 (zlen qs)) (u16 (zlen an)) (u16 (zlen ns))
    (u16 (zlen ar + Z.of_nat (edns_count (m_edns m)))).
Proof.
  intros w Hz. pose proof (written_length c qs (an ++ ns ++ ar) (m_edns m)) as Hlen. cbv zeta in Hlen.
  fold w in Hlen. rewrite !length_app in Hlen. unfold zlen in *. cbn [sent m_header].
  rewrite !u16_id by (unfold is_u16; lia). done.
Qed.

Lemma parse_build_message m max_size c :
  encodable m → (23 ≤ max_size < 65536)%Z →
  ∃ qs an ns ar tr m', truncation m qs an ns ar tr ∧ cut_to_fit c max_size m qs an ns ar ∧
    parse (build_message m max_size c) = Ok m' ∧
    message_eqb m' (sent m (h_tc (m_header m) || tr) qs an ns ar) = true.
Proof.
  intros Hm Hmax. destruct (build_message_spec m max_size c) as (qs & an & ns & ar & tr & Htr & Hcut & ->); [lia|].
  pose proof (cf_fits _ _ _ _ _ _ _ Hcut) as Hsz. unfold message_size in Hsz. exists qs, an, ns, ar, tr.
  destruct (parse_written m (h_tc (m_header m) || tr) c qs an ns ar) as (m' & Hp & He);
    [by eapply sent_encodable|lia|].
  exists m'. split_and!; [done|done| |done]. rewrite <-Hp. f_equal. f_equal. symmetry.
  apply (small_counts m _ c). lia.
Qed.

(** C1: the wire round trip.  For every message whose members are in range,
    [parse] reads back what [build] emits, names compared without case, as a
    message with the same header flags, EDNS data and section prefixes, which
    fits the limit.  Something is left out only where it does not fit: the first
    question or RRset that is missing, written after what is kept (and the OPT
    record), would exceed the limit; RRsets are not split, and everything after
    the missing one is left out too.  TC is set if it was set before or a
    question, answer or authority record is missing, and not otherwise:
    additional records are left out silently.  Compression pointers never change
    what a reader sees. *)
Theorem parse_build m opts :
  encodable m → is_u16 (o_max_size opts) →
  ∃ qs an ns ar tr m', truncation m qs an ns ar tr ∧
    cut_to_fit (o_compress opts) (Z.max (o_max_size opts) kClassicUdpSize) m qs an ns ar ∧
    parse (build m opts) = Ok m' ∧
    message_eqb m' (sent m (h_tc (m_header m) || tr) qs an ns ar) = true.
Proof.
  intros Hm Ho. apply parse_build_message; [done|]. unfold is_u16, kClassicUdpSize in *. lia.
Qed.

(** Nothing is dropped without need.  When the whole message, written
    with the chosen compression, fits in the limit, the reader gets every
    question and record back and TC as it was. *)
Lemma parse_build_complete m opts :
  encodable m → is_u16 (o_max_size opts) →
  (full_size m (o_compress opts) ≤ Z.max (o_max_size opts) kClassicUdpSize)%Z →
  ∃ m', parse (build m opts) = Ok m' ∧
    message_eqb m' (sent m (h_tc (m_header m)) (m_questions m) (m_answers m) (m_authority m)
                      (m_additional m)) = true.
Proof.
  intros Hm Ho Hfit. unfold build. rewrite build_message_fits by done.
  unfold full_size in Hfit. rewrite zlen_app in Hfit. unfold is_u16, kClassicUdpSize in *.
  destruct (parse_written m (h_tc (m_header m)) (o_compress opts) (m_questions m) (m_answers m)
    (m_authority m) (m_additional m)) as (m' & Hp & He); [by destruct Hm; split|lia|].
  exists m'. split; [|done]. rewrite <-Hp. do 2 f_equal. symmetry. apply (small_counts m _ (o_compress opts)). lia.
Qed.

(** ** The writer's assertions *)

(** The bytes of a record's data, uncompressed. *)
Definition data_size (d : RData) : nat :=
  match d with
  | RDataA a | RDataAAAA a => length a
  | RDataNS n | RDataCNAME n | RDataPTR n => wire_length n
  | RDataMX _ n => 2 + wire_length n
  | RDataSOA mname rname _ _ _ _ _ => wire_length mname + wire_length rname + 20
  | RDataTXT ss => sum_list_with (λ s, 1 + length s) ss
  | RDataRaw data => length data
  end.

Lemma write_labels_length ls : ∀ w text, length (w_out (write_labels w ls text)) ≤ length (w_out w) + (1 + labels_size text).
Proof.
  induction ls as [|l ls IH]; intros w text; [cbn; rewrite length_app; cbn; lia|]. destruct text as [|t text]; [cbn; rewrite length_app; cbn; lia|].
  cbn [write_labels]. destruct (if w_compress w then _ else _) as [off|].
  - cbn [push w_out]. rewrite length_app, put_u16_length. unfold labels_size. cbn [map sum_list_with]. lia.
  - etrans; [apply IH|]. cbn [w_out]. rewrite !length_app. unfold labels_size. cbn [map sum_list_with length]. lia.
Qed.

Lemma write_name_length w n : name_wf n → length (w_out (write_name w n)) ≤ length (w_out w) + wire_length n.
Proof.
  intros Hn. unfold write_name. etrans; [apply write_labels_length|]. rewrite wire_length_labels. unfold as_written.
  rewrite decide_True by (by apply name_wf_same_length). rewrite (nwf_lower _ Hn), labels_size_lower. lia.
Qed.

Lemma write_rdata_length w type cls d : rdata_wf type cls d → length (w_out (write_rdata w d)) ≤ length (w_out w) + data_size d.
Proof.
  destruct d as [a|a|n|n|mn rn s1 s2 s3 s4 s5|p n|ss|n|data]; cbn [rdata_wf write_rdata data_size].
  all: try (intros _; cbn [push w_out]; rewrite length_app; lia).
  all: try (intros [_ Hn]; by apply write_name_length).
  - intros (_ & Hm & Hr & _). rewrite (fold_push_out put_u32), length_app. cbn [map concat]. rewrite !length_app, !put_u32_length. cbn [length].
    pose proof (write_name_length (write_name w mn) rn Hr). pose proof (write_name_length w mn Hm). lia.
  - intros (_ & _ & Hn). etrans; [by apply write_name_length|]. cbn [push w_out]. rewrite length_app, put_u16_length. lia.
  - intros _. rewrite (fold_push_out (λ s, [u8 (zlen s)] ++ s)), length_app. apply Nat.add_le_mono_l.
    induction ss as [|x ss IH]; cbn [map concat sum_list_with]; [done|]. rewrite length_app.
    change (length ([u8 (zlen x)] ++ x)) with (1 + length x). lia.
Qed.

Lemma name_asserts_hold n : name_wf n → name_asserts n = true.
Proof.
  intros Hn. unfold name_asserts. rewrite bool_decide_true by apply Hn. cbn [andb]. unfold as_written.
  rewrite decide_True by (by apply name_wf_same_length). apply forallb_forall. intros t Ht%list_elem_of_In.
  pose proof (nwf_labels _ Hn) as Hl. rewrite Forall_forall in Hl. destruct (Hl t Ht) as [_ [H1 H2]].
  rewrite (bool_decide_true (length t ≤ _)) by done. rewrite bool_decide_false; [done|]. intros ->. cbn in H1. lia.
Qed.

Lemma rdata_asserts_hold type cls d : rdata_wf type cls d → rdata_asserts d = true.
Proof.
  destruct d; cbn [rdata_wf rdata_asserts]; intros Hd; try done; rewrite ?name_asserts_hold by (by destruct_and? Hd); try done.
  apply forallb_forall. intros s Hs%list_elem_of_In. destruct Hd as [_ Hd]. rewrite Forall_forall in Hd. by apply Z.leb_le, Hd.
Qed.

Definition records (m : Message) : list RR := m_answers m ++ m_authority m ++ m_additional m.

(** C31: the builder's assertions.  For a message whose members are in range and
    whose records' data could be on the wire (at most 65535 bytes), no assertion
    of the writer can fail, whatever has been written before: names have at most
    255 bytes and labels of 1 to 63, TXT strings at most 255, and the data of a
    record, compressed or not, fits its 16-bit length. *)
Theorem writer_asserts_hold m : encodable m → Forall (λ rr, (Z.of_nat (data_size (rr_rdata rr)) ≤ 65535)%Z) (records m) →
  Forall (λ q, name_asserts (q_qname q) = true) (m_questions m) ∧ ∀ w, Forall (λ rr, rr_asserts w rr = true) (records m).
Proof.
  intros [_ _ _ Hqs Han Hns Har _] Hsize. split.
  - eapply Forall_impl; [exact Hqs|]. intros q [Hq _]. by apply name_asserts_hold.
  - intros w. assert (Hwf : Forall rr_wf (records m)) by (by repeat (apply Forall_app; split)).
    rewrite Forall_forall in *. intros rr Hin. destruct (Hwf rr Hin) as [Hn _ _ _ Hd]. unfold rr_asserts.
    rewrite name_asserts_hold by done. rewrite (rdata_asserts_hold _ _ _ Hd). cbn [andb]. apply Z.leb_le.
    set (w1 := push (push (push (write_name _ _) _) _) _). pose proof (write_rdata_length (push w1 (put_u16 0)) _ _ _ Hd) as Hl.
    cbn [push w_out] in Hl. rewrite length_app, put_u16_length in Hl. specialize (Hsize rr Hin). cbn beta in Hsize. unfold zlen. lia.
Qed.

(** An MX answer with a compressed exchange, EDNS and a mixed-case name. *)
Definition ex_message : Message :=
  mkMessage (mkHeader 4660 true 0 false false true true false false 0 0 0 0 0)
    [mkQuestion ex_name RRType.MX 1] [ex_rr] []
    [mkRR ex_name RRType.A 1 300 (RDataA [192; 0; 2; 1]%Z) TrustRank.Additional]
    (Some (mkEdns 1232 0 0 true)).

Lemma ex_message_encodable : encodable ex_message.
Proof. split; by_compute. Defined.

Lemma parse_build_witness : ∃ qs an ns ar tr m', truncation ex_message qs an ns ar tr ∧ cut_to_fit true 512 ex_message qs an ns ar ∧
  parse (build ex_message (mkOptions 512 true)) = Ok m' ∧
  message_eqb m' (sent ex_message (false || tr) qs an ns ar) = true.
Proof. apply (parse_build ex_message (mkOptions 512 true)); [apply ex_message_encodable|by_compute]. Defined.

Lemma parse_build_complete_witness : ∃ m', parse (build ex_message (mkOptions 512 true)) = Ok m' ∧
  message_eqb m' (sent ex_message false (m_questions ex_message) (m_answers ex_message)
    (m_authority ex_message) (m_additional ex_message)) = true.
Proof.
  apply (parse_build_complete ex_message (mkOptions 512 true));
    [apply ex_message_encodable|by_compute|by_compute].
Defined.

Lemma writer_asserts_hold_witness : Forall (λ q, name_asserts (q_qname q) = true) (m_questions ex_message) ∧
  ∀ w, Forall (λ rr, rr_asserts w rr = true) (records ex_message).
Proof. apply (writer_asserts_hold ex_message ex_message_encodable). by_compute. Defined.
