(* ===== verification/Cache.v ===== *)
(** * The record cache: [cache/cache.cpp]

    A shard is a recency list of nodes ([std::list]) and an index from keys
    to list iterators ([std::unordered_map]).  The model keeps the pointer
    structure: the list holds node ids, a heap maps ids to nodes, and the
    index maps keys to ids.  Following an id that is no longer in the heap is
    [Fault Dangling], letting the [size_t] byte count go below zero is
    [Fault SizeWrap], so the theorem that no operation faults says that
    iterators stay valid and the accounting never wraps.

    The clock is an argument of each operation, in nanoseconds; no theorem
    assumes that it is monotone, so they also cover threads that read the
    clock before they get the shard's lock. *)

From stdpp Require Import base tactics numbers list gmap.
From Stdlib Require Import ZArith Lia.
From S2P Require Import Prelude Names Types.

(** ** Data *)

Record CacheEntry := mkEntry {
  ce_records : list RR; ce_trust : TrustRank.t; ce_expires_at : Z; ce_inserted_at : Z;
  ce_hit_count : Z; ce_is_negative : bool;
}.

Record CacheConfig := mkCacheConfig {
  cc_max_memory_bytes : Z; cc_num_shards : Z; cc_min_ttl : Z; cc_max_ttl : Z;
  cc_serve_stale : bool; cc_stale_ttl : Z; cc_max_stale_age : Z;
  cc_prefetch : bool; cc_prefetch_threshold : Z;
}.

Definition default_cache_config : CacheConfig :=
  mkCacheConfig (256 * 1024 * 1024) 16 0 86400 true 30 86400 true 10.

Record CacheKey := mkKey { k_name : Name; k_qtype : Z; k_qclass : Z }.

Record LookupResult := mkLookup { lr_entry : option CacheEntry; lr_is_stale : bool; lr_needs_prefetch : bool }.

(** Keys compare by canonical labels, type and class; [canon] is what
    [operator==] of [CacheKey] looks at. *)
Definition key_id : Type := list (list Z) * Z * Z.
Definition canon (k : CacheKey) : key_id := (labels (k_name k), k_qtype k, k_qclass k).

Abbreviation mem := (outcome Empty_set).

(** [KeyHash], on 64-bit [size_t]. *)
Definition key_hash (k : CacheKey) : Z :=
  let h := name_hash (k_name k) in
  Z.lxor h (u64 (Z.lor (Z.shiftl (k_qtype k) 16) (k_qclass k) + 0x9e3779b97f4a7c15 +
                 u64 (Z.shiftl h 6) + Z.shiftr h 2))%Z.

(** ** Memory accounting

    The sizes of C++ objects depend on the platform and are parameters. *)

Record Sizes := mkSizes { sz_string : Z; sz_CacheKey : Z; sz_CacheEntry : Z; sz_RR : Z }.

Definition kNodeOverhead : Z := 64.

Definition name_bytes (sz : Sizes) (n : Name) : Z :=
  2 * (zlen (labels n) * sz_string sz + Z.of_nat (wire_length n)).

Definition rdata_bytes (sz : Sizes) (d : RData) : Z :=
  match d with
  | RDataA _ => 0
  | RDataAAAA _ => 0
  | RDataNS n => name_bytes sz n
  | RDataCNAME n => name_bytes sz n
  | RDataPTR n => name_bytes sz n
  | RDataMX _ n => name_bytes sz n
  | RDataSOA m r _ _ _ _ _ => name_bytes sz m + name_bytes sz r
  | RDataTXT ss => fold_left (λ acc s, acc + zlen s) ss (zlen ss * sz_string sz)
  | RDataRaw s => zlen s
  end%Z.

(** Unsigned arithmetic is exact modulo 2^64, so it is reduced once. *)
Definition entry_bytes (sz : Sizes) (k : CacheKey) (records : list RR) : Z :=
  u64 (fold_left (λ acc rr, acc + (sz_RR sz + name_bytes sz (rr_name rr) + rdata_bytes sz (rr_rdata rr)))
         records (kNodeOverhead + sz_CacheKey sz + sz_CacheEntry sz + name_bytes sz (k_name k)))%Z.

(** ** Shards *)

Record Node := mkNode { n_key : CacheKey; n_entry : CacheEntry; n_bytes : Z }.

Record Shard := mkShard {
  s_lru : list nat;          (* front = most recently used *)
  s_nodes : gmap nat Node;   (* the heap the iterators point into *)
  s_index : gmap key_id nat;
  s_bytes : Z;
}.

Definition empty_shard : Shard := mkShard [] ∅ ∅ 0.

(** Dereferencing an iterator. *)
Definition deref (s : Shard) (id : nat) : mem Node :=
  match s_nodes s !! id with Some n => Ok n | None => Fault Dangling end.

(** [a - b] on [size_t], wrap marked. *)
Definition bytes_sub (a b : Z) : mem Z := if (b <=? a)%Z then Ok (a - b)%Z else Fault SizeWrap.

Definition unlink (id : nat) (l : list nat) : list nat := filter (λ x, x ≠ id) l.

(** [lru.splice(lru.begin(), lru, node)]. *)
Definition splice_front (id : nat) (l : list nat) : list nat := id :: unlink id l.

(** [Shard::erase]. *)
Definition erase (s : Shard) (id : nat) : mem Shard :=
  node ← deref s id;
  bytes ← bytes_sub (s_bytes s) (n_bytes node);
  Ok (mkShard (unlink id (s_lru s)) (delete id (s_nodes s)) (delete (canon (n_key node)) (s_index s)) bytes).

(** The eviction loop; each turn shortens the list, so its length bounds the turns. *)
Fixpoint evict_loop (fuel : nat) (budget : Z) (s : Shard) : mem Shard :=
  if ((budget <? s_bytes s)%Z && (1 <? length (s_lru s)))%nat then
    match fuel, last (s_lru s) with
    | S fuel, Some id => s' ← erase s id; evict_loop fuel budget s'
    | O, _ => Fault OutOfFuel
    | _, None => Fault Dangling
    end
  else Ok s.

(** The locked part of [Cache::lookup]. *)
Definition shard_lookup (s : Shard) (k : CacheKey) (now : Z) : mem (option CacheEntry * Shard) :=
  match s_index s !! canon k with
  | None => Ok (None, s)
  | Some id =>
    node ← deref s id;
    if (ce_expires_at (n_entry node) <=? now)%Z then Ok (None, s) else
    let e := n_entry node in
    let e' := mkEntry (ce_records e) (ce_trust e) (ce_expires_at e) (ce_inserted_at e)
                (u64 (ce_hit_count e + 1)) (ce_is_negative e) in
    Ok (Some e', mkShard (splice_front id (s_lru s)) (<[id := mkNode (n_key node) e' (n_bytes node)]> (s_nodes s))
                   (s_index s) (s_bytes s))
  end.

(** The locked part of [Cache::insert]. *)
Definition shard_insert (s : Shard) (budget : Z) (k : CacheKey) (e : CacheEntry) (bytes now : Z) : mem Shard :=
  match s_index s !! canon k with
  | Some id =>
    node ← deref s id;
    if ((now <? ce_expires_at (n_entry node)) &&
        (TrustRank.rank (ce_trust e) <? TrustRank.rank (ce_trust (n_entry node))))%Z then Ok s
    else if (budget <? bytes)%Z then erase s id
    else
      rest ← bytes_sub (s_bytes s) (n_bytes node);
      let s := mkShard (splice_front id (s_lru s)) (<[id := mkNode (n_key node) e bytes]> (s_nodes s))
                 (s_index s) (u64 (rest + bytes)) in
      evict_loop (length (s_lru s)) budget s
  | None =>
    if (budget <? bytes)%Z then Ok s
    else
      let id := fresh (dom (s_nodes s)) in
      let s := mkShard (id :: s_lru s) (<[id := mkNode k e bytes]> (s_nodes s))
                 (<[canon k := id]> (s_index s)) (u64 (s_bytes s + bytes)) in
      evict_loop (length (s_lru s)) budget s
  end.

(** ** The cache *)

Record Cache := mkCache {
  c_shards : list Shard; c_config : CacheConfig; c_shard_budget : Z; c_hits : Z; c_misses : Z;
}.

Definition new_cache (config : CacheConfig) : Cache :=
  let n := Z.max (cc_num_shards config) 1 in
  mkCache (replicate (Z.to_nat n) empty_shard) config (cc_max_memory_bytes config / n) 0 0.

Definition shard_index (n : nat) (k : CacheKey) : nat :=
  Z.to_nat (Z.shiftr (key_hash k) 32 mod Z.of_nat n).

Definition shard_for (c : Cache) (k : CacheKey) : nat := shard_index (length (c_shards c)) k.

(** [*shards_[i]]. *)
Definition shard_at (c : Cache) (i : nat) : mem Shard :=
  match c_shards c !! i with Some s => Ok s | None => Fault OutOfBounds end.

Definition set_shard (c : Cache) (i : nat) (s : Shard) : Cache :=
  mkCache (<[i := s]> (c_shards c)) (c_config c) (c_shard_budget c) (c_hits c) (c_misses c).

Definition nanoseconds (seconds : Z) : Z := seconds * 1000000000.

(** [duration_cast<seconds>(expires_at - now).count()]. *)
Definition remaining_seconds (expires_at now : Z) : Z := Z.quot (expires_at - now) 1000000000.

Definition set_ttl (ttl : Z) (r : RR) : RR :=
  mkRR (rr_name r) (rr_type r) (rr_cls r) ttl (rr_rdata r) (rr_trust r).

(** The copy handed to the caller: every TTL is the time left. *)
Definition serve (e : CacheEntry) (now : Z) : CacheEntry :=
  mkEntry (map (set_ttl (u32 (remaining_seconds (ce_expires_at e) now))) (ce_records e)) (ce_trust e)
    (ce_expires_at e) (ce_inserted_at e) (ce_hit_count e) (ce_is_negative e).

Definition cache_lookup (c : Cache) (k : CacheKey) (now : Z) : mem (LookupResult * Cache) :=
  let i := shard_for c k in
  s ← shard_at c i;
  '(found, s) ← shard_lookup s k now;
  let c := set_shard c i s in
  match found with
  | None =>
    Ok (mkLookup None false false,
        mkCache (c_shards c) (c_config c) (c_shard_budget c) (c_hits c) (u64 (c_misses c + 1)))
  | Some e =>
    Ok (mkLookup (Some (serve e now)) false false,
        mkCache (c_shards c) (c_config c) (c_shard_budget c) (u64 (c_hits c + 1)) (c_misses c))
  end.

Definition effective_ttl (cfg : CacheConfig) (ttl : Z) : Z :=
  Z.min (Z.max ttl (cc_min_ttl cfg)) (cc_max_ttl cfg).

Definition cache_insert (sz : Sizes) (c : Cache) (k : CacheKey) (records : list RR) (trust : TrustRank.t)
    (ttl : Z) (negative : bool) (now : Z) : mem Cache :=
  let effective := effective_ttl (c_config c) ttl in
  if (effective =? 0)%Z then Ok c else
  let e := mkEntry records trust (now + nanoseconds effective) now 0 negative in
  let i := shard_for c k in
  s ← shard_at c i;
  s ← shard_insert s (c_shard_budget c) k e (entry_bytes sz k records) now;
  Ok (set_shard c i s).

Definition cache_evict (c : Cache) (k : CacheKey) : mem Cache :=
  let i := shard_for c k in
  s ← shard_at c i;
  match s_index s !! canon k with
  | Some id => s ← erase s id; Ok (set_shard c i s)
  | None => Ok c
  end.

Definition cache_flush (c : Cache) : Cache :=
  mkCache (map (λ _, empty_shard) (c_shards c)) (c_config c) (c_shard_budget c) (c_hits c) (c_misses c).

Definition cache_size (c : Cache) : Z := u64 (fold_left (λ acc s, acc + zlen (s_lru s))%Z (c_shards c) 0%Z).
Definition memory_used (c : Cache) : Z := u64 (fold_left (λ acc s, acc + s_bytes s)%Z (c_shards c) 0%Z).

(** ** Operation sequences

    The public operations, with the time the clock showed. *)
Inductive cache_op :=
| OpLookup (k : CacheKey) (now : Z)
| OpInsert (k : CacheKey) (records : list RR) (trust : TrustRank.t) (ttl : Z) (negative : bool) (now : Z)
| OpEvict (k : CacheKey)
| OpFlush.

Definition run_op (sz : Sizes) (c : Cache) (op : cache_op) : mem (option LookupResult * Cache) :=
  match op with
  | OpLookup k now => '(r, c) ← cache_lookup c k now; Ok (Some r, c)
  | OpInsert k records trust ttl negative now =>
    c ← cache_insert sz c k records trust ttl negative now; Ok (None, c)
  | OpEvict k => c ← cache_evict c k; Ok (None, c)
  | OpFlush => Ok (None, cache_flush c)
  end.

Fixpoint run_ops (sz : Sizes) (c : Cache) (ops : list cache_op) : mem (list (option LookupResult) * Cache) :=
  match ops with
  | [] => Ok ([], c)
  | op :: ops =>
    '(r, c) ← run_op sz c op;
    '(rs, c) ← run_ops sz c ops;
    Ok (r :: rs, c)
  end.

(** ** The abstract cache

    A shard as its users see it: nodes in recency order, no ids, no index,
    no byte counter and no loop.  [fit] keeps the longest prefix within the
    budget. *)

Definition total (v : list Node) : Z := foldr (λ n acc, n_bytes n + acc)%Z 0%Z v.

Definition key_of (n : Node) : key_id := canon (n_key n).

Fixpoint a_find (k : key_id) (v : list Node) : option Node :=
  match v with
  | [] => None
  | n :: v => if decide (key_of n = k) then Some n else a_find k v
  end.

Definition a_remove (k : key_id) (v : list Node) : list Node := filter (λ n, key_of n ≠ k) v.

Fixpoint fit (budget : Z) (v : list Node) : list Node :=
  match v with
  | [] => []
  | n :: v => if (n_bytes n <=? budget)%Z then n :: fit (budget - n_bytes n) v else []
  end.

Definition live (e : CacheEntry) (now : Z) : bool := (now <? ce_expires_at e)%Z.

Definition touch (n : Node) : Node :=
  let e := n_entry n in
  mkNode (n_key n) (mkEntry (ce_records e) (ce_trust e) (ce_expires_at e) (ce_inserted_at e)
                      (u64 (ce_hit_count e + 1)) (ce_is_negative e)) (n_bytes n).

Definition a_lookup (v : list Node) (k : CacheKey) (now : Z) : option CacheEntry * list Node :=
  match a_find (canon k) v with
  | Some n => if live (n_entry n) now
              then (Some (n_entry (touch n)), touch n :: a_remove (canon k) v) else (None, v)
  | None => (None, v)
  end.

Definition outranked (v : list Node) (k : key_id) (trust : TrustRank.t) (now : Z) : bool :=
  match a_find k v with
  | Some n => live (n_entry n) now && (TrustRank.rank trust <? TrustRank.rank (ce_trust (n_entry n)))%Z
  | None => false
  end.

Definition a_insert (budget : Z) (v : list Node) (k : CacheKey) (e : CacheEntry) (bytes now : Z) : list Node :=
  if outranked v (canon k) (ce_trust e) now then v
  else if (budget <? bytes)%Z then a_remove (canon k) v
  else fit budget (mkNode (from_option n_key k (a_find (canon k) v)) e bytes :: a_remove (canon k) v).

(** The whole cache: one list per shard. *)
Definition a_op (sz : Sizes) (cfg : CacheConfig) (budget : Z) (vs : list (list Node)) (op : cache_op) :
    option LookupResult * list (list Node) :=
  let at_shard k := vs !!! shard_index (length vs) k in
  let update k v := <[shard_index (length vs) k := v]> vs in
  match op with
  | OpLookup k now =>
    let '(e, v) := a_lookup (at_shard k) k now in
    (Some (mkLookup ((λ e, serve e now) <$> e) false false), update k v)
  | OpInsert k records trust ttl negative now =>
    let effective := effective_ttl cfg ttl in
    (None, if (effective =? 0)%Z then vs
           else update k (a_insert budget (at_shard k) k
                  (mkEntry records trust (now + nanoseconds effective) now 0 negative)
                  (entry_bytes sz k records) now))
  | OpEvict k => (None, update k (a_remove (canon k) (at_shard k)))
  | OpFlush => (None, map (λ _, []) vs)
  end.

Fixpoint a_ops (sz : Sizes) (cfg : CacheConfig) (budget : Z) (vs : list (list Node)) (ops : list cache_op) :
    list (option LookupResult) * list (list Node) :=
  match ops with
  | [] => ([], vs)
  | op :: ops =>
    let '(r, vs) := a_op sz cfg budget vs op in
    let '(rs, vs) := a_ops sz cfg budget vs ops in (r :: rs, vs)
  end.

(** ** Facts about the abstract cache *)

Definition keys (v : list Node) : list key_id := key_of <$> v.

Lemma total_app v1 v2 : total (v1 ++ v2) = (total v1 + total v2)%Z.
Proof. induction v1 as [|n v1 IH]; simpl; [done|]. rewrite IH. lia. Qed.

Lemma a_find_None k v : a_find k v = None ↔ k ∉ keys v.
Proof.
  induction v as [|n v IH]; simpl; [split; [intros _; apply not_elem_of_nil|done]|].
  rewrite not_elem_of_cons. case_decide; [split; [done|]; intros []; congruence|]. rewrite IH.
  split; [by split|by intros []].
Qed.

Lemma a_remove_notin k v : k ∉ keys v → a_remove k v = v.
Proof.
  unfold a_remove. induction v as [|n v IH]; [done|]. cbn. rewrite not_elem_of_cons. intros [Hn Hv].
  rewrite decide_True by done. f_equal. by apply IH.
Qed.

Lemma a_find_Some k v n : a_find k v = Some n → key_of n = k ∧ n ∈ v.
Proof.
  induction v as [|m v IH]; simpl; [done|]. case_decide; [intros [= <-]; split; [done|left]|].
  intros [? ?]%IH. split; [done|by right].
Qed.

(** With distinct keys, finding a key splits the list. *)
Lemma a_split k v1 n v2 :
  NoDup (keys (v1 ++ n :: v2)) → key_of n = k →
  a_find k (v1 ++ n :: v2) = Some n ∧ a_remove k (v1 ++ n :: v2) = v1 ++ v2.
Proof.
  intros Hnd Hk. unfold keys in Hnd. rewrite fmap_app, fmap_cons, NoDup_app, NoDup_cons in Hnd.
  destruct Hnd as (_ & Hx & Hn & _). rewrite Hk in *.
  assert (H1 : k ∉ keys v1).
  { intros H. apply (Hx k H). left. }
  split.
  - clear Hx Hn. induction v1 as [|m v1 IH]; simpl; [by rewrite decide_True|].
    cbn in H1. apply not_elem_of_cons in H1 as [? ?]. rewrite decide_False by done. by apply IH.
  - unfold a_remove. rewrite filter_app, filter_cons_False by (intros E; by apply E).
    fold (a_remove k v1) (a_remove k v2). by rewrite !a_remove_notin.
Qed.

Lemma fit_prefix v : ∀ b, fit b v `prefix_of` v.
Proof.
  induction v as [|n v IH]; intros b; simpl; [done|]. case_match; [by apply prefix_cons|apply prefix_nil].
Qed.

Lemma fit_total v : ∀ b, (0 ≤ b)%Z → (total (fit b v) ≤ b)%Z.
Proof.
  induction v as [|n v IH]; intros b Hb; simpl; [lia|]. destruct (_ <=? _)%Z eqn:E; simpl; [|lia].
  apply Z.leb_le in E. specialize (IH (b - n_bytes n)%Z). lia.
Qed.

Lemma total_nonneg v : Forall (λ n, 0 ≤ n_bytes n)%Z v → (0 ≤ total v)%Z.
Proof. induction 1; simpl; lia. Qed.

Lemma fit_all v : ∀ b, Forall (λ n, 0 ≤ n_bytes n)%Z v → (total v ≤ b)%Z → fit b v = v.
Proof.
  induction v as [|n v IH]; intros b Hv Ht; simpl in *; [done|]. inv Hv.
  fold (total v) in *. assert (0 ≤ total v)%Z by (by apply total_nonneg).
  rewrite (proj2 (Z.leb_le _ _)) by lia. f_equal. apply IH; [done|]. lia.
Qed.

Lemma fit_snoc v n : ∀ b, (b < total (v ++ [n]))%Z → fit b (v ++ [n]) = fit b v.
Proof.
  induction v as [|m v IH]; intros b Ht; simpl in *.
  - by rewrite (proj2 (Z.leb_gt _ _)) by lia.
  - destruct (_ <=? _)%Z; [|done]. f_equal. apply IH. lia.
Qed.

(** ** Representation

    [rep s l]: the pointer structure of [s] holds exactly the nodes of [l],
    with their ids, in recency order. *)
Record rep (s : Shard) (l : list (nat * Node)) : Prop := {
  rep_lru : s_lru s = l.*1;
  rep_ids : NoDup l.*1;
  rep_keys : NoDup (keys l.*2);
  rep_nodes : ∀ id n, s_nodes s !! id = Some n ↔ (id, n) ∈ l;
  rep_index : ∀ k id, s_index s !! k = Some id ↔ ∃ n, (id, n) ∈ l ∧ key_of n = k;
  rep_bytes : s_bytes s = total l.*2;
}.

Lemma unlink_split l1 id (n : Node) l2 :
  NoDup (l1 ++ (id, n) :: l2).*1 → unlink id (l1 ++ (id, n) :: l2).*1 = (l1 ++ l2).*1.
Proof.
  rewrite !fmap_app, fmap_cons, NoDup_app, NoDup_cons. intros (_ & Hx & Hn & _).
  assert (H : ∀ l : list (nat * Node), id ∉ l.*1 → unlink id l.*1 = l.*1).
  { intros l Hl. unfold unlink. induction l as [|[i m] l IH]; [done|]. cbn in *.
    apply not_elem_of_cons in Hl as [? ?]. rewrite decide_True by done. f_equal. by apply IH. }
  unfold unlink. rewrite filter_app, filter_cons_False by (intros E; by apply E).
  fold (unlink id l1.*1) (unlink id l2.*1). rewrite !H; [done|done|].
  intros Hi. apply (Hx id Hi). left.
Qed.

(** Looking a key up in the index. *)
Lemma rep_find s l k : rep s l →
  match s_index s !! k with
  | Some id => ∃ l1 n l2, l = l1 ++ (id, n) :: l2 ∧ key_of n = k ∧ deref s id = Ok n ∧
                 a_find k l.*2 = Some n ∧ a_remove k l.*2 = (l1 ++ l2).*2
  | None => a_find k l.*2 = None ∧ k ∉ keys l.*2
  end.
Proof.
  intros [Hlru Hids Hkeys Hnodes Hindex Hbytes]. destruct (s_index s !! k) as [id|] eqn:E.
  - apply Hindex in E as (n & Hn & Hk). unfold deref. rewrite (proj2 (Hnodes id n) Hn).
    apply list_elem_of_split in Hn as (l1 & l2 & ->). exists l1, n, l2.
    rewrite !fmap_app, fmap_cons in *. cbn [snd]. destruct (a_split k l1.*2 n l2.*2); [done|done|]. done.
  - assert (Hk : k ∉ keys l.*2).
    { intros H. unfold keys in H. rewrite <-list_fmap_compose in H. apply list_elem_of_fmap in H as ([id n] & -> & Hin).
      assert (s_index s !! key_of n = Some id) by (apply Hindex; by exists n). simpl in *. congruence. }
    split; [by apply a_find_None|done].
Qed.

Lemma elem_of_split_unique (l1 l2 : list (nat * Node)) id n i m :
  NoDup (l1 ++ (id, n) :: l2).*1 → (i, m) ∈ l1 ++ (id, n) :: l2 → i = id → m = n.
Proof.
  intros Hnd Hin ->. destruct (list_elem_of_lookup_1 _ _ Hin) as [a Ha].
  assert (Hb : (l1 ++ (id, n) :: l2) !! length l1 = Some (id, n)) by (by apply list_lookup_middle).
  assert (a = length l1) as ->; [|congruence].
  eapply (NoDup_lookup _ _ _ id Hnd); by rewrite list_lookup_fmap, ?Ha, ?Hb.
Qed.

Lemma nodup_fmap_middle {A B} (f : A → B) l1 x l2 :
  NoDup (f <$> l1 ++ x :: l2) → NoDup (f <$> x :: l1 ++ l2).
Proof. intros H. by rewrite (Permutation_middle l1 l2 x). Qed.

Lemma elem_of_middle {A} (l1 l2 : list A) x y : y ∈ l1 ++ x :: l2 ↔ y = x ∨ y ∈ l1 ++ l2.
Proof. rewrite !elem_of_app, elem_of_cons. tauto. Qed.

Lemma rep_ids_ne s l1 id n l2 i m :
  rep s (l1 ++ (id, n) :: l2) → (i, m) ∈ l1 ++ l2 → i ≠ id ∧ key_of m ≠ key_of n.
Proof.
  intros [_ Hids Hkeys _ _ _] Hin. unfold keys in Hkeys. rewrite <-list_fmap_compose in Hkeys.
  apply nodup_fmap_middle in Hids, Hkeys. rewrite fmap_cons in Hids. rewrite fmap_cons in Hkeys.
  apply NoDup_cons in Hids as [Hids _], Hkeys as [Hkeys _]. split; intros E.
  - apply Hids. subst i. apply list_elem_of_fmap. by exists (id, m).
  - apply Hkeys. apply list_elem_of_fmap. by exists (i, m).
Qed.

(** [erase] through a valid iterator. *)
Lemma rep_erase s l1 id n l2 :
  rep s (l1 ++ (id, n) :: l2) → Forall (λ n, 0 ≤ n_bytes n)%Z (l1 ++ (id, n) :: l2).*2 →
  ∃ s', erase s id = Ok s' ∧ rep s' (l1 ++ l2).
Proof.
  intros Hrep Hpos. pose proof Hrep as [Hlru Hids Hkeys Hnodes Hindex Hbytes].
  unfold erase, deref. rewrite (proj2 (Hnodes id n)) by (apply elem_of_middle; by left). rewrite bind_Ok.
  rewrite fmap_app, fmap_cons in Hpos, Hbytes. cbn [snd] in *.
  rewrite total_app in Hbytes. cbn [total foldr] in Hbytes. fold (total l2.*2) in Hbytes.
  apply Forall_app in Hpos as [Hp1 Hp2]. inv Hp2. apply total_nonneg in Hp1.
  rename select (Forall _ _) into Hp2. apply total_nonneg in Hp2.
  unfold bytes_sub. rewrite (proj2 (Z.leb_le _ _)) by lia. rewrite bind_Ok. eexists. split; [done|].
  split; cbn [s_lru s_nodes s_index s_bytes].
  - rewrite Hlru. by apply unlink_split.
  - apply nodup_fmap_middle in Hids. by apply NoDup_cons in Hids as [_ ?].
  - unfold keys in *. rewrite <-list_fmap_compose in *. apply nodup_fmap_middle in Hkeys.
    by apply NoDup_cons in Hkeys as [_ ?].
  - intros i m. rewrite lookup_delete_Some, Hnodes, elem_of_middle. split.
    + intros [Hne [?|?]]; [congruence|done].
    + intros Hin. split; [|by right]. destruct (rep_ids_ne _ _ _ _ _ _ _ Hrep Hin). congruence.
  - intros k i. rewrite lookup_delete_Some, Hindex. split.
    + intros (Hk & m & [[= -> ->]|Hin]%elem_of_middle & <-); [done|by exists m].
    + intros (m & Hin & <-). destruct (rep_ids_ne _ _ _ _ _ _ _ Hrep Hin). split; [done|].
      exists m. rewrite elem_of_middle. auto.
  - rewrite fmap_app, total_app. lia.
Qed.

(** Updating a node in place and moving it to the front. *)
Lemma rep_front s l1 id n l2 n' :
  rep s (l1 ++ (id, n) :: l2) → key_of n' = key_of n →
  rep (mkShard (splice_front id (s_lru s)) (<[id := n']> (s_nodes s)) (s_index s)
         (s_bytes s - n_bytes n + n_bytes n')%Z)
      ((id, n') :: l1 ++ l2).
Proof.
  intros Hrep Hk. pose proof Hrep as [Hlru Hids Hkeys Hnodes Hindex Hbytes].
  split; cbn [s_lru s_nodes s_index s_bytes].
  - unfold splice_front. rewrite Hlru. cbn. f_equal. by apply unlink_split.
  - by apply nodup_fmap_middle in Hids.
  - unfold keys in *. rewrite <-list_fmap_compose in *. apply nodup_fmap_middle in Hkeys.
    rewrite fmap_cons in *. simpl in *. by rewrite Hk.
  - intros i m. rewrite lookup_insert_Some, Hnodes, elem_of_cons, elem_of_middle. split.
    + intros [[<- <-]|[Hne [?|?]]]; [by left|congruence|by right].
    + intros [[= -> ->]|Hin]; [by left|right]. destruct (rep_ids_ne _ _ _ _ _ _ _ Hrep Hin). auto.
  - intros k i. rewrite Hindex. split.
    + intros (m & [[= -> ->]|Hin]%elem_of_middle & <-); [exists n'|exists m]; rewrite elem_of_cons; auto.
    + intros (m & [[= -> ->]|Hin]%elem_of_cons & <-); [exists n|exists m]; rewrite elem_of_middle; auto.
  - rewrite Hbytes, fmap_cons, !fmap_app, fmap_cons. cbn [snd total foldr]. fold (total (l1.*2 ++ l2.*2)).
    rewrite !total_app. cbn [total foldr]. fold (total l2.*2). lia.
Qed.

(** Adding a node at the front. *)
Lemma rep_push s l id n :
  rep s l → s_nodes s !! id = None → key_of n ∉ keys l.*2 →
  rep (mkShard (id :: s_lru s) (<[id := n]> (s_nodes s)) (<[key_of n := id]> (s_index s))
         (s_bytes s + n_bytes n)%Z) ((id, n) :: l).
Proof.
  intros [Hlru Hids Hkeys Hnodes Hindex Hbytes] Hfresh Hk.
  assert (Hnot : ∀ m, (id, m) ∉ l) by (intros m Hm; apply Hnodes in Hm; congruence).
  assert (Hkey : ∀ i m, (i, m) ∈ l → key_of m ≠ key_of n).
  { intros i m Hm E. apply Hk. rewrite <-E. unfold keys. rewrite <-list_fmap_compose.
    apply list_elem_of_fmap. by exists (i, m). }
  split; cbn [s_lru s_nodes s_index s_bytes].
  - by rewrite Hlru.
  - rewrite fmap_cons. apply NoDup_cons. split; [|done]. intros ([i m] & Hi & Hm)%list_elem_of_fmap.
    simpl in Hi. subst i. by apply (Hnot m).
  - unfold keys. rewrite !fmap_cons. apply NoDup_cons. by split.
  - intros i m. rewrite lookup_insert_Some, Hnodes, elem_of_cons. split.
    + intros [[<- <-]|[_ ?]]; auto.
    + intros [[= -> ->]|Hm]; [by left|right]. split; [|done]. intros <-. by apply (Hnot m).
  - intros k i. rewrite lookup_insert_Some, Hindex. split.
    + intros [[<- <-]|(_ & m & Hm & <-)]; [exists n|exists m]; rewrite elem_of_cons; auto.
    + intros (m & [[= -> ->]|Hm]%elem_of_cons & <-); [by left|right].
      split; [intros E; by apply (Hkey i m)|by exists m].
  - rewrite Hbytes, fmap_cons. cbn [snd total foldr]. fold (total l.*2). lia.
Qed.

Lemma rep_length s l : rep s l → length (s_lru s) = length l.
Proof. intros H. rewrite (rep_lru s l H). by rewrite length_fmap. Qed.

(** Dropping nodes from the back until the rest fits keeps the longest
    prefix that fits. *)
Lemma evict_loop_fit budget l : ∀ s fuel,
  rep s l → Forall (λ n, 0 ≤ n_bytes n)%Z l.*2 → length l ≤ fuel →
  (∀ x, head l.*2 = Some x → n_bytes x ≤ budget)%Z →
  ∃ s' l', evict_loop fuel budget s = Ok s' ∧ rep s' l' ∧ l'.*2 = fit budget l.*2.
Proof.
  induction l as [|[id n] l IH] using rev_ind; intros s fuel Hrep Hpos Hfuel Hhead.
  { exists s, []. split_and!; [|done|done]. pose proof (rep_length _ _ Hrep) as Hl.
    destruct fuel; cbn [evict_loop]; rewrite Hl; simpl; by rewrite andb_false_r. }
  pose proof (rep_length _ _ Hrep) as Hl. pose proof (rep_bytes _ _ Hrep) as Hb.
  destruct ((budget <? s_bytes s)%Z && (1 <? length (s_lru s))) eqn:E.
  - apply andb_true_iff in E as [E1%Z.ltb_lt E2%Nat.ltb_lt]. rewrite length_app in *. simpl in *.
    destruct fuel as [|fuel]; [lia|]. cbn [evict_loop].
    rewrite (proj2 (Z.ltb_lt _ _) E1), (proj2 (Nat.ltb_lt _ _) E2). cbn [andb].
    rewrite (rep_lru _ _ Hrep), fmap_app. cbn [fmap list_fmap fst]. rewrite last_snoc.
    destruct (rep_erase s l id n [] Hrep Hpos) as (s1 & -> & Hrep1). rewrite bind_Ok.
    rewrite app_nil_r in Hrep1. rewrite fmap_app in *. cbn [fmap list_fmap snd] in *.
    apply Forall_app in Hpos as [Hpos _].
    destruct (IH s1 fuel Hrep1 Hpos) as (s' & l' & Hloop & Hrep' & Hfit); [lia| |].
    { intros x Hx. apply Hhead. destruct l as [|[? ?] ?]; [done|]. exact Hx. }
    exists s', l'. split_and!; [done|done|]. rewrite Hfit. symmetry. apply fit_snoc. lia.
  - exists s, (l ++ [(id, n)]). split_and!; [|done|].
    + destruct fuel; cbn [evict_loop]; by rewrite E.
    + symmetry. apply fit_all; [done|]. apply andb_false_iff in E as [E%Z.ltb_ge|E%Nat.ltb_ge]; [lia|].
      destruct l as [|x l]; [|rewrite Hl, length_app in E; simpl in E; lia]. simpl in *. specialize (Hhead n eq_refl). lia.
Qed.

(** ** Refinement: every shard operation implements its abstract one *)

(** [s] implements the node list [v] within the budget. *)
Definition shard_rep (budget : Z) (s : Shard) (v : list Node) : Prop :=
  ∃ l, rep s l ∧ l.*2 = v ∧ Forall (λ n, 0 ≤ n_bytes n)%Z v ∧ (total v ≤ budget)%Z.

Lemma shard_rep_empty budget : (0 ≤ budget)%Z → shard_rep budget empty_shard [].
Proof.
  intros Hb. exists []. split_and!; try done. split; cbn; try constructor.
  - by rewrite lookup_empty.
  - by intros ?%elem_of_nil.
  - by rewrite lookup_empty.
  - by intros (n & ?%elem_of_nil & _).
Qed.

Lemma Forall_middle {A} (P : A → Prop) l1 x l2 : Forall P (l1 ++ x :: l2) ↔ P x ∧ Forall P (l1 ++ l2).
Proof. rewrite !Forall_app, Forall_cons. tauto. Qed.

Lemma total_middle v1 n v2 : total (v1 ++ n :: v2) = (n_bytes n + total (v1 ++ v2))%Z.
Proof. rewrite !total_app. cbn [total foldr]. fold (total v2). lia. Qed.

Lemma shard_lookup_refines budget s v k now :
  shard_rep budget s v →
  ∃ s', shard_lookup s k now = Ok ((a_lookup v k now).1, s') ∧ shard_rep budget s' (a_lookup v k now).2.
Proof.
  intros (l & Hrep & <- & Hpos & Htot). unfold shard_lookup, a_lookup.
  pose proof (rep_find s l (canon k) Hrep) as Hf.
  destruct (s_index s !! canon k) as [id|].
  2:{ destruct Hf as [-> _]. exists s. split; [done|]. by exists l. }
  destruct Hf as (l1 & n & l2 & -> & Hk & -> & -> & Hrm). rewrite bind_Ok. unfold live.
  rewrite Z.leb_antisym. destruct (now <? ce_expires_at (n_entry n))%Z; cbn [negb].
  2:{ exists s. split; [done|]. by exists (l1 ++ (id, n) :: l2). }
  eexists. split; [done|]. rewrite Hrm. exists ((id, touch n) :: l1 ++ l2). cbn [snd].
  rewrite fmap_app, fmap_cons in Hpos, Htot. apply Forall_middle in Hpos as [Hn Hpos].
  rewrite total_middle in Htot. rewrite <-fmap_app in *. split_and!; [|done|by constructor|done].
  assert (s_bytes s = s_bytes s - n_bytes n + n_bytes (touch n))%Z as -> by (simpl; lia).
  by apply rep_front.
Qed.

Lemma evict_refines budget s v k :
  shard_rep budget s v →
  ∃ s', match s_index s !! canon k with Some id => erase s id | None => Ok s end = Ok s' ∧
        shard_rep budget s' (a_remove (canon k) v).
Proof.
  intros (l & Hrep & <- & Hpos & Htot). pose proof (rep_find s l (canon k) Hrep) as Hf.
  destruct (s_index s !! canon k) as [id|].
  - destruct Hf as (l1 & n & l2 & -> & Hk & _ & _ & ->).
    destruct (rep_erase s l1 id n l2 Hrep Hpos) as (s' & -> & Hrep'). exists s'. split; [done|].
    exists (l1 ++ l2). rewrite fmap_app, fmap_cons in Hpos, Htot. rewrite total_middle in Htot.
    apply Forall_middle in Hpos as [Hn Hpos]. rewrite <-fmap_app in *. simpl in Hn. split_and!; try done. simpl in Htot. lia.
  - destruct Hf as [_ Hk]. exists s. split; [done|]. exists l. by rewrite a_remove_notin.
Qed.

Lemma evict_loop_refines budget s l :
  (0 ≤ budget)%Z → rep s l → Forall (λ n, 0 ≤ n_bytes n)%Z l.*2 →
  (∀ x, head l.*2 = Some x → n_bytes x ≤ budget)%Z →
  ∃ s', evict_loop (length (s_lru s)) budget s = Ok s' ∧ shard_rep budget s' (fit budget l.*2).
Proof.
  intros Hb Hrep Hpos Hhead.
  destruct (evict_loop_fit budget l s (length (s_lru s))) as (s' & l' & Hloop & Hrep' & Hfit);
    [done|done|by rewrite (rep_length s l)|done|].
  exists s'. split; [done|]. exists l'. split_and!; [done|done| |by apply fit_total].
  destruct (fit_prefix l.*2 budget) as [rest Hr]. rewrite Hr in Hpos. by apply Forall_app in Hpos as [? _].
Qed.

Lemma shard_insert_refines budget s v k e bytes now :
  shard_rep budget s v → (0 ≤ budget < 2 ^ 63)%Z → (0 ≤ bytes)%Z →
  ∃ s', shard_insert s budget k e bytes now = Ok s' ∧
        shard_rep budget s' (a_insert budget v k e bytes now).
Proof.
  intros Hsr Hb Hbytes. destruct (evict_refines budget s v k Hsr) as (se & Herase & Hse).
  pose proof Hsr as (l & Hrep & <- & Hpos & Htot). unfold shard_insert, a_insert, outranked.
  pose proof (rep_find s l (canon k) Hrep) as Hf. pose proof (rep_bytes _ _ Hrep) as Hsb.
  destruct (s_index s !! canon k) as [id|].
  - destruct Hf as (l1 & n & l2 & -> & Hk & -> & -> & Hrm). rewrite bind_Ok. cbn [from_option].
    fold (live (n_entry n) now). destruct (_ && _); [by exists s|].
    destruct (budget <? bytes)%Z eqn:E; [by eauto|]. apply Z.ltb_ge in E. rewrite Hrm.
    rewrite fmap_app, fmap_cons in Hpos, Htot, Hsb. rewrite total_middle in Htot, Hsb.
    apply Forall_middle in Hpos as [Hn Hpos]. pose proof (total_nonneg _ Hpos). rewrite <-fmap_app in *.
    unfold bytes_sub. cbn [snd] in *. rewrite (proj2 (Z.leb_le _ _)) by lia. rewrite bind_Ok.
    unfold u64. rewrite Z.mod_small by lia.
    apply (evict_loop_refines budget (mkShard _ _ _ _) ((id, mkNode (n_key n) e bytes) :: l1 ++ l2));
      [lia|by apply (rep_front s l1 id n l2)|by constructor|by intros x [= <-]].
  - destruct Hf as [Hnone Hk]. rewrite Hnone in *. cbn [from_option]. rewrite a_remove_notin in * by done.
    destruct (budget <? bytes)%Z eqn:E; [by exists s|]. apply Z.ltb_ge in E.
    pose proof (total_nonneg _ Hpos). unfold u64. rewrite Z.mod_small by lia.
    set (id := fresh (dom (s_nodes s))).
    apply (evict_loop_refines budget (mkShard _ _ _ _) ((id, mkNode k e bytes) :: l));
      [lia| |by constructor|by intros x [= <-]].
    apply (rep_push s l id (mkNode k e bytes)); [done| |done]. apply not_elem_of_dom, is_fresh.
Qed.

(** ** The whole cache *)

Record config_ok (cfg : CacheConfig) : Prop := {
  co_memory : (0 ≤ cc_max_memory_bytes cfg < 2 ^ 63)%Z;
  co_shards : (0 ≤ cc_num_shards cfg < 2 ^ 64)%Z;
  co_min_ttl : is_u32 (cc_min_ttl cfg);
  co_max_ttl : is_u32 (cc_max_ttl cfg);
}.

Record cache_rep (cfg : CacheConfig) (c : Cache) (vs : list (list Node)) : Prop := {
  cr_config : c_config c = cfg;
  cr_count : (Z.of_nat (length (c_shards c)) = Z.max (cc_num_shards cfg) 1)%Z;
  cr_budget : c_shard_budget c = (cc_max_memory_bytes cfg / Z.max (cc_num_shards cfg) 1)%Z;
  cr_shards : Forall2 (shard_rep (c_shard_budget c)) (c_shards c) vs;
}.

Lemma shard_budget_range cfg : config_ok cfg →
  (0 ≤ cc_max_memory_bytes cfg / Z.max (cc_num_shards cfg) 1 < 2 ^ 63)%Z.
Proof.
  intros [Hm Hn _ _]. split; [apply Z.div_pos; lia|].
  eapply Z.le_lt_trans; [apply Z.div_le_upper_bound with (q := cc_max_memory_bytes cfg); nia|lia].
Qed.

Lemma cache_rep_new cfg : config_ok cfg →
  cache_rep cfg (new_cache cfg) (replicate (Z.to_nat (Z.max (cc_num_shards cfg) 1)) []).
Proof.
  intros Hc. split; cbn; [done| |done|].
  - rewrite length_replicate. lia.
  - apply Forall2_replicate, shard_rep_empty, shard_budget_range, Hc.
Qed.

Section cache_refines.
Context (cfg : CacheConfig) (Hcfg : config_ok cfg) (sz : Sizes).

Lemma shard_index_lt n k : 0 < n → shard_index n k < n.
Proof. intros Hn. unfold shard_index. pose proof (Z.mod_pos_bound (Z.shiftr (key_hash k) 32) (Z.of_nat n)). lia. Qed.

(** The shard of a key exists and implements its abstract list. *)
Lemma cache_rep_shard c vs k : cache_rep cfg c vs →
  ∃ s v, shard_at c (shard_for c k) = Ok s ∧ c_shards c !! shard_for c k = Some s ∧
    vs !! shard_index (length vs) k = Some v ∧ vs !!! shard_index (length vs) k = v ∧
    shard_rep (c_shard_budget c) s v ∧ shard_for c k = shard_index (length vs) k.
Proof using Hcfg.
  intros [_ Hcount _ Hs]. pose proof (Forall2_length _ _ _ Hs) as Hlen.
  unfold shard_for. rewrite Hlen. rewrite Hlen in Hcount.
  destruct (lookup_lt_is_Some_2 vs (shard_index (length vs) k)) as [v Hv].
  { apply shard_index_lt. lia. }
  destruct (Forall2_lookup_r _ _ _ _ _ Hs Hv) as (s & Hcs & Hrep).
  exists s, v. unfold shard_at. rewrite Hcs. split_and!; try done. by apply list_lookup_total_correct.
Qed.

Lemma cache_rep_set c vs i s v :
  cache_rep cfg c vs → shard_rep (c_shard_budget c) s v → cache_rep cfg (set_shard c i s) (<[i := v]> vs).
Proof using.
  intros [H1 H2 H3 H4] Hs. split; cbn; try done; [by rewrite length_insert|]. by apply Forall2_insert.
Qed.

Lemma cache_rep_stats c vs hits misses : cache_rep cfg c vs →
  cache_rep cfg (mkCache (c_shards c) (c_config c) (c_shard_budget c) hits misses) vs.
Proof using. intros []. by split. Qed.

Lemma run_op_refines c vs op : cache_rep cfg c vs →
  ∃ c', run_op sz c op = Ok ((a_op sz cfg (c_shard_budget c) vs op).1, c') ∧
        cache_rep cfg c' (a_op sz cfg (c_shard_budget c) vs op).2 ∧ c_shard_budget c' = c_shard_budget c.
Proof using Hcfg.
  intros Hrep. destruct op as [k now|k records trust ttl negative now|k|]; cbn [run_op a_op].
  - destruct (cache_rep_shard c vs k Hrep) as (s & v & Hat & _ & _ & -> & Hs & Hi).
    unfold cache_lookup. rewrite Hat, bind_Ok.
    destruct (shard_lookup_refines _ s v k now Hs) as (s' & -> & Hs'). rewrite bind_Ok.
    destruct (a_lookup v k now) as [e v']. cbn [fst snd fmap] in *. rewrite <-Hi.
    destruct e as [e|]; eexists; (split; [done|split; [|done]]);
      by apply (cache_rep_stats (set_shard c _ _)), cache_rep_set.
  - unfold cache_insert. rewrite (cr_config _ _ _ Hrep). destruct (_ =? 0)%Z; [by exists c|].
    destruct (cache_rep_shard c vs k Hrep) as (s & v & Hat & _ & _ & -> & Hs & Hi).
    rewrite Hat, bind_Ok. rewrite <-Hi.
    edestruct (shard_insert_refines (c_shard_budget c) s v k) as (s' & -> & Hs');
      [done|rewrite (cr_budget _ _ _ Hrep); by apply shard_budget_range| |].
    2:{ eexists. split; [done|]. split; [|done]. by apply cache_rep_set. }
    apply Z.mod_pos_bound. lia.
  - unfold cache_evict. destruct (cache_rep_shard c vs k Hrep) as (s & v & Hat & _ & Hv & -> & Hs & Hi).
    rewrite Hat, bind_Ok. destruct (evict_refines _ s v k Hs) as (s' & He & Hs'). rewrite <-Hi in *.
    destruct (s_index s !! canon k).
    + rewrite He. eexists. split; [done|]. split; [|done]. by apply cache_rep_set.
    + injection He as <-. exists c. split; [done|]. split; [|done].
      apply (cache_rep_set c vs (shard_for c k) s) in Hs'; [|done].
      unfold set_shard in Hs'. rewrite list_insert_id in Hs'; [by destruct c|].
      unfold shard_at in Hat. by case_match; simplify_eq.
  - exists (cache_flush c). split; [done|]. split; [|done]. destruct Hrep as [H1 H2 H3 H4].
    split; cbn; try done; [by rewrite length_map|].
    apply Forall2_fmap. eapply Forall2_impl; [exact H4|]. intros s v _. apply shard_rep_empty.
    rewrite H3. by apply shard_budget_range.
Qed.

Lemma run_ops_refines ops : ∀ c vs, cache_rep cfg c vs →
  ∃ c', run_ops sz c ops = Ok ((a_ops sz cfg (c_shard_budget c) vs ops).1, c') ∧
        cache_rep cfg c' (a_ops sz cfg (c_shard_budget c) vs ops).2.
Proof using Hcfg.
  induction ops as [|op ops IH]; intros c vs Hrep; cbn [run_ops a_ops]; [by exists c|].
  destruct (run_op_refines c vs op Hrep) as (c1 & -> & Hrep1 & Hb1). rewrite bind_Ok.
  destruct (a_op sz cfg (c_shard_budget c) vs op) as [r vs1]. cbn [fst snd] in *.
  destruct (IH c1 vs1 Hrep1) as (c2 & -> & Hrep2). rewrite bind_Ok. rewrite Hb1 in *.
  destruct (a_ops _ _ _ vs1 ops) as [rs vs2]. by exists c2.
Qed.
End cache_refines.

(** ** Reachable caches *)

Definition reachable (sz : Sizes) (cfg : CacheConfig) (c : Cache) : Prop :=
  ∃ ops rs, run_ops sz (new_cache cfg) ops = Ok (rs, c).

(** What the index finds for a key, live or not. *)
Definition cached (c : Cache) (k : CacheKey) : option CacheEntry :=
  s ← c_shards c !! shard_for c k;
  id ← s_index s !! canon k;
  n_entry <$> s_nodes s !! id.

(** An entry lives for a positive TTL within the configured maximum. *)
Definition dated (cfg : CacheConfig) (n : Node) : Prop :=
  ∃ eff, (1 ≤ eff ≤ cc_max_ttl cfg)%Z ∧
    ce_expires_at (n_entry n) = (ce_inserted_at (n_entry n) + nanoseconds eff)%Z.

Lemma Forall_a_remove P k v : Forall P v → Forall P (a_remove k v).
Proof. rewrite !Forall_forall. intros H n [_ Hn]%list_elem_of_filter. by apply H. Qed.

Lemma Forall_fit P v b : Forall P v → Forall P (fit b v).
Proof. intros Hv. destruct (fit_prefix v b) as [r Hr]. rewrite Hr in Hv. by apply Forall_app in Hv as [? _]. Qed.

Lemma effective_ttl_range cfg ttl : config_ok cfg → (0 ≤ effective_ttl cfg ttl ≤ cc_max_ttl cfg)%Z.
Proof. intros [_ _ H1 H2]. unfold effective_ttl, is_u32 in *. lia. Qed.

Lemma a_op_dated sz cfg budget vs op : config_ok cfg →
  Forall (Forall (dated cfg)) vs → Forall (Forall (dated cfg)) (a_op sz cfg budget vs op).2.
Proof.
  intros Hcfg Hvs.
  assert (Hat : ∀ k, Forall (dated cfg) (vs !!! shard_index (length vs) k)).
  { intros k. destruct (vs !! shard_index (length vs) k) as [v|] eqn:E.
    - rewrite (list_lookup_total_correct _ _ _ E). by eapply Forall_lookup_1.
    - rewrite list_lookup_total_alt, E. constructor. }
  destruct op as [k now|k records trust ttl negative now|k|]; cbn [a_op].
  - specialize (Hat k). unfold a_lookup. destruct (a_find _ _) as [n|] eqn:E; [|by apply Forall_insert].
    destruct (live _ _); [|by apply Forall_insert]. cbn. apply Forall_insert; [done|]. constructor.
    + apply a_find_Some in E as [_ Hn]. rewrite Forall_forall in Hat. exact (Hat n Hn).
    + by apply Forall_a_remove.
  - destruct (_ =? 0)%Z eqn:E; [done|]. apply Z.eqb_neq in E. specialize (Hat k).
    pose proof (effective_ttl_range cfg ttl Hcfg). apply Forall_insert; [done|]. unfold a_insert.
    destruct (outranked _ _ _ _); [done|]. destruct (_ <? _)%Z; [by apply Forall_a_remove|].
    apply Forall_fit. constructor; [|by apply Forall_a_remove].
    exists (effective_ttl cfg ttl). split; [lia|done].
  - apply Forall_insert; [done|]. by apply Forall_a_remove.
  - apply Forall_fmap. eapply Forall_impl; [exact Hvs|]. constructor.
Qed.

Lemma a_ops_dated sz cfg budget ops : ∀ vs, config_ok cfg →
  Forall (Forall (dated cfg)) vs → Forall (Forall (dated cfg)) (a_ops sz cfg budget vs ops).2.
Proof.
  induction ops as [|op ops IH]; intros vs Hcfg Hvs; cbn [a_ops]; [done|].
  pose proof (a_op_dated sz cfg budget vs op Hcfg Hvs) as H1.
  destruct (a_op sz cfg budget vs op) as [r vs1]. specialize (IH vs1 Hcfg H1).
  by destruct (a_ops sz cfg budget vs1 ops).
Qed.

Section reachable.
Context (cfg : CacheConfig) (Hcfg : config_ok cfg) (sz : Sizes).

Lemma reachable_rep c : reachable sz cfg c →
  ∃ vs, cache_rep cfg c vs ∧ Forall (Forall (dated cfg)) vs.
Proof using Hcfg.
  intros (ops & rs & Hrun).
  destruct (run_ops_refines cfg Hcfg sz ops _ _ (cache_rep_new cfg Hcfg)) as (c' & Hrun' & Hrep).
  rewrite Hrun in Hrun'. injection Hrun' as _ <-. eexists. split; [exact Hrep|].
  apply a_ops_dated; [done|]. by apply Forall_replicate.
Qed.

Lemma cached_rep c vs k : cache_rep cfg c vs →
  cached c k = n_entry <$> a_find (canon k) (vs !!! shard_index (length vs) k).
Proof using Hcfg.
  intros Hrep. destruct (cache_rep_shard cfg Hcfg c vs k Hrep) as (s & v & _ & Hs & _ & -> & (l & Hl & <- & _) & _).
  unfold cached. rewrite Hs. cbn [mbind option_bind]. pose proof (rep_find s l (canon k) Hl) as Hf.
  destruct (s_index s !! canon k) as [id|]; [|by destruct Hf as [-> _]].
  destruct Hf as (l1 & n & l2 & _ & _ & Hd & -> & _). unfold deref in Hd.
  cbn [mbind option_bind]. by destruct (s_nodes s !! id); simplify_eq.
Qed.

Lemma shard_bytes_bound b shards vs acc :
  Forall2 (shard_rep b) shards vs → (0 ≤ acc)%Z →
  (acc ≤ fold_left (λ acc s, acc + s_bytes s) shards acc ≤ acc + Z.of_nat (length shards) * b)%Z.
Proof using.
  intros H. revert acc. induction H as [|s v shards vs (l & Hl & <- & Hpos & Ht) H IH]; intros acc Ha.
  { simpl. lia. }
  cbn [fold_left length]. apply total_nonneg in Hpos. pose proof (rep_bytes s l Hl) as Hb.
  specialize (IH (acc + s_bytes s)%Z). lia.
Qed.
End reachable.

Lemma a_insert_lookup budget v k k' e bytes now now' :
  canon k' = canon k → outranked v (canon k) (ce_trust e) now = false → (bytes ≤ budget)%Z →
  live e now' = true →
  (a_lookup (a_insert budget v k e bytes now) k' now').1 = Some (n_entry (touch (mkNode k e bytes))).
Proof.
  intros Hk Hout Hfit Hlive. unfold a_insert. rewrite Hout, (proj2 (Z.ltb_ge _ _) Hfit).
  cbn [fit n_bytes]. rewrite (proj2 (Z.leb_le _ _) Hfit). unfold a_lookup. cbn [a_find].
  rewrite decide_True; [cbn [n_entry]; by rewrite Hlive|].
  unfold key_of. cbn [n_key]. rewrite Hk. destruct (a_find _ _) as [n|] eqn:E; [|done].
  by apply a_find_Some in E as [? _].
Qed.

Lemma a_find_remove k k2 v : a_find k2 (a_remove k v) = if decide (k2 = k) then None else a_find k2 v.
Proof.
  unfold a_remove. induction v as [|n v IH]; [by destruct (decide (k2 = k))|].
  rewrite filter_cons. cbn [a_find]. destruct (decide (key_of n ≠ k)) as [Hn|Hn]; cbn [a_find]; rewrite IH;
    repeat case_decide; try done; try congruence. by destruct Hn; congruence.
Qed.

Lemma a_find_prefix k v1 v2 : v1 `prefix_of` v2 → a_find k v1 = a_find k v2 ∨ a_find k v1 = None.
Proof.
  intros [r ->]. induction v1 as [|n v1 IH]; [by right|]. cbn [a_find app]. case_decide; [by left|done].
Qed.

Lemma a_insert_frame budget v k e bytes now k2 : k2 ≠ canon k →
  a_find k2 (a_insert budget v k e bytes now) = a_find k2 v ∨
  a_find k2 (a_insert budget v k e bytes now) = None.
Proof.
  intros Hne. unfold a_insert. destruct (outranked _ _ _ _); [by left|]. destruct (_ <? _)%Z.
  { left. rewrite a_find_remove. by rewrite decide_False. }
  set (n := mkNode _ _ _). destruct (a_find_prefix k2 _ _ (fit_prefix (n :: a_remove (canon k) v) budget))
    as [-> | ->]; [left|by right].
  cbn [a_find]. rewrite decide_False.
  - rewrite a_find_remove. by rewrite decide_False.
  - unfold key_of, n. cbn [n_key]. destruct (a_find _ _) as [m|] eqn:E; [|done].
    apply a_find_Some in E as [E _]. unfold key_of in E. cbn [from_option]. congruence.
Qed.

(** What an update of one shard's list does to the lookup of any key. *)
Lemma cached_update cfg c c1 vs k v k2 : config_ok cfg →
  cache_rep cfg c vs → cache_rep cfg c1 (<[shard_index (length vs) k := v]> vs) →
  cached c1 k2 = if decide (shard_index (length vs) k2 = shard_index (length vs) k)
                 then n_entry <$> a_find (canon k2) v else cached c k2.
Proof.
  intros Hcfg Hrep Hrep1. rewrite (cached_rep cfg Hcfg c1 _ k2 Hrep1), (cached_rep cfg Hcfg c vs k2 Hrep).
  rewrite length_insert. case_decide as E.
  - destruct (cache_rep_shard cfg Hcfg c vs k Hrep) as (_ & v0 & _ & _ & Hv & _). rewrite E.
    by rewrite list_lookup_total_insert_eq by (by eapply lookup_lt_Some).
  - by rewrite list_lookup_total_insert_ne.
Qed.

Lemma canon_shard n k k2 : canon k2 = canon k → shard_index n k2 = shard_index n k.
Proof.
  unfold canon. intros [= Hl Ht Hc]. unfold shard_index, key_hash, name_hash. by rewrite Hl, Ht, Hc.
Qed.

Lemma remaining_bound e n now cfg : config_ok cfg → n_entry n = e → dated cfg n →
  live e now = true → (ce_inserted_at e ≤ now)%Z →
  (0 ≤ u32 (remaining_seconds (ce_expires_at e) now) ≤ cc_max_ttl cfg)%Z.
Proof.
  intros [_ _ _ Hmax] <- (eff & Heff & Hexp) Hlive%Z.ltb_lt Hins. unfold is_u32 in Hmax.
  unfold remaining_seconds, nanoseconds in *.
  assert (0 ≤ Z.quot (ce_expires_at (n_entry n) - now) 1000000000 ≤ eff)%Z.
  { split; [apply Z.quot_pos; lia|]. rewrite Z.quot_div_nonneg by lia. apply Z.div_le_upper_bound; lia. }
  unfold u32. rewrite Z.mod_small; lia.
Qed.

(** ** Properties *)

(** C8: functional correctness of the cache as a refinement.  Any sequence
    of lookups, insertions, evictions and flushes on a new cache runs without
    following a dangling iterator or wrapping the byte count, returns exactly
    the lookup results of the abstract cache (a recency-ordered list per shard,
    cut to the longest prefix that fits the budget), and leaves shards that
    implement the abstract lists. *)
Theorem cache_refines sz cfg ops :
  config_ok cfg →
  let n := Z.to_nat (Z.max (cc_num_shards cfg) 1) in
  let budget := (cc_max_memory_bytes cfg / Z.max (cc_num_shards cfg) 1)%Z in
  let '(results, vs) := a_ops sz cfg budget (replicate n []) ops in
  ∃ c, run_ops sz (new_cache cfg) ops = Ok (results, c) ∧
       Forall2 (shard_rep budget) (c_shards c) vs.
Proof.
  intros Hcfg. cbv zeta.
  destruct (run_ops_refines cfg Hcfg sz ops _ _ (cache_rep_new cfg Hcfg)) as (c & Hrun & Hrep).
  cbn [c_shard_budget new_cache] in *. destruct (a_ops _ _ _ _ _) as [rs vs]. exists c.
  split; [done|]. pose proof (cr_shards _ _ _ Hrep) as Hs. by rewrite (cr_budget _ _ _ Hrep) in Hs.
Qed.

(** C23: the cache never holds more than it may.  In every reachable state
    the accounted memory is at most [max_memory_bytes], whatever was inserted. *)
Theorem memory_bounded sz cfg c :
  config_ok cfg → reachable sz cfg c → (0 ≤ memory_used c ≤ cc_max_memory_bytes cfg)%Z.
Proof.
  intros Hcfg (vs & [_ Hcount Hb Hs] & _)%reachable_rep; [|done].
  pose proof (shard_bytes_bound _ _ _ 0 Hs) as H. rewrite Hcount, Hb in H.
  pose proof (Z.mul_div_le (cc_max_memory_bytes cfg) (Z.max (cc_num_shards cfg) 1)). destruct Hcfg.
  unfold memory_used, u64. rewrite Z.mod_small; lia.
Qed.

(** Insert, then look up.  An entry that may be cached (positive
    effective TTL, small enough for a shard, not outranked by live data) is
    found under every spelling of its name until its TTL runs out, with every
    record's TTL replaced by the whole seconds left. *)
Lemma insert_then_lookup sz cfg c k k' records trust ttl negative now now' :
  config_ok cfg → reachable sz cfg c → canon k' = canon k →
  let effective := effective_ttl cfg ttl in
  let expires := (now + nanoseconds effective)%Z in
  effective ≠ 0%Z → (entry_bytes sz k records ≤ c_shard_budget c)%Z →
  (∀ e, cached c k = Some e → live e now = true → (TrustRank.rank (ce_trust e) ≤ TrustRank.rank trust)%Z) →
  (now' < expires)%Z →
  ∃ c1 c2, cache_insert sz c k records trust ttl negative now = Ok c1 ∧
    cache_lookup c1 k' now' =
      Ok (mkLookup (Some (mkEntry (map (set_ttl (u32 (remaining_seconds expires now'))) records)
                            trust expires now 1 negative)) false false, c2).
Proof.
  intros Hcfg (vs & Hrep & _)%reachable_rep Hkk eff expires Heff Hfit Htrust Hnow; [|done].
  assert (Hh : key_hash k' = key_hash k).
  { unfold key_hash, name_hash. unfold canon in Hkk. by injection Hkk as -> -> ->. }
  pose proof (run_op_refines cfg Hcfg sz c vs (OpInsert k records trust ttl negative now) Hrep) as (c1 & Hi & Hrep1 & _).
  cbn [run_op] in Hi. destruct (cache_insert _ _ _ _ _ _ _ _) as [c1'| |] eqn:Hins; [|done..].
  injection Hi as ->. exists c1.
  pose proof (run_op_refines cfg Hcfg sz c1 _ (OpLookup k' now') Hrep1) as (c2 & Hl & _ & _).
  cbn [run_op] in Hl. destruct (cache_lookup c1 k' now') as [[r c2']| |] eqn:Hlk; [|done..].
  rewrite bind_Ok in Hl. apply Ok_pair_inj in Hl as [Hr ->]. exists c2. split; [done|]. do 2 f_equal.
  destruct (cache_rep_shard cfg Hcfg c vs k Hrep) as (s & v & _ & _ & Hv & Htot & _ & _).
  rewrite (cached_rep cfg Hcfg c vs k Hrep), Htot in Htrust.
  cbn [a_op snd] in Hr. fold eff in Hr. rewrite (proj2 (Z.eqb_neq _ _) Heff), length_insert in Hr.
  assert (shard_index (length vs) k' = shard_index (length vs) k) as Hsame by (unfold shard_index; by rewrite Hh).
  rewrite Hsame, list_lookup_total_insert_eq, Htot in Hr by (by eapply lookup_lt_Some).
  fold expires in Hr. set (e := mkEntry records trust expires now 0 negative) in Hr.
  pose proof (a_insert_lookup (c_shard_budget c) v k k' e (entry_bytes sz k records) now now' Hkk) as Ha.
  destruct (a_lookup _ k' now') as [found v']. cbn [fst] in Ha, Hr. rewrite Ha in Hr; [|clear Hr..].
  - by injection Hr as ->.
  - unfold outranked. destruct (a_find _ _) as [n|]; [|done]. apply andb_false_iff.
    destruct (live (n_entry n) now) eqn:E; [right|by left]. apply Z.ltb_ge. by apply (Htrust (n_entry n)).
  - done.
  - by apply Z.ltb_lt.
Qed.

(** C24: trust ranking (RFC 2181 5.4.1).  Inserting data that is less
    trusted than the live entry of the same key changes nothing at all. *)
Theorem trust_protects sz c k e records trust ttl negative now :
  cached c k = Some e → live e now = true →
  (TrustRank.rank trust < TrustRank.rank (ce_trust e))%Z →
  cache_insert sz c k records trust ttl negative now = Ok c.
Proof.
  intros Hc Hlive Htrust. unfold cached in Hc. unfold cache_insert. destruct (_ =? 0)%Z; [done|].
  destruct (c_shards c !! shard_for c k) as [s|] eqn:Hs; [|done]. cbn [mbind option_bind] in Hc.
  destruct (s_index s !! canon k) as [id|] eqn:Hid; [|done]. cbn [mbind option_bind] in Hc.
  destruct (s_nodes s !! id) as [n|] eqn:Hn; [|done]. injection Hc as Hc.
  unfold shard_at. rewrite Hs, bind_Ok. unfold shard_insert, deref. rewrite Hid, Hn, bind_Ok, Hc.
  unfold live in Hlive. cbn [ce_trust]. rewrite Hlive, (proj2 (Z.ltb_lt _ _) Htrust). cbn [andb]. rewrite bind_Ok.
  unfold set_shard. rewrite list_insert_id by done. by destruct c.
Qed.

(** C25: what a lookup answers.  In every reachable state it returns the
    entry stored under the key if that entry has not expired and nothing
    otherwise; and if the clock is not behind the insertion time, every TTL
    handed out is between 0 and the configured maximum. *)
Theorem lookup_serves_live sz cfg c k now :
  config_ok cfg → reachable sz cfg c →
  ∃ found c', cache_lookup c k now = Ok (mkLookup found false false, c') ∧
    match cached c k with
    | Some e =>
      if live e now then
        ∃ e', found = Some e' ∧
          ce_records e' = map (set_ttl (u32 (remaining_seconds (ce_expires_at e) now))) (ce_records e) ∧
          ce_is_negative e' = ce_is_negative e ∧ ce_hit_count e' = u64 (ce_hit_count e + 1) ∧
          ((ce_inserted_at e ≤ now)%Z → Forall (λ r, 0 ≤ rr_ttl r ≤ cc_max_ttl cfg)%Z (ce_records e'))
      else found = None
    | None => found = None
    end.
Proof.
  intros Hcfg (vs & Hrep & Hdated)%reachable_rep; [|done].
  pose proof (run_op_refines cfg Hcfg sz c vs (OpLookup k now) Hrep) as (c2 & Hl & _ & _).
  cbn [run_op] in Hl. destruct (cache_lookup c k now) as [[r c2']| |]; [|done..].
  rewrite bind_Ok in Hl. apply Ok_pair_inj in Hl as [Hr ->].
  rewrite (cached_rep cfg Hcfg c vs k Hrep). cbn [a_op] in Hr.
  destruct (cache_rep_shard cfg Hcfg c vs k Hrep) as (s & v & _ & _ & Hv & Htot & _ & _).
  rewrite Htot in *. unfold a_lookup in Hr. destruct (a_find (canon k) v) as [n|] eqn:E; cbn [fmap option_fmap option_map] in *.
  - destruct (live (n_entry n) now) eqn:El; cbn in Hr; injection Hr as ->; do 2 eexists; (split; [done|]); [|done].
    eexists. split_and!; try done. intros Hins. apply Forall_fmap, Forall_true. intros r.
    cbn [compose set_ttl rr_ttl]. apply (remaining_bound (n_entry n) n); [done|done| |done|done].
    apply a_find_Some in E as [_ Hin]. rewrite Forall_lookup in Hdated.
    specialize (Hdated _ _ Hv). rewrite Forall_forall in Hdated. by apply Hdated.
  - injection Hr as ->. by do 2 eexists.
Qed.

(** Operations on one key do not disturb others.  Evicting a key
    removes exactly that key, in every spelling; inserting under a key leaves
    each other key as it was or evicts it, never alters it. *)
Lemma key_isolation sz cfg c k :
  config_ok cfg → reachable sz cfg c →
  (∃ c1, cache_evict c k = Ok c1 ∧
     ∀ k2, cached c1 k2 = if decide (canon k2 = canon k) then None else cached c k2) ∧
  ∀ records trust ttl negative now, ∃ c1, cache_insert sz c k records trust ttl negative now = Ok c1 ∧
     ∀ k2, canon k2 ≠ canon k → cached c1 k2 = cached c k2 ∨ cached c1 k2 = None.
Proof.
  intros Hcfg (vs & Hrep & _)%reachable_rep; [|done]. split.
  - pose proof (run_op_refines cfg Hcfg sz c vs (OpEvict k) Hrep) as (c1 & He & Hrep1 & _).
    cbn [run_op a_op snd] in *. destruct (cache_evict c k) as [c1'| |]; [|done..].
    rewrite bind_Ok in He. apply Ok_pair_inj in He as [_ ->]. exists c1. split; [done|]. intros k2.
    rewrite (cached_update cfg c c1 vs k _ k2 Hcfg Hrep Hrep1), a_find_remove, (cached_rep cfg Hcfg c vs k2 Hrep).
    destruct (decide (canon k2 = canon k)) as [Hk|Hk].
    + by rewrite decide_True by (by apply canon_shard).
    + case_decide as E; [by rewrite E|done].
  - intros records trust ttl negative now.
    pose proof (run_op_refines cfg Hcfg sz c vs (OpInsert k records trust ttl negative now) Hrep)
      as (c1 & Hi & Hrep1 & _).
    cbn [run_op a_op snd] in *. destruct (cache_insert _ _ _ _ _ _ _ _) as [c1'| |]; [|done..].
    rewrite bind_Ok in Hi. apply Ok_pair_inj in Hi as [_ ->]. exists c1. split; [done|]. intros k2 Hk.
    destruct (_ =? 0)%Z.
    { left. by rewrite (cached_rep cfg Hcfg c1 vs k2 Hrep1), (cached_rep cfg Hcfg c vs k2 Hrep). }
    rewrite (cached_update cfg c c1 vs k _ k2 Hcfg Hrep Hrep1), (cached_rep cfg Hcfg c vs k2 Hrep).
    case_decide as E; [|by left]. rewrite E. by edestruct a_insert_frame as [-> | ->]; [exact Hk|left|right].
Qed.

(** ** A small cache for the witnesses: two shards, one entry *)

Definition ex_sizes : Sizes := mkSizes 32 56 80 120.
Definition ex_config : CacheConfig := mkCacheConfig 4096 2 5 3600 true 30 86400 true 10.
Definition ex_key : CacheKey := mkKey ex_name 1 1.
Definition ex_records : list RR := [mkRR ex_name RRType.A 1 60 (RDataA [192; 0; 2; 1]%Z) TrustRank.Answer].
Definition ex_op : cache_op := OpInsert ex_key ex_records TrustRank.Answer 60 false 1000.

Definition cache_after (ops : list cache_op) : Cache :=
  match run_ops ex_sizes (new_cache ex_config) ops with Ok (_, c) => c | _ => new_cache ex_config end.

Lemma ex_config_ok : config_ok ex_config.
Proof. split; cbn; unfold is_u32; lia. Defined.

Lemma ex_reachable : reachable ex_sizes ex_config (cache_after [ex_op]).
Proof. exists [ex_op], [None]. vm_compute. reflexivity. Defined.

Lemma ex_cached : cached (cache_after [ex_op]) ex_key
  = Some (mkEntry ex_records TrustRank.Answer 60000001000 1000 0 false).
Proof. vm_compute. reflexivity. Defined.

Lemma cache_refines_witness : ∃ c,
  run_ops ex_sizes (new_cache ex_config) [ex_op; OpLookup ex_key 2000] =
    Ok ([None; Some (mkLookup (Some (mkEntry (map (set_ttl 59) ex_records) TrustRank.Answer 60000001000 1000 1 false))
                       false false)], c).
Proof.
  pose proof (cache_refines ex_sizes ex_config [ex_op; OpLookup ex_key 2000] ex_config_ok) as H.
  cbv zeta in H. destruct (a_ops _ _ _ _ _) as [rs vs] eqn:E. destruct H as (c & Hrun & _). exists c.
  rewrite Hrun. f_equal. f_equal. apply (f_equal fst) in E. cbn [fst] in E. rewrite <-E. vm_compute. reflexivity.
Defined.

Lemma memory_bounded_witness : (0 ≤ memory_used (cache_after [ex_op]) ≤ 4096)%Z.
Proof. apply (memory_bounded ex_sizes ex_config (cache_after [ex_op])); [apply ex_config_ok|apply ex_reachable]. Defined.

Lemma insert_then_lookup_witness : ∃ c1 c2,
  cache_insert ex_sizes (cache_after [ex_op]) ex_key [] TrustRank.Answer 10 true 2000 = Ok c1 ∧
  cache_lookup c1 (mkKey (mkName (labels ex_name) (labels ex_name)) 1 1) 3000 =
    Ok (mkLookup (Some (mkEntry [] TrustRank.Answer 10000002000 2000 1 true)) false false, c2).
Proof.
  apply (insert_then_lookup ex_sizes ex_config (cache_after [ex_op]) ex_key
    (mkKey (mkName (labels ex_name) (labels ex_name)) 1 1) [] TrustRank.Answer 10 true 2000 3000);
    [apply ex_config_ok|apply ex_reachable|done|done|by_compute| |done].
  rewrite ex_cached. by intros e [= <-].
Defined.

Lemma trust_protects_witness :
  cache_insert ex_sizes (cache_after [ex_op]) ex_key [] TrustRank.Glue 10 true 2000 = Ok (cache_after [ex_op]).
Proof. eapply trust_protects; [apply ex_cached|done|done]. Defined.

Lemma lookup_serves_live_witness : ∃ found c',
  cache_lookup (cache_after [ex_op]) ex_key 2000 = Ok (mkLookup found false false, c') ∧
  ∃ e', found = Some e' ∧ Forall (λ r, 0 ≤ rr_ttl r ≤ 3600)%Z (ce_records e').
Proof.
  destruct (lookup_serves_live ex_sizes ex_config (cache_after [ex_op]) ex_key 2000 ex_config_ok ex_reachable)
    as (found & c' & Hl & H).
  rewrite ex_cached in H. cbn [live ce_expires_at Z.ltb Z.compare Pos.compare Pos.compare_cont] in H.
  destruct H as (e' & ? & _ & _ & _ & Hb). exists found, c'. split; [done|]. exists e'. split; [done|].
  apply Hb. cbn. lia.
Defined.

Lemma key_isolation_witness : ∃ c1, cache_evict (cache_after [ex_op]) ex_key = Ok c1 ∧ cached c1 ex_key = None.
Proof.
  destruct (key_isolation ex_sizes ex_config (cache_after [ex_op]) ex_key ex_config_ok ex_reachable)
    as [(c1 & He & H) _].
  exists c1. split; [done|]. rewrite H. by rewrite decide_True.
Defined.
