(* ===== verification/Acl.v ===== *)
(** * Access control: [policy/acl.cpp]

    Addresses are the 16-byte arrays of [IpAddress] and [Subnet] (IPv4 uses
    the first four bytes, the rest are zero).  [inet_pton] belongs to the C
    library: it is an operation of the class [InetPton], whose laws are the
    documented facts the code relies on. *)

From stdpp Require Import base tactics numbers list strings.
From Stdlib Require Import ZArith Lia.
From S2P Require Import Prelude Types Wire.

(** ** Data *)

(** [sa_family_t] values of Linux. *)
Definition AF_UNSPEC : Z := 0.
Definition AF_INET : Z := 2.
Definition AF_INET6 : Z := 10.

(** A [sockaddr_storage]: the address bytes in network order and the port. *)
Inductive sockaddr :=
| SockV4 (addr : list Z) (port : Z)
| SockV6 (addr : list Z) (port : Z)
| SockOther.

Record IpAddress := mkIp { ip_family : Z; ip_bytes : list Z }.
Record Subnet := mkSubnet { sn_family : Z; sn_network : list Z; sn_prefix : Z }.

Inductive DenyAction := Refuse | DropQuery.
Record AccessConfig := mkAccess { ac_allow : list Subnet; ac_deny : DenyAction }.

Global Instance IpAddress_eq_dec : EqDecision IpAddress.
Proof. solve_decision. Defined.
Global Instance Subnet_eq_dec : EqDecision Subnet.
Proof. solve_decision. Defined.
Global Instance DenyAction_eq_dec : EqDecision DenyAction.
Proof. solve_decision. Defined.

(** ** Operations *)

Definition address_bytes (family : Z) : nat := if (family =? AF_INET)%Z then 4 else 16.

(** The byte [mask] keeps of byte [i]: [0xFF00 >> keep], cut to eight bits. *)
Definition mask_byte (prefix : Z) (i : nat) : Z :=
  let keep := clamp (prefix - Z.of_nat (i * 8)) 0 8 in
  u8 (Z.shiftr 0xFF00 keep).

Definition mask (bytes : list Z) (length : nat) (prefix : Z) : list Z :=
  imap (λ i b, if decide (i < length) then Z.land b (mask_byte prefix i) else b) bytes.

(** [std::array<uint8_t, 16>{}] with the first bytes copied in. *)
Definition into_array (bs : list Z) : list Z := bs ++ replicate (16 - length bs) 0%Z.

(** [IN6_IS_ADDR_V4MAPPED]: ten zero bytes, then two of 0xFF. *)
Definition v4_mapped (addr : list Z) : bool :=
  bool_decide (take 12 addr = replicate 10 0%Z ++ [255; 255]%Z).

Definition ip_address (client : sockaddr) : option IpAddress :=
  match client with
  | SockV4 addr _ => Some (mkIp AF_INET (into_array addr))
  | SockV6 addr _ =>
    Some (if v4_mapped addr then mkIp AF_INET (into_array (drop 12 addr)) else mkIp AF_INET6 (into_array addr))
  | SockOther => None
  end.

Definition network (ip : IpAddress) (prefix : Z) : IpAddress :=
  mkIp (ip_family ip) (mask (ip_bytes ip) (address_bytes (ip_family ip)) prefix).

Definition contains (s : Subnet) (client : sockaddr) : bool :=
  match ip_address client with
  | None => false
  | Some ip =>
    if negb (ip_family ip =? sn_family s)%Z then false
    else bool_decide (ip_bytes (network ip (sn_prefix s)) = sn_network s)
  end.

Definition any_contains (subnets : list Subnet) (client : sockaddr) : bool :=
  existsb (λ s, contains s client) subnets.

Definition allows (config : AccessConfig) (client : sockaddr) : bool := any_contains (ac_allow config) client.

(** ** [parse_subnet] *)

(** What [inet_pton] returns: the address bytes, or nothing if the text is
    not an address of that family. *)
Class InetPton := {
  inet_pton : Z → list Z → option (list Z);
  pton_v4_size : ∀ t b, inet_pton AF_INET t = Some b → length b = 4 ∧ bytes_wf b;
  pton_v6_size : ∀ t b, inet_pton AF_INET6 t = Some b → length b = 16 ∧ bytes_wf b;
}.

Definition is_digit_byte (c : Z) : bool := ((48 <=? c) && (c <=? 57))%Z.

(** [std::from_chars] into an [unsigned]: the value of the leading digits
    and what follows them; nothing if there is no digit or it overflows. *)
Fixpoint from_chars_loop (digits : list Z) (acc : Z) : option (Z * list Z) :=
  match digits with
  | c :: rest =>
    if is_digit_byte c then
      let acc := (acc * 10 + (c - 48))%Z in
      match from_chars_loop rest acc with
      | Some r => if (acc <? 4294967296)%Z then Some r else None
      | None => None
      end
    else Some (acc, digits)
  | [] => Some (acc, [])
  end.

Definition from_chars (digits : list Z) : option (Z * list Z) :=
  match digits with
  | c :: _ => if is_digit_byte c then from_chars_loop digits 0 else None
  | [] => None
  end.

(** The text before and after the first '/', if there is one. *)
Fixpoint split_slash (text : list Z) : list Z * option (list Z) :=
  match text with
  | [] => ([], None)
  | c :: rest =>
    if (c =? 47)%Z then ([], Some rest)
    else let '(a, d) := split_slash rest in (c :: a, d)
  end.

Inductive SubnetError := NotAnAddress | BadPrefix (bits : Z) | HostBitsSet (suggestion : Subnet).

(** [c_str()]: the text up to its first zero byte. *)
Fixpoint c_str (text : list Z) : list Z :=
  match text with
  | [] => []
  | c :: rest => if (c =? 0)%Z then [] else c :: c_str rest
  end.

Section parse_subnet.
Context `{InetPton}.

Definition parse_address (text : list Z) : option (Z * list Z) :=
  match inet_pton AF_INET text with
  | Some b => Some (AF_INET, into_array b)
  | None => match inet_pton AF_INET6 text with
            | Some b => Some (AF_INET6, into_array b)
            | None => None
            end
  end.

Definition parse_subnet (text : list Z) : SubnetError + Subnet :=
  let '(address, digits) := split_slash text in
  match parse_address (c_str address) with
  | None => inl NotAnAddress
  | Some (family, net) =>
    let bits := Z.of_nat (address_bytes family * 8) in
    let prefix :=
      match digits with
      | None => Some bits
      | Some ds =>
        match from_chars ds with
        | Some (p, []) => if (bits <? p)%Z then None else Some (u8 p)
        | _ => None
        end
      end in
    match prefix with
    | None => inl (BadPrefix bits)
    | Some prefix =>
      let masked := mask net (address_bytes family) prefix in
      if bool_decide (masked = net) then inr (mkSubnet family net prefix)
      else inl (HostBitsSet (mkSubnet family masked prefix))
    end
  end.
End parse_subnet.

(** ** Printing, hashing and the default *)

(** [std::to_string] of an unsigned number below 2^64. *)
Fixpoint decimal_loop (fuel : nat) (n : Z) : list Z :=
  match fuel with
  | 0 => []
  | S fuel => (if (n <? 10)%Z then [] else decimal_loop fuel (n / 10)) ++ [48 + n mod 10]%Z
  end.
Definition to_decimal (n : Z) : list Z := decimal_loop 20 n.

(** What [inet_ntop] writes: a text of that family, without a slash or a zero
    byte, that [inet_pton] reads back. *)
Class InetNtop `{InetPton} := {
  inet_ntop : Z → list Z → list Z;
  ntop_v4 : ∀ b, length b = 4 → bytes_wf b →
    inet_pton AF_INET (inet_ntop AF_INET b) = Some b ∧ Forall (λ c, c ≠ 47 ∧ c ≠ 0)%Z (inet_ntop AF_INET b);
  ntop_v6 : ∀ b, length b = 16 → bytes_wf b →
    inet_pton AF_INET (inet_ntop AF_INET6 b) = None ∧ inet_pton AF_INET6 (inet_ntop AF_INET6 b) = Some b ∧
    Forall (λ c, c ≠ 47 ∧ c ≠ 0)%Z (inet_ntop AF_INET6 b);
}.

Section printing.
Context `{InetNtop}.

Definition ip_to_string (ip : IpAddress) : list Z :=
  if ((ip_family ip =? AF_INET) || (ip_family ip =? AF_INET6))%Z
  then inet_ntop (ip_family ip) (take (address_bytes (ip_family ip)) (ip_bytes ip)) else str "?".

Definition subnet_to_string (s : Subnet) : list Z :=
  inet_ntop (sn_family s) (take (address_bytes (sn_family s)) (sn_network s)) ++ str "/" ++ to_decimal (sn_prefix s).
End printing.

(** [IpAddressHash]: FNV-1a over the bytes, the family mixed in first. *)
Definition ip_hash (a : IpAddress) : Z :=
  fold_left (λ h b, u64 (Z.lxor h b * 1099511628211)) (ip_bytes a) (Z.lxor 1469598103934665603 (ip_family a)).

Definition localhost `{InetPton} : list Subnet :=
  omap (λ t, match parse_subnet t with inr s => Some s | inl _ => None end) [str "127.0.0.0/8"; str "::1/128"].

(** ** Bits of an address *)

(** Bit [i] of an address, counted from the most significant bit of its
    first byte. *)
Definition address_bit (bytes : list Z) (i : nat) : bool :=
  Z.testbit (bytes !!! (i / 8)) (7 - Z.of_nat (i mod 8)).

Lemma mask_byte_bits keep j : (0 ≤ keep ≤ 8)%Z → j < 8 →
  Z.testbit (u8 (Z.shiftr 0xFF00 keep)) (7 - Z.of_nat j) = (Z.of_nat j <? keep)%Z.
Proof.
  intros Hk Hj. assert (Hk' : ∃ n, keep = Z.of_nat n ∧ n < 9) by (exists (Z.to_nat keep); lia).
  destruct Hk' as (n & -> & Hn).
  do 9 (destruct n as [|n]; [do 8 (destruct j as [|j]; [reflexivity|]); lia|]). lia.
Qed.

Lemma lookup_total_mask bytes n prefix i :
  i < length bytes → mask bytes n prefix !!! i =
    if decide (i < n) then Z.land (bytes !!! i) (mask_byte prefix i) else bytes !!! i.
Proof.
  intros [b Hb]%lookup_lt_is_Some_2. unfold mask. apply list_lookup_total_correct.
  rewrite list_lookup_imap, Hb. rewrite (list_lookup_total_correct _ _ _ Hb). done.
Qed.

(** [mask] keeps the first [prefix] bits and clears the others. *)
Lemma mask_bit bytes n prefix i :
  n ≤ length bytes → i < n * 8 → (0 ≤ prefix)%Z →
  address_bit (mask bytes n prefix) i = (Z.of_nat i <? prefix)%Z && address_bit bytes i.
Proof.
  intros Hn Hi Hp. pose proof (Nat.div_mod i 8 ltac:(lia)) as Hdm.
  pose proof (Nat.mod_upper_bound i 8 ltac:(lia)) as Hm. unfold address_bit.
  assert (Hlt : i / 8 < n) by (apply Nat.Div0.div_lt_upper_bound; lia).
  rewrite lookup_total_mask by lia. rewrite decide_True by done.
  rewrite Z.land_spec, andb_comm. unfold mask_byte, clamp.
  set (k := (prefix - Z.of_nat (i / 8 * 8))%Z). f_equal.
  destruct (k <? 0)%Z eqn:E1; [|destruct (8 <? k)%Z eqn:E2]; rewrite mask_byte_bits by (try done; lia).
  - apply Z.ltb_lt in E1. destruct (Z.ltb_spec (Z.of_nat i) prefix); [|by apply Z.ltb_ge; lia]. lia.
  - apply Z.ltb_lt in E2. rewrite (proj2 (Z.ltb_lt _ _)) by lia. symmetry. apply Z.ltb_lt. lia.
  - destruct (Z.ltb_spec (Z.of_nat i) prefix); [apply Z.ltb_lt|apply Z.ltb_ge]; lia.
Qed.

Lemma byte_ext a b : is_byte a → is_byte b →
  (∀ j, j < 8 → Z.testbit a (7 - Z.of_nat j) = Z.testbit b (7 - Z.of_nat j)) → a = b.
Proof.
  intros Ha Hb H. apply Z.bits_inj'. intros i Hi. destruct (Z.lt_ge_cases i 8) as [Hlt|Hge].
  - specialize (H (Z.to_nat (7 - i)) ltac:(lia)). by replace (7 - Z.of_nat (Z.to_nat (7 - i)))%Z with i in H by lia.
  - assert (Hz : ∀ x, is_byte x → Z.testbit x i = false); [|by rewrite !Hz].
    intros x Hx. unfold is_byte in Hx. destruct (Z.eq_dec x 0) as [->|]; [apply Z.testbit_0_l|].
    apply Z.bits_above_log2; [lia|]. apply Z.log2_lt_pow2; [lia|]. pose proof (Z.pow_le_mono_r 2 8 i). lia.
Qed.

Lemma land_byte a b : is_byte a → is_byte (Z.land a b).
Proof.
  unfold is_byte. intros Ha. split; [apply Z.land_nonneg; lia|].
  assert (Z.land a b = Z.land (Z.land a b) (Z.ones 8)) as ->.
  { rewrite (Z.land_comm a b), <-Z.land_assoc. f_equal. rewrite Z.land_ones by lia. by rewrite Z.mod_small. }
  rewrite Z.land_ones by lia. apply Z.mod_pos_bound. lia.
Qed.

(** ** Addresses as the code keeps them *)

Record address_wf (family : Z) (bytes : list Z) : Prop := {
  aw_family : family = AF_INET ∨ family = AF_INET6;
  aw_length : length bytes = 16;
  aw_bytes : bytes_wf bytes;
  aw_tail : ∀ j, address_bytes family ≤ j → j < 16 → bytes !!! j = 0%Z;
}.

(** What [parse_subnet] guarantees: a prefix within the family's width and no host bits. *)
Record subnet_wf (s : Subnet) : Prop := {
  sw_address : address_wf (sn_family s) (sn_network s);
  sw_prefix : (0 ≤ sn_prefix s ≤ Z.of_nat (address_bytes (sn_family s) * 8))%Z;
  sw_masked : mask (sn_network s) (address_bytes (sn_family s)) (sn_prefix s) = sn_network s;
}.

(** A socket address as the kernel fills it in. *)
Definition client_wf (c : sockaddr) : Prop :=
  match c with
  | SockV4 a _ => length a = 4 ∧ bytes_wf a
  | SockV6 a _ => length a = 16 ∧ bytes_wf a
  | SockOther => True
  end.

Lemma address_bytes_le family : address_bytes family ≤ 16.
Proof. unfold address_bytes. case_match; lia. Qed.

Lemma into_array_wf4 b : length b = 4 → bytes_wf b → address_wf AF_INET (into_array b).
Proof.
  intros Hl Hb. unfold into_array. rewrite Hl. split; [by left| | |].
  - rewrite length_app, Hl. done.
  - apply Forall_app. split; [done|]. apply Forall_replicate. unfold is_byte. lia.
  - change (address_bytes AF_INET) with 4. intros j H1 H2. apply list_lookup_total_correct.
    rewrite lookup_app_r by lia. apply lookup_replicate. split; [done|lia].
Qed.

Lemma into_array_wf16 b : length b = 16 → bytes_wf b → address_wf AF_INET6 (into_array b).
Proof.
  intros Hl Hb. unfold into_array. rewrite Hl, app_nil_r. split; [by right|done|done|].
  change (address_bytes AF_INET6) with 16. lia.
Qed.

Lemma ip_address_wf c ip : client_wf c → ip_address c = Some ip → address_wf (ip_family ip) (ip_bytes ip).
Proof.
  destruct c as [a p|a p|]; cbn; intros Hc; [destruct Hc as [Hl Hb]..|done]; intros [= <-].
  - by apply into_array_wf4.
  - destruct (v4_mapped a); cbn; [|by apply into_array_wf16].
    apply into_array_wf4; [rewrite length_drop; lia|by apply Forall_drop].
Qed.

Lemma mask_wf family bytes prefix : address_wf family bytes →
  address_wf family (mask bytes (address_bytes family) prefix).
Proof.
  intros [Hf Hl Hb Ht]. assert (Hlen : length (mask bytes (address_bytes family) prefix) = 16).
  { unfold mask. by rewrite length_imap. }
  split; [done|done| |].
  - apply Forall_lookup. intros i x Hx. apply list_lookup_total_correct in Hx as Hx'. subst x.
    apply lookup_lt_Some in Hx. rewrite lookup_total_mask by lia.
    assert (is_byte (bytes !!! i)).
    { destruct (lookup_lt_is_Some_2 bytes i) as [b Hbi]; [lia|]. rewrite (list_lookup_total_correct _ _ _ Hbi).
      by eapply bytes_lookup. }
    case_decide; [by apply land_byte|done].
  - intros j H1 H2. rewrite lookup_total_mask by lia. rewrite decide_False by lia. by apply Ht.
Qed.

(** Two well-formed addresses are equal when their bits are. *)
Lemma address_ext family a b : address_wf family a → address_wf family b →
  (∀ i, i < address_bytes family * 8 → address_bit a i = address_bit b i) → a = b.
Proof.
  intros [_ La Ba Ta] [_ Lb Bb Tb] H. apply list_eq_same_length with 16; [done|done|].
  intros j x y Hj Hx Hy. apply list_lookup_total_correct in Hx as Ex, Hy as Ey.
  destruct (decide (j < address_bytes family)) as [Hlt|Hge].
  - apply byte_ext; [exact (bytes_lookup _ _ _ Ba Hx)|exact (bytes_lookup _ _ _ Bb Hy)|]. intros k Hk.
    specialize (H (j * 8 + k) ltac:(lia)). unfold address_bit in H.
    rewrite Nat.div_add_l, Nat.div_small, Nat.add_0_r in H by lia.
    rewrite (Nat.add_comm (j * 8)), Nat.Div0.mod_add, Nat.mod_small in H by lia. by rewrite Ex, Ey in H.
  - rewrite <-Ex, <-Ey, Ta, Tb by lia. done.
Qed.

Lemma contains_bits s c ip : subnet_wf s → client_wf c → ip_address c = Some ip →
  contains s c = true ↔
  ip_family ip = sn_family s ∧
  ∀ i, (Z.of_nat i < sn_prefix s)%Z → address_bit (ip_bytes ip) i = address_bit (sn_network s) i.
Proof.
  intros [Hs Hp Hm] Hc Hip. pose proof (ip_address_wf c ip Hc Hip) as Hw. unfold contains. rewrite Hip.
  destruct (ip_family ip =? sn_family s)%Z eqn:E; cbn [negb];
    [apply Z.eqb_eq in E|apply Z.eqb_neq in E; split; [done|by intros []]].
  rewrite bool_decide_eq_true. cbn [network ip_bytes]. rewrite E in *.
  pose proof (address_bytes_le (sn_family s)) as Hle.
  assert (Hbit : ∀ bytes i, address_wf (sn_family s) bytes → i < address_bytes (sn_family s) * 8 →
    address_bit (mask bytes (address_bytes (sn_family s)) (sn_prefix s)) i =
    (Z.of_nat i <? sn_prefix s)%Z && address_bit bytes i).
  { intros bytes i [_ Hl _ _] Hi. apply mask_bit; lia. }
  split.
  - intros Heq. split; [done|]. intros i Hi. rewrite <-Heq, Hbit by (done || lia).
    by rewrite (proj2 (Z.ltb_lt _ _) Hi).
  - intros [_ H]. apply (address_ext (sn_family s)); [by apply mask_wf|done|]. intros i Hi.
    rewrite Hbit by done. destruct (Z.ltb_spec (Z.of_nat i) (sn_prefix s)); [by apply H|].
    rewrite <-Hm, Hbit by done. by rewrite (proj2 (Z.ltb_ge _ _)).
Qed.

(** ** Properties *)

(** CIDR matching.  For a subnet without host bits, [contains] says yes
    exactly when the client's address has the subnet's family and agrees with
    its first [prefix] bits; an IPv4-mapped IPv6 client is matched as the IPv4
    address it stands for. *)
Lemma contains_spec s a port :
  subnet_wf s → length a = 4 → bytes_wf a →
  let agrees := sn_family s = AF_INET ∧
    ∀ i, (Z.of_nat i < sn_prefix s)%Z → address_bit (into_array a) i = address_bit (sn_network s) i in
  (contains s (SockV4 a port) = true ↔ agrees) ∧
  (contains s (SockV6 (replicate 10 0%Z ++ [255; 255]%Z ++ a) port) = true ↔ agrees).
Proof.
  intros Hs Hl Hb agrees. assert (Hc : client_wf (SockV4 a port)) by done.
  assert (Hi : (contains s (SockV4 a port) = true ↔ agrees)).
  { rewrite (contains_bits s _ _ Hs Hc eq_refl). cbn [ip_family ip_bytes]. unfold agrees. intuition congruence. }
  split; [done|]. rewrite <-Hi. unfold contains. cbn [ip_address].
  assert (v4_mapped (replicate 10 0%Z ++ [255; 255]%Z ++ a) = true) as ->.
  { apply bool_decide_eq_true. by destruct a. }
  done.
Qed.

Section parse_subnet_wf.
Context `{InetPton}.

Lemma parse_address_wf text family net : parse_address text = Some (family, net) → address_wf family net.
Proof.
  unfold parse_address. destruct (inet_pton AF_INET text) as [b|] eqn:E4.
  - intros [= <- <-]. apply pton_v4_size in E4 as [? ?]. by apply into_array_wf4.
  - destruct (inet_pton AF_INET6 text) as [b|] eqn:E6; [|done].
    intros [= <- <-]. apply pton_v6_size in E6 as [? ?]. by apply into_array_wf16.
Qed.

Lemma from_chars_nonneg digits : ∀ acc v rest,
  (0 ≤ acc)%Z → from_chars_loop digits acc = Some (v, rest) → (0 ≤ v)%Z.
Proof using.
  induction digits as [|c digits IH]; intros acc v rest Ha; cbn [from_chars_loop]; [by intros [= <- _]|].
  destruct (is_digit_byte c) eqn:Hc; [|by intros [= <- _]].
  apply andb_true_iff in Hc as [Hc%Z.leb_le _].
  destruct (from_chars_loop digits _) as [[v' r']|] eqn:E; [|done]. destruct (_ <? _)%Z; [|done].
  intros [= <- <-]. eapply IH; [|exact E]. lia.
Qed.

(** Every subnet the configuration parser accepts is well formed:
    an address of its family, a prefix within the family's width, and no host
    bits set, which is what the matching theorem needs. *)
Lemma parse_subnet_wf text s : parse_subnet text = inr s → subnet_wf s.
Proof.
  unfold parse_subnet. destruct (split_slash text) as [address digits].
  destruct (parse_address (c_str address)) as [[family net]|] eqn:Ha; [|done].
  apply parse_address_wf in Ha. pose proof (address_bytes_le family) as Hle.
  set (prefix := match digits with None => _ | Some _ => _ end).
  destruct prefix as [p|] eqn:Hp; [|done]. case_bool_decide as Hm; [|done]. intros [= <-].
  split; [done| |done]. cbn. subst prefix. destruct digits as [ds|]; [|injection Hp as <-; lia].
  destruct (from_chars ds) as [[v rest]|] eqn:Hf; [|done]. destruct rest; [|done].
  destruct (_ <? _)%Z eqn:E; [done|]. apply Z.ltb_ge in E. injection Hp as <-.
  assert (0 ≤ v)%Z.
  { unfold from_chars in Hf. destruct ds; [done|]. destruct (is_digit_byte _); [|done].
    by eapply from_chars_nonneg in Hf. }
  unfold u8. rewrite Z.mod_small; lia.
Qed.
End parse_subnet_wf.

(** ** Printing and parsing *)

Section printed.
Context `{InetNtop}.

Lemma split_slash_at text rest : Forall (λ c, c ≠ 47 ∧ c ≠ 0)%Z text → split_slash (text ++ 47%Z :: rest) = (text, Some rest).
Proof using. induction 1 as [|c text [Hc _] _ IH]; [done|]. cbn [app split_slash]. by rewrite (proj2 (Z.eqb_neq c 47) Hc), IH. Qed.

Lemma c_str_id text : Forall (λ c, c ≠ 47 ∧ c ≠ 0)%Z text → c_str text = text.
Proof using. induction 1 as [|c text [_ Hc] _ IH]; [done|]. cbn [c_str]. by rewrite (proj2 (Z.eqb_neq c 0) Hc), IH. Qed.

(** Prefix lengths, all of them. *)
Lemma from_chars_decimal n : (0 ≤ n ≤ 128)%Z → from_chars (to_decimal n) = Some (n, []).
Proof using.
  intros Hn. assert (Hall : forallb (λ k, bool_decide (from_chars (to_decimal (Z.of_nat k)) = Some (Z.of_nat k, []))) (seq 0 129) = true) by (vm_compute; reflexivity).
  rewrite forallb_forall in Hall. specialize (Hall (Z.to_nat n)). rewrite Z2Nat.id in Hall by lia.
  apply (bool_decide_eq_true _), Hall. apply in_seq. lia.
Qed.

Lemma into_array_take family bytes : address_wf family bytes → into_array (take (address_bytes family) bytes) = bytes.
Proof using.
  intros [Hf Hl Hb Ht]. pose proof (address_bytes_le family) as Hle. unfold into_array. rewrite length_take, Hl, Nat.min_l by lia.
  rewrite <-(take_drop (address_bytes family) bytes) at 2. f_equal. apply replicate_as_elem_of. rewrite length_drop, Hl. split; [done|].
  intros x (j & Hj)%list_elem_of_lookup. rewrite lookup_drop in Hj. apply list_lookup_total_correct in Hj as Hj'.
  apply lookup_lt_Some in Hj. rewrite <-Hj'. apply Ht; lia.
Qed.

Lemma parse_address_printed family bytes : address_wf family bytes →
  let text := inet_ntop family (take (address_bytes family) bytes) in
  parse_address text = Some (family, bytes) ∧ Forall (λ c, c ≠ 47 ∧ c ≠ 0)%Z text.
Proof.
  intros Hw. pose proof (into_array_take family bytes Hw) as Hi. destruct Hw as [Hf Hl Hb _]. unfold parse_address.
  destruct Hf as [-> | ->]; [change (address_bytes AF_INET) with 4 in *|change (address_bytes AF_INET6) with 16 in *].
  - destruct (ntop_v4 (take 4 bytes)) as [-> Hc]; [rewrite length_take; lia|by apply Forall_take|]. by rewrite Hi.
  - destruct (ntop_v6 (take 16 bytes)) as (-> & -> & Hc); [rewrite length_take; lia|by apply Forall_take|]. by rewrite Hi.
Qed.

(** A subnet's text reads back as the subnet.  What [to_string] prints for
    any well-formed subnet, in a log or in the suggestion of an error message,
    is text that [parse_subnet] accepts and turns into the same subnet. *)
Lemma parse_subnet_printed s : subnet_wf s → parse_subnet (subnet_to_string s) = inr s.
Proof.
  intros [Ha Hp Hm]. destruct (parse_address_printed _ _ Ha) as [Hpa Hc]. unfold parse_subnet, subnet_to_string.
  change (str "/" ++ to_decimal (sn_prefix s)) with (47%Z :: to_decimal (sn_prefix s)). rewrite split_slash_at, c_str_id, Hpa by done.
  pose proof (address_bytes_le (sn_family s)) as Hle. rewrite from_chars_decimal by lia.
  rewrite (proj2 (Z.ltb_ge _ _)) by lia. unfold u8. rewrite Z.mod_small by lia. rewrite bool_decide_true by done. by destruct s.
Qed.
End printed.

(** ** A table-driven [inet_pton] for the witnesses *)

Definition ex_addresses : list (Z * list Z * list Z) :=
  [(AF_INET, str "192.168.0.0", [192; 168; 0; 0]%Z); (AF_INET, str "0.0.0.0", [0; 0; 0; 0]%Z);
   (AF_INET, str "10.0.0.0", [10; 0; 0; 0]%Z); (AF_INET, str "100.64.0.0", [100; 64; 0; 0]%Z);
   (AF_INET, str "127.0.0.0", [127; 0; 0; 0]%Z); (AF_INET, str "169.254.0.0", [169; 254; 0; 0]%Z);
   (AF_INET, str "172.16.0.0", [172; 16; 0; 0]%Z); (AF_INET6, str "::", replicate 16 0%Z);
   (AF_INET6, str "::1", replicate 15 0%Z ++ [1]%Z); (AF_INET6, str "fc00::", 252%Z :: replicate 15 0%Z);
   (AF_INET6, str "fe80::", [254; 128]%Z ++ replicate 14 0%Z)].

Definition table_pton (family : Z) (text : list Z) : option (list Z) :=
  snd <$> find (λ e, bool_decide (e.1 = (family, text))) ex_addresses.

Lemma table_pton_find family text b : table_pton family text = Some b →
  (family, text, b) ∈ ex_addresses.
Proof.
  unfold table_pton. destruct (find _ _) as [[k v]|] eqn:E; [|done]. intros [= <-].
  apply find_some in E as [Hin Hk]. apply bool_decide_eq_true in Hk. cbn in Hk. subst k. by apply list_elem_of_In.
Qed.

Lemma table_pton_sizes : Forall (λ e, (e.1.1 = AF_INET → length e.2 = 4 ∧ bytes_wf e.2) ∧
  (e.1.1 = AF_INET6 → length e.2 = 16 ∧ bytes_wf e.2)) ex_addresses.
Proof. by_compute. Defined.

Definition ex_pton : InetPton.
Proof.
  refine {| inet_pton := table_pton |}; intros t b Hb%table_pton_find;
    pose proof table_pton_sizes as H; rewrite Forall_forall in H; apply H in Hb as [H4 H6]; first [by apply H4 | by apply H6].
Defined.

Definition ex_subnet : Subnet := mkSubnet AF_INET (into_array [192; 168; 0; 0]%Z) 16.

Lemma parse_subnet_wf_witness : subnet_wf ex_subnet.
Proof. apply (parse_subnet_wf (H:=ex_pton) (str "192.168.0.0/16")). vm_compute. reflexivity. Defined.

Lemma ex_subnet_wf : subnet_wf ex_subnet.
Proof. split; [apply into_array_wf4; by_compute|cbn; lia|by_compute]. Defined.

Lemma contains_spec_witness : contains ex_subnet (SockV4 [192; 168; 7; 9]%Z 53) = true.
Proof.
  apply (contains_spec ex_subnet [192; 168; 7; 9]%Z 53); [apply ex_subnet_wf|done|by_compute|].
  split; [done|]. cbn [ex_subnet sn_prefix]. intros i Hi.
  do 16 (destruct i as [|i]; [by vm_compute|]). lia.
Defined.

(** An [inet_ntop] and its inverse: a digit for the family and two letters for
    each byte. *)
Definition letters_of (b : Z) : list Z := [97 + b / 16; 97 + b mod 16]%Z.
Fixpoint bytes_of_letters (text : list Z) : option (list Z) :=
  match text with
  | [] => Some []
  | hi :: lo :: text =>
    if bool_decide (97 ≤ hi < 113 ∧ 97 ≤ lo < 113)%Z then cons ((hi - 97) * 16 + (lo - 97))%Z <$> bytes_of_letters text else None
  | _ => None
  end.

Definition letter_ntop (family : Z) (b : list Z) : list Z := (if (family =? AF_INET)%Z then 52 else 54)%Z :: (b ≫= letters_of).
Definition letter_pton (family : Z) (text : list Z) : option (list Z) :=
  match text with
  | c :: text =>
    if bool_decide (c = if (family =? AF_INET)%Z then 52 else 54)%Z then
      b ← bytes_of_letters text; if bool_decide (length b = address_bytes family) then Some b else None
    else None
  | [] => None
  end.

Lemma bytes_of_letters_wf n : ∀ text b, length text ≤ n → bytes_of_letters text = Some b → bytes_wf b.
Proof.
  induction n as [|n IH]; intros [|hi [|lo text]] b Hl; cbn [bytes_of_letters length] in *; try done; try lia; try (intros [= <-]; constructor).
  case_bool_decide as Hc; [|done]. destruct (bytes_of_letters text) as [b'|] eqn:E; [|done]. intros [= <-]. constructor; [unfold is_byte; lia|].
  eapply IH; [|exact E]. lia.
Qed.

Lemma bytes_of_letters_of b : bytes_wf b → bytes_of_letters (b ≫= letters_of) = Some b ∧ Forall (λ c, c ≠ 47 ∧ c ≠ 0)%Z (b ≫= letters_of).
Proof.
  induction 1 as [|x b Hx _ [IH1 IH2]]; [done|]. cbn [mbind list_bind letters_of app bytes_of_letters]. rewrite IH1. unfold is_byte in Hx.
  pose proof (Z.div_mod x 16). pose proof (Z.mod_pos_bound x 16). assert (0 ≤ x / 16 < 16)%Z by (split; [apply Z.div_pos|apply Z.div_lt_upper_bound]; lia).
  rewrite bool_decide_true by lia. split; [cbn; f_equal; f_equal; lia|]. by repeat first [apply Forall_cons; split; [lia|]].
Qed.

Lemma letter_roundtrip family b : length b = address_bytes family → bytes_wf b → letter_pton family (letter_ntop family b) = Some b.
Proof.
  intros Hl Hb. unfold letter_pton, letter_ntop. rewrite bool_decide_true by done. rewrite (proj1 (bytes_of_letters_of b Hb)). cbn. by rewrite bool_decide_true.
Qed.

Definition ex_letter_pton : InetPton.
Proof.
  refine {| inet_pton := letter_pton |}; intros [|c t] b; cbn; try done; (case_bool_decide; [|done]); (destruct (bytes_of_letters t) as [b'|] eqn:E; [|done]);
    cbn; (case_bool_decide as Hl; [|done]); intros [= <-]; (split; [exact Hl|exact (bytes_of_letters_wf _ _ _ (le_n _) E)]).
Defined.
Definition ex_letter_ntop : @InetNtop ex_letter_pton.
Proof.
  refine {| inet_ntop := letter_ntop |}; intros b Hl Hb; destruct (bytes_of_letters_of b Hb) as [_ Hc].
  - split; [exact (letter_roundtrip AF_INET b Hl Hb)|]. by constructor.
  - split_and!; [done|exact (letter_roundtrip AF_INET6 b Hl Hb)|]. by constructor.
Defined.

Lemma parse_subnet_printed_witness : @parse_subnet ex_letter_pton (@subnet_to_string ex_letter_pton ex_letter_ntop ex_subnet) = inr ex_subnet.
Proof. apply (parse_subnet_printed (H0:=ex_letter_ntop)). exact parse_subnet_wf_witness. Defined.
