(* ===== verification/Security.v ===== *)
(** * Forgery resistance: [security/bailiwick.cpp], [security/zero_x20.cpp]

    Two checks on what an upstream server says.  The bailiwick filter drops
    records about names outside the zone the server was asked for.  0x20
    encoding asks with random letter case and wants the same case back; the
    random source is a parameter, the sequence of [arc4random] results. *)

From stdpp Require Import base tactics numbers list.
From Stdlib Require Import ZArith Lia.
From S2P Require Import Prelude Names Types.

(** ** Bailiwick *)

(** [std::erase_if] on one section: how many were removed, and the rest. *)
Definition erase_outside (zone : Name) (section : list RR) : Z * list RR :=
  let kept := filter (λ rr, is_subdomain_of (rr_name rr) zone = true) section in
  ((zlen section - zlen kept)%Z, kept).

Definition filter_to_bailiwick (response : Message) (zone : Name) : Z * Message :=
  let '(r1, answers) := erase_outside zone (m_answers response) in
  let '(r2, authority) := erase_outside zone (m_authority response) in
  let '(r3, additional) := erase_outside zone (m_additional response) in
  ((r1 + r2 + r3)%Z,
   mkMessage (m_header response) (m_questions response) answers authority additional (m_edns response)).

(** ** 0x20 *)

Definition is_letter (c : Z) : bool :=
  ((97 <=? c) && (c <=? 122))%Z || ((65 <=? c) && (c <=? 90))%Z.

(** The loop variables [bits] and [left], and how often [arc4random] was called. *)
Record BitState := mkBits { b_bits : Z; b_left : nat; b_draws : nat }.

Section randomize.
Context (arc4random : nat → Z).

Definition case_char (st : BitState) (c : Z) : BitState * Z :=
  if is_letter c then
    let st := if decide (b_left st = 0) then mkBits (arc4random (b_draws st)) 32 (S (b_draws st)) else st in
    (mkBits (Z.shiftr (b_bits st) 1) (b_left st - 1) (b_draws st),
     if (Z.land (b_bits st) 1 =? 0)%Z then c else u8 (c - 97 + 65))
  else (st, c).

Fixpoint case_label (st : BitState) (l : list Z) : BitState * list Z :=
  match l with
  | [] => (st, [])
  | c :: l =>
    let '(st, c) := case_char st c in
    let '(st, l) := case_label st l in (st, c :: l)
  end.

Fixpoint case_labels (st : BitState) (ls : list (list Z)) : BitState * list (list Z) :=
  match ls with
  | [] => (st, [])
  | l :: ls =>
    let '(st, l) := case_label st l in
    let '(st, ls) := case_labels st ls in (st, l :: ls)
  end.

Definition randomize_case (name : Name) : Name :=
  mkName (labels name) (case_labels (mkBits 0 0 0) (labels name)).2.
End randomize.

Definition letters (l : list Z) : nat := length (filter (λ c, is_letter c = true) l).

Definition case_entropy_bits (name : Name) : nat :=
  fold_left (λ n l, n + letters l) (labels name) 0.

Definition same_case (a b : Name) : bool := bool_decide (as_written a = as_written b).

(** ** What the randomised case is

    A reference definition: letter number [k] of the name is upper case
    exactly when the [k]-th random bit is set. *)

Definition random_bit (arc4random : nat → Z) (k : nat) : bool :=
  Z.testbit (arc4random (k / 32)) (Z.of_nat (k mod 32)).

Definition upper (c : Z) : Z := u8 (c - 97 + 65).

Fixpoint flip_label (p : nat → bool) (k : nat) (l : list Z) : list Z :=
  match l with
  | [] => []
  | c :: l =>
    if is_letter c then (if p k then upper c else c) :: flip_label p (S k) l
    else c :: flip_label p k l
  end.

Fixpoint flip_labels (p : nat → bool) (k : nat) (ls : list (list Z)) : list (list Z) :=
  match ls with
  | [] => []
  | l :: ls => flip_label p k l :: flip_labels p (k + letters l) ls
  end.

Section bit_supply.
Context (arc4random : nat → Z).

(** After [k] letters: the register holds the bits of the last draw that
    have not been used. *)
Definition supply_ok (st : BitState) (k : nat) : Prop :=
  if decide (b_left st = 0) then k = 32 * b_draws st
  else ∃ d, b_draws st = S d ∧ b_left st ≤ 32 ∧ k = 32 * d + (32 - b_left st) ∧
         b_bits st = Z.shiftr (arc4random d) (Z.of_nat (32 - b_left st)).

Lemma low_bit b : (Z.land b 1 =? 0)%Z = negb (Z.testbit b 0).
Proof using.
  change 1%Z with (Z.ones 1). rewrite Z.land_ones by lia. change (2 ^ 1)%Z with 2%Z.
  rewrite Z.bit0_odd, Zmod_odd. by destruct (Z.odd b).
Qed.

Lemma case_char_letter st k c : supply_ok st k → is_letter c = true →
  ∃ st', case_char arc4random st c = (st', if random_bit arc4random k then upper c else c) ∧ supply_ok st' (S k).
Proof using.
  intros Hs Hc. unfold case_char, random_bit, upper. rewrite Hc. unfold supply_ok in Hs.
  destruct (decide (b_left st = 0)) as [H0|H0].
  - subst k. eexists. split; [apply f_equal2; [reflexivity|]|].
    + rewrite low_bit. cbn [b_bits]. rewrite (Nat.mul_comm 32), Nat.div_mul, Nat.Div0.mod_mul by lia.
      change (Z.of_nat 0) with 0%Z. by destruct (Z.testbit (arc4random (b_draws st)) 0).
    + unfold supply_ok. cbn [b_left b_draws b_bits]. rewrite decide_False by lia.
      exists (b_draws st). split_and!; [done|lia|lia|done].
  - destruct Hs as (d & Hd & Hle & -> & Hb). eexists. split; [apply f_equal2; [reflexivity|]|].
    + rewrite low_bit, Hb, Z.shiftr_spec by lia.
      rewrite (Nat.mul_comm 32), Nat.div_add_l, Nat.div_small, Nat.add_0_r by lia.
      rewrite (Nat.add_comm (d * 32)), Nat.Div0.mod_add, Nat.mod_small by lia.
      rewrite Z.add_0_l. by destruct (Z.testbit (arc4random d) _).
    + unfold supply_ok. cbn [b_left b_draws b_bits]. destruct (decide (b_left st - 1 = 0)) as [H1|H1]; [lia|].
      exists d. split_and!; [done|lia|lia|]. rewrite Hb, Z.shiftr_shiftr by lia. f_equal. lia.
Qed.

Lemma case_label_flip l : ∀ st k, supply_ok st k →
  ∃ st', case_label arc4random st l = (st', flip_label (random_bit arc4random) k l) ∧
         supply_ok st' (k + letters l).
Proof using.
  induction l as [|c l IH]; intros st k Hs; cbn [case_label flip_label].
  { exists st. unfold letters. cbn. by rewrite Nat.add_0_r. }
  unfold letters. rewrite filter_cons. destruct (is_letter c) eqn:Hc.
  - destruct (case_char_letter st k c Hs Hc) as (st1 & -> & Hs1).
    destruct (IH st1 (S k) Hs1) as (st2 & -> & Hs2). exists st2. split; [done|].
    rewrite decide_True by done. cbn [length]. fold (letters l). by rewrite Nat.add_succ_r.
  - unfold case_char. rewrite Hc. destruct (IH st k Hs) as (st2 & -> & Hs2). exists st2.
    split; [done|]. by rewrite decide_False by done.
Qed.

Lemma case_labels_flip ls : ∀ st k, supply_ok st k →
  (case_labels arc4random st ls).2 = flip_labels (random_bit arc4random) k ls.
Proof using.
  induction ls as [|l ls IH]; intros st k Hs; cbn [case_labels flip_labels]; [done|].
  destruct (case_label_flip l st k Hs) as (st1 & -> & Hs1). specialize (IH st1 _ Hs1).
  destruct (case_labels arc4random st1 ls) as [st2 ls2]. cbn in *. by rewrite IH.
Qed.

Lemma randomize_case_flip n :
  randomize_case arc4random n = mkName (labels n) (flip_labels (random_bit arc4random) 0 (labels n)).
Proof using. unfold randomize_case. f_equal. by apply case_labels_flip. Qed.
End bit_supply.

(** ** Letters of canonical labels *)

Definition canonical_char (c : Z) : Prop := is_byte c ∧ ascii_lower c = c.

Lemma canonical_letter c : canonical_char c → is_letter c = true → (97 ≤ c ≤ 122)%Z.
Proof.
  unfold canonical_char, ascii_lower, is_letter. intros [_ Hl] H.
  destruct ((65 <=? c) && (c <=? 90))%Z eqn:E; [lia|]. rewrite orb_false_r in H. lia.
Qed.

Lemma upper_letter c : (97 ≤ c ≤ 122)%Z → upper c = (c - 32)%Z ∧ ascii_lower (upper c) = c ∧ is_byte (upper c).
Proof.
  intros Hc. assert (upper c = (c - 32)%Z) as ->.
  { unfold upper. rewrite u8_id; [lia|unfold is_byte; lia]. }
  unfold ascii_lower, is_byte. rewrite (proj2 (Z.leb_le 65 _)), (proj2 (Z.leb_le _ 90)) by lia.
  cbn [andb]. lia.
Qed.

Lemma lower_char_idem c : ascii_lower (ascii_lower c) = ascii_lower c.
Proof.
  unfold ascii_lower. destruct ((65 <=? c) && (c <=? 90))%Z eqn:E; [|by rewrite E].
  apply andb_true_iff in E as [?%Z.leb_le ?%Z.leb_le].
  rewrite (proj2 (Z.leb_gt _ 90)) by lia. by rewrite andb_false_r.
Qed.

Lemma canonical_labels n : name_wf n → Forall (Forall canonical_char) (labels n).
Proof.
  intros [Hl Hlow _]. rewrite Hlow. apply Forall_fmap. eapply Forall_impl; [exact Hl|].
  intros l [Hb _]. unfold compose, lower. apply Forall_fmap. eapply Forall_impl; [exact Hb|].
  intros c Hc. unfold compose. split; [|apply lower_char_idem].
  unfold is_byte, ascii_lower in *. case_match eqn:E; [|done].
  apply andb_true_iff in E as [?%Z.leb_le ?%Z.leb_le]. lia.
Qed.

Lemma letters_cons c l : letters (c :: l) = if is_letter c then S (letters l) else letters l.
Proof.
  unfold letters. rewrite filter_cons. destruct (is_letter c); [by rewrite decide_True|by rewrite decide_False].
Qed.

Lemma flip_label_inj p q l : ∀ k, Forall canonical_char l →
  flip_label p k l = flip_label q k l ↔ ∀ i, k ≤ i < k + letters l → p i = q i.
Proof.
  induction l as [|c l IH]; intros k Hl; cbn [flip_label]; [split; [cbn; lia|done]|].
  inv Hl. rewrite letters_cons. destruct (is_letter c) eqn:Hc.
  - destruct (upper_letter c) as (Hu & _ & _); [by apply canonical_letter|]. split.
    + intros [= Hh Ht] i Hi. rewrite IH in Ht by done.
      destruct (decide (i = k)) as [->|]; [|apply Ht; lia]. rewrite Hu in Hh. destruct (p k), (q k); try done; lia.
    + intros H. f_equal; [by rewrite (H k) by lia|]. apply IH; [done|]. intros i Hi. apply H. lia.
  - split; [intros [= Ht]; by apply IH|]. intros H. f_equal. by apply IH.
Qed.

Lemma flip_labels_inj p q ls : ∀ k, Forall (Forall canonical_char) ls →
  flip_labels p k ls = flip_labels q k ls ↔ ∀ i, k ≤ i < k + sum_list_with letters ls → p i = q i.
Proof.
  induction ls as [|l ls IH]; intros k Hl; cbn [flip_labels sum_list_with]; [split; [lia|done]|]. inv Hl. split.
  - intros [= Hh Ht] i Hi. rewrite flip_label_inj in Hh by done. rewrite IH in Ht by done.
    destruct (decide (i < k + letters l)); [apply Hh; lia|apply Ht; lia].
  - intros H. f_equal; [apply flip_label_inj|apply IH]; try done; intros i Hi; apply H; lia.
Qed.

Lemma flip_label_lower p l : ∀ k, Forall canonical_char l →
  lower (flip_label p k l) = l ∧ Forall is_byte (flip_label p k l) ∧ length (flip_label p k l) = length l.
Proof.
  induction l as [|c l IH]; intros k Hl; cbn [flip_label]; [done|]. inv Hl. rename select (canonical_char c) into Hc.
  destruct (is_letter c) eqn:El.
  - destruct (upper_letter c) as (_ & Hu & Hb); [by apply canonical_letter|].
    destruct (IH (S k)) as (Hlow & Hby & Hlen); [done|]. destruct Hc as [Hcb Hcl]. cbn.
    split_and!; [f_equal; [by destruct (p k)|done]|by constructor; [destruct (p k)|]|by rewrite Hlen].
  - destruct (IH k) as (Hlow & Hby & Hlen); [done|]. destruct Hc as [Hcb Hcl]. cbn. rewrite Hcl.
    split_and!; [by f_equal|by constructor|by rewrite Hlen].
Qed.

Lemma flip_labels_lower p ls : ∀ k, Forall (Forall canonical_char) ls → Forall label_wf ls →
  map lower (flip_labels p k ls) = ls ∧ Forall label_wf (flip_labels p k ls).
Proof.
  induction ls as [|l ls IH]; intros k Hc Hw; cbn [flip_labels map]; [done|]. inv Hc. inv Hw.
  destruct (flip_label_lower p l k) as (-> & Hb & Hlen); [done|]. destruct (IH (k + letters l)) as [-> ?]; [done..|].
  split; [done|]. constructor; [|done]. split; [done|]. rewrite Hlen. by destruct select (label_wf l).
Qed.

Lemma case_entropy_sum n : case_entropy_bits n = sum_list_with letters (labels n).
Proof.
  unfold case_entropy_bits. change (sum_list_with letters (labels n)) with (0 + sum_list_with letters (labels n)).
  generalize 0. induction (labels n) as [|l ls IH]; intros k; simpl; [lia|]. rewrite IH. lia.
Qed.

Lemma name_wf_labels n : name_wf n → Forall label_wf (labels n).
Proof.
  intros [Hl Hlow _]. rewrite Hlow. apply Forall_fmap. eapply Forall_impl; [exact Hl|]. apply label_wf_lower.
Qed.

Lemma flip_labels_length p ls : ∀ k, length (flip_labels p k ls) = length ls.
Proof. induction ls as [|l ls IH]; intros k; simpl; [done|]. by rewrite IH. Qed.

(** ** Properties *)

(** The bailiwick filter keeps exactly the in-zone records.  In each
    section the records that remain are those whose owner is at or below the
    zone, in their order; questions, header and EDNS are untouched; the count is
    the number removed; and filtering again removes nothing. *)
Lemma bailiwick_exact m zone :
  let '(removed, m') := filter_to_bailiwick m zone in
  let in_zone rr := is_subdomain_of (rr_name rr) zone = true in
  (∀ rr, rr ∈ m_answers m' ↔ in_zone rr ∧ rr ∈ m_answers m) ∧
  (∀ rr, rr ∈ m_authority m' ↔ in_zone rr ∧ rr ∈ m_authority m) ∧
  (∀ rr, rr ∈ m_additional m' ↔ in_zone rr ∧ rr ∈ m_additional m) ∧
  m_answers m' `sublist_of` m_answers m ∧ m_authority m' `sublist_of` m_authority m ∧
  m_additional m' `sublist_of` m_additional m ∧
  m_header m' = m_header m ∧ m_questions m' = m_questions m ∧ m_edns m' = m_edns m ∧
  (zlen (m_answers m) + zlen (m_authority m) + zlen (m_additional m) = 
   removed + (zlen (m_answers m') + zlen (m_authority m') + zlen (m_additional m')))%Z ∧
  filter_to_bailiwick m' zone = (0%Z, m').
Proof.
  cbn. split_and!; try done; try (intros rr; by rewrite list_elem_of_filter); try apply sublist_filter; [lia|].
  unfold filter_to_bailiwick, erase_outside. cbn.
  assert (Hid : ∀ l : list RR, filter (λ rr, is_subdomain_of (rr_name rr) zone = true)
    (filter (λ rr, is_subdomain_of (rr_name rr) zone = true) l) =
    filter (λ rr, is_subdomain_of (rr_name rr) zone = true) l).
  { intros l. rewrite list_filter_filter. apply list_filter_iff. tauto. }
  rewrite !Hid. f_equal. lia.
Qed.

(** Randomising the case changes nothing but the case.  The result is a
    well-formed name that compares equal to the original, and letter [k] is
    upper case exactly when the [k]-th random bit is set. *)
Lemma randomize_case_sound rng n :
  name_wf n →
  name_wf (randomize_case rng n) ∧ name_eqb (randomize_case rng n) n = true ∧
  as_written (randomize_case rng n) = flip_labels (random_bit rng) 0 (labels n).
Proof.
  intros Hn. rewrite randomize_case_flip.
  destruct (flip_labels_lower (random_bit rng) (labels n) 0) as [Hlow Hwf];
    [by apply canonical_labels|by apply name_wf_labels|].
  split_and!; [split; cbn|..].
  - done.
  - by rewrite Hlow.
  - apply (nwf_wire n Hn).
  - by apply bool_decide_eq_true.
  - unfold as_written. cbn. by rewrite decide_True by (by rewrite flip_labels_length).
Qed.

(** C28: 0x20 adds one bit of entropy per letter.  Two runs of the random
    source ask with the same spelling exactly when they agree on the first
    [case_entropy_bits] bits, so a forger who does not see the query has to
    guess each of them. *)
Theorem case_entropy rng1 rng2 n :
  name_wf n →
  same_case (randomize_case rng1 n) (randomize_case rng2 n) = true ↔
  ∀ k, k < case_entropy_bits n → random_bit rng1 k = random_bit rng2 k.
Proof.
  intros Hn. unfold same_case. rewrite bool_decide_eq_true, !randomize_case_flip, case_entropy_sum.
  unfold as_written. cbn. rewrite !decide_True by (by rewrite flip_labels_length).
  rewrite flip_labels_inj by (by apply canonical_labels). split; intros H k Hk; apply H; lia.
Qed.

Lemma randomize_case_sound_witness : name_eqb (randomize_case (λ _, 2863311530%Z) ex_name) ex_name = true.
Proof. apply (randomize_case_sound (λ _, 2863311530%Z) ex_name). by_compute. Defined.

Lemma case_entropy_witness :
  same_case (randomize_case (λ _, 3%Z) ex_name) (randomize_case (λ _, 11%Z) ex_name) = true.
Proof.
  apply (case_entropy (λ _, 3%Z) (λ _, 11%Z) ex_name); [by_compute|].
  intros k. change (case_entropy_bits ex_name) with 3. intros Hk.
  do 3 (destruct k as [|k]; [reflexivity|]). lia.
Defined.
