(* ===== verification/Rrl.v ===== *)
(** * Response rate limiting: [security/rrl.cpp]

    Counts identical responses per client network in windows.  The state is
    the class's members; [check] and [count] pass it along.  Times are in
    nanoseconds, the counters wrap at 32 bits as in the code. *)

From stdpp Require Import base tactics numbers list gmap strings.
From Stdlib Require Import ZArith Lia.
From S2P Require Import Prelude Names Types Wire Acl.

(** ** State *)

Record RrlConfig := mkRrlConfig {
  rc_responses_per_second : Z; rc_window_seconds : Z; rc_slip : Z;
  rc_ipv4_prefix : Z; rc_ipv6_prefix : Z; rc_exempt : list Subnet; rc_max_entries : Z;
}.

Definition default_rrl_config : RrlConfig := mkRrlConfig 0 1 2 24 56 [] 65536.

Inductive RrlVerdict := RrlSend | RrlDrop | RrlSlip.

Record Entry := mkCount { en_window_start : Z; en_sent : Z; en_excess : Z }.

Record ResponseRateLimiter := mkRrl {
  rl_config : RrlConfig; rl_window : Z; rl_entries : gmap (list Z) Entry; rl_overflow : Entry;
  rl_overflow_used : bool; rl_last_sweep : Z; rl_dropped : Z; rl_slipped : Z;
}.

Global Instance RrlVerdict_eq_dec : EqDecision RrlVerdict.
Proof. solve_decision. Defined.

Definition seconds (n : Z) : Z := n * 1000000000.

Definition new_rrl (config : RrlConfig) : ResponseRateLimiter :=
  mkRrl config (seconds (Z.max (rc_window_seconds config) 1)) ∅ (mkCount 0 0 0) false 0 0 0.

(** ** Operations *)

(** The first SOA owner of a section. *)
Fixpoint soa_owner (rrs : list RR) : option Name :=
  match rrs with
  | [] => None
  | rr :: rrs => if (rr_type rr =? RRType.SOA)%Z then Some (rr_name rr) else soa_owner rrs
  end.

Definition counted_name (response : Message) : list Z :=
  let rcode := h_rcode (m_header response) in
  let negative := (rcode =? RCode.NXDomain)%Z ||
                  ((rcode =? RCode.NoError)%Z && bool_decide (m_answers response = [])) in
  let qname := match m_questions response with [] => [] | q :: _ => to_string (q_qname q) end in
  if negative then
    match soa_owner (m_authority response) with Some n => to_string n | None => qname end
  else qname.

Definition enabled (rl : ResponseRateLimiter) : bool := (0 <? rc_responses_per_second (rl_config rl))%Z.

Definition window_cap (rl : ResponseRateLimiter) : Z :=
  rc_responses_per_second (rl_config rl) * (rl_window rl / seconds 1).

Definition add_dropped (rl : ResponseRateLimiter) : ResponseRateLimiter :=
  mkRrl (rl_config rl) (rl_window rl) (rl_entries rl) (rl_overflow rl) (rl_overflow_used rl)
    (rl_last_sweep rl) (u64 (rl_dropped rl + 1)) (rl_slipped rl).
Definition add_slipped (rl : ResponseRateLimiter) : ResponseRateLimiter :=
  mkRrl (rl_config rl) (rl_window rl) (rl_entries rl) (rl_overflow rl) (rl_overflow_used rl)
    (rl_last_sweep rl) (rl_dropped rl) (u64 (rl_slipped rl + 1)).
Definition set_entries (rl : ResponseRateLimiter) (m : gmap (list Z) Entry) : ResponseRateLimiter :=
  mkRrl (rl_config rl) (rl_window rl) m (rl_overflow rl) (rl_overflow_used rl)
    (rl_last_sweep rl) (rl_dropped rl) (rl_slipped rl).
Definition set_overflow (rl : ResponseRateLimiter) (e : Entry) : ResponseRateLimiter :=
  mkRrl (rl_config rl) (rl_window rl) (rl_entries rl) e true (rl_last_sweep rl) (rl_dropped rl) (rl_slipped rl).

(** [count]; the entry is passed by reference, so it is returned. *)
Definition count (rl : ResponseRateLimiter) (entry : Entry) (now : Z) :
    RrlVerdict * Entry * ResponseRateLimiter :=
  let entry := if (rl_window rl <=? now - en_window_start entry)%Z then mkCount now 0 0 else entry in
  let sent := u32 (en_sent entry + 1) in
  if (sent <=? window_cap rl)%Z then (RrlSend, mkCount (en_window_start entry) sent (en_excess entry), rl)
  else
    let excess := u32 (en_excess entry + 1) in
    let entry := mkCount (en_window_start entry) sent excess in
    let slip := rc_slip (rl_config rl) in
    if ((0 <? slip) && (excess mod slip =? 0))%Z then (RrlSlip, entry, add_slipped rl)
    else (RrlDrop, entry, add_dropped rl).

Definition expired (rl : ResponseRateLimiter) (now : Z) (e : Entry) : Prop :=
  (rl_window rl ≤ now - en_window_start e)%Z.

Definition forget_expired (rl : ResponseRateLimiter) (now : Z) : ResponseRateLimiter :=
  mkRrl (rl_config rl) (rl_window rl)
    (filter (λ kv, ¬ (rl_window rl ≤ now - en_window_start kv.2)%Z) (rl_entries rl))
    (rl_overflow rl) (rl_overflow_used rl) now (rl_dropped rl) (rl_slipped rl).

(** The key of a response: network, rcode, type and counted name. *)
Definition fingerprint (network : IpAddress) (response : Message) : list Z :=
  let qtype := match m_questions response with [] => 0%Z | q :: _ => q_qtype q end in
  [u8 (ip_family network)] ++ ip_bytes network ++ [u8 (h_rcode (m_header response))] ++
  [u8 (Z.shiftr qtype 8); u8 (Z.land qtype 0xFF)] ++ counted_name response.

Definition client_network (config : RrlConfig) (ip : IpAddress) : IpAddress :=
  network ip (if (ip_family ip =? AF_INET)%Z then rc_ipv4_prefix config else rc_ipv6_prefix config).

(** The counted part of [check]. *)
Definition check_key (rl : ResponseRateLimiter) (key : list Z) (now : Z) : RrlVerdict * ResponseRateLimiter :=
  match rl_entries rl !! key with
  | Some e =>
    let '(v, e, rl) := count rl e now in (v, set_entries rl (<[key := e]> (rl_entries rl)))
  | None =>
    let full rl := (rc_max_entries (rl_config rl) <=? Z.of_nat (size (rl_entries rl)))%Z in
    let rl := if full rl && (seconds 1 <=? now - rl_last_sweep rl)%Z then forget_expired rl now else rl in
    if full rl then
      let o := if rl_overflow_used rl then rl_overflow rl else mkCount now 0 0 in
      let '(v, o, rl) := count rl o now in (v, set_overflow rl o)
    else
      let '(v, e, rl) := count rl (mkCount now 0 0) now in (v, set_entries rl (<[key := e]> (rl_entries rl)))
  end.

Definition rrl_check (rl : ResponseRateLimiter) (client : sockaddr) (response : Message) (now : Z) :
    RrlVerdict * ResponseRateLimiter :=
  if negb (enabled rl) then (RrlSend, rl) else
  match ip_address client with
  | None => (RrlSend, rl)
  | Some ip =>
    if any_contains (rc_exempt (rl_config rl)) client then (RrlSend, rl)
    else check_key rl (fingerprint (client_network (rl_config rl) ip) response) now
  end.

Definition truncated (response : Message) : Message :=
  let h := m_header response in
  mkMessage (mkHeader (h_id h) (h_qr h) (h_opcode h) (h_aa h) true (h_rd h) (h_ra h) (h_ad h) (h_cd h)
               (h_rcode h) (h_qdcount h) (h_ancount h) (h_nscount h) (h_arcount h))
    (m_questions response) [] [] [] (m_edns response).

(** ** One window of one counter *)

(** The fate of the [n]-th response of a window, counted from 1. *)
Definition nth_verdict (cap slip n : Z) : RrlVerdict :=
  if (n <=? cap)%Z then RrlSend
  else if ((0 <? slip) && ((n - cap) mod slip =? 0))%Z then RrlSlip else RrlDrop.

(** The excess counter follows from the count. *)
Definition entry_ok (rl : ResponseRateLimiter) (e : Entry) : Prop :=
  (0 ≤ en_sent e)%Z ∧ en_excess e = Z.max 0 (en_sent e - window_cap rl).

(** The members [check] never changes. *)
Definition same_setup (rl rl' : ResponseRateLimiter) : Prop :=
  rl_config rl' = rl_config rl ∧ rl_window rl' = rl_window rl.

Lemma count_setup rl e now v e' rl' : count rl e now = (v, e', rl') →
  same_setup rl rl' ∧ rl_entries rl' = rl_entries rl.
Proof.
  unfold count. intros H. repeat case_match; simplify_eq; by split.
Qed.

Lemma count_in_window rl e now :
  (0 ≤ window_cap rl)%Z → entry_ok rl e → (en_sent e + 1 < 4294967296)%Z →
  (now - en_window_start e < rl_window rl)%Z →
  ∃ e' rl', count rl e now = (nth_verdict (window_cap rl) (rc_slip (rl_config rl)) (en_sent e + 1), e', rl') ∧
    entry_ok rl e' ∧ en_sent e' = (en_sent e + 1)%Z ∧ en_window_start e' = en_window_start e.
Proof.
  intros Hcap [Hs He] Hlt Hw. unfold count, nth_verdict. rewrite (proj2 (Z.leb_gt (rl_window rl) _)) by lia.
  assert (u32 (en_sent e + 1) = (en_sent e + 1)%Z) as -> by (unfold u32; apply Z.mod_small; lia).
  destruct (en_sent e + 1 <=? window_cap rl)%Z eqn:E.
  - apply Z.leb_le in E. do 2 eexists. split; [done|].
    unfold entry_ok. cbn [en_sent en_excess en_window_start]. split_and!; lia.
  - apply Z.leb_gt in E. assert (u32 (en_excess e + 1) = (en_sent e + 1 - window_cap rl)%Z) as ->.
    { unfold u32. rewrite Z.mod_small; lia. }
    destruct (_ && _); do 2 eexists; (split; [done|]); unfold entry_ok;
      cbn [en_sent en_excess en_window_start]; split_and!; lia.
Qed.

(** ** Sequences of responses *)

(** What a response is counted under, if it is counted at all. *)
Definition request_key (rl : ResponseRateLimiter) (client : sockaddr) (response : Message) : option (list Z) :=
  if negb (enabled rl) then None else
  match ip_address client with
  | None => None
  | Some ip => if any_contains (rc_exempt (rl_config rl)) client then None
               else Some (fingerprint (client_network (rl_config rl) ip) response)
  end.

Lemma rrl_check_key rl client response now :
  rrl_check rl client response now =
  match request_key rl client response with None => (RrlSend, rl) | Some k => check_key rl k now end.
Proof. unfold rrl_check, request_key. by repeat case_match. Qed.

Lemma request_key_setup rl rl' client response :
  same_setup rl rl' → request_key rl' client response = request_key rl client response.
Proof. intros [Hc _]. unfold request_key, enabled. by rewrite Hc. Qed.

Definition request : Type := sockaddr * Message * Z.

(** The verdicts on the responses counted under [key], in order. *)
Fixpoint verdicts_for (key : list Z) (rl : ResponseRateLimiter) (reqs : list request) : list RrlVerdict :=
  match reqs with
  | [] => []
  | (client, response, now) :: reqs =>
    let '(v, rl') := rrl_check rl client response now in
    let rest := verdicts_for key rl' reqs in
    if decide (request_key rl client response = Some key) then v :: rest else rest
  end.

Fixpoint run_checks (rl : ResponseRateLimiter) (reqs : list request) : ResponseRateLimiter :=
  match reqs with
  | [] => rl
  | (client, response, now) :: reqs => run_checks (rrl_check rl client response now).2 reqs
  end.

Global Instance same_setup_trans : Transitive same_setup.
Proof. intros a b c [? ?] [? ?]. split; congruence. Qed.

Lemma same_setup_cap rl rl' : same_setup rl rl' → window_cap rl' = window_cap rl.
Proof. intros [Hc Hw]. unfold window_cap. by rewrite Hc, Hw. Qed.

(** Counting something else leaves a counter whose window is open alone. *)
Lemma check_key_other rl k K now e v rl' :
  k ≠ K → rl_entries rl !! K = Some e → (now - en_window_start e < rl_window rl)%Z →
  check_key rl k now = (v, rl') → same_setup rl rl' ∧ rl_entries rl' !! K = Some e.
Proof.
  intros Hne HK Hw. unfold check_key. destruct (rl_entries rl !! k) as [ek|] eqn:Hk.
  { destruct (count rl ek now) as [[v1 e1] rl1] eqn:Hc. apply count_setup in Hc as [[? ?] Hent].
    intros [= <- <-]. split; [by split|]. cbn. by rewrite lookup_insert_ne, Hent. }
  set (rl1 := if _ && _ then forget_expired rl now else rl).
  assert (H1 : same_setup rl rl1 ∧ rl_entries rl1 !! K = Some e).
  { unfold rl1. destruct (_ && _); [|done]. split; [done|]. cbn. apply map_lookup_filter_Some. split; [done|]. cbn. lia. }
  clearbody rl1. destruct H1 as [[Hc1 Hw1] HK1]. destruct (_ <=? _)%Z.
  - destruct (count rl1 _ now) as [[v2 e2] rl2] eqn:Hc. apply count_setup in Hc as [[? ?] Hent].
    intros [= <- <-]. split; [split; cbn; congruence|]. cbn. by rewrite Hent.
  - destruct (count rl1 _ now) as [[v2 e2] rl2] eqn:Hc. apply count_setup in Hc as [[? ?] Hent].
    intros [= <- <-]. split; [split; cbn; congruence|]. cbn. by rewrite lookup_insert_ne, Hent.
Qed.

Lemma check_key_same rl K now e :
  rl_entries rl !! K = Some e → (0 ≤ window_cap rl)%Z → entry_ok rl e → (en_sent e + 1 < 4294967296)%Z →
  (now - en_window_start e < rl_window rl)%Z →
  ∃ e' rl', check_key rl K now = (nth_verdict (window_cap rl) (rc_slip (rl_config rl)) (en_sent e + 1), rl') ∧
    same_setup rl rl' ∧ rl_entries rl' !! K = Some e' ∧ entry_ok rl e' ∧
    en_sent e' = (en_sent e + 1)%Z ∧ en_window_start e' = en_window_start e.
Proof.
  intros HK Hcap He Hlt Hw. destruct (count_in_window rl e now Hcap He Hlt Hw) as (e' & rl' & Hc & He' & Hs & Hst).
  unfold check_key. rewrite HK, Hc. apply count_setup in Hc as [[? ?] Hent].
  exists e'. eexists. split; [done|]. split_and!; try done. cbn. apply lookup_insert_eq.
Qed.

Lemma window_verdicts K reqs : ∀ rl e,
  rl_entries rl !! K = Some e → (0 ≤ window_cap rl)%Z → entry_ok rl e →
  (en_sent e + zlen reqs < 4294967296)%Z →
  Forall (λ r : request, r.2 - en_window_start e < rl_window rl)%Z reqs →
  ∃ n, verdicts_for K rl reqs =
    map (λ i, nth_verdict (window_cap rl) (rc_slip (rl_config rl)) (en_sent e + 1 + Z.of_nat i)) (seq 0 n).
Proof.
  induction reqs as [|[[client response] now] reqs IH]; intros rl e HK Hcap He Hlt Hreqs; [by exists 0|].
  apply Forall_cons in Hreqs as [Hw Hreqs]. cbn [snd] in Hw.
  pose proof (zlen_nonneg reqs). rewrite zlen_cons in Hlt. cbn [verdicts_for]. rewrite rrl_check_key.
  destruct (request_key rl client response) as [k|] eqn:Hk.
  2:{ rewrite decide_False by done. apply IH; try done. lia. }
  destruct (decide (k = K)) as [->|Hne].
  - destruct (check_key_same rl K now e HK Hcap He) as (e' & rl' & -> & Hset & HK' & He' & Hs & Hst); [lia|done|].
    rewrite decide_True by done. pose proof (same_setup_cap _ _ Hset) as Hcap'. destruct Hset as [Hc1 Hw1].
    destruct (IH rl' e' HK') as [n ->]; [by rewrite Hcap'|by unfold entry_ok in *; rewrite Hcap'|lia|by rewrite Hst, Hw1|].
    exists (S n). cbn [seq map]. f_equal; [by rewrite Z.add_0_r|]. rewrite Hcap', Hc1, Hs, <-seq_shift, map_map.
    apply map_ext. intros i. f_equal. lia.
  - destruct (check_key rl k now) as [v rl'] eqn:Hck. rewrite decide_False by congruence.
    destruct (check_key_other rl k K now e v rl' Hne HK Hw Hck) as [Hset HK'].
    pose proof (same_setup_cap _ _ Hset) as Hcap'. destruct Hset as [Hc1 Hw1].
    destruct (IH rl' e HK') as [n ->]; [by rewrite Hcap'|by unfold entry_ok in *; rewrite Hcap'|lia|by rewrite Hw1|].
    exists n. by rewrite Hcap', Hc1.
Qed.

Definition sends (vs : list RrlVerdict) : Z := zlen (filter (λ v, v = RrlSend) vs).

Lemma sends_bound cap slip start n : (0 ≤ start ≤ cap)%Z →
  (sends (map (λ i, nth_verdict cap slip (start + 1 + Z.of_nat i)) (seq 0 n)) ≤ cap - start)%Z.
Proof.
  intros Hs. enough (H : ∀ k, (start + Z.of_nat k ≤ cap)%Z ∨ (cap < start + 1 + Z.of_nat k)%Z →
    (sends (map (λ i, nth_verdict cap slip (start + 1 + Z.of_nat i)) (seq k n)) ≤ Z.max 0 (cap - start - Z.of_nat k))%Z).
  { specialize (H 0). lia. }
  induction n as [|n IH]; intros k Hk; [change (sends _) with 0%Z; lia|]. cbn [seq map]. unfold sends in *. rewrite filter_cons.
  specialize (IH (S k)). destruct (decide (nth_verdict _ _ _ = RrlSend)) as [Hv|Hv]; unfold nth_verdict in Hv;
    destruct (start + 1 + Z.of_nat k <=? cap)%Z eqn:E.
  - apply Z.leb_le in E. unfold zlen in *. cbn [length]. lia.
  - by destruct (_ && _).
  - done.
  - apply Z.leb_gt in E. lia.
Qed.

(** ** The table *)

Definition table_ok (rl : ResponseRateLimiter) : Prop :=
  (Z.of_nat (size (rl_entries rl)) ≤ Z.max 0 (rc_max_entries (rl_config rl)))%Z.

Lemma size_filter_le {V} (P : list Z * V → Prop) `{!∀ x, Decision (P x)} (m : gmap (list Z) V) :
  size (filter P m) ≤ size m.
Proof. apply map_subseteq_size, map_filter_subseteq. Qed.

Lemma rrl_check_table rl client response now : table_ok rl → table_ok (rrl_check rl client response now).2.
Proof.
  intros Ht. rewrite rrl_check_key. destruct (request_key rl client response) as [k|]; [|done].
  unfold check_key. destruct (rl_entries rl !! k) as [e|] eqn:Hk.
  { destruct (count rl e now) as [[v e'] rl'] eqn:Hc. apply count_setup in Hc as [[Hc1 _] Hent].
    unfold table_ok in *. cbn. rewrite Hent, Hc1, map_size_insert_Some by (by rewrite Hk). done. }
  set (rl1 := if _ && _ then forget_expired rl now else rl).
  assert (H1 : rl_config rl1 = rl_config rl ∧ size (rl_entries rl1) ≤ size (rl_entries rl) ∧ rl_entries rl1 !! k = None).
  { unfold rl1. destruct (_ && _); [|done]. split_and!; [done|apply size_filter_le|].
    cbn. rewrite map_lookup_filter, Hk. done. }
  clearbody rl1. destruct H1 as (Hc1 & Hsz & Hk1). unfold table_ok in *. destruct (_ <=? _)%Z eqn:E.
  - destruct (count rl1 _ now) as [[v e'] rl'] eqn:Hc. apply count_setup in Hc as [[Hc2 _] Hent].
    cbn. rewrite Hent, Hc2, Hc1. lia.
  - apply Z.leb_gt in E. destruct (count rl1 _ now) as [[v e'] rl'] eqn:Hc. apply count_setup in Hc as [[Hc2 _] Hent].
    cbn. rewrite Hent, Hc2, map_size_insert_None by done. lia.
Qed.

Lemma run_checks_table reqs : ∀ rl, table_ok rl → table_ok (run_checks rl reqs).
Proof.
  induction reqs as [|[[client response] now] reqs IH]; intros rl Ht; cbn; [done|]. by apply IH, rrl_check_table.
Qed.

(** ** Properties *)

(** The cap holds.  While a fingerprint's window is open, whatever other
    responses are counted in between, its responses are sent up to the cap of
    responses per second times the window, and past the cap exactly every
    [slip]-th one is sent truncated and the rest are dropped; so at most what is
    left of the cap is sent in full. *)
Lemma rrl_window K rl e reqs :
  rl_entries rl !! K = Some e → entry_ok rl e → (0 ≤ rc_responses_per_second (rl_config rl))%Z →
  (0 ≤ rl_window rl)%Z → (en_sent e ≤ window_cap rl)%Z →
  (en_sent e + zlen reqs < 4294967296)%Z →
  Forall (λ r : request, r.2 - en_window_start e < rl_window rl)%Z reqs →
  ∃ n, verdicts_for K rl reqs =
      map (λ i, nth_verdict (window_cap rl) (rc_slip (rl_config rl)) (en_sent e + 1 + Z.of_nat i)) (seq 0 n) ∧
    (sends (verdicts_for K rl reqs) ≤ window_cap rl - en_sent e)%Z.
Proof.
  intros HK He Hr Hw Hle Hlt Hreqs. assert (Hcap : (0 ≤ window_cap rl)%Z).
  { unfold window_cap. apply Z.mul_nonneg_nonneg; [done|]. apply Z.div_pos; [done|]. unfold seconds. lia. }
  destruct (window_verdicts K reqs rl e HK Hcap He Hlt Hreqs) as [n Hn]. exists n. split; [done|].
  rewrite Hn. apply sends_bound. split; [apply He|done].
Qed.

(** Bounded state.  However many different fingerprints a flood
    produces, the table never holds more than [max_entries] of them. *)
Lemma rrl_table_bounded config reqs :
  (Z.of_nat (size (rl_entries (run_checks (new_rrl config) reqs))) ≤ Z.max 0 (rc_max_entries config))%Z.
Proof.
  assert (Hcfg : ∀ reqs rl, rl_config (run_checks rl reqs) = rl_config rl).
  { clear. induction reqs as [|[[client response] now] reqs IH]; intros rl; cbn; [done|]. rewrite IH.
    rewrite rrl_check_key. destruct (request_key _ _ _) as [k|]; [|done]. unfold check_key.
    repeat (case_match; simplify_eq/=); try (by eapply count_setup);
      match goal with H : count ?r _ _ = _ |- _ => apply count_setup in H as [[-> _] _] end; done. }
  pose proof (run_checks_table reqs (new_rrl config)) as H. unfold table_ok in H. rewrite Hcfg in H.
  apply H. cbn. rewrite map_size_empty. lia.
Qed.

(** Fingerprints do not collide.  Two responses share a counter exactly
    when the client network, response code, question type and counted name are
    all the same. *)
Lemma fingerprint_inj n1 n2 m1 m2 :
  address_wf (ip_family n1) (ip_bytes n1) → address_wf (ip_family n2) (ip_bytes n2) →
  header_wf (m_header m1) → header_wf (m_header m2) →
  Forall question_wf (m_questions m1) → Forall question_wf (m_questions m2) →
  let qtype m := match m_questions m with [] => 0%Z | q :: _ => q_qtype q end in
  fingerprint n1 m1 = fingerprint n2 m2 ↔
  n1 = n2 ∧ h_rcode (m_header m1) = h_rcode (m_header m2) ∧ qtype m1 = qtype m2 ∧ counted_name m1 = counted_name m2.
Proof.
  intros H1 H2 Hh1 Hh2 Hq1 Hq2 qtype.
  assert (Hqt : ∀ m, Forall question_wf (m_questions m) → is_u16 (qtype m)).
  { intros m Hm. unfold qtype. destruct (m_questions m) as [|q qs]; [unfold is_u16; lia|]. inv Hm.
    by match goal with H : question_wf q |- _ => destruct H as (_ & ? & _) end. }
  apply Hqt in Hq1, Hq2. destruct n1 as [f1 b1], n2 as [f2 b2]. unfold fingerprint. cbn [ip_family ip_bytes] in *.
  fold (qtype m1) (qtype m2). split; [|by intros ([= -> ->] & -> & -> & ->)].
  intros [= Hf Hrest]. apply app_inj_1 in Hrest as [-> Hrest]; [|by rewrite (aw_length _ _ H1), (aw_length _ _ H2)].
  injection Hrest as Hr Hq1' Hq2' Hn.
  assert (f1 = f2) as -> by (destruct (aw_family _ _ H1) as [-> | ->], (aw_family _ _ H2) as [-> | ->]; done).
  rewrite !u8_id in Hr by (unfold is_byte; destruct Hh1, Hh2; lia). split_and!; [done|done| |done].
  rewrite <-(u16_split (qtype m1)), <-(u16_split (qtype m2)) by done. rewrite Hq1'. f_equal.
  change 0xFF%Z with (Z.ones 8) in Hq2'. rewrite !Z.land_ones in Hq2' by lia. unfold u8 in *.
  by rewrite !Z.mod_mod in Hq2' by lia.
Qed.

(** ** Witnesses: a limiter that has sent one response to 192.0.2.0/24 *)

Definition ex_rrl_config : RrlConfig := mkRrlConfig 2 1 2 24 56 [] 100.
Definition ex_client : sockaddr := SockV4 [192; 0; 2; 7]%Z 4000.
Definition ex_response : Message :=
  mkMessage default_header [mkQuestion ex_name RRType.A 1] [] [] [] None.
Definition ex_ip : IpAddress := mkIp AF_INET (into_array [192; 0; 2; 0]%Z).
Definition ex_rrl : ResponseRateLimiter := run_checks (new_rrl ex_rrl_config) [(ex_client, ex_response, 5%Z)].
Definition ex_burst : list request := replicate 4 (ex_client, ex_response, 7%Z).

Lemma rrl_window_witness :
  (sends (verdicts_for (fingerprint ex_ip ex_response) ex_rrl ex_burst) ≤ 1)%Z.
Proof.
  destruct (rrl_window (fingerprint ex_ip ex_response) ex_rrl (mkCount 5 1 0) ex_burst) as (n & _ & H);
    [vm_compute; reflexivity|split; by vm_compute|by vm_compute|by vm_compute|by vm_compute|by vm_compute|by_compute|].
  exact H.
Defined.

Lemma fingerprint_inj_witness : ∃ m2, fingerprint ex_ip ex_response ≠ fingerprint ex_ip m2.
Proof.
  exists (mkMessage default_header [mkQuestion ex_name RRType.MX 1] [] [] [] None).
  intros H. apply (fingerprint_inj ex_ip ex_ip ex_response) in H as (_ & _ & H & _); [done|..].
  1,2: apply into_array_wf4; by_compute.
  all: by_compute.
Defined.
