(* ===== verification/Rebinding.v ===== *)
(** * DNS rebinding protection: [policy/rebinding.cpp]

    Addresses in private ranges are removed from answers for public names.
    The ranges are texts the code parses with [parse_subnet]; a text that
    did not parse would make [.value()] throw, which the model returns as
    [Err].  With the C library's documented reading of those texts
    ([InetPtonLiterals]) it does not, and the filter is the documented list
    of ranges. *)

From stdpp Require Import base tactics numbers list strings.
From Stdlib Require Import ZArith Lia.
From S2P Require Import Prelude Names Types Wire Acl.

Record RebindingConfig := mkRebinding { rb_enabled : bool; rb_exempt : list Name }.

Definition private_texts : list (list Z) :=
  [str "0.0.0.0/8"; str "10.0.0.0/8"; str "100.64.0.0/10"; str "127.0.0.0/8"; str "169.254.0.0/16";
   str "172.16.0.0/12"; str "192.168.0.0/16"; str "::/128"; str "::1/128"; str "fc00::/7"; str "fe80::/10"].

(** The names of [RebindingConfig::default_exempt]. *)
Definition default_exempt : option (list Name) :=
  mapM from_string [str "home.arpa"; str "internal"; str "localhost"; str "local"; str "lan"; str "home"].

(** [std::expected::value]. *)
Definition value {E A} (r : E + A) : outcome E A := match r with inr a => Ok a | inl e => Err e end.

Section rebinding.
Context `{InetPton}.

Definition private_ranges : outcome SubnetError (list Subnet) :=
  mapM (λ text, value (parse_subnet text)) private_texts.

Definition in_private_range (address : sockaddr) : outcome SubnetError bool :=
  ranges ← private_ranges;
  Ok (any_contains ranges address).

Definition is_private_address (rdata : RData) : outcome SubnetError bool :=
  match rdata with
  | RDataA addr => in_private_range (SockV4 addr 0)
  | RDataAAAA addr => in_private_range (SockV6 addr 0)
  | _ => Ok false
  end.

Definition exempt (config : RebindingConfig) (qname : Name) : bool :=
  existsb (λ zone, is_subdomain_of qname zone) (rb_exempt config).

(** [std::stable_partition] on "not private": the kept prefix and the rest. *)
Fixpoint partition_private (answers : list RR) : outcome SubnetError (list RR * list RR) :=
  match answers with
  | [] => Ok ([], [])
  | rr :: answers =>
    private ← is_private_address (rr_rdata rr);
    parts ← partition_private answers;
    Ok (if (private : bool) then (parts.1, rr :: parts.2) else (rr :: parts.1, parts.2))
  end.

(** [strip]: the removed records and what is left of the answers. *)
Definition strip (config : RebindingConfig) (qname : Name) (answers : list RR) :
    outcome SubnetError (list RR * list RR) :=
  if negb (rb_enabled config) || exempt config qname then Ok ([], answers)
  else
    parts ← partition_private answers;
    Ok (parts.2, parts.1).
End rebinding.

(** ** The ranges *)

(** What the C library reads in the texts above (RFC 791 dotted quads and
    RFC 4291 abbreviations), and that an IPv6 text is not an IPv4 address. *)
Class InetPtonLiterals `{InetPton} : Prop := {
  literal_v4 : Forall (λ e, inet_pton AF_INET e.1 = Some e.2)
    [(str "0.0.0.0", [0; 0; 0; 0]); (str "10.0.0.0", [10; 0; 0; 0]); (str "100.64.0.0", [100; 64; 0; 0]);
     (str "127.0.0.0", [127; 0; 0; 0]); (str "169.254.0.0", [169; 254; 0; 0]);
     (str "172.16.0.0", [172; 16; 0; 0]); (str "192.168.0.0", [192; 168; 0; 0])]%Z;
  literal_v6 : Forall (λ e, inet_pton AF_INET e.1 = None ∧ inet_pton AF_INET6 e.1 = Some e.2)
    [(str "::", replicate 16 0); (str "::1", replicate 15 0 ++ [1]); (str "fc00::", 252 :: replicate 15 0);
     (str "fe80::", [254; 128] ++ replicate 14 0)]%Z;
}.

Definition v4_range (a b c d prefix : Z) : Subnet := mkSubnet AF_INET (into_array [a; b; c; d]) prefix.

Definition range_list : list Subnet :=
  [v4_range 0 0 0 0 8; v4_range 10 0 0 0 8; v4_range 100 64 0 0 10; v4_range 127 0 0 0 8;
   v4_range 169 254 0 0 16; v4_range 172 16 0 0 12; v4_range 192 168 0 0 16;
   mkSubnet AF_INET6 (replicate 16 0%Z) 128; mkSubnet AF_INET6 (replicate 15 0 ++ [1])%Z 128;
   mkSubnet AF_INET6 (252%Z :: replicate 15 0%Z) 7; mkSubnet AF_INET6 ([254; 128] ++ replicate 14 0)%Z 10].

Section literals.
Context `{InetPtonLiterals}.

Lemma parse_v4_literal text address digits bytes p :
  split_slash text = (address, Some digits) → c_str address = address →
  inet_pton AF_INET address = Some bytes → from_chars digits = Some (p, []) →
  (0 ≤ p ≤ 32)%Z → mask (into_array bytes) 4 p = into_array bytes →
  parse_subnet text = inr (mkSubnet AF_INET (into_array bytes) p).
Proof using.
  intros Hs Hc Hp Hd Hr Hm. unfold parse_subnet, parse_address. rewrite Hs, Hc, Hp.
  change (address_bytes AF_INET) with 4. cbn [Nat.mul Nat.add]. rewrite Hd.
  change (Z.of_nat 32) with 32%Z. rewrite (proj2 (Z.ltb_ge _ _)) by lia.
  rewrite u8_id by (unfold is_byte; lia). by rewrite Hm, bool_decide_true.
Qed.

Lemma parse_v6_literal text address digits bytes p :
  split_slash text = (address, Some digits) → c_str address = address →
  inet_pton AF_INET address = None → inet_pton AF_INET6 address = Some bytes →
  from_chars digits = Some (p, []) → (0 ≤ p ≤ 128)%Z → mask (into_array bytes) 16 p = into_array bytes →
  parse_subnet text = inr (mkSubnet AF_INET6 (into_array bytes) p).
Proof using.
  intros Hs Hc H4 Hp Hd Hr Hm. unfold parse_subnet, parse_address. rewrite Hs, Hc, H4, Hp.
  change (address_bytes AF_INET6) with 16. cbn [Nat.mul Nat.add]. rewrite Hd.
  change (Z.of_nat 128) with 128%Z. rewrite (proj2 (Z.ltb_ge _ _)) by lia.
  rewrite u8_id by (unfold is_byte; lia). by rewrite Hm, bool_decide_true.
Qed.

(** All eleven texts parse. *)
Lemma private_ranges_value : private_ranges = Ok range_list.
Proof.
  pose proof literal_v4 as H4. pose proof literal_v6 as H6.
  rewrite !Forall_cons in H4. rewrite !Forall_cons in H6. cbn [fst snd] in H4, H6. destruct_and?.
  unfold private_ranges, private_texts. cbn [mapM].
  repeat first
    [erewrite parse_v4_literal; [|vm_compute; reflexivity|vm_compute; reflexivity|eassumption|vm_compute; reflexivity|lia|vm_compute; reflexivity]
    |erewrite parse_v6_literal; [|vm_compute; reflexivity|vm_compute; reflexivity|eassumption|eassumption|vm_compute; reflexivity|lia|vm_compute; reflexivity]].
  reflexivity.
Qed.
End literals.

(** ** The documented ranges *)

Definition private_v4 (addr : list Z) : bool :=
  match addr with
  | [a; b; _; _] =>
    (a =? 0) || (a =? 10) || ((a =? 100) && (64 <=? b) && (b <=? 127)) || (a =? 127) ||
    ((a =? 169) && (b =? 254)) || ((a =? 172) && (16 <=? b) && (b <=? 31)) || ((a =? 192) && (b =? 168))
  | _ => false
  end%Z.

(** ::, ::1, fc00::/7 and fe80::/10; an IPv4-mapped address as its IPv4 form. *)
Definition private_v6 (addr : list Z) : bool :=
  if v4_mapped addr then private_v4 (drop 12 addr)
  else bool_decide (addr = replicate 16 0%Z) || bool_decide (addr = replicate 15 0 ++ [1])%Z ||
    match addr with
    | a :: b :: _ => ((252 <=? a) && (a <=? 253) || ((a =? 254) && (128 <=? b) && (b <=? 191)))%Z
    | _ => false
    end.

(** Every byte satisfies what all 256 of them satisfy. *)
Lemma byte_cases (P : Z → bool) :
  forallb P (map Z.of_nat (seq 0 256)) = true → ∀ b, is_byte b → P b = true.
Proof.
  intros H b Hb. rewrite forallb_forall in H. apply H. apply in_map_iff. exists (Z.to_nat b).
  unfold is_byte in Hb. split; [lia|]. apply in_seq. lia.
Qed.

(** A bit mask on a byte as an interval. *)
Lemma masked_byte (m v lo hi : Z) :
  forallb (λ b, Bool.eqb (Z.land b m =? v)%Z ((lo <=? b) && (b <=? hi))%Z) (map Z.of_nat (seq 0 256)) = true →
  ∀ b, is_byte b → (Z.land b m =? v)%Z = ((lo <=? b) && (b <=? hi))%Z.
Proof. intros H b Hb. apply Bool.eqb_prop. by apply (byte_cases _ H). Qed.

Lemma land_255 b : is_byte b → Z.land b 255 = b.
Proof. intros Hb. change 255%Z with (Z.ones 8). rewrite Z.land_ones by lia. by apply u8_id. Qed.

Fixpoint list_eqb (a b : list Z) : bool :=
  match a, b with
  | [], [] => true
  | x :: a, y :: b => (x =? y)%Z && list_eqb a b
  | _, _ => false
  end.

Lemma list_eqb_decide a : ∀ b, bool_decide (a = b) = list_eqb a b.
Proof.
  induction a as [|x a IH]; intros [|y b]; try done. cbn [list_eqb]. rewrite <-IH.
  destruct (Z.eqb_spec x y) as [->|Hne]; cbn [andb].
  - apply bool_decide_ext. split; [by intros [= ->]|by intros ->].
  - apply bool_decide_false. by intros [= ? ?].
Qed.

Lemma contains_v4 a b c d port n0 n1 n2 n3 p :
  contains (v4_range n0 n1 n2 n3 p) (SockV4 [a; b; c; d] port) =
  ((Z.land a (mask_byte p 0) =? n0) && (Z.land b (mask_byte p 1) =? n1) &&
   (Z.land c (mask_byte p 2) =? n2) && (Z.land d (mask_byte p 3) =? n3))%Z.
Proof.
  unfold contains. cbn [ip_address ip_family v4_range sn_family sn_network sn_prefix network ip_bytes].
  change (negb (AF_INET =? AF_INET)%Z) with false. cbv iota. rewrite list_eqb_decide.
  cbn. by rewrite andb_true_r, !andb_assoc.
Qed.

Lemma contains_other_family s c ip :
  ip_address c = Some ip → ip_family ip ≠ sn_family s → contains s c = false.
Proof. intros Hip Hf. unfold contains. rewrite Hip. by rewrite (proj2 (Z.eqb_neq _ _) Hf). Qed.

Ltac eval_masks :=
  repeat match goal with
  | |- context [mask_byte ?p ?i] =>
    let v := eval vm_compute in (mask_byte p i) in change (mask_byte p i) with v
  end.

Lemma private_v4_ranges a b c d port :
  is_byte a → is_byte b → is_byte c → is_byte d →
  any_contains range_list (SockV4 [a; b; c; d] port) = private_v4 [a; b; c; d].
Proof.
  intros Ha Hb Hc Hd. unfold any_contains, range_list. cbn [existsb].
  rewrite !contains_v4. erewrite !(contains_other_family (mkSubnet AF_INET6 _ _)) by done.
  eval_masks. rewrite !Z.land_0_r, !(land_255 a), !(land_255 b) by done.
  rewrite (masked_byte 192 64 64 127) by (done || by vm_compute).
  rewrite (masked_byte 240 16 16 31) by (done || by vm_compute).
  change (0 =? 0)%Z with true. rewrite !andb_true_r, !orb_false_r. cbn [private_v4].
  by rewrite !orb_assoc, !andb_assoc.
Qed.

(** An IPv6 prefix of at most 16 bits looks at two bytes; /128 at all of them. *)
Lemma contains_v6 addr port bytes p :
  length addr = 16 → v4_mapped addr = false →
  contains (mkSubnet AF_INET6 bytes p) (SockV6 addr port) = list_eqb (mask addr 16 p) bytes.
Proof.
  intros Hl Hm. unfold contains. cbn [ip_address]. rewrite Hm. cbn [ip_family sn_family sn_network sn_prefix].
  change (negb (AF_INET6 =? AF_INET6)%Z) with false. cbv iota. rewrite <-list_eqb_decide. cbn [network ip_bytes ip_family].
  unfold into_array. by rewrite Hl, app_nil_r.
Qed.

Lemma mask_full addr : length addr = 16 → bytes_wf addr → mask addr 16 128 = addr.
Proof.
  intros Hl Hb. apply list_eq_same_length with 16; [done|unfold mask; by rewrite length_imap|].
  intros i x y Hi Hx Hy. apply list_lookup_total_correct in Hx, Hy as Hy'. subst x.
  rewrite lookup_total_mask by lia. rewrite decide_True by done. rewrite Hy'.
  assert (mask_byte 128 i = 255%Z) as ->; [|apply land_255; by eapply bytes_lookup].
  do 16 (destruct i as [|i]; [reflexivity|]). lia.
Qed.

Lemma length_four {A} (l : list A) : length l = 4 → ∃ a b c d, l = [a; b; c; d].
Proof. intros Hl. do 4 (destruct l as [|? l]; [done|]). destruct l; [by eauto|done]. Qed.

Lemma private_v6_ranges addr port :
  length addr = 16 → bytes_wf addr → any_contains range_list (SockV6 addr port) = private_v6 addr.
Proof.
  intros Hl Hb. destruct (v4_mapped addr) eqn:Hm.
  - unfold private_v6. rewrite Hm.
    destruct (length_four (drop 12 addr)) as (a & b & c & d & Hd); [rewrite length_drop; lia|]. rewrite Hd.
    assert (Hw : bytes_wf [a; b; c; d]) by (rewrite <-Hd; by apply Forall_drop).
    unfold bytes_wf in Hw. rewrite !Forall_cons in Hw. destruct_and?.
    rewrite <-(private_v4_ranges a b c d port) by done. unfold any_contains, contains. cbn [ip_address].
    by rewrite Hm, Hd.
  - unfold private_v6. rewrite Hm. unfold any_contains, range_list. cbn [existsb].
    erewrite !(contains_other_family (v4_range _ _ _ _ _)) by (cbn [ip_address]; rewrite ?Hm; done).
    rewrite !contains_v6, !mask_full by done. rewrite <-!list_eqb_decide.
    do 16 (destruct addr as [|? addr]; [done|]). destruct addr; [|done].
    unfold bytes_wf in Hb. rewrite !Forall_cons in Hb. destruct_and?.
    cbn [orb]. rewrite orb_false_r, <-!orb_assoc. do 2 f_equal. rewrite !list_eqb_decide.
    cbn [list_eqb mask imap replicate app compose decide Nat.lt]. eval_masks.
    rewrite !decide_True by lia. rewrite !Z.land_0_r, !land_255 by done.
    rewrite (masked_byte 254 252 252 253) by (done || by vm_compute).
    rewrite (masked_byte 192 128 128 191) by (done || by vm_compute).
    change (0 =? 0)%Z with true. cbn [andb]. by rewrite !andb_true_r, andb_assoc.
Qed.

(** ** Properties *)

Section properties.
Context `{InetPtonLiterals}.

(** The documented ranges, per record. *)
Definition private_rdata (d : RData) : bool :=
  match d with RDataA a => private_v4 a | RDataAAAA a => private_v6 a | _ => false end.

Lemma is_private_address_value type cls d :
  rdata_wf type cls d → is_private_address d = Ok (private_rdata d).
Proof.
  intros Hd. destruct d; try done; cbn [rdata_wf] in Hd; destruct Hd as (_ & _ & Hl & Hb);
    cbn [is_private_address private_rdata]; unfold in_private_range;
    rewrite private_ranges_value, bind_Ok; f_equal.
  - destruct (length_four addr Hl) as (a & b & c & d & ->).
    unfold bytes_wf in Hb. rewrite !Forall_cons in Hb. destruct_and?. by apply private_v4_ranges.
  - by apply private_v6_ranges.
Qed.

Lemma partition_private_value answers : Forall rr_wf answers →
  partition_private answers =
    Ok (filter (λ rr, private_rdata (rr_rdata rr) = false) answers,
        filter (λ rr, private_rdata (rr_rdata rr) = true) answers).
Proof.
  induction 1 as [|rr answers Hrr _ IH]; [done|]. cbn [partition_private].
  rewrite (is_private_address_value _ _ _ (rwf_rdata rr Hrr)), bind_Ok, IH, bind_Ok, !filter_cons.
  by destruct (private_rdata (rr_rdata rr)).
Qed.

(** [strip], when every record is well formed. *)
Lemma strip_value config qname answers : Forall rr_wf answers →
  strip config qname answers =
    Ok (if rb_enabled config && negb (exempt config qname)
        then (filter (λ rr, private_rdata (rr_rdata rr) = true) answers,
              filter (λ rr, private_rdata (rr_rdata rr) = false) answers)
        else ([], answers)).
Proof.
  intros Hwf. unfold strip. destruct (rb_enabled config), (exempt config qname); cbn [negb orb andb]; try done.
  by rewrite partition_private_value, bind_Ok.
Qed.

(** The private ranges.  An A record is private exactly when its
    address is in 0/8, 10/8, 100.64/10, 127/8, 169.254/16, 172.16/12 or
    192.168/16, an AAAA record exactly when it is ::, ::1, in fc00::/7 or
    fe80::/10, or the IPv4-mapped form of a private IPv4 address; no other
    record is, and parsing the ranges never throws. *)
Lemma private_address_exact type cls d :
  rdata_wf type cls d →
  is_private_address d =
    Ok match d with RDataA a => private_v4 a | RDataAAAA a => private_v6 a | _ => false end.
Proof. apply is_private_address_value. Qed.

(** Rebinding protection.  For a name that is not exempt, [strip] takes
    out exactly the private addresses, in order, and no answer that is left
    has one; for an exempt name, or with the filter off, answers are untouched. *)
Lemma strip_exact config qname answers :
  Forall rr_wf answers →
  let protect := rb_enabled config && negb (exempt config qname) in
  ∃ removed kept, strip config qname answers = Ok (removed, kept) ∧
    (protect = true →
       Forall (λ rr, is_private_address (rr_rdata rr) = Ok false) kept ∧
       Forall (λ rr, is_private_address (rr_rdata rr) = Ok true) removed ∧
       kept `sublist_of` answers ∧ removed `sublist_of` answers ∧ kept ++ removed ≡ₚ answers) ∧
    (protect = false → removed = [] ∧ kept = answers).
Proof.
  intros Hwf protect. rewrite strip_value by done. fold protect. destruct protect;
    do 2 eexists; (split; [done|]); (split; [|done]); [|done]. intros _.
  rewrite Forall_forall in Hwf.
  split_and!; try apply sublist_filter.
  - apply Forall_forall. intros rr [Hp Hin]%list_elem_of_filter.
    rewrite (is_private_address_value _ _ _ (rwf_rdata rr (Hwf _ Hin))). by rewrite Hp.
  - apply Forall_forall. intros rr [Hp Hin]%list_elem_of_filter.
    rewrite (is_private_address_value _ _ _ (rwf_rdata rr (Hwf _ Hin))). by rewrite Hp.
  - clear. induction answers as [|rr answers IH]; [done|]. rewrite !filter_cons.
    destruct (private_rdata (rr_rdata rr)); [rewrite decide_False, decide_True by done
      |rewrite decide_True, decide_False by done; cbn; by rewrite IH].
    by rewrite <-Permutation_middle, IH.
Qed.
End properties.

(** ** Witnesses *)

Lemma ex_pton_literals : @InetPtonLiterals ex_pton.
Proof. split; by_compute. Defined.

Definition ex_private : list RR :=
  [mkRR ex_name RRType.A 1 60 (RDataA [192; 168; 1; 1]%Z) TrustRank.Answer;
   mkRR ex_name RRType.A 1 60 (RDataA [192; 0; 2; 1]%Z) TrustRank.Answer].

Lemma private_address_exact_witness :
  @is_private_address ex_pton (RDataA [192; 168; 1; 1]%Z) = Ok true.
Proof. apply (@private_address_exact ex_pton ex_pton_literals RRType.A 1). by_compute. Defined.

Lemma strip_exact_witness : ∃ removed kept,
  @strip ex_pton (mkRebinding true []) ex_name ex_private = Ok (removed, kept) ∧
  kept ++ removed ≡ₚ ex_private.
Proof.
  destruct (@strip_exact ex_pton ex_pton_literals (mkRebinding true []) ex_name ex_private)
    as (removed & kept & Hs & H & _); [by_compute|].
  exists removed, kept. split; [done|]. by apply H.
Defined.
