(* ===== verification/Blocklist.v ===== *)
(** * The blocklist interface: [policy/blocklist_trie.h]

    What the users of a blocklist rely on: a lookup that does not depend on
    letter case.  The query pipeline and the CNAME check are proved against
    this class; [Trie] provides the instance. *)

From stdpp Require Import base tactics numbers list.
From S2P Require Import Prelude Names.

Inductive ListAction := Block | Allow.

Record TrieLookupResult := mkMatch {
  tr_matched : bool; tr_action : ListAction; tr_rule : list Z; tr_source : list Z;
}.

Global Instance ListAction_eq_dec : EqDecision ListAction.
Proof. solve_decision. Defined.
Global Instance TrieLookupResult_eq_dec : EqDecision TrieLookupResult.
Proof. solve_decision. Defined.

Definition no_match : TrieLookupResult := mkMatch false Block [] [].

Class Blocklist (T : Type) := {
  bl_lookup : T → Name → TrieLookupResult;
  bl_lookup_proper :: ∀ t, Proper ((≡) ==> (=)) (bl_lookup t);
}.

(** The test every user makes. *)
Definition blocked `{Blocklist T} (t : T) (n : Name) : bool :=
  let m := bl_lookup t n in tr_matched m && bool_decide (tr_action m = Block).
