(* ===== verification/CnameCheck.v ===== *)
(** * CNAME-cloaking detection: [policy/cname_check.cpp]

    Following an answer's CNAME chain from the query name, and the first hop
    a blocklist blocks.  The [for (;;)] of [cname_chain] gets one turn per
    answer record and one more; the chain theorem shows that this is enough
    on every input, so the C++ loop ends. *)

From stdpp Require Import base tactics numbers list.
From Stdlib Require Import ZArith Lia.
From S2P Require Import Prelude Names Types Blocklist.

(** The CNAME target [std::find_if] finds for [current]. *)
Fixpoint find_cname (current : Name) (answers : list RR) : option Name :=
  match answers with
  | [] => None
  | rr :: answers =>
    match rr_rdata rr with
    | RDataCNAME target =>
      if (rr_type rr =? RRType.CNAME)%Z && name_eqb (rr_name rr) current then Some target
      else find_cname current answers
    | _ => find_cname current answers
    end
  end.

Fixpoint cname_chain_loop (fuel : nat) (qname current : Name) (answers : list RR) (chain : list Name) :
    outcome Empty_set (list Name) :=
  match fuel with
  | O => Fault OutOfFuel
  | S fuel =>
    match find_cname current answers with
    | None => Ok chain
    | Some target =>
      if name_eqb target qname || existsb (name_eqb target) chain then Ok chain
      else cname_chain_loop fuel qname target answers (chain ++ [target])
    end
  end.

Definition cname_chain (qname : Name) (answers : list RR) : outcome Empty_set (list Name) :=
  cname_chain_loop (S (length answers)) qname qname answers [].

Record CloakedName := mkCloaked { cl_chain : list Name; cl_match : TrieLookupResult }.

Section find_cloaked.
Context `{Blocklist T}.

(** The loop over the hops; [before] are the ones already passed. *)
Fixpoint first_blocked (trie : T) (qname : Name) (before hops : list Name) : option CloakedName :=
  match hops with
  | [] => None
  | hop :: hops =>
    let m := bl_lookup trie hop in
    if negb (tr_matched m) || negb (bool_decide (tr_action m = Block))
    then first_blocked trie qname (before ++ [hop]) hops
    else Some (mkCloaked ([qname] ++ before ++ [hop]) m)
  end.

Definition find_cloaked (qname : Name) (answers : list RR) (trie : T) : outcome Empty_set (option CloakedName) :=
  if negb (existsb (λ rr, rr_type rr =? RRType.CNAME)%Z answers) then Ok None
  else chain ← cname_chain qname answers; Ok (first_blocked trie qname [] chain).
End find_cloaked.

(** ** Chains *)

(** [answers] has a CNAME record from [a] to [b]. *)
Definition alias (answers : list RR) (a b : Name) : Prop :=
  ∃ rr, rr ∈ answers ∧ rr_type rr = RRType.CNAME ∧ rr_name rr ≡ a ∧ rr_rdata rr = RDataCNAME b.

(** Each name is an alias of the next. *)
Fixpoint linked (answers : list RR) (from : Name) (hops : list Name) : Prop :=
  match hops with
  | [] => True
  | hop :: hops => alias answers from hop ∧ linked answers hop hops
  end.

Definition targets (answers : list RR) : list (list (list Z)) :=
  omap (λ rr, match rr_rdata rr with RDataCNAME t => Some (labels t) | _ => None end) answers.

Lemma find_cname_alias current answers target :
  find_cname current answers = Some target → alias answers current target.
Proof.
  induction answers as [|rr answers IH]; cbn [find_cname]; [done|]. intros Hf.
  assert (Hrec : find_cname current answers = Some target → alias (rr :: answers) current target).
  { intros (r & Hr & ?)%IH. exists r. split; [by right|done]. }
  destruct (rr_rdata rr) eqn:Hd; try (by apply Hrec). destruct (_ && _) eqn:E; [|by apply Hrec].
  apply andb_true_iff in E as [?%Z.eqb_eq ?%name_eqb_equiv]. injection Hf as ->.
  exists rr. split_and!; [left|done..].
Qed.

Lemma alias_target answers a b : alias answers a b → labels b ∈ targets answers.
Proof.
  intros (rr & Hin & _ & _ & Hd). unfold targets. apply list_elem_of_omap. exists rr. by rewrite Hd.
Qed.

Lemma targets_length answers : length (targets answers) ≤ length answers.
Proof.
  unfold targets. induction answers as [|rr answers IH]; cbn [omap list_omap length]; [done|].
  destruct (rr_rdata rr); cbn [length] in *; lia.
Qed.

Lemma linked_app answers hops : ∀ from x,
  linked answers from hops → alias answers (default from (last hops)) x → linked answers from (hops ++ [x]).
Proof.
  induction hops as [|h hops IH]; intros from x; cbn [linked app]; [done|]. intros [Ha Hl] Hx.
  split; [done|]. apply IH; [done|]. rewrite last_cons in Hx. by destruct (last hops).
Qed.

Lemma linked_targets answers hops : ∀ from, linked answers from hops → Forall (λ h, labels h ∈ targets answers) hops.
Proof.
  induction hops as [|h hops IH]; intros from; cbn [linked]; [constructor|].
  intros [Ha Hl]. constructor; [by eapply alias_target|by eapply IH].
Qed.

(** What the finished chain satisfies. *)
Record chain_spec (qname : Name) (answers : list RR) (chain : list Name) : Prop := {
  cs_linked : linked answers qname chain;
  cs_distinct : NoDup (labels <$> qname :: chain);
  cs_end : match find_cname (default qname (last chain)) answers with
           | None => True
           | Some target => ∃ n, n ∈ qname :: chain ∧ n ≡ target
           end;
}.

(** Distinct hops are distinct targets, of which there are few. *)
Lemma chain_bound qname answers chain :
  linked answers qname chain → NoDup (labels <$> qname :: chain) → length chain ≤ length answers.
Proof.
  intros Hl Hnd. etrans; [|apply targets_length]. rewrite fmap_cons in Hnd. apply NoDup_cons in Hnd as [_ Hnd].
  rewrite <-(length_fmap labels chain). apply submseteq_length, NoDup_submseteq; [done|].
  intros x (h & -> & Hh)%list_elem_of_fmap. apply linked_targets in Hl. rewrite Forall_forall in Hl. by apply Hl.
Qed.

Lemma seen_spec qname chain target :
  name_eqb target qname || existsb (name_eqb target) chain = true ↔ ∃ n, n ∈ qname :: chain ∧ n ≡ target.
Proof.
  rewrite orb_true_iff, name_eqb_equiv, existsb_exists. split.
  - intros [Hq|(n & Hn & He)]; [exists qname; split; [left|done]|].
    apply name_eqb_equiv in He. exists n. split; [right; by apply list_elem_of_In|done].
  - intros (n & [-> |Hn]%elem_of_cons & He); [by left|right]. exists n.
    split; [by apply list_elem_of_In|by apply name_eqb_equiv].
Qed.

Lemma cname_chain_loop_spec qname answers fuel : ∀ chain,
  length answers < fuel + length chain →
  linked answers qname chain → NoDup (labels <$> qname :: chain) →
  ∃ chain', cname_chain_loop fuel qname (default qname (last chain)) answers chain = Ok chain' ∧
            chain_spec qname answers chain'.
Proof.
  induction fuel as [|fuel IH]; intros chain Hf Hl Hnd; cbn [cname_chain_loop].
  { pose proof (chain_bound _ _ _ Hl Hnd). lia. }
  destruct (find_cname (default qname (last chain)) answers) as [target|] eqn:E.
  2:{ exists chain. split; [done|]. split; [done|done|]. by rewrite E. }
  destruct (name_eqb target qname || existsb (name_eqb target) chain) eqn:Hseen.
  { exists chain. split; [done|]. split; [done|done|]. rewrite E. by apply seen_spec. }
  apply find_cname_alias in E.
  destruct (IH (chain ++ [target])) as (chain' & Hloop & Hspec).
  - rewrite length_app. simpl. lia.
  - by apply linked_app.
  - rewrite app_comm_cons, fmap_app. apply NoDup_app. split; [done|]. split; [|apply NoDup_singleton].
    intros x (n & -> & Hn)%list_elem_of_fmap Hx. apply list_elem_of_singleton in Hx.
    assert (name_eqb target qname || existsb (name_eqb target) chain = true); [|congruence].
    apply seen_spec. by exists n.
  - rewrite last_snoc in Hloop. by exists chain'.
Qed.

Lemma no_cname_chain qname answers :
  existsb (λ rr, rr_type rr =? RRType.CNAME)%Z answers = false → cname_chain qname answers = Ok [].
Proof.
  intros Hn. unfold cname_chain. cbn [cname_chain_loop].
  destruct (find_cname qname answers) as [target|] eqn:E; [|done].
  apply find_cname_alias in E as (rr & Hin & Ht & _).
  assert (existsb (λ rr, rr_type rr =? RRType.CNAME)%Z answers = true); [|congruence].
  apply existsb_exists. exists rr. split; [by apply list_elem_of_In|by apply Z.eqb_eq].
Qed.

Lemma first_blocked_spec `{Blocklist T} (trie : T) qname hops : ∀ before,
  match first_blocked trie qname before hops with
  | None => Forall (λ h, blocked trie h = false) hops
  | Some c => ∃ passed hop rest, hops = passed ++ hop :: rest ∧
      Forall (λ h, blocked trie h = false) passed ∧ blocked trie hop = true ∧
      c = mkCloaked (qname :: before ++ passed ++ [hop]) (bl_lookup trie hop)
  end.
Proof.
  induction hops as [|hop hops IH]; intros before; cbn [first_blocked]; [constructor|].
  rewrite <-negb_andb. fold (blocked trie hop). destruct (blocked trie hop) eqn:Hb; cbn [negb].
  - exists [], hop, hops. by split_and!.
  - specialize (IH (before ++ [hop])). destruct (first_blocked _ _ _ hops) as [c|]; [|by constructor].
    destruct IH as (passed & hop' & rest & -> & Hp & Hh & ->). exists (hop :: passed), hop', rest.
    split_and!; [done|by constructor|done|]. by rewrite <-!app_assoc.
Qed.

Lemma find_cloaked_value `{Blocklist T} qname answers (trie : T) :
  ∃ chain r, cname_chain qname answers = Ok chain ∧ find_cloaked qname answers trie = Ok r ∧
    match r with
    | None => Forall (λ h, blocked trie h = false) chain
    | Some c => ∃ passed hop rest, chain = passed ++ hop :: rest ∧
        Forall (λ h, blocked trie h = false) passed ∧ blocked trie hop = true ∧
        c = mkCloaked (qname :: passed ++ [hop]) (bl_lookup trie hop)
    end.
Proof.
  unfold find_cloaked. destruct (existsb _ answers) eqn:E; cbn [negb].
  - destruct (cname_chain_loop_spec qname answers (S (length answers)) []) as (chain & Hc & _);
      [simpl; lia|done|apply NoDup_singleton|].
    change (cname_chain qname answers = Ok chain) in Hc. rewrite Hc, bind_Ok. exists chain. eexists.
    split; [done|]. split; [done|]. apply (first_blocked_spec trie qname chain []).
  - rewrite (no_cname_chain qname answers E). exists [], None. split; [done|]. split; [done|constructor].
Qed.

(** ** Properties *)

(** C29: following a CNAME chain ends, on any answer section, loops
    included.  The chain starts at the query name, each hop is a CNAME record of
    the answers, no name occurs twice, and it stops only where there is no
    further CNAME or the next name was already seen. *)
Theorem cname_chain_terminates qname answers :
  ∃ chain, cname_chain qname answers = Ok chain ∧ chain_spec qname answers chain ∧
    length chain ≤ length answers.
Proof.
  destruct (cname_chain_loop_spec qname answers (S (length answers)) []) as (chain & Hc & Hs);
    [simpl; lia|done|apply NoDup_singleton|].
  exists chain. split_and!; [done|done|]. eapply chain_bound; apply Hs.
Qed.

(** Cloaking detection finds the first blocked hop.  It reports nothing
    exactly when no hop of the chain is blocked; otherwise it reports the names
    from the query up to the first blocked hop, with the rule that blocks it. *)
Lemma find_cloaked_exact `{Blocklist T} qname answers (trie : T) :
  ∃ chain r, cname_chain qname answers = Ok chain ∧ find_cloaked qname answers trie = Ok r ∧
    match r with
    | None => Forall (λ h, blocked trie h = false) chain
    | Some c => ∃ passed hop rest, chain = passed ++ hop :: rest ∧
        Forall (λ h, blocked trie h = false) passed ∧ blocked trie hop = true ∧
        c = mkCloaked (qname :: passed ++ [hop]) (bl_lookup trie hop)
    end.
Proof. apply find_cloaked_value. Qed.
