(* ===== verification/Trie.v ===== *)
(** * The blocklist trie: [policy/blocklist_trie.cpp]

    A builder collects rules keyed by their reversed, length-prefixed labels;
    [build] sorts them and lays out a trie breadth-first in one array, with
    each distinct label stored once and children next to each other in the
    order [lookup] binary-searches.

    The contiguous range of sorted rules a piece of work covers
    ([rules_[begin, end)], never changed while the trie is built) is the
    sublist itself; every other index is an index, and an access out of
    range is [Fault OutOfBounds]. *)

From stdpp Require Import base tactics numbers list gmap strings sorting.
From Stdlib Require Import ZArith Lia.
From S2P Require Import Prelude Names Wire Builder Acl Blocklist.

(** ** Rules and the builder *)

Definition kBlockExact : Z := 1.
Definition kBlockSubtree : Z := 2.
Definition kAllowExact : Z := 4.
Definition kAllowSubtree : Z := 8.

Record Rule := mkRule { r_key : list Z; r_flags : Z; r_source : Z }.

Record TrieBuilder := mkBuilder { bd_rules : list Rule; bd_sources : list (list Z) }.

Definition empty_builder : TrieBuilder := mkBuilder [] [].

Fixpoint find_source (sources : list (list Z)) (source : list Z) (i : nat) : option nat :=
  match sources with
  | [] => None
  | s :: sources => if decide (s = source) then Some i else find_source sources source (S i)
  end.

Definition source_id (sources : list (list Z)) (source : list Z) : Z * list (list Z) :=
  match find_source sources source 0 with
  | Some i => (u16 (Z.of_nat i), sources)
  | None => (u16 (zlen sources), sources ++ [source])
  end.

(** The key of a domain: its labels from the top level down, each prefixed
    with its length. *)
Definition rule_key (domain : Name) : list Z := suffix_key (reverse (labels domain)).

Definition rule_flags (action : ListAction) (include_subdomains : bool) : Z :=
  match action with
  | Block => if include_subdomains then kBlockSubtree else kBlockExact
  | Allow => if include_subdomains then kAllowSubtree else kAllowExact
  end.

Definition add (b : TrieBuilder) (domain : Name) (action : ListAction) (source : list Z)
    (include_subdomains : bool) : TrieBuilder :=
  let '(id, sources) := source_id (bd_sources b) source in
  mkBuilder (bd_rules b ++ [mkRule (rule_key domain) (rule_flags action include_subdomains) id]) sources.

(** ** List files *)

Definition is_blank (c : Z) : bool := ((c =? 32) || (c =? 9))%Z.
Definition is_space (c : Z) : bool := (is_blank c || (c =? 13)%Z).

Fixpoint drop_while (p : Z → bool) (s : list Z) : list Z :=
  match s with
  | c :: s' => if p c then drop_while p s' else s
  | [] => []
  end.

Fixpoint take_until (p : Z → bool) (s : list Z) : list Z :=
  match s with
  | c :: s' => if p c then [] else c :: take_until p s'
  | [] => []
  end.

Definition trim (s : list Z) : list Z := reverse (drop_while is_space (reverse (drop_while is_space s))).

(** The fields between runs of blanks; each turn consumes a character. *)
Fixpoint split_fields (s field : list Z) : list (list Z) :=
  match s with
  | [] => match field with [] => [] | _ => [field] end
  | c :: s =>
    if is_blank c then match field with [] => split_fields s [] | _ => field :: split_fields s [] end
    else split_fields s (field ++ [c])
  end.

Definition hosts_boilerplate : list (list Z) :=
  [str "localhost"; str "localhost.localdomain"; str "local"; str "broadcasthost"; str "ip6-localhost";
   str "ip6-loopback"; str "ip6-localnet"; str "ip6-mcastprefix"; str "ip6-allnodes"; str "ip6-allrouters";
   str "ip6-allhosts"; str "0.0.0.0"].

Definition is_hosts_boilerplate (name : list Z) : bool := bool_decide (name ∈ hosts_boilerplate).

Definition ends_with (c : Z) (s : list Z) : bool := bool_decide (last s = Some c).

(** What is left after the wrapping must not be a pattern. *)
Definition plain_domain (entry : list Z) : list Z :=
  if existsb (λ c, bool_decide (c ∈ str "/*$^|@:=?&")) entry then [] else entry.

Definition unwrap_domain (entry : list Z) : list Z :=
  match entry with
  | 124%Z :: 124%Z :: rest =>
    if negb (ends_with 94 entry) then [] else plain_domain (take (length entry - 3) rest)
  | 42%Z :: 46%Z :: rest => plain_domain rest
  | _ => plain_domain entry
  end.

Record ListFileStats := mkStats { st_rules : Z; st_skipped : Z }.

Section load.
Context `{InetPton}.

Definition is_ip_address (text : list Z) : bool :=
  let s := c_str (take_until (Z.eqb 37) text) in
  bool_decide (is_Some (inet_pton AF_INET s)) || bool_decide (is_Some (inet_pton AF_INET6 s)).

(** The domain texts of one line and how many entries it skips outright. *)
Definition line_names (raw : list Z) : list (list Z) * Z :=
  let line := trim raw in
  match line with
  | [] => ([], 0)
  | c :: _ =>
    if ((c =? 33) || (c =? 91))%Z then ([], 0) else
    let line := trim (take_until (Z.eqb 35) line) in
    match split_fields line [] with
    | [] => ([], 0)
    | first :: rest =>
      if is_ip_address first then
        (filter (λ f, is_hosts_boilerplate f = false) rest, match rest with [] => 1 | _ => 0 end)
      else match rest with
           | [] => ([unwrap_domain first], 0)
           | _ => ([], 1)
           end
    end
  end%Z.

Definition load_name (action : ListAction) (path : list Z) (acc : TrieBuilder * ListFileStats) (text : list Z) :
    TrieBuilder * ListFileStats :=
  let '(b, st) := acc in
  let skip := (b, mkStats (st_rules st) (st_skipped st + 1)%Z) in
  match (if decide (text = []) then None else from_string text) with
  | None => skip
  | Some name =>
    if (label_count name =? 0)%nat then skip
    else (add b name action path true, mkStats (st_rules st + 1)%Z (st_skipped st))
  end.

Definition load_line (action : ListAction) (path : list Z) (acc : TrieBuilder * ListFileStats) (raw : list Z) :
    TrieBuilder * ListFileStats :=
  let '(names, skipped) := line_names raw in
  let '(b, st) := acc in
  fold_left (load_name action path) names (b, mkStats (st_rules st) (st_skipped st + skipped)%Z).

(** [load_file] on the lines [std::getline] reads; [None] is a file that
    cannot be opened. *)
Definition load_file (b : TrieBuilder) (path : list Z) (action : ListAction) (file : option (list (list Z))) :
    option (TrieBuilder * ListFileStats) :=
  lines ← file;
  Some (fold_left (load_line action path) lines (b, mkStats 0 0)).
End load.

(** ** Building *)

Record TrieNode := mkTrieNode {
  t_label_offset : Z; t_label_length : Z; t_flags : Z; t_block_source : Z; t_allow_source : Z;
  t_first_child : Z; t_child_count : Z;
}.

Record BlocklistTrie := mkTrie {
  t_nodes : list TrieNode; t_labels : list Z; t_sources : list (list Z); t_rule_count : Z;
}.

Definition empty_trie : BlocklistTrie := mkTrie [] [] [] 0.

Definition fresh_node (offset length : Z) : TrieNode := mkTrieNode offset length 0 0 0 0 0.

(** [std::string::operator<]: bytes compare as unsigned. *)
Fixpoint bytes_lt (a b : list Z) : bool :=
  match a, b with
  | _, [] => false
  | [], _ :: _ => true
  | x :: a, y :: b => (x <? y)%Z || ((x =? y)%Z && bytes_lt a b)
  end.

(** [std::stable_sort]: the sorted order in which equal keys keep theirs. *)
Fixpoint insert_rule (r : Rule) (rs : list Rule) : list Rule :=
  match rs with
  | [] => [r]
  | s :: rs' => if bytes_lt (r_key s) (r_key r) then s :: insert_rule r rs' else r :: rs
  end.

Definition stable_sort (rs : list Rule) : list Rule := foldr insert_rule [] rs.

Definition block_bits : Z := Z.lor kBlockExact kBlockSubtree.
Definition allow_bits : Z := Z.lor kAllowExact kAllowSubtree.
Definition has (flags bits : Z) : bool := negb (Z.land flags bits =? 0)%Z.

(** One rule for this very name. *)
Definition absorb_rule (n : TrieNode) (r : Rule) : TrieNode :=
  let f := r_flags r in
  mkTrieNode (t_label_offset n) (t_label_length n) (Z.lor (t_flags n) f)
    (if has f block_bits && negb (has (t_flags n) block_bits) then r_source r else t_block_source n)
    (if has f allow_bits && negb (has (t_flags n) allow_bits) then r_source r else t_allow_source n)
    (t_first_child n) (t_child_count n).

(** The rules whose key ends here come first. *)
Fixpoint absorb (offset : nat) (n : TrieNode) (rules : list Rule) : TrieNode * list Rule :=
  match rules with
  | r :: rest =>
    if decide (length (r_key r) = offset) then absorb offset (absorb_rule n r) rest else (n, rules)
  | [] => (n, [])
  end.

Record Work := mkWork { wk_node : nat; wk_rules : list Rule; wk_offset : nat }.

(** The parts of the trie under construction that grow. *)
Record Layout := mkLayout { ly_nodes : list TrieNode; ly_labels : list Z; ly_interned : gmap (list Z) Z }.

Abbreviation mem := (outcome Empty_set).

(** The run of rules that agree with [piece] at [offset]. *)
Fixpoint same_piece (offset : nat) (piece : list Z) (rules : list Rule) : list Rule * list Rule :=
  match rules with
  | r :: rest =>
    if decide (take (length piece) (drop offset (r_key r)) = piece)
    then let '(g, rest) := same_piece offset piece rest in (r :: g, rest)
    else ([], rules)
  | [] => ([], [])
  end.

(** [interned.try_emplace] and the append it guards. *)
Definition intern (ly : Layout) (label : list Z) : Z * Layout :=
  match ly_interned ly !! label with
  | Some off => (off, ly)
  | None =>
    let off := u32 (zlen (ly_labels ly)) in
    (off, mkLayout (ly_nodes ly) (ly_labels ly ++ label) (<[label := off]> (ly_interned ly)))
  end.

(** The [while (i < w.end)] loop; each turn takes at least one rule. *)
Fixpoint make_children (fuel : nat) (offset : nat) (rules : list Rule) (ly : Layout) (children : list Work) :
    mem (Layout * list Work) :=
  match rules with
  | [] => Ok (ly, children)
  | r :: rest =>
    match fuel with
    | O => Fault OutOfFuel
    | S fuel =>
      len ← byte_at (r_key r) offset;
      label ← subspan (r_key r) (offset + 1) (Z.to_nat len);
      let piece := take (1 + Z.to_nat len) (drop offset (r_key r)) in
      let '(group, rest) := same_piece offset piece rest in
      let '(off, ly) := intern ly label in
      let nodes := ly_nodes ly ++ [fresh_node off len] in
      make_children fuel offset rest (mkLayout nodes (ly_labels ly) (ly_interned ly))
        (children ++ [mkWork (length (ly_nodes ly)) (r :: group) (offset + 1 + Z.to_nat len)])
    end
  end.

Definition set_children (n : TrieNode) (first count : Z) : TrieNode :=
  mkTrieNode (t_label_offset n) (t_label_length n) (t_flags n) (t_block_source n) (t_allow_source n) first count.

(** One turn of the breadth-first loop. *)
Definition process (w : Work) (ly : Layout) : mem (Layout * list Work) :=
  match ly_nodes ly !! wk_node w with
  | None => Fault OutOfBounds
  | Some n =>
    let '(n, rest) := absorb (wk_offset w) n (wk_rules w) in
    let first := length (ly_nodes ly) in
    '(ly, children) ← make_children (length rest) (wk_offset w) rest ly [];
    let n := set_children n (u32 (Z.of_nat first)) (u32 (zlen children)) in
    Ok (mkLayout (<[wk_node w := n]> (ly_nodes ly)) (ly_labels ly) (ly_interned ly), children)
  end.

Fixpoint build_loop (fuel : nat) (queue : list Work) (ly : Layout) : mem Layout :=
  match queue with
  | [] => Ok ly
  | w :: queue =>
    match fuel with
    | O => Fault OutOfFuel
    | S fuel => '(ly, children) ← process w ly; build_loop fuel (queue ++ children) ly
    end
  end.

(** Each node accounts for a byte of some key, or is the root. *)
Definition build_fuel (rules : list Rule) : nat := S (sum_list_with (λ r, length (r_key r)) rules).

Definition build_trie (b : TrieBuilder) : mem BlocklistTrie :=
  let rules := stable_sort (bd_rules b) in
  ly ← build_loop (build_fuel rules) [mkWork 0 rules 0] (mkLayout [fresh_node 0 0] [] ∅);
  Ok (mkTrie (ly_nodes ly) (ly_labels ly) (bd_sources b)
        (zlen (filter (λ n, t_flags n ≠ 0%Z) (ly_nodes ly)))).

(** ** Lookup *)

Definition label_of (t : BlocklistTrie) (n : TrieNode) : list Z :=
  take (Z.to_nat (t_label_length n)) (drop (Z.to_nat (t_label_offset n)) (t_labels t)).

(** [compare_labels(a, b) < 0]. *)
Definition label_lt (a b : list Z) : bool :=
  if decide (length a = length b) then bytes_lt a b else (length a <? length b)%nat.

(** [std::lower_bound] over [nodes_[first, first + len)]; the length halves,
    so it bounds the turns. *)
Fixpoint lower_bound (fuel : nat) (t : BlocklistTrie) (label : list Z) (first len : nat) : mem nat :=
  if decide (len = 0) then Ok first else
  match fuel with
  | O => Fault OutOfFuel
  | S fuel =>
    let half := len / 2 in
    let mid := first + half in
    match t_nodes t !! mid with
    | None => Fault OutOfBounds
    | Some n =>
      if label_lt (label_of t n) label then lower_bound fuel t label (mid + 1) (len - half - 1)
      else lower_bound fuel t label first half
    end
  end.

Definition child (t : BlocklistTrie) (parent : TrieNode) (label : list Z) : mem (option TrieNode) :=
  let first := Z.to_nat (t_first_child parent) in
  let count := Z.to_nat (t_child_count parent) in
  it ← lower_bound count t label first count;
  if decide (it = first + count) then Ok None else
  match t_nodes t !! it with
  | None => Fault OutOfBounds
  | Some n => Ok (if decide (label_of t n = label) then Some n else None)
  end.

(** What [lookup] has seen on the way down. *)
Record Seen := mkSeen { se_block : option (nat * Z); se_allow : option (nat * Z) }.

Definition see (n : TrieNode) (depth : nat) (whole_name : bool) (s : Seen) : Seen :=
  mkSeen
    (if has (t_flags n) kBlockSubtree || (whole_name && has (t_flags n) kBlockExact)
     then Some (depth, t_block_source n) else se_block s)
    (if has (t_flags n) kAllowSubtree || (whole_name && has (t_flags n) kAllowExact)
     then Some (depth, t_allow_source n) else se_allow s).

(** The walk; [path] are the labels left, from the top level down. *)
Fixpoint walk (t : BlocklistTrie) (n : TrieNode) (depth : nat) (path : list (list Z)) (s : Seen) : mem Seen :=
  let s := see n depth (bool_decide (path = [])) s in
  match path with
  | [] => Ok s
  | l :: path =>
    next ← child t n l;
    match next with
    | None => Ok s
    | Some n => walk t n (S depth) path s
    end
  end.

(** [sources_.at(i)] throws when there is no such source. *)
Definition source_at (t : BlocklistTrie) (i : Z) : mem (list Z) :=
  match t_sources t !! Z.to_nat i with Some s => Ok s | None => Fault OutOfBounds end.

(** The rule's name: the last [depth] labels of the domain. *)
Definition rule_name (domain : Name) (depth : nat) : list Z :=
  to_string (fold_left append_label (drop (length (labels domain) - depth) (labels domain)) root_name).

Definition trie_lookup (t : BlocklistTrie) (domain : Name) : mem TrieLookupResult :=
  match t_nodes t with
  | [] => Ok no_match
  | root :: _ =>
    s ← walk t root 0 (reverse (labels domain)) (mkSeen None None);
    match se_allow s, se_block s with
    | Some (depth, source), _ =>
      src ← source_at t source; Ok (mkMatch true Allow (rule_name domain depth) src)
    | None, Some (depth, source) =>
      src ← source_at t source; Ok (mkMatch true Block (rule_name domain depth) src)
    | None, None => Ok no_match
    end
  end.
