(* ===== verification/TrieProofs.v ===== *)
(** * The blocklist trie: proofs

    [Trie] holds the definitions.  This file proves that building never
    faults, that the array it lays out represents the rules, and that
    [trie_lookup] on it is the reference lookup over the plain rule list. *)

From stdpp Require Import base tactics numbers list gmap strings sorting.
From Stdlib Require Import ZArith Lia.
From S2P Require Import Prelude Names Wire Builder Roundtrip Acl Blocklist Trie.

(** ** The order of byte strings *)

Lemma bytes_lt_irrefl a : bytes_lt a a = false.
Proof. induction a as [|x a IH]; cbn; [done|]. rewrite IH, Z.ltb_irrefl, andb_false_r. done. Qed.

Lemma bytes_lt_spec x a y b :
  bytes_lt (x :: a) (y :: b) = true ↔ (x < y)%Z ∨ (x = y ∧ bytes_lt a b = true).
Proof. cbn. rewrite orb_true_iff, andb_true_iff, Z.ltb_lt, Z.eqb_eq. done. Qed.

Lemma bytes_lt_trans a : ∀ b c, bytes_lt a b = true → bytes_lt b c = true → bytes_lt a c = true.
Proof.
  induction a as [|x a IH]; intros [|y b] [|z c]; try done. rewrite !bytes_lt_spec.
  intros [?|[-> ?]] [?|[-> ?]]; [left; lia|left; lia|left; lia|right]. split; [done|by eapply IH].
Qed.

Lemma bytes_lt_total a : ∀ b, bytes_lt a b = false → bytes_lt b a = false → a = b.
Proof.
  induction a as [|x a IH]; intros [|y b]; try done. rewrite <-!not_true_iff_false, !bytes_lt_spec.
  intros H1 H2. assert (x = y) as <- by lia. f_equal. apply IH; apply not_true_iff_false; intros E;
    [apply H1|apply H2]; auto.
Qed.

(** Between two strings with a common prefix, every string has it. *)
Lemma prefix_between p : ∀ a b y,
  bytes_lt y (p ++ a) = false → bytes_lt (p ++ b) y = false → p `prefix_of` y.
Proof.
  induction p as [|x p IH]; intros a b y; [intros; apply prefix_nil|].
  destruct y as [|c y]; [done|]. rewrite <-!app_comm_cons, <-!not_true_iff_false, !bytes_lt_spec. intros H1 H2.
  assert (c = x) as -> by lia. apply prefix_cons. apply (IH a b); apply not_true_iff_false; intros E;
    [apply H1|apply H2]; auto.
Qed.

Lemma bytes_lt_app_l p a b : bytes_lt (p ++ a) (p ++ b) = bytes_lt a b.
Proof. induction p as [|x p IH]; cbn; [done|]. by rewrite Z.ltb_irrefl, Z.eqb_refl. Qed.

Lemma bytes_lt_app_neq a : ∀ b s t, length a = length b → a ≠ b → bytes_lt (a ++ s) (b ++ t) = bytes_lt a b.
Proof.
  induction a as [|x a IH]; intros [|y b] s t Hl Hne; try done. cbn.
  destruct (Z.eqb_spec x y) as [->|]; [|by rewrite !andb_false_l].
  cbn. f_equal. apply IH; [by injection Hl|congruence].
Qed.

(** ** Length-prefixed keys *)

Lemma suffix_key_app a b : suffix_key (a ++ b) = suffix_key a ++ suffix_key b.
Proof. unfold suffix_key. by rewrite map_app, concat_app. Qed.

Lemma suffix_key_cons l t : label_wf l → suffix_key (l :: t) = (zlen l :: l) ++ suffix_key t.
Proof.
  intros [_ Hl]. unfold suffix_key. cbn [map concat]. rewrite u8_id; [done|].
  unfold is_byte, zlen, kMaxLabelLength in *. lia.
Qed.

Lemma suffix_key_prefix p : ∀ q, Forall label_wf p → Forall label_wf q →
  suffix_key p `prefix_of` suffix_key q → p `prefix_of` q.
Proof.
  induction p as [|l p IH]; intros q Hp Hq Hpre; [apply prefix_nil|]. inv Hp.
  rewrite suffix_key_cons in Hpre by done. destruct q as [|m q]; [by apply prefix_nil_inv in Hpre|]. inv Hq.
  rewrite suffix_key_cons in Hpre by done. rewrite <-!app_comm_cons in Hpre.
  pose proof (prefix_cons_inv_1 _ _ _ _ Hpre) as Hlen. apply prefix_cons_inv_2 in Hpre.
  destruct Hpre as [k Hk]. rewrite <-app_assoc in Hk.
  apply app_inj_1 in Hk as [-> Hk]; [|unfold zlen in Hlen; lia].
  apply prefix_cons. apply IH; [done|done|by exists k].
Qed.

Lemma suffix_key_prefix_iff p q : Forall label_wf p → Forall label_wf q →
  suffix_key p `prefix_of` suffix_key q ↔ p `prefix_of` q.
Proof.
  intros Hp Hq. split; [by apply suffix_key_prefix|]. intros [k ->]. rewrite suffix_key_app. by eexists.
Qed.

(** The order of keys that differ in their first label is the order of the labels. *)
Lemma key_label_lt l m s t : label_wf l → label_wf m → l ≠ m →
  bytes_lt (suffix_key (l :: s)) (suffix_key (m :: t)) = label_lt l m.
Proof.
  intros Hl Hm Hne. rewrite !suffix_key_cons by done. unfold label_lt. cbn [app bytes_lt]. unfold zlen.
  destruct (decide (length l = length m)) as [E|E].
  - rewrite E, Z.ltb_irrefl, Z.eqb_refl. cbn. by apply bytes_lt_app_neq.
  - rewrite (proj2 (Z.eqb_neq _ _)) by lia. rewrite andb_false_l, orb_false_r.
    destruct (Nat.ltb_spec (length l) (length m)); [apply Z.ltb_lt|apply Z.ltb_ge]; lia.
Qed.

Lemma label_lt_trans a b c : label_lt a b = true → label_lt b c = true → label_lt a c = true.
Proof.
  unfold label_lt. repeat case_decide; rewrite ?Nat.ltb_lt; try lia. apply bytes_lt_trans.
Qed.

Lemma label_lt_irrefl a : label_lt a a = false.
Proof. unfold label_lt. rewrite decide_True by done. apply bytes_lt_irrefl. Qed.

(** ** Sorting *)

Definition key_le (r s : Rule) : Prop := bytes_lt (r_key s) (r_key r) = false.
Abbreviation sorted := (StronglySorted key_le).

Lemma key_le_trans r s t : key_le r s → key_le s t → key_le r t.
Proof.
  unfold key_le. intros H1 H2. destruct (bytes_lt (r_key t) (r_key r)) eqn:E; [|done].
  destruct (bytes_lt (r_key r) (r_key s)) eqn:E2.
  - rewrite (bytes_lt_trans _ _ _ E E2) in H2. done.
  - rewrite (bytes_lt_total _ _ E2 H1) in E. congruence.
Qed.

Lemma insert_rule_perm r rs : insert_rule r rs ≡ₚ r :: rs.
Proof.
  induction rs as [|s rs IH]; cbn; [done|]. destruct (bytes_lt _ _); [|done]. rewrite IH. constructor.
Qed.

Lemma stable_sort_perm rs : stable_sort rs ≡ₚ rs.
Proof. induction rs as [|r rs IH]; cbn; [done|]. rewrite insert_rule_perm. by constructor. Qed.

Lemma insert_rule_sorted r rs : sorted rs → sorted (insert_rule r rs).
Proof.
  induction 1 as [|s rs Hs IH Hall]; cbn; [repeat constructor|]. destruct (bytes_lt (r_key s) (r_key r)) eqn:E.
  - constructor; [done|]. rewrite insert_rule_perm. constructor; [|done]. unfold key_le.
    destruct (bytes_lt (r_key r) (r_key s)) eqn:E2; [|done].
    pose proof (bytes_lt_trans _ _ _ E E2) as H. by rewrite bytes_lt_irrefl in H.
  - constructor; [by constructor|]. constructor; [done|]. eapply Forall_impl; [exact Hall|].
    intros x Hx. by eapply key_le_trans.
Qed.

Lemma stable_sort_sorted rs : sorted (stable_sort rs).
Proof. induction rs as [|r rs IH]; cbn; [constructor|by apply insert_rule_sorted]. Qed.

(** Rules with the same key stay in the order they were added. *)
Lemma stable_sort_stable k rs :
  filter (λ r, r_key r = k) (stable_sort rs) = filter (λ r, r_key r = k) rs.
Proof.
  induction rs as [|r rs IH]; [done|]. cbn [stable_sort foldr]. fold (stable_sort rs).
  rewrite filter_cons, <-IH. generalize (stable_sort rs). clear IH rs. intros rs.
  destruct (decide (r_key r = k)) as [Hk|Hk].
  - induction rs as [|s rs IH]; cbn [insert_rule].
    + by rewrite filter_cons_True.
    + destruct (bytes_lt (r_key s) (r_key r)) eqn:E; [|by rewrite filter_cons_True].
      assert (r_key s ≠ k) by (intros E2; rewrite E2, Hk, bytes_lt_irrefl in E; done).
      rewrite !(filter_cons_False _ s) by done. done.
  - induction rs as [|s rs IH]; cbn [insert_rule].
    + by rewrite filter_cons_False.
    + destruct (bytes_lt (r_key s) (r_key r)); [|by rewrite (filter_cons_False _ r)].
      rewrite !filter_cons. by rewrite IH.
Qed.

(** ** The rules under one node *)

Lemma prefix_lt k x : k `prefix_of` x → x ≠ k → bytes_lt k x = true.
Proof.
  intros [s ->] Hne. destruct s as [|c s]; [by rewrite app_nil_r in Hne|].
  rewrite <-(app_nil_r k) at 1. by rewrite bytes_lt_app_l.
Qed.

Lemma prefix_same_length {A} (k x : list A) : k `prefix_of` x → length x = length k → x = k.
Proof. intros [s ->] Hl. rewrite length_app in Hl. destruct s; [by rewrite app_nil_r|simpl in Hl; lia]. Qed.

Lemma absorb_spec k rs : ∀ n, sorted rs → Forall (λ r, k `prefix_of` r_key r) rs →
  absorb (length k) n rs =
    (fold_left absorb_rule (filter (λ r, r_key r = k) rs) n, filter (λ r, r_key r ≠ k) rs).
Proof.
  induction rs as [|r rs IH]; intros n Hs Hp; [done|]. inv Hs. inv Hp. cbn [absorb]. rewrite !filter_cons.
  destruct (decide (r_key r = k)) as [Hk|Hk].
  - rewrite decide_True by congruence. rewrite (decide_False (P := r_key r ≠ k)) by tauto. by apply IH.
  - rewrite decide_False by (intros E; apply Hk; by apply prefix_same_length). rewrite decide_True by done.
    assert (Hnone : ∀ s, s ∈ rs → r_key s ≠ k).
    { intros s Hin E. rename select (Forall (key_le r) rs) into Hle. rewrite Forall_forall in Hle.
      specialize (Hle s Hin). unfold key_le in Hle. rewrite E, prefix_lt in Hle; done. }
    rewrite (filter_drop _ rs), (filter_keep _ rs); [done|apply Forall_forall; auto|].
    apply Forall_forall. auto.
Qed.

Lemma same_piece_split o piece rs g rest : same_piece o piece rs = (g, rest) →
  rs = g ++ rest ∧ Forall (λ r, take (length piece) (drop o (r_key r)) = piece) g ∧
  ∀ h, head rest = Some h → take (length piece) (drop o (r_key h)) ≠ piece.
Proof.
  revert g rest. induction rs as [|r rs IH]; intros g rest; cbn [same_piece]; [by intros [= <- <-]|].
  case_decide as E.
  - destruct (same_piece o piece rs) as [g' rest']. intros [= <- <-]. destruct (IH g' rest' eq_refl) as (-> & ? & ?).
    split_and!; [done|by constructor|done].
  - intros [= <- <-]. split_and!; [done|constructor|]. by intros h [= <-].
Qed.

Lemma piece_prefix (k piece x : list Z) : k `prefix_of` x →
  take (length piece) (drop (length k) x) = piece ↔ (k ++ piece) `prefix_of` x.
Proof.
  intros [s ->]. rewrite drop_app_length. split.
  - intros H. exists (drop (length piece) s). rewrite <-app_assoc. f_equal. rewrite <-H at 1. by rewrite take_drop.
  - intros [t Ht]. rewrite <-app_assoc in Ht. apply app_inv_head in Ht as ->. apply take_app_length.
Qed.

(** A run that agrees with the first rule is everything that agrees with it. *)
Lemma same_piece_filter k piece r rs g rest :
  sorted (r :: rs) → Forall (λ r, k `prefix_of` r_key r) (r :: rs) → (k ++ piece) `prefix_of` r_key r →
  same_piece (length k) piece rs = (g, rest) →
  r :: g = filter (λ s, (k ++ piece) `prefix_of` r_key s) (r :: rs) ∧
  rest = filter (λ s, ¬ (k ++ piece) `prefix_of` r_key s) (r :: rs).
Proof.
  intros Hs Hp Hr (-> & Hg & Hh)%same_piece_split. inv Hs. inv Hp.
  rename select (Forall (key_le r) _) into Hle. rename select (Forall _ (g ++ rest)) into Hp.
  rename select (sorted (g ++ rest)) into Hsort.
  apply Forall_app in Hp as [Hpg Hpr]. apply Forall_app in Hle as [_ Hle].
  assert (Hgp : Forall (λ s, (k ++ piece) `prefix_of` r_key s) g).
  { rewrite Forall_forall in *. intros s Hin. apply piece_prefix; auto. }
  assert (Hrp : Forall (λ s, ¬ (k ++ piece) `prefix_of` r_key s) rest).
  { destruct rest as [|h rest]; [constructor|].
    assert (Hnh : ¬ (k ++ piece) `prefix_of` r_key h).
    { inv Hpr. intros E. apply (Hh h eq_refl). by apply piece_prefix. }
    constructor; [done|]. apply Forall_forall. intros s Hin Hsp. apply Hnh.
    apply StronglySorted_app_1_r in Hsort. inv Hsort. inv Hle. destruct Hr as [a Ha], Hsp as [b Hb].
    apply (prefix_between _ a b); [rewrite <-Ha; done|]. rewrite <-Hb.
    rename select (Forall (key_le h) rest) into Hlh. rewrite Forall_forall in Hlh. by apply Hlh. }
  rewrite !filter_cons, decide_True by done. rewrite decide_False by tauto. rewrite !filter_app.
  rewrite (filter_keep _ g), (filter_drop _ rest) by done.
  rewrite (filter_drop _ g), (filter_keep _ rest); [by rewrite app_nil_r|done|].
  eapply Forall_impl; [exact Hgp|]. tauto.
Qed.

(** ** Children of a node *)

Record Child := mkChild { c_label : list Z; c_group : list Rule; c_off : Z }.

Definition piece (l : list Z) : list Z := zlen l :: l.

(** A rule at or below the label [l] under the key [k]. *)
Definition below (k l : list Z) (r : Rule) : Prop := (k ++ piece l) `prefix_of` r_key r.
Global Instance below_dec k l r : Decision (below k l r).
Proof. unfold below. apply _. Defined.

(** A rule strictly below the key [k]. *)
Definition under (k : list Z) (r : Rule) : Prop :=
  ∃ l t, label_wf l ∧ Forall label_wf t ∧ r_key r = k ++ suffix_key (l :: t).

(** The label's text is stored at [off]. *)
Definition text_at (labels : list Z) (off : Z) (l : list Z) : Prop :=
  (0 ≤ off)%Z ∧ take (length l) (drop (Z.to_nat off) labels) = l ∧ Z.to_nat off + length l ≤ length labels.

Definition interned_ok (ly : Layout) : Prop :=
  ∀ l off, ly_interned ly !! l = Some off → text_at (ly_labels ly) off l.

Definition weight (o : nat) (rs : list Rule) : nat := sum_list_with (λ r, length (r_key r) - o) rs.

Definition child_node (c : Child) : TrieNode := fresh_node (c_off c) (zlen (c_label c)).

Definition child_works (o base : nat) (cs : list Child) : list Work :=
  imap (λ i c, mkWork (base + i) (c_group c) (o + 1 + length (c_label c))) cs.

Record child_ok (k : list Z) (rs : list Rule) (labels : list Z) (c : Child) : Prop := {
  ck_wf : label_wf (c_label c);
  ck_some : c_group c ≠ [];
  ck_group : c_group c = filter (below k (c_label c)) rs;
  ck_text : text_at labels (c_off c) (c_label c);
}.

Lemma text_at_prefix labels labels' off l :
  labels `prefix_of` labels' → text_at labels off l → text_at labels' off l.
Proof.
  intros [s ->] (H0 & Ht & Hl). split_and!; [done| |rewrite length_app; lia].
  rewrite drop_app_le by lia. rewrite take_app_le; [done|]. rewrite length_drop. lia.
Qed.

Lemma label_lt_total a b : label_lt a b = false → label_lt b a = false → a = b.
Proof.
  unfold label_lt. repeat case_decide; rewrite ?Nat.ltb_ge; try lia; try done. apply bytes_lt_total.
Qed.

Lemma intern_spec ly l off ly' :
  interned_ok ly → (zlen (ly_labels ly) < 4294967296)%Z → intern ly l = (off, ly') →
  interned_ok ly' ∧ ly_nodes ly' = ly_nodes ly ∧ ly_labels ly `prefix_of` ly_labels ly' ∧
  text_at (ly_labels ly') off l ∧ length (ly_labels ly') ≤ length (ly_labels ly) + length l.
Proof.
  intros Hok Hsz. unfold intern. destruct (ly_interned ly !! l) as [o|] eqn:E.
  { intros [= <- <-]. split_and!; [done|done|done|by apply Hok|lia]. }
  intros [= <- <-]. cbn [ly_nodes ly_labels ly_interned].
  assert (u32 (zlen (ly_labels ly)) = zlen (ly_labels ly)) as ->.
  { unfold u32. apply Z.mod_small. pose proof (zlen_nonneg (ly_labels ly)). lia. }
  assert (Ht : text_at (ly_labels ly ++ l) (zlen (ly_labels ly)) l).
  { unfold text_at, zlen. rewrite Nat2Z.id, drop_app_length, length_app.
    split_and!; [lia|by rewrite firstn_all|lia]. }
  split_and!; [|done|by eexists|done|rewrite length_app; lia].
  intros l' o'. cbn [ly_interned ly_labels]. rewrite lookup_insert_Some. intros [[<- <-]|[_ H]]; [done|].
  eapply text_at_prefix; [by eexists|by apply Hok].
Qed.

Lemma piece_inj k l m x : label_wf l → label_wf m →
  (k ++ piece l) `prefix_of` x → (k ++ piece m) `prefix_of` x → l = m.
Proof.
  intros Hl Hm [s ->] [t Ht]. rewrite <-!app_assoc in Ht. apply app_inv_head in Ht. unfold piece in Ht.
  rewrite <-!app_comm_cons in Ht. injection Ht as Hz Ht. apply app_inj_1 in Ht as [? _]; [done|].
  unfold zlen in Hz. lia.
Qed.

Lemma under_piece k r l t : label_wf l → r_key r = k ++ suffix_key (l :: t) →
  (k ++ piece l) `prefix_of` r_key r.
Proof. intros Hl ->. rewrite suffix_key_cons by done. rewrite app_assoc. by eexists. Qed.

Lemma weight_group o n rs : Forall (λ r, o + n ≤ length (r_key r)) rs → rs ≠ [] →
  weight (o + n) rs + n ≤ weight o rs.
Proof.
  intros Hall Hne. destruct rs as [|r rs]; [done|]. inv Hall. unfold weight. cbn [sum_list_with].
  assert (sum_list_with (λ r, length (r_key r) - (o + n)) rs ≤ sum_list_with (λ r, length (r_key r) - o) rs).
  { clear. induction rs as [|r rs IH]; cbn [sum_list_with]; lia. }
  lia.
Qed.

Lemma weight_filter (P : Rule → Prop) `{!∀ r, Decision (P r)} o rs :
  weight o rs = weight o (filter P rs) + weight o (filter (λ r, ¬ P r) rs).
Proof.
  unfold weight. induction rs as [|r rs IH]; [done|]. cbn [sum_list_with]. rewrite !filter_cons.
  destruct (decide (P r)); [rewrite decide_False by tauto|rewrite decide_True by done]; cbn [sum_list_with]; lia.
Qed.

(** The first turn of [make_children], in terms of labels. *)
Lemma make_children_step k fuel r rs ly ch l t :
  sorted (r :: rs) → Forall (under k) (r :: rs) → label_wf l → r_key r = k ++ suffix_key (l :: t) →
  let group := filter (below k l) (r :: rs) in
  let rest := filter (λ s, ¬ below k l s) (r :: rs) in
  make_children (S fuel) (length k) (r :: rs) ly ch =
    let '(off, ly1) := intern ly l in
    make_children fuel (length k) rest
      (mkLayout (ly_nodes ly1 ++ [fresh_node off (zlen l)]) (ly_labels ly1) (ly_interned ly1))
      (ch ++ [mkWork (length (ly_nodes ly1)) group (length k + 1 + length l)]).
Proof.
  intros Hs Hu Hl Hr group rest. cbn [make_children].
  assert (Hkey : r_key r = k ++ piece l ++ suffix_key t) by (by rewrite Hr, suffix_key_cons).
  assert (Hbyte : byte_at (E:=Empty_set) (r_key r) (length k) = Ok (zlen l)).
  { unfold byte_at. rewrite Hkey, lookup_app_r, Nat.sub_diag by lia. done. }
  assert (Hlen : Z.to_nat (zlen l) = length l) by (unfold zlen; lia).
  assert (Hdrop : drop (length k) (r_key r) = piece l ++ suffix_key t) by (by rewrite Hkey, drop_app_length).
  assert (Hsub : subspan (E:=Empty_set) (r_key r) (length k + 1) (length l) = Ok l).
  { unfold subspan. rewrite decide_True by (rewrite Hkey, !length_app; unfold piece; cbn [length]; lia).
    f_equal. rewrite <-drop_drop, Hdrop. unfold piece. cbn [app drop]. by rewrite drop_0, take_app_length. }
  rewrite Hbyte, bind_Ok, Hlen, Hsub, bind_Ok, Hdrop.
  change (take (1 + length l) (piece l ++ suffix_key t)) with (take (length (piece l)) (piece l ++ suffix_key t)).
  rewrite take_app_length.
  destruct (same_piece (length k) (piece l) rs) as [g rest'] eqn:Hsp.
  destruct (same_piece_filter k (piece l) r rs g rest') as [Hg Hrest]; [done| | |done|].
  - eapply Forall_impl; [exact Hu|]. intros s (? & ? & _ & _ & ->). by eexists.
  - by eapply under_piece.
  - change (r :: g = group) in Hg. change (rest' = rest) in Hrest. subst rest'. rewrite <-Hg.
    by destruct (intern ly l).
Qed.

Definition label_order (a b : list Z) : Prop := label_lt a b = true.

Lemma sorted_filter (P : Rule → Prop) `{!∀ r, Decision (P r)} rs : sorted rs → sorted (filter P rs).
Proof.
  induction 1 as [|r rs Hs IH Hall]; [constructor|]. rewrite filter_cons. case_decide; [|done].
  constructor; [done|]. apply Forall_forall. intros s [_ Hin]%list_elem_of_filter.
  rewrite Forall_forall in Hall. by apply Hall.
Qed.

Lemma child_works_cons o base c cs :
  child_works o base (c :: cs) =
  mkWork base (c_group c) (o + 1 + length (c_label c)) :: child_works o (S base) cs.
Proof.
  unfold child_works. cbn [imap]. rewrite Nat.add_0_r. f_equal. apply imap_ext. intros i x _. cbn. f_equal. lia.
Qed.

Definition child_weights (o : nat) (cs : list Child) : nat :=
  sum_list_with (λ c, weight (o + (1 + length (c_label c))) (c_group c)) cs.

(** What [make_children] produces for the rules [rs] below [k]. *)
Record children_spec (k : list Z) (rs : list Rule) (ly ly' : Layout) (cs : list Child) : Prop := {
  cs_nodes : ly_nodes ly' = ly_nodes ly ++ map child_node cs;
  cs_interned : interned_ok ly';
  cs_labels : ly_labels ly `prefix_of` ly_labels ly';
  cs_ok : Forall (child_ok k rs (ly_labels ly')) cs;
  cs_sorted : StronglySorted label_order (map c_label cs);
  cs_all : ∀ r, r ∈ rs → ∃ c, c ∈ cs ∧ below k (c_label c) r;
  cs_weight : length cs + (length (ly_labels ly') - length (ly_labels ly)) + child_weights (length k) cs
              ≤ weight (length k) rs;
}.

Lemma children_spec_nil k ly : interned_ok ly → children_spec k [] ly ly [].
Proof.
  intros Hok. split; [by rewrite app_nil_r|done|done|constructor|constructor|by intros r ?%elem_of_nil|cbn; lia].
Qed.

(** The children made for the rules that are left: their labels come after the
    first one's, and they are children for all the rules. *)
Lemma rest_children k l t r rs labels cs :
  sorted (r :: rs) → Forall (under k) (r :: rs) → label_wf l → r_key r = k ++ suffix_key (l :: t) →
  Forall (child_ok k (filter (λ s, ¬ below k l s) (r :: rs)) labels) cs →
  Forall (λ c, label_order l (c_label c) ∧ child_ok k (r :: rs) labels c) cs.
Proof.
  intros Hs Hu Hl Hr Hc. assert (HPr : below k l r) by (by eapply under_piece).
  eapply Forall_impl; [exact Hc|]. intros c [Hwf Hsome Hg Htx].
  assert (Hex : ∃ s, s ∈ c_group c) by (destruct (c_group c) as [|s g]; [done|]; exists s; left).
  destruct Hex as [s Hin]. rewrite Hg in Hin. apply list_elem_of_filter in Hin as [Hsp [Hns Hsin]%list_elem_of_filter].
  assert (Hne : c_label c ≠ l) by (intros E; rewrite E in Hsp; by apply Hns).
  split.
  - rewrite Forall_forall in Hu. destruct (Hu s Hsin) as (m & t' & Hm & _ & Hk').
    assert (m = c_label c) as -> by (eapply piece_inj; [exact Hm|exact Hwf|by eapply under_piece|exact Hsp]).
    unfold label_order. destruct (label_lt l (c_label c)) eqn:Elt; [done|exfalso].
    apply elem_of_cons in Hsin as [-> |Hsin]; [done|]. inv Hs. rename select (Forall (key_le r) rs) into Hle.
    rewrite Forall_forall in Hle. specialize (Hle s Hsin). unfold key_le in Hle.
    rewrite Hk', Hr, bytes_lt_app_l, key_label_lt in Hle by done. apply Hne. by apply label_lt_total.
  - split; try done. rewrite Hg, list_filter_filter. apply list_filter_iff. intros s'. split; [tauto|].
    intros Hms. split; [done|]. intros Hls. apply Hne. by apply (piece_inj k (c_label c) l (r_key s')).
Qed.

Lemma make_children_spec k fuel : ∀ rs ly ch,
  length rs ≤ fuel → sorted rs → Forall (under k) rs → interned_ok ly →
  (zlen (ly_labels ly) + Z.of_nat (weight (length k) rs) < 4294967296)%Z →
  ∃ cs ly', make_children fuel (length k) rs ly ch
              = Ok (ly', ch ++ child_works (length k) (length (ly_nodes ly)) cs) ∧
            children_spec k rs ly ly' cs.
Proof.
  induction fuel as [|fuel IH]; intros rs ly ch Hf Hs Hu Hok Hsz.
  all: destruct rs as [|r rs]; [exists [], ly; split; [cbn; by rewrite app_nil_r|]|].
  1,3: by apply children_spec_nil.
  { simpl in Hf. lia. }
  pose proof Hu as Hu'. apply Forall_cons in Hu' as [(l & t & Hl & Ht & Hr) _].
  rewrite (make_children_step k fuel r rs ly ch l t) by done.
  set (group := filter (below k l) (r :: rs)). set (rest := filter (λ s, ¬ below k l s) (r :: rs)).
  assert (HPr : below k l r) by (by eapply under_piece).
  destruct (intern ly l) as [off ly1] eqn:Hi.
  destruct (intern_spec ly l off ly1 Hok) as (Hok1 & Hn1 & Hp1 & Ht1 & Hlen1); [lia|done|].
  set (c := mkChild l group off).
  assert (Hgw : weight (length k + (1 + length l)) group + (1 + length l) ≤ weight (length k) group).
  { apply weight_group; [|unfold group; by rewrite filter_cons_True]. apply Forall_forall.
    intros s [Hs' _]%list_elem_of_filter. apply prefix_length in Hs'. rewrite length_app in Hs'. unfold piece in Hs'.
    simpl in Hs'. lia. }
  assert (Hwf : weight (length k) (r :: rs) = weight (length k) group + weight (length k) rest)
    by apply weight_filter.
  destruct (IH rest (mkLayout (ly_nodes ly1 ++ [fresh_node off (zlen l)]) (ly_labels ly1) (ly_interned ly1))
    (ch ++ [mkWork (length (ly_nodes ly1)) group (length k + 1 + length l)])) as (cs & ly' & Hmk & Hspec).
  { unfold rest. rewrite filter_cons_False by tauto. etrans; [apply length_filter|]. simpl in Hf. lia. }
  { by apply sorted_filter. }
  { apply Forall_forall. intros s [_ Hin]%list_elem_of_filter. rewrite Forall_forall in Hu. by apply Hu. }
  { done. }
  { cbn [ly_labels]. unfold zlen in *. lia. }
  exists (c :: cs), ly'. rewrite child_works_cons, Hmk. cbn [ly_nodes]. rewrite Hn1, length_app, <-app_assoc.
  cbn [length]. rewrite (Nat.add_1_r (length (ly_nodes ly))). split; [done|]. destruct Hspec as [Hn Hi' Hp Hc Hso Hall Hw]. cbn [ly_nodes ly_labels] in *.
  pose proof (rest_children k l t r rs _ cs Hs Hu Hl Hr Hc) as Hcs. rewrite Forall_forall in Hcs. split.
  - rewrite Hn, Hn1. cbn [map]. rewrite <-app_assoc. done.
  - done.
  - by etrans.
  - constructor; [|apply Forall_forall; intros c' Hin; by apply Hcs].
    split; [done|change (group ≠ []); unfold group; by rewrite filter_cons_True|done|by eapply text_at_prefix].
  - constructor; [done|]. apply Forall_forall. intros m (c' & -> & Hin)%list_elem_of_fmap. by apply Hcs.
  - intros s Hin. destruct (decide (below k l s)) as [HP|HP]; [exists c; split; [left|done]|].
    destruct (Hall s) as (c' & Hc' & Hp'); [by apply list_elem_of_filter|]. exists c'. split; [by right|done].
  - unfold child_weights in *. cbn [sum_list_with length c_label c_group c]. apply prefix_length in Hp, Hp1. lia.
Qed.
