(* ===== verification/TrieBuild.v ===== *)
(** * The blocklist trie: the array [build] lays out

    The breadth-first loop keeps an invariant: a ghost list [keys] gives the
    key each node stands for; a node still in the queue is blank and its work
    holds the sorted rules at or below its key; every other node carries the
    flags and sources of the rules at its key and points to its children, in
    label order, one for each label some rule continues with.  A potential
    (nodes, label bytes and key bytes still to be placed) never grows, which
    bounds the loop and keeps every 32-bit index exact. *)

From stdpp Require Import base tactics numbers list gmap strings sorting.
From Stdlib Require Import ZArith Lia.
From S2P Require Import Prelude Names Wire Builder Roundtrip Acl Blocklist Trie TrieProofs.

Definition key_wf (k : list Z) : Prop := ∃ ls, Forall label_wf ls ∧ k = suffix_key ls.

Lemma key_wf_child k l : key_wf k → label_wf l → key_wf (k ++ piece l).
Proof.
  intros (ls & Hls & ->) Hl. exists (ls ++ [l]). split; [apply Forall_app; split; [done|by constructor]|].
  rewrite suffix_key_app, suffix_key_cons by done. by rewrite app_nil_r.
Qed.

Lemma key_wf_under k r : key_wf k → key_wf (r_key r) → k `prefix_of` r_key r → r_key r ≠ k → under k r.
Proof.
  intros (p & Hp & ->) (q & Hq & Hr) Hpre Hne. rewrite Hr in *.
  apply suffix_key_prefix in Hpre as [t ->]; [|done|done]. apply Forall_app in Hq as [_ Hq].
  destruct t as [|l t]; [by rewrite app_nil_r in Hne|]. inv Hq. exists l, t. rewrite <-suffix_key_app. done.
Qed.

(** ** What a finished node says *)

Section rules.
Context (R : list Rule).

(** The flags and sources of the rules at [k]. *)
Definition summary (k : list Z) : TrieNode := fold_left absorb_rule (filter (λ r, r_key r = k) R) (fresh_node 0 0).

Record summarises (k : list Z) (n : TrieNode) : Prop := {
  su_flags : t_flags n = t_flags (summary k);
  su_block : t_block_source n = t_block_source (summary k);
  su_allow : t_allow_source n = t_allow_source (summary k);
}.

(** The node at [i] stands for [k] and carries the label [l]. *)
Definition labelled (nodes : list TrieNode) (labels : list Z) (i : nat) (l : list Z) : Prop :=
  ∃ n, nodes !! i = Some n ∧ t_label_length n = zlen l ∧ text_at labels (t_label_offset n) l.

Record finished (nodes : list TrieNode) (labels : list Z) (keys : list (list Z)) (k : list Z) (n : TrieNode)
    (first : nat) (ls : list (list Z)) : Prop := {
  fi_summary : summarises k n;
  fi_first : t_first_child n = Z.of_nat first;
  fi_count : t_child_count n = zlen ls;
  fi_sorted : StronglySorted label_order ls;
  fi_child : ∀ i l, ls !! i = Some l →
    label_wf l ∧ keys !! (first + i) = Some (k ++ piece l) ∧ labelled nodes labels (first + i) l;
  fi_all : ∀ r, r ∈ R → under k r → ∃ l, l ∈ ls ∧ below k l r;
}.

(** ** The loop invariant *)

Record work_ok (nodes : list TrieNode) (keys : list (list Z)) (w : Work) : Prop := {
  wo_key : ∃ k, keys !! wk_node w = Some k ∧ key_wf k ∧ wk_offset w = length k ∧
                wk_rules w = filter (λ r, k `prefix_of` r_key r) R;
  wo_fresh : ∃ n off len, nodes !! wk_node w = Some n ∧ n = fresh_node off len;
}.

Definition work_weight (w : Work) : nat := weight (wk_offset w) (wk_rules w).
Definition queue_weight (q : list Work) : nat := sum_list_with work_weight q.

Record build_inv (budget : nat) (queue : list Work) (ly : Layout) (keys : list (list Z)) : Prop := {
  bi_length : length keys = length (ly_nodes ly);
  bi_root : keys !! 0 = Some [];
  bi_interned : interned_ok ly;
  bi_works : Forall (work_ok (ly_nodes ly) keys) queue;
  bi_nodup : NoDup (map wk_node queue);
  bi_done : ∀ i n k, i ∉ map wk_node queue → ly_nodes ly !! i = Some n → keys !! i = Some k →
    key_wf k ∧ ∃ first ls, finished (ly_nodes ly) (ly_labels ly) keys k n first ls;
  bi_budget : length (ly_nodes ly) + length (ly_labels ly) + queue_weight queue ≤ budget;
}.

Context (HS : sorted R) (HR : ∀ r, r ∈ R → key_wf (r_key r)).

(** ** One turn of the loop *)

Lemma labelled_mono nodes nodes' labels labels' i l :
  labels `prefix_of` labels' →
  (∀ n, nodes !! i = Some n → ∃ n', nodes' !! i = Some n' ∧ t_label_length n' = t_label_length n ∧
                              t_label_offset n' = t_label_offset n) →
  labelled nodes labels i l → labelled nodes' labels' i l.
Proof.
  intros Hp Hn (n & Hi & Hl & Ht). destruct (Hn n Hi) as (n' & Hi' & El & Eo). exists n'.
  rewrite El, Eo. split_and!; [done|done|]. by eapply text_at_prefix.
Qed.

Lemma fold_absorb_label rs : ∀ n,
  t_label_offset (fold_left absorb_rule rs n) = t_label_offset n ∧
  t_label_length (fold_left absorb_rule rs n) = t_label_length n.
Proof. induction rs as [|r rs IH]; intros n; [done|]. cbn [fold_left]. destruct (IH (absorb_rule n r)) as [-> ->]. done. Qed.

(** The summary does not depend on the label. *)
Lemma fold_absorb_summary rs : ∀ n m,
  t_flags n = t_flags m → t_block_source n = t_block_source m → t_allow_source n = t_allow_source m →
  t_flags (fold_left absorb_rule rs n) = t_flags (fold_left absorb_rule rs m) ∧
  t_block_source (fold_left absorb_rule rs n) = t_block_source (fold_left absorb_rule rs m) ∧
  t_allow_source (fold_left absorb_rule rs n) = t_allow_source (fold_left absorb_rule rs m).
Proof.
  induction rs as [|r rs IH]; intros n m Hf Hb Ha; [done|]. cbn [fold_left].
  apply IH; unfold absorb_rule; cbn; by rewrite ?Hf, ?Hb, ?Ha.
Qed.

Lemma filter_at_prefix k :
  filter (λ r, r_key r = k) (filter (λ r, k `prefix_of` r_key r) R) = filter (λ r, r_key r = k) R.
Proof. rewrite list_filter_filter. apply list_filter_iff. intros r. split; [tauto|]. by intros <-. Qed.

(** The rules that remain at a node after the ones at its key. *)
Definition rest_of (k : list Z) : list Rule := filter (λ r, r_key r ≠ k) (filter (λ r, k `prefix_of` r_key r) R).

Lemma rest_of_under k : key_wf k → Forall (under k) (rest_of k).
Proof.
  intros Hk. apply Forall_forall. intros r [Hne [Hp Hin]%list_elem_of_filter]%list_elem_of_filter.
  apply key_wf_under; auto.
Qed.

Lemma under_rest_of k r : r ∈ R → under k r → r ∈ rest_of k.
Proof.
  intros Hin (l & t & Hl & _ & Hk). unfold rest_of. rewrite !list_elem_of_filter, Hk.
  split_and!; [|by eexists|done]. rewrite suffix_key_cons by done. intros E. apply (f_equal length) in E.
  rewrite !length_app in E. simpl in E. lia.
Qed.

Lemma child_group k l : filter (below k l) (rest_of k) = filter (λ r, (k ++ piece l) `prefix_of` r_key r) R.
Proof.
  unfold rest_of. rewrite !list_filter_filter. apply list_filter_iff. intros r. unfold below. split; [tauto|].
  intros [t Ht]. rewrite Ht. split; [|rewrite <-app_assoc; by eexists]. split; [by eexists|].
  intros E. apply (f_equal length) in E. rewrite !length_app in E. unfold piece in E. simpl in E. lia.
Qed.

(** *** The children's works *)

Lemma queue_weight_app q1 q2 : queue_weight (q1 ++ q2) = queue_weight q1 + queue_weight q2.
Proof. apply sum_list_with_app. Qed.

Lemma child_works_weight o base cs : queue_weight (child_works o base cs) = child_weights o cs.
Proof.
  revert base. induction cs as [|c cs IH]; intros base; [done|]. rewrite child_works_cons.
  unfold queue_weight, child_weights in *. cbn [sum_list_with]. rewrite IH. unfold work_weight. cbn [wk_offset wk_rules]. by rewrite <-Nat.add_assoc.
Qed.

Lemma child_works_nodes o base cs : map wk_node (child_works o base cs) = seq base (length cs).
Proof.
  revert base. induction cs as [|c cs IH]; intros base; [done|]. rewrite child_works_cons. cbn. by rewrite IH.
Qed.

Lemma child_works_elem o base cs w : w ∈ child_works o base cs →
  ∃ i c, cs !! i = Some c ∧ w = mkWork (base + i) (c_group c) (o + 1 + length (c_label c)).
Proof.
  intros (i & Hi)%list_elem_of_lookup. unfold child_works in Hi. rewrite list_lookup_imap in Hi.
  destruct (cs !! i) as [c|] eqn:E; [|done]. cbn in Hi. injection Hi as <-. eauto.
Qed.

(** *** Growing the array *)

(** [nodes'] has the nodes of [nodes], with their labels. *)
Definition keeps_labels (nodes nodes' : list TrieNode) : Prop :=
  ∀ i n, nodes !! i = Some n → ∃ n', nodes' !! i = Some n' ∧ t_label_length n' = t_label_length n ∧
                                   t_label_offset n' = t_label_offset n.

Lemma insert_keeps_labels nodes new j n n' :
  nodes !! j = Some n → t_label_length n' = t_label_length n → t_label_offset n' = t_label_offset n →
  keeps_labels nodes (<[j := n']> (nodes ++ new)).
Proof.
  intros Hj El Eo i m Hi. pose proof (lookup_lt_Some _ _ _ Hj). destruct (decide (i = j)) as [-> |Hne].
  - exists n'. rewrite list_lookup_insert_eq by (rewrite length_app; lia). by simplify_eq.
  - exists m. rewrite list_lookup_insert_ne by done. rewrite lookup_app_l by (by eapply lookup_lt_Some). done.
Qed.

Lemma finished_grow nodes nodes' labels labels' keys keys' k n first ls :
  keeps_labels nodes nodes' → labels `prefix_of` labels' → keys `prefix_of` keys' →
  finished nodes labels keys k n first ls → finished nodes' labels' keys' k n first ls.
Proof.
  intros Hn Hl Hk [Hsu Hf Hc Hs Hch Hall]. split; try done. intros i l Hi. destruct (Hch i l Hi) as (? & Hkey & Hlab).
  split_and!; [done|by eapply prefix_lookup_Some|]. by eapply labelled_mono; [|apply Hn|].
Qed.

(** The queue is served in order, so a new node waits behind the old ones. *)
Definition new_keys (k : list Z) (cs : list Child) : list (list Z) := map (λ c, k ++ piece (c_label c)) cs.

(** The node whose work was just done. *)
Lemma process_finished k n off len ly ly1 cs keys j nodes' :
  length keys = length (ly_nodes ly) → children_spec k (rest_of k) ly ly1 cs →
  ly_nodes ly !! j = Some n → n = fresh_node off len →
  (Z.of_nat (length (ly_nodes ly) + length cs) < 4294967296)%Z →
  let n1 := fold_left absorb_rule (filter (λ r, r_key r = k) R) n in
  let n2 := set_children n1 (u32 (Z.of_nat (length (ly_nodes ly)))) (u32 (zlen cs)) in
  nodes' = <[j := n2]> (ly_nodes ly1) →
  finished nodes' (ly_labels ly1) (keys ++ new_keys k cs) k n2 (length (ly_nodes ly)) (map c_label cs).
Proof.
  intros Hlen [Hnodes Hint Hpre Hok Hso Hall Hwt] Hj Hfresh Hsz n1 n2 Hnodes'. split.
  - destruct (fold_absorb_summary (filter (λ r, r_key r = k) R) n (fresh_node 0 0)) as (? & ? & ?);
      [by rewrite Hfresh..|]. by split.
  - cbn. unfold u32. rewrite Z.mod_small; lia.
  - cbn. unfold u32, zlen. rewrite length_map, Z.mod_small; lia.
  - done.
  - intros i l Hi. apply list_lookup_fmap_Some in Hi as (c & -> & Hi). rewrite Forall_lookup in Hok.
    destruct (Hok i c Hi) as [Hwf _ _ Htx]. split; [done|].
    assert (Hkl : (keys ++ new_keys k cs) !! (length (ly_nodes ly) + i) = Some (k ++ piece (c_label c))).
    { rewrite lookup_app_r, Hlen by lia. replace (_ + i - _) with i by lia. unfold new_keys.
      by rewrite list_lookup_fmap, Hi. }
    split; [done|]. exists (child_node c). apply lookup_lt_Some in Hj. rewrite Hnodes', list_lookup_insert_ne by lia.
    rewrite Hnodes, lookup_app_r by lia. replace (_ + i - _) with i by lia. rewrite list_lookup_fmap, Hi. done.
  - intros r Hin Hu. destruct (Hall r) as (c & Hc & Hb); [by apply under_rest_of|].
    exists (c_label c). split; [by apply list_elem_of_fmap_2|done].
Qed.

(** The works of the new nodes. *)
Lemma process_works k ly ly1 cs keys j n2 :
  length keys = length (ly_nodes ly) → key_wf k → children_spec k (rest_of k) ly ly1 cs →
  j < length (ly_nodes ly) →
  Forall (work_ok (<[j := n2]> (ly_nodes ly1)) (keys ++ new_keys k cs))
    (child_works (length k) (length (ly_nodes ly)) cs).
Proof.
  intros Hlen Hk [Hnodes Hint Hpre Hok Hso Hall Hwt] Hj. apply Forall_forall.
  intros w (i & c & Hi & ->)%child_works_elem. rewrite Forall_lookup in Hok.
  destruct (Hok i c Hi) as [Hwf _ Hg _]. split; cbn [wk_node wk_rules wk_offset].
  - exists (k ++ piece (c_label c)). split_and!.
    + rewrite lookup_app_r, Hlen by lia. replace (_ + i - _) with i by lia. unfold new_keys.
      by rewrite list_lookup_fmap, Hi.
    + by apply key_wf_child.
    + rewrite length_app. unfold piece. cbn [length]. lia.
    + by rewrite Hg, child_group.
  - exists (child_node c), (c_off c), (zlen (c_label c)). split; [|done].
    rewrite list_lookup_insert_ne by lia. rewrite Hnodes, lookup_app_r by lia. replace (_ + i - _) with i by lia.
    by rewrite list_lookup_fmap, Hi.
Qed.

Lemma work_ok_grow nodes new keys keys' j n' w :
  wk_node w ≠ j → keys `prefix_of` keys' →
  work_ok nodes keys w → work_ok (<[j := n']> (nodes ++ new)) keys' w.
Proof.
  intros Hne Hp [(k & Hk & ?) (n & off & len & Hn & Hf)]. split.
  - exists k. split; [by eapply prefix_lookup_Some|done].
  - exists n, off, len. split; [|done]. rewrite list_lookup_insert_ne by done.
    by apply lookup_app_l_Some.
Qed.

(** The nodes that were done stay so, whatever is appended and whichever work is
    done. *)
Lemma done_grow w queue ly ly1 cs keys new n2 : length keys = length (ly_nodes ly) →
  (∀ i n k, i ∉ map wk_node (w :: queue) → ly_nodes ly !! i = Some n → keys !! i = Some k →
    key_wf k ∧ ∃ first ls, finished (ly_nodes ly) (ly_labels ly) keys k n first ls) →
  ly_nodes ly1 = ly_nodes ly ++ map child_node cs → ly_labels ly `prefix_of` ly_labels ly1 →
  keeps_labels (ly_nodes ly) (<[wk_node w := n2]> (ly_nodes ly1)) →
  ∀ i n k, i ≠ wk_node w → i ∉ map wk_node queue → i ∉ seq (length (ly_nodes ly)) (length cs) →
    <[wk_node w := n2]> (ly_nodes ly1) !! i = Some n → (keys ++ new) !! i = Some k →
    key_wf k ∧ ∃ first ls, finished (<[wk_node w := n2]> (ly_nodes ly1)) (ly_labels ly1) (keys ++ new) k n first ls.
Proof.
  intros Hlen Hdone Hnodes Hpre Hkeep i n k Hne Hnq Hns Hi Hki. rewrite list_lookup_insert_ne in Hi by done. rewrite elem_of_seq in Hns.
  assert (i < length (ly_nodes ly)) by (apply lookup_lt_Some in Hi; rewrite Hnodes, length_app, length_map in Hi; lia).
  rewrite Hnodes, lookup_app_l in Hi by done. rewrite lookup_app_l in Hki by lia.
  destruct (Hdone i n k) as (Hkw' & f & ls & Hfin); [cbn; by apply not_elem_of_cons|done|done|].
  split; [done|]. exists f, ls. eapply finished_grow; [done|done|by eexists|done].
Qed.

Lemma process_spec budget w queue ly keys :
  (Z.of_nat budget < 4294967296)%Z → build_inv budget (w :: queue) ly keys →
  ∃ ly' children keys', process w ly = Ok (ly', children) ∧ build_inv budget (queue ++ children) ly' keys' ∧
    length children + queue_weight children ≤ work_weight w.
Proof.
  intros Hb [Hlen Hroot Hint Hworks Hnd Hdone Hbud]. apply Forall_cons in Hworks as [Hw Hworks].
  destruct Hw as [(k & Hk & Hkw & Hoff & Hrules) (n & off & len & Hn & Hfresh)].
  pose proof (lookup_lt_Some _ _ _ Hn) as Hj.
  set (n1 := fold_left absorb_rule (filter (λ r, r_key r = k) R) n).
  assert (Habs : absorb (wk_offset w) n (wk_rules w) = (n1, rest_of k)).
  { rewrite Hoff, Hrules, absorb_spec, filter_at_prefix; [done|by apply sorted_filter|].
    apply Forall_forall. by intros r [? _]%list_elem_of_filter. }
  assert (Hww : weight (length k) (rest_of k) ≤ work_weight w).
  { unfold work_weight. rewrite Hoff, Hrules.
    rewrite (weight_filter (λ r, r_key r = k) _ (filter (λ r, k `prefix_of` r_key r) R)). unfold rest_of. lia. }
  cbn [queue_weight sum_list_with] in Hbud. fold (queue_weight queue) in Hbud.
  destruct (make_children_spec k (length (rest_of k)) (rest_of k) ly []) as (cs & ly1 & Hmk & Hcs).
  { done. } { by apply sorted_filter, sorted_filter. } { by apply rest_of_under. } { done. }
  { unfold zlen. lia. }
  pose proof Hcs as [Hnodes Hint1 Hpre Hok Hso Hall Hwt].
  set (n2 := set_children n1 (u32 (Z.of_nat (length (ly_nodes ly)))) (u32 (zlen cs))).
  exists (mkLayout (<[wk_node w := n2]> (ly_nodes ly1)) (ly_labels ly1) (ly_interned ly1)),
    (child_works (length k) (length (ly_nodes ly)) cs), (keys ++ new_keys k cs).
  assert (Hcl : length (child_works (length k) (length (ly_nodes ly)) cs) = length cs) by apply length_imap.
  split.
  { unfold process. rewrite Hn, Habs, Hoff, Hmk, bind_Ok. cbn [app]. unfold n2, zlen. by rewrite Hcl. }
  rewrite child_works_weight, Hcl. split; [|lia].
  assert (Hkeep : keeps_labels (ly_nodes ly) (<[wk_node w := n2]> (ly_nodes ly1))).
  { rewrite Hnodes. destruct (fold_absorb_label (filter (λ r, r_key r = k) R) n).
    by eapply insert_keeps_labels. }
  apply NoDup_cons in Hnd as [Hnotin Hnd]. split; cbn [ly_nodes ly_labels ly_interned].
  - rewrite length_insert, Hnodes, !length_app, Hlen. unfold new_keys. by rewrite !length_map.
  - by apply lookup_app_l_Some.
  - done.
  - apply Forall_app. split; [|by apply process_works]. rewrite Forall_forall in *. intros w' Hin. rewrite Hnodes.
    apply (work_ok_grow _ _ keys); [|by eexists|by apply Hworks]. intros E. apply Hnotin. rewrite <-E.
    by apply list_elem_of_fmap_2.
  - rewrite map_app, child_works_nodes. apply NoDup_app. split_and!; [done| |apply NoDup_seq].
    intros i Hin Hseq%elem_of_seq. apply list_elem_of_fmap in Hin as (w' & -> & Hin).
    rewrite Forall_forall in Hworks. destruct (Hworks w' Hin) as [_ (m & ? & ? & Hm & _)].
    apply lookup_lt_Some in Hm. lia.
  - intros i m key Hni Hi Hki. rewrite map_app, not_elem_of_app, child_works_nodes in Hni.
    destruct Hni as [Hnq Hns]. destruct (decide (i = wk_node w)) as [-> |Hne].
    + rewrite list_lookup_insert_eq in Hi by (rewrite Hnodes, length_app; lia). injection Hi as <-.
      rewrite (lookup_app_l_Some _ _ _ _ Hk) in Hki. injection Hki as <-. split; [done|].
      eexists _, _. eapply process_finished; [done|done|done|done| |done]. lia.
    + eapply done_grow; [exact Hlen|exact Hdone|done..].
  - rewrite queue_weight_app, child_works_weight, length_insert, Hnodes, length_app, length_map.
    apply prefix_length in Hpre. lia.
Qed.

(** ** The whole loop *)

Lemma build_loop_spec budget fuel : ∀ queue ly keys,
  (Z.of_nat budget < 4294967296)%Z → length queue + queue_weight queue ≤ fuel → build_inv budget queue ly keys →
  ∃ ly' keys', build_loop fuel queue ly = Ok ly' ∧ build_inv budget [] ly' keys'.
Proof.
  induction fuel as [|fuel IH]; intros [|w queue] ly keys Hb Hf Hinv; [by eauto|simpl in Hf; lia|by eauto|].
  destruct (process_spec budget w queue ly keys Hb Hinv) as (ly1 & ch & keys1 & Hp & Hinv1 & Hw).
  cbn [build_loop]. rewrite Hp, bind_Ok. apply (IH _ _ keys1); [done| |done].
  rewrite length_app, queue_weight_app. cbn [length queue_weight sum_list_with] in Hf. fold (queue_weight queue) in Hf. lia.
Qed.
End rules.
