(* ===== verification/TrieLookup.v ===== *)
(** * The blocklist trie: lookup refines the reference

    The reference keeps the list of entries as they were added and asks, for
    each suffix of the domain from the longest to the shortest, whether an
    entry there covers it.  The file proves that a built trie represents its
    builder's rules, that the binary search over a node's children finds
    exactly the label asked for, and that [trie_lookup] on the built trie is
    the reference on the entries. *)

From stdpp Require Import base tactics numbers list gmap strings sorting.
From Stdlib Require Import ZArith Lia.
From S2P Require Import Prelude Names Wire Builder Roundtrip Acl Blocklist Trie TrieProofs TrieBuild.

(** ** A built trie represents its rules *)

Record represents (R : list Rule) (t : BlocklistTrie) (keys : list (list Z)) : Prop := {
  re_length : length keys = length (t_nodes t);
  re_root : keys !! 0 = Some [];
  re_nodes : ∀ i n k, t_nodes t !! i = Some n → keys !! i = Some k →
    key_wf k ∧ ∃ first ls, finished R (t_nodes t) (t_labels t) keys k n first ls;
}.

Definition key_bytes (rules : list Rule) : nat := sum_list_with (λ r, length (r_key r)) rules.

Lemma key_bytes_perm rs rs' : rs ≡ₚ rs' → key_bytes rs = key_bytes rs'.
Proof. unfold key_bytes. induction 1; cbn [sum_list_with]; lia. Qed.

(** The bound under which every 32-bit index of the array is exact. *)
Definition fits (rules : list Rule) : Prop := (Z.of_nat (key_bytes rules) < 4294967295)%Z.

Lemma initial_weight R : queue_weight [mkWork 0 R 0] = key_bytes R.
Proof.
  unfold queue_weight, work_weight, weight, key_bytes. cbn [sum_list_with wk_offset wk_rules]. rewrite Nat.add_0_r.
  induction R as [|r R IH]; cbn [sum_list_with]; lia.
Qed.

Lemma initial_inv R : build_inv R (build_fuel R) [mkWork 0 R 0] (mkLayout [fresh_node 0 0] [] ∅) [[]].
Proof.
  split; cbn [ly_nodes ly_labels ly_interned].
  - done.
  - done.
  - intros l off. cbn [ly_interned]. by rewrite lookup_empty.
  - apply Forall_singleton. split; cbn [wk_node wk_rules wk_offset].
    + exists []. split_and!; [done|by exists []|done|]. symmetry. apply filter_keep. apply Forall_true.
      intros r. apply prefix_nil.
    + by eexists _, _, _.
  - apply NoDup_singleton.
  - intros [|i] n k Hni Hi Hk; [|done]. exfalso. apply Hni. left.
  - rewrite initial_weight. unfold build_fuel, key_bytes. cbn [length]. lia.
Qed.

Lemma build_trie_represents b :
  fits (bd_rules b) → (∀ r, r ∈ bd_rules b → key_wf (r_key r)) →
  ∃ t keys, build_trie b = Ok t ∧ t_sources t = bd_sources b ∧ represents (stable_sort (bd_rules b)) t keys.
Proof.
  intros Hfit Hwf. set (R := stable_sort (bd_rules b)).
  assert (Hkb : key_bytes R = key_bytes (bd_rules b)) by apply key_bytes_perm, stable_sort_perm.
  assert (HR : ∀ r, r ∈ R → key_wf (r_key r)).
  { intros r Hr. apply Hwf. by rewrite <-(stable_sort_perm (bd_rules b)). }
  unfold fits in Hfit.
  destruct (build_loop_spec R (stable_sort_sorted _) HR (build_fuel R) (build_fuel R)
    [mkWork 0 R 0] (mkLayout [fresh_node 0 0] [] ∅) [[]]) as (ly & keys & Hloop & Hinv).
  { unfold build_fuel. fold (key_bytes R). lia. }
  { rewrite initial_weight. unfold build_fuel. fold (key_bytes R). cbn [length]. lia. }
  { apply initial_inv. }
  destruct Hinv as [Hlen Hroot _ _ _ Hdone _]. unfold build_trie. fold R. rewrite Hloop, bind_Ok.
  eexists _, keys. split; [done|]. split; [done|]. split; cbn [t_nodes t_labels]; [done|done|].
  intros i n k Hi Hk. apply (Hdone i n k); [apply not_elem_of_nil|done|done].
Qed.

(** ** Finding a child *)

Lemma label_of_text t n l : t_label_length n = zlen l → text_at (t_labels t) (t_label_offset n) l → label_of t n = l.
Proof. intros Hl (_ & Ht & _). unfold label_of. rewrite Hl. unfold zlen. by rewrite Nat2Z.id. Qed.

Section children.
Context (t : BlocklistTrie) (first : nat) (ls : list (list Z)).
Context (Hlab : ∀ i l, ls !! i = Some l → labelled (t_nodes t) (t_labels t) (first + i) l).
Context (Hsort : StronglySorted label_order ls).

Lemma child_label i l : ls !! i = Some l → ∃ n, t_nodes t !! (first + i) = Some n ∧ label_of t n = l.
Proof. intros (n & Hn & Hl & Ht)%Hlab. exists n. split; [done|by apply label_of_text]. Qed.

Lemma sorted_before i j l m : ls !! i = Some l → ls !! j = Some m → i < j → label_lt l m = true.
Proof using Hsort.
  clear Hlab. revert i j. induction Hsort as [|x xs Hxs IH Hall]; intros i j Hi Hj Hij; [done|].
  destruct j as [|j]; [lia|]. destruct i as [|i]; [|by apply (IH Hxs i j); [..|lia]].
  injection Hi as ->. rewrite Forall_lookup in Hall. by apply (Hall j).
Qed.

(** [p] parts the labels below [label] from the others. *)
Definition partition_point (label : list Z) (a b p : nat) : Prop :=
  a ≤ p ≤ b ∧ (∀ i l, a ≤ i < p → ls !! i = Some l → label_lt l label = true) ∧
  (∀ i l, p ≤ i < b → ls !! i = Some l → label_lt l label = false).

Lemma not_before i j l m label : ls !! i = Some l → ls !! j = Some m → i ≤ j →
  label_lt l label = false → label_lt m label = false.
Proof.
  intros Hi Hj Hij Hl. destruct (decide (i = j)) as [-> |]; [by simplify_eq|].
  assert (Hlm : label_lt l m = true) by (eapply sorted_before; [done|done|lia]).
  destruct (label_lt m label) eqn:E; [|done]. by rewrite (label_lt_trans _ _ _ Hlm E) in Hl.
Qed.

Lemma lower_bound_spec label fuel : ∀ a len, a + len ≤ length ls → len ≤ fuel →
  ∃ p, lower_bound fuel t label (first + a) len = Ok (first + p) ∧ partition_point label a (a + len) p.
Proof.
  assert (Hbase : ∀ a, partition_point label a (a + 0) a).
  { intros a. split_and!; [lia|lia|intros; lia|intros; lia]. }
  induction fuel as [|fuel IH]; intros a len Hle Hf.
  { exists a. assert (len = 0) as -> by lia. done. }
  cbn [lower_bound]. case_decide as E; [subst; eauto|].
  assert (Hhalf : len / 2 < len) by (apply Nat.div_lt; lia). set (half := len / 2) in *.
  destruct (lookup_lt_is_Some_2 ls (a + half)) as [m Hm]; [lia|].
  destruct (child_label _ _ Hm) as (n & Hn & Hl). rewrite <-Nat.add_assoc, Hn, Hl.
  destruct (label_lt m label) eqn:Hlt.
  - rewrite <-Nat.add_assoc. destruct (IH (a + half + 1) (len - half - 1)) as (p & Hp & Hr & H1 & H2); [lia|lia|].
    rewrite Hp. exists p. split; [done|]. split; [lia|]. split.
    + intros i l Hi Hil. destruct (decide (i ≤ a + half)) as [Hih|Hih]; [|apply (H1 i l); [lia|done]].
      destruct (label_lt l label) eqn:El; [done|]. rewrite (not_before i (a + half) l m label) in Hlt; done.
    + intros i l Hi. apply H2. lia.
  - destruct (IH a half) as (p & Hp & Hr & H1 & H2); [lia|lia|]. rewrite Hp. exists p. split; [done|]. split; [lia|].
    split; [done|]. intros i l Hi Hil. destruct (decide (i < a + half)) as [Hih|Hih]; [apply (H2 i l); [lia|done]|].
    by apply (not_before (a + half) i m l); [..|lia|].
Qed.

Lemma child_found parent label i : t_first_child parent = Z.of_nat first → t_child_count parent = zlen ls →
  ls !! i = Some label → ∃ n, t_nodes t !! (first + i) = Some n ∧ child t parent label = Ok (Some n).
Proof.
  intros Hf Hc Hi. unfold child. rewrite Hf, Hc. unfold zlen. rewrite !Nat2Z.id.
  destruct (lower_bound_spec label (length ls) 0 (length ls)) as (p & Hp & Hr & H1 & H2); [lia|lia|].
  rewrite Nat.add_0_r in Hp. rewrite Hp, bind_Ok.
  assert (p = i) as ->.
  { pose proof (lookup_lt_Some _ _ _ Hi). destruct (lt_eq_lt_dec p i) as [[Hpi|?]|Hpi]; [|done|].
    - destruct (lookup_lt_is_Some_2 ls p) as [m Hm]; [lia|]. specialize (H2 p m ltac:(lia) Hm).
      rewrite (sorted_before p i m label) in H2; done.
    - specialize (H1 i label ltac:(lia) Hi). by rewrite label_lt_irrefl in H1. }
  pose proof (lookup_lt_Some _ _ _ Hi). rewrite decide_False by lia.
  destruct (child_label _ _ Hi) as (n & Hn & Hl). exists n. rewrite Hn. by rewrite decide_True.
Qed.

Lemma child_missing parent label : t_first_child parent = Z.of_nat first → t_child_count parent = zlen ls →
  label ∉ ls → child t parent label = Ok None.
Proof.
  intros Hf Hc Hni. unfold child. rewrite Hf, Hc. unfold zlen. rewrite !Nat2Z.id.
  destruct (lower_bound_spec label (length ls) 0 (length ls)) as (p & Hp & Hr & _); [lia|lia|].
  rewrite Nat.add_0_r in Hp. rewrite Hp, bind_Ok. case_decide; [done|].
  destruct (lookup_lt_is_Some_2 ls p) as [m Hm]; [lia|]. destruct (child_label _ _ Hm) as (n & Hn & Hl).
  rewrite Hn, Hl. rewrite decide_False; [done|]. intros ->. apply Hni. by eapply list_elem_of_lookup_2.
Qed.
End children.

(** ** The walk, on the rules *)

Section walk.
Context (R : list Rule).

(** The walk down the keys themselves; [whole] says the path is the whole
    name, not a part of it. *)
Fixpoint key_walk (k : list Z) (depth : nat) (path : list (list Z)) (whole : bool) (s : Seen) : Seen :=
  let s := see (summary R k) depth (bool_decide (path = []) && whole) s in
  match path with
  | [] => s
  | l :: path => key_walk (k ++ piece l) (S depth) path whole s
  end.

Lemma see_summary k n depth whole s : summarises R k n → see n depth whole s = see (summary R k) depth whole s.
Proof. intros [Hf Hb Ha]. unfold see. by rewrite Hf, Hb, Ha. Qed.

Lemma see_fresh depth whole s : see (fresh_node 0 0) depth whole s = s.
Proof. by destruct s, whole. Qed.

Lemma key_walk_barren path : ∀ k depth whole s,
  (∀ r, r ∈ R → ¬ k `prefix_of` r_key r) → key_walk k depth path whole s = s.
Proof.
  induction path as [|l path IH]; intros k depth whole s Hno; cbn [key_walk].
  all: assert (summary R k = fresh_node 0 0) as -> by
    (unfold summary; rewrite filter_drop; [done|]; apply Forall_forall; intros r Hr E; apply (Hno r Hr); by rewrite E).
  all: rewrite see_fresh. 1: done. rewrite IH; [done|].
  intros r Hr [x Hx]. apply (Hno r Hr). rewrite Hx, <-app_assoc. by eexists.
Qed.

Lemma below_under k l r : key_wf k → label_wf l → key_wf (r_key r) → below k l r → under k r.
Proof.
  intros Hk Hl Hr [x Hx]. apply key_wf_under; [done|done|rewrite Hx, <-app_assoc; by eexists|].
  intros E. rewrite E in Hx. apply (f_equal length) in Hx. rewrite !length_app in Hx. unfold piece in Hx. simpl in Hx. lia.
Qed.

Lemma walk_spec t keys path : represents R t keys → (∀ r, r ∈ R → key_wf (r_key r)) → Forall label_wf path →
  ∀ i n k depth s, t_nodes t !! i = Some n → keys !! i = Some k →
  walk t n depth path s = Ok (key_walk k depth path true s).
Proof.
  intros Hrep HR Hpath. induction Hpath as [|l path Hl _ IH]; intros i n k depth s Hn Hk;
    destruct (re_nodes _ _ _ Hrep i n k Hn Hk) as (Hkw & first & ls & [Hsu Hf Hc Hso Hch Hall]);
    cbn [walk key_walk]; rewrite andb_true_r, (see_summary k n) by done; [done|].
  assert (Hlab : ∀ j m, ls !! j = Some m → labelled (t_nodes t) (t_labels t) (first + j) m).
  { intros j m Hj. by apply Hch. }
  destruct (decide (l ∈ ls)) as [Hin|Hni].
  - apply list_elem_of_lookup in Hin as [j Hj].
    destruct (child_found t first ls Hlab Hso n l j) as (c & Hc' & ->); [done..|]. rewrite bind_Ok.
    apply (IH (first + j)); [done|]. by apply Hch.
  - rewrite (child_missing t first ls) by done. rewrite bind_Ok, key_walk_barren; [done|].
    intros r Hr Hp. destruct (Hall r Hr) as (m & Hm & Hbm); [by eapply below_under; [..|apply HR|exact Hp]|].
    apply list_elem_of_lookup in Hm as [j Hj]. destruct (Hch j m Hj) as (Hmw & _).
    rewrite (piece_inj k l m (r_key r)) in Hni by done. apply Hni. by eapply list_elem_of_lookup_2.
Qed.

(** The deepest node is seen last. *)
Lemma key_walk_snoc path : ∀ k depth l whole s,
  key_walk k depth (path ++ [l]) whole s =
    see (summary R (k ++ concat (map piece (path ++ [l])))) (depth + S (length path)) whole
      (key_walk k depth path false s).
Proof.
  induction path as [|m path IH]; intros k depth l whole s.
  - cbn [app key_walk map concat length]. rewrite app_nil_r. by rewrite Nat.add_1_r, ?andb_true_l, ?andb_false_l, ?andb_false_r.
  - cbn [app key_walk map concat length]. rewrite IH.
    rewrite <-app_assoc. rewrite bool_decide_eq_false_2 by (by destruct path).
    rewrite (bool_decide_eq_false_2 (m :: path = [])) by done. by rewrite Nat.add_succ_comm.
Qed.
End walk.

Lemma concat_piece ls : Forall label_wf ls → concat (map piece ls) = suffix_key ls.
Proof.
  induction 1 as [|l ls Hl Hls IH]; [done|]. rewrite suffix_key_cons by done. cbn [map concat]. by rewrite IH.
Qed.

(** ** Flags and sources of a node *)

Definition exact_bit (a : ListAction) : Z := match a with Block => kBlockExact | Allow => kAllowExact end.
Definition subtree_bit (a : ListAction) : Z := match a with Block => kBlockSubtree | Allow => kAllowSubtree end.
Definition action_bits (a : ListAction) : Z := match a with Block => block_bits | Allow => allow_bits end.
Definition node_source (a : ListAction) (n : TrieNode) : Z :=
  match a with Block => t_block_source n | Allow => t_allow_source n end.
Definition seen (a : ListAction) (s : Seen) : option (nat * Z) :=
  match a with Block => se_block s | Allow => se_allow s end.

Lemma seen_see a n depth whole s :
  seen a (see n depth whole s) =
    if has (t_flags n) (subtree_bit a) || (whole && has (t_flags n) (exact_bit a))
    then Some (depth, node_source a n) else seen a s.
Proof. by destruct a. Qed.

Lemma has_lor f g bits : has (Z.lor f g) bits = has f bits || has g bits.
Proof.
  unfold has. rewrite Z.land_lor_distr_l. rewrite <-negb_andb. f_equal. apply eq_iff_eq_true.
  rewrite andb_true_iff, !Z.eqb_eq. apply Z.lor_eq_0_iff.
Qed.

Lemma fold_absorb_has bits rs : ∀ n,
  has (t_flags (fold_left absorb_rule rs n)) bits =
    has (t_flags n) bits || existsb (λ r, has (r_flags r) bits) rs.
Proof.
  induction rs as [|r rs IH]; intros n; cbn [fold_left existsb]; [by rewrite orb_false_r|].
  rewrite IH. cbn [t_flags absorb_rule]. by rewrite has_lor, orb_assoc.
Qed.

(** The first rule with a bit of the action gives its source. *)
Lemma fold_absorb_source a rs : ∀ n, node_source a (fold_left absorb_rule rs n) =
  if has (t_flags n) (action_bits a) then node_source a n
  else match filter (λ r, has (r_flags r) (action_bits a) = true) rs with
       | [] => node_source a n
       | r :: _ => r_source r
       end.
Proof.
  induction rs as [|r rs IH]; intros n; cbn [fold_left]; [by destruct (has _ _)|]. rewrite IH.
  cbn [t_flags absorb_rule]. rewrite has_lor, filter_cons.
  assert (Hsrc : node_source a (absorb_rule n r) =
    if has (r_flags r) (action_bits a) && negb (has (t_flags n) (action_bits a)) then r_source r else node_source a n)
    by (by destruct a).
  rewrite Hsrc. destruct (has (t_flags n) (action_bits a)), (has (r_flags r) (action_bits a)); done.
Qed.

(** ** The reference *)

Record Entry := mkEntry { e_name : Name; e_action : ListAction; e_source : list Z; e_subdomains : bool }.

Definition add_entry (b : TrieBuilder) (e : Entry) : TrieBuilder :=
  add b (e_name e) (e_action e) (e_source e) (e_subdomains e).
Definition add_all (b : TrieBuilder) (es : list Entry) : TrieBuilder := fold_left add_entry es b.

(** The entries with an action for exactly these labels, in order. *)
Definition at_name (es : list Entry) (a : ListAction) (ls : list (list Z)) : list Entry :=
  filter (λ e, e_action e = a ∧ labels (e_name e) = ls) es.

(** The longest suffix of [ls] an entry covers, and the first entry there; an
    entry without subdomains covers the whole name only. *)
Fixpoint deepest (es : list Entry) (a : ListAction) (whole : bool) (ls : list (list Z)) : option (nat * list Z) :=
  let here := at_name es a ls in
  if existsb (λ e, e_subdomains e || whole) here then Some (length ls, default [] (e_source <$> head here))
  else match ls with [] => None | _ :: ls => deepest es a false ls end.

(** An allow at any depth beats every block. *)
Definition reference_lookup (es : list Entry) (domain : Name) : TrieLookupResult :=
  match deepest es Allow true (labels domain), deepest es Block true (labels domain) with
  | Some (depth, source), _ => mkMatch true Allow (rule_name domain depth) source
  | None, Some (depth, source) => mkMatch true Block (rule_name domain depth) source
  | None, None => no_match
  end.

(** ** The builder holds the entries *)

Record entry_rule (sources : list (list Z)) (e : Entry) (r : Rule) : Prop := {
  er_key : r_key r = rule_key (e_name e);
  er_flags : r_flags r = rule_flags (e_action e) (e_subdomains e);
  er_source : sources !! Z.to_nat (r_source r) = Some (e_source e);
}.

Definition holds (b : TrieBuilder) (es : list Entry) : Prop := Forall2 (entry_rule (bd_sources b)) es (bd_rules b).

Lemma find_source_spec sources source : ∀ i,
  match find_source sources source i with
  | Some j => i ≤ j ∧ sources !! (j - i) = Some source
  | None => True
  end.
Proof.
  induction sources as [|s sources IH]; intros i; cbn [find_source]; [done|]. case_decide as E.
  - subst. split; [lia|]. by rewrite Nat.sub_diag.
  - specialize (IH (S i)). destruct (find_source sources source (S i)) as [j|]; [|done]. destruct IH as [Hj IH].
    split; [lia|]. replace (j - i) with (S (j - S i)) by lia. done.
Qed.

Lemma u16_nat n : (Z.of_nat n < 65536)%Z → Z.to_nat (u16 (Z.of_nat n)) = n.
Proof. intros. rewrite u16_id by (unfold is_u16; lia). lia. Qed.

Lemma source_id_spec sources source id sources' :
  source_id sources source = (id, sources') → (zlen sources' ≤ 65536)%Z →
  sources `prefix_of` sources' ∧ sources' !! Z.to_nat id = Some source.
Proof.
  unfold source_id. pose proof (find_source_spec sources source 0) as Hf.
  destruct (find_source sources source 0) as [i|]; intros [= <- <-] Hsz.
  - rewrite Nat.sub_0_r in Hf. destruct Hf as [_ Hf]. split; [done|]. rewrite u16_nat; [done|].
    apply lookup_lt_Some in Hf. unfold zlen in Hsz. lia.
  - split; [by eexists|]. unfold zlen in *. rewrite length_app in Hsz. simpl in Hsz. rewrite u16_nat by lia.
    by rewrite lookup_app_r, Nat.sub_diag by lia.
Qed.

Lemma add_sources b e : ∃ id sources, source_id (bd_sources b) (e_source e) = (id, sources) ∧
  add_entry b e = mkBuilder (bd_rules b ++ [mkRule (rule_key (e_name e)) (rule_flags (e_action e) (e_subdomains e)) id]) sources.
Proof.
  unfold add_entry, add. destruct (source_id _ _) as [id sources]. eauto.
Qed.

Lemma holds_add b es e : holds b es → (zlen (bd_sources (add_entry b e)) ≤ 65536)%Z → holds (add_entry b e) (es ++ [e]).
Proof.
  intros Hb. destruct (add_sources b e) as (id & sources & Hid & ->). unfold holds. cbn [bd_sources bd_rules]. intros Hsz.
  destruct (source_id_spec _ _ _ _ Hid Hsz) as [Hp Hs]. apply Forall2_app; [|by repeat constructor].
  eapply Forall2_impl; [exact Hb|]. intros x r [Hk Hf Hsrc]. split; [done|done|by eapply prefix_lookup_Some].
Qed.

Lemma add_sources_mono b es : (zlen (bd_sources b) ≤ zlen (bd_sources (add_all b es)))%Z.
Proof.
  revert b. induction es as [|e es IH]; intros b; [cbn; lia|]. cbn [add_all fold_left]. fold (add_all (add_entry b e) es).
  specialize (IH (add_entry b e)). destruct (add_sources b e) as (id & sources & Hid & Ha). rewrite Ha in *.
  unfold source_id in Hid. destruct (find_source _ _ _); injection Hid as <- <-; cbn [bd_sources] in IH; [lia|].
  rewrite zlen_app in IH. unfold zlen in *. simpl in IH. lia.
Qed.

Lemma holds_add_all es' : ∀ b es, holds b es → (zlen (bd_sources (add_all b es')) ≤ 65536)%Z →
  holds (add_all b es') (es ++ es').
Proof.
  induction es' as [|e es' IH]; intros b es Hb Hsz; [by rewrite app_nil_r|].
  rewrite (cons_middle e es es'), app_assoc. apply (IH (add_entry b e)); [|done]. apply holds_add; [done|].
  etrans; [|exact Hsz]. apply (add_sources_mono (add_entry b e) es').
Qed.

(** ** A node's summary and the entries at its name *)

Section entries.
Context (b : TrieBuilder) (es : list Entry) (Hb : holds b es) (Hes : Forall (λ e, name_wf (e_name e)) es).
Let R := stable_sort (bd_rules b).
Implicit Types (a : ListAction) (ls : list (list Z)).

Lemma rule_key_labels n ls : name_wf n → Forall label_wf ls →
  rule_key n = suffix_key (reverse ls) ↔ labels n = ls.
Proof.
  intros Hn Hls. unfold rule_key. split; [|by intros ->]. intros E. apply suffix_key_inj in E.
  - by apply (inj reverse).
  - by apply Forall_reverse, name_wf_canonical.
  - by apply Forall_reverse.
Qed.

Lemma holds_wf : Forall2 (λ e r, entry_rule (bd_sources b) e r ∧ name_wf (e_name e)) es (bd_rules b).
Proof. by apply Forall2_and_l. Qed.

Lemma rules_key_wf r : r ∈ bd_rules b → key_wf (r_key r).
Proof.
  intros (i & Hi)%list_elem_of_lookup. destruct (Forall2_lookup_r _ _ _ _ _ holds_wf Hi) as (e & _ & [Hk _ _] & Hwf).
  exists (reverse (labels (e_name e))). split; [by apply Forall_reverse, name_wf_canonical|done].
Qed.

(** The rules at the name [ls], in the order they were added. *)
Definition rules_at ls : list Rule := filter (λ r, r_key r = suffix_key (reverse ls)) (bd_rules b).

Lemma summary_rules ls :
  summary R (suffix_key (reverse ls)) = fold_left absorb_rule (rules_at ls) (fresh_node 0 0).
Proof. unfold summary, R. by rewrite stable_sort_stable. Qed.

Lemma entries_at ls : Forall label_wf ls →
  Forall2 (entry_rule (bd_sources b)) (filter (λ e, labels (e_name e) = ls) es) (rules_at ls).
Proof.
  intros Hls. apply Forall2_filter. eapply Forall2_impl; [exact holds_wf|]. intros e r [He Hwf]. split; [done|].
  rewrite (er_key _ _ _ He). by rewrite rule_key_labels.
Qed.

Lemma at_name_filter a ls : at_name es a ls = filter (λ e, e_action e = a) (filter (λ e, labels (e_name e) = ls) es).
Proof. unfold at_name. by rewrite list_filter_filter. Qed.

Lemma rule_flags_action a a' sub : has (rule_flags a' sub) (action_bits a) = true ↔ a' = a.
Proof. destruct a, a', sub; cbv; split; congruence. Qed.

Lemma rule_flags_covers a a' sub whole :
  has (rule_flags a' sub) (subtree_bit a) || (whole && has (rule_flags a' sub) (exact_bit a)) =
  bool_decide (a' = a) && (sub || whole).
Proof. by destruct a, a', sub, whole. Qed.

Lemma summary_covers a ls whole : Forall label_wf ls →
  let n := summary R (suffix_key (reverse ls)) in
  has (t_flags n) (subtree_bit a) || (whole && has (t_flags n) (exact_bit a)) =
  existsb (λ e, e_subdomains e || whole) (at_name es a ls).
Proof.
  intros Hls n. unfold n. rewrite summary_rules, !fold_absorb_has, at_name_filter.
  change (has (t_flags (fresh_node 0 0)) ?x) with false. rewrite !orb_false_l, existsb_orb.
  induction (entries_at ls Hls) as [|e r es' rs [_ Hf _] _ IH]; [done|]. cbn [existsb].
  rewrite Hf, rule_flags_covers, IH, filter_cons. destruct (decide (e_action e = a)) as [E|E].
  - by rewrite bool_decide_eq_true_2.
  - by rewrite bool_decide_eq_false_2.
Qed.

Lemma summary_source a ls e rest : Forall label_wf ls → at_name es a ls = e :: rest →
  bd_sources b !! Z.to_nat (node_source a (summary R (suffix_key (reverse ls)))) = Some (e_source e).
Proof.
  intros Hls. rewrite summary_rules, fold_absorb_source, at_name_filter.
  change (has (t_flags (fresh_node 0 0)) ?x) with false. cbn iota.
  assert (HF : Forall2 (entry_rule (bd_sources b)) (filter (λ e, e_action e = a) (filter (λ e, labels (e_name e) = ls) es))
    (filter (λ r, has (r_flags r) (action_bits a) = true) (rules_at ls))).
  { apply Forall2_filter. eapply Forall2_impl; [by apply entries_at|]. intros x r Hx. split; [done|].
    rewrite (er_flags _ _ _ Hx). by rewrite rule_flags_action. }
  intros E. rewrite E in HF. inversion HF as [|x r ? ? Hr _ Ex Er]. by destruct Hr.
Qed.

(** What the walk saw and what the reference finds. *)
Definition agrees (s : option (nat * Z)) (d : option (nat * list Z)) : Prop :=
  match s, d with
  | Some (depth, id), Some (depth', source) => depth = depth' ∧ bd_sources b !! Z.to_nat id = Some source
  | None, None => True
  | _, _ => False
  end.

Lemma deepest_unfold a whole ls :
  deepest es a whole ls =
    if existsb (λ e, e_subdomains e || whole) (at_name es a ls)
    then Some (length ls, default [] (e_source <$> head (at_name es a ls)))
    else match ls with [] => None | _ :: ls => deepest es a false ls end.
Proof. by destruct ls. Qed.

Lemma see_agrees a ls depth whole s d : Forall label_wf ls → depth = length ls → agrees (seen a s) d →
  agrees (seen a (see (summary R (suffix_key (reverse ls))) depth whole s))
    (if existsb (λ e, e_subdomains e || whole) (at_name es a ls)
     then Some (length ls, default [] (e_source <$> head (at_name es a ls))) else d).
Proof.
  intros Hls -> Hd. rewrite seen_see, summary_covers by done.
  destruct (existsb _ _) eqn:E; [|done]. destruct (at_name es a ls) as [|e rest] eqn:Ha; [done|].
  cbn. split; [done|]. by eapply summary_source.
Qed.

Lemma walk_agrees a ls : ∀ whole, Forall label_wf ls →
  agrees (seen a (key_walk R [] 0 (reverse ls) whole (mkSeen None None))) (deepest es a whole ls).
Proof.
  induction ls as [|l ls IH]; intros whole Hls; rewrite deepest_unfold.
  - cbn [reverse rev_append key_walk]. by apply (see_agrees a []); [constructor|..|destruct a].
  - rewrite reverse_cons, key_walk_snoc. inv Hls. rewrite <-reverse_cons.
    rewrite concat_piece by (by apply Forall_reverse; constructor).
    rewrite app_nil_l. apply see_agrees; [by constructor|by rewrite length_reverse|by apply IH].
Qed.

Lemma lookup_refines t domain : build_trie b = Ok t → fits (bd_rules b) → name_wf domain →
  trie_lookup t domain = Ok (reference_lookup es domain).
Proof.
  intros Ht Hfit Hd. destruct (build_trie_represents b Hfit rules_key_wf) as (t' & keys & Ht' & Hsrc & Hrep).
  rewrite Ht in Ht'. injection Ht' as <-. fold R in Hrep. pose proof (name_wf_canonical _ Hd) as Hls.
  unfold trie_lookup, reference_lookup. destruct (t_nodes t) as [|root nodes] eqn:Hn.
  { pose proof (re_length _ _ _ Hrep) as Hl. rewrite Hn in Hl. pose proof (re_root _ _ _ Hrep) as Hr.
    by rewrite (nil_length_inv _ Hl) in Hr. }
  rewrite (walk_spec R t keys (reverse (labels domain)) Hrep) with (i := 0) (k := []).
  2: { intros r Hr. apply rules_key_wf. unfold R in Hr. by rewrite stable_sort_perm in Hr. }
  2: by apply Forall_reverse. 2: by rewrite Hn. 2: by apply (re_root _ _ _ Hrep).
  rewrite bind_Ok. unfold source_at. rewrite Hsrc.
  pose proof (walk_agrees Allow (labels domain) true Hls) as HA.
  pose proof (walk_agrees Block (labels domain) true Hls) as HB. cbn [seen] in HA, HB. revert HA HB.
  generalize (key_walk R [] 0 (reverse (labels domain)) true (mkSeen None None)). intros s.
  destruct (se_allow s) as [[d id]|], (deepest es Allow true (labels domain)) as [[d' src]|]; cbn [agrees]; try done.
  { intros [-> ->] _. done. }
  destruct (se_block s) as [[d id]|], (deepest es Block true (labels domain)) as [[d' src]|]; cbn [agrees]; try done.
  intros _ [-> ->]. done.
Qed.
End entries.

(** ** The trie as a blocklist *)

(** [lookup] compares canonical labels only.  On a built trie it does not fault
    ([trie_refines]), and the daemon uses no other ([daemon_serves]),
    so the default is never taken. *)
Global Instance trie_blocklist : Blocklist BlocklistTrie.
Proof.
  refine {| bl_lookup t n := match trie_lookup t n with Ok r => r | _ => no_match end |}.
  intros t a c Hac. unfold trie_lookup, rule_name. unfold equiv, name_equiv in Hac. by rewrite Hac.
Defined.

(** ** What the reference blocks *)

(** An entry covers its own name, and with subdomains every name below it. *)
Definition covers (e : Entry) (ls : list (list Z)) (whole : bool) : Prop :=
  labels (e_name e) `suffix_of` ls ∧ (e_subdomains e = true ∨ (whole = true ∧ labels (e_name e) = ls)).

Lemma deepest_is_Some es a ls : ∀ whole,
  is_Some (deepest es a whole ls) ↔ ∃ e, e ∈ es ∧ e_action e = a ∧ covers e ls whole.
Proof.
  assert (Hhere : ∀ ls whole, existsb (λ e, e_subdomains e || whole) (at_name es a ls) = true ↔
    ∃ e, e ∈ es ∧ e_action e = a ∧ labels (e_name e) = ls ∧ (e_subdomains e = true ∨ whole = true)).
  { intros ls' whole. rewrite existsb_exists. unfold at_name. setoid_rewrite <-list_elem_of_In.
    setoid_rewrite list_elem_of_filter. setoid_rewrite orb_true_iff. naive_solver. }
  induction ls as [|l ls IH]; intros whole; rewrite deepest_unfold; (destruct (existsb _ _) eqn:E;
    [apply Hhere in E as (e & He & Ha & Hl & Hs); split; [|by eexists]; intros _; exists e; split_and!; [done|done|];
     split; [by rewrite Hl|tauto]|]; apply not_true_iff_false in E; rewrite Hhere in E).
  - split; [by intros [? ?]|]. intros (e & He & Ha & Hsuf & Hs). destruct E. exists e.
    apply suffix_nil_inv in Hsuf. naive_solver.
  - rewrite IH. split; intros (e & He & Ha & Hsuf & Hs).
    + exists e. split_and!; [done|done|]. split; [by apply suffix_cons_r|]. left. naive_solver.
    + exists e. split_and!; [done|done|]. destruct (decide (labels (e_name e) = l :: ls)) as [Hl|Hl].
      { destruct E. exists e. naive_solver. }
      split; [|naive_solver]. destruct (labels (e_name e)); [apply suffix_nil|].
      by apply suffix_cons_inv in Hsuf as [?|Hsuf].
Qed.

(** ** List files add entries *)

Section load.
Context `{InetPton}.

Lemma drop_while_bytes p s : Forall is_byte s → Forall is_byte (drop_while p s).
Proof. induction 1 as [|c s Hc Hs IH]; cbn; [constructor|]. destruct (p c); [done|by constructor]. Qed.

Lemma take_until_bytes p s : Forall is_byte s → Forall is_byte (take_until p s).
Proof. induction 1 as [|c s Hc Hs IH]; cbn; [constructor|]. destruct (p c); by constructor. Qed.

Lemma trim_bytes s : Forall is_byte s → Forall is_byte (trim s).
Proof. intros Hs. unfold trim. by apply Forall_reverse, drop_while_bytes, Forall_reverse, drop_while_bytes. Qed.

Lemma split_fields_bytes s : ∀ field, Forall is_byte s → Forall is_byte field →
  Forall (Forall is_byte) (split_fields s field).
Proof.
  induction s as [|c s IH]; intros field Hs Hf; cbn [split_fields].
  { destruct field; [constructor|by apply Forall_singleton]. }
  inv Hs. destruct (is_blank c); [|apply IH; [done|by apply Forall_app_2; [|apply Forall_singleton]]].
  destruct field; [|constructor; [done|]]; by apply IH.
Qed.

Lemma unwrap_domain_sub entry : unwrap_domain entry ⊆ entry.
Proof.
  assert (Hp : ∀ x, x ⊆ entry → plain_domain x ⊆ entry).
  { intros x Hx. unfold plain_domain. destruct (existsb _ x); [apply list_subseteq_nil|done]. }
  assert (Htail : ∀ (x y : Z) rest, entry = x :: y :: rest → rest ⊆ entry) by (intros x y rest ->; set_solver).
  unfold unwrap_domain. repeat case_match; subst; try (by apply Hp); try apply list_subseteq_nil.
  - apply Hp. by eapply Htail.
  - apply Hp. etrans; [apply subseteq_take|by eapply Htail].
Qed.

Lemma line_names_bytes raw : Forall is_byte raw → Forall (Forall is_byte) (line_names raw).1.
Proof.
  intros Hr. unfold line_names. destruct (trim raw) as [|c cs] eqn:E; [constructor|].
  assert (Hl : Forall is_byte (c :: cs)) by (rewrite <-E; by apply trim_bytes).
  destruct (_ || _); [constructor|].
  pose proof (split_fields_bytes _ [] (trim_bytes _ (take_until_bytes (Z.eqb 35) _ Hl)) (Forall_nil_2 _)) as Hf.
  destruct (split_fields _ []) as [|f rest]; [constructor|]. inv Hf. destruct (is_ip_address f); cbn [fst].
  - rename select (Forall (Forall is_byte) rest) into Hb. rewrite Forall_forall in *.
    intros x [_ Hx]%list_elem_of_filter. by apply Hb.
  - destruct rest; [|constructor]. apply Forall_singleton, Forall_forall. intros x Hx.
    rename select (Forall is_byte f) into Hb. rewrite Forall_forall in Hb. by apply Hb, unwrap_domain_sub.
Qed.

(** An entry [load_file] makes: a whole subtree, never the root. *)
Record file_entry (path : list Z) (a : ListAction) (e : Entry) : Prop := {
  fe_wf : name_wf (e_name e);
  fe_root : labels (e_name e) ≠ [];
  fe_action : e_action e = a;
  fe_source : e_source e = path;
  fe_sub : e_subdomains e = true;
}.

(** [acc'] extends [acc] by such entries and counts them. *)
Definition loads (path : list Z) (a : ListAction) (acc acc' : TrieBuilder * ListFileStats) : Prop :=
  ∃ es, acc'.1 = add_all acc.1 es ∧ Forall (file_entry path a) es ∧
    (st_rules acc'.2 = st_rules acc.2 + zlen es ∧ st_skipped acc.2 ≤ st_skipped acc'.2)%Z.

Lemma loads_skip path a b st k : (0 ≤ k)%Z → loads path a (b, st) (b, mkStats (st_rules st) (st_skipped st + k)%Z).
Proof.
  intros Hk. exists []. split; [done|]. split; [constructor|]. unfold zlen. cbn [snd st_rules st_skipped length]. lia.
Qed.

Global Instance loads_preorder path a : PreOrder (loads path a).
Proof.
  split.
  - intros acc. exists []. split; [done|]. split; [constructor|]. unfold zlen. cbn [length]. lia.
  - intros x y z (es & Hy & He & Hs & Hk) (es' & Hz & He' & Hs' & Hk'). exists (es ++ es').
    split_and!; [by rewrite Hz, Hy; unfold add_all; rewrite fold_left_app|by apply Forall_app|rewrite zlen_app; lia|lia].
Qed.

Lemma fold_left_preorder {A B} (Q : relation A) `{!PreOrder Q} (f : A → B → A) l :
  (∀ x y, y ∈ l → Q x (f x y)) → ∀ x, Q x (fold_left f l x).
Proof.
  induction l as [|y l IH]; intros Hf x; [reflexivity|]. cbn. etrans; [apply Hf; left|].
  apply IH. intros ? ? ?. apply Hf. by right.
Qed.

Lemma load_name_loads path a acc text : Forall is_byte text → loads path a acc (load_name a path acc text).
Proof.
  intros Hb. destruct acc as [b st]. unfold load_name.
  assert (Hskip : loads path a (b, st) (b, mkStats (st_rules st) (st_skipped st + 1)%Z)) by (by apply loads_skip).
  destruct (decide (text = [])); [done|]. destruct (from_string text) as [name|] eqn:E; [|done].
  destruct (label_count name =? 0) eqn:Ez; [done|]. exists [mkEntry name a path true].
  split; [done|]. split; [|unfold zlen; cbn [snd st_rules st_skipped length]; lia]. apply Forall_singleton.
  split; try done; cbn [e_name].
  - by eapply from_string_valid.
  - apply Nat.eqb_neq in Ez. unfold label_count in Ez. intros E'. by rewrite E' in Ez.
Qed.

Lemma load_line_loads path a acc raw : Forall is_byte raw → loads path a acc (load_line a path acc raw).
Proof.
  intros Hr. unfold load_line. pose proof (line_names_bytes raw Hr) as Hn.
  assert (Hk : (0 ≤ (line_names raw).2)%Z).
  { unfold line_names. repeat case_match; cbn; lia. }
  destruct (line_names raw) as [names skipped], acc as [b st]. cbn [fst snd] in *.
  trans (b, mkStats (st_rules st) (st_skipped st + skipped)%Z).
  - by apply loads_skip.
  - apply fold_left_preorder; [apply _|]. intros x y Hy. apply load_name_loads. rewrite Forall_forall in Hn. by apply Hn.
Qed.

(** Loading a list file: whatever bytes it holds, the loader only appends
    such entries, and the rule count it reports is the number it added. *)
Lemma load_file_loads b path a file : Forall (Forall is_byte) file →
  ∃ es st, load_file b path a (Some file) = Some (add_all b es, st) ∧ Forall (file_entry path a) es ∧
    (st_rules st = zlen es)%Z.
Proof.
  intros Hf. destruct (fold_left_preorder (loads path a) (load_line a path) file) with (x := (b, mkStats 0 0))
    as (es & Hes & Hall & Hst & _).
  { intros x y Hy. apply load_line_loads. rewrite Forall_forall in Hf. by apply Hf. }
  unfold load_file. cbn [mbind option_bind]. destruct (fold_left _ file _) as [b' st]. cbn [fst snd] in *.
  exists es, st. by rewrite Hes.
Qed.
End load.

(** ** Properties *)

(** C9: the trie is its rule list.  However the entries were added, the
    breadth-first construction terminates without an index out of range, and
    the binary-searching walk over its array gives, for every domain, the
    answer of the reference that asks every suffix of the domain, longest
    first: an allow at any depth wins, else the deepest block, with the source
    of the first entry of that action at the matched name.  The bounds are
    those of the 32-bit node index and the 16-bit source id. *)
Theorem trie_refines es :
  let b := add_all empty_builder es in
  Forall (λ e, name_wf (e_name e)) es → fits (bd_rules b) → (zlen (bd_sources b) ≤ 65536)%Z →
  ∃ t, build_trie b = Ok t ∧ ∀ domain, name_wf domain → trie_lookup t domain = Ok (reference_lookup es domain).
Proof.
  intros b Hes Hfit Hsz. assert (Hb : holds b es) by (by apply (holds_add_all es empty_builder []); [constructor|]).
  destruct (build_trie_represents b Hfit (rules_key_wf b es Hb Hes)) as (t & _ & Ht & _). exists t.
  split; [done|]. intros domain Hd. by eapply lookup_refines.
Qed.

(** Exactly what is blocked.  A domain is blocked by the built trie if and
    only if some block entry covers it (its own name, or an ancestor when the
    entry includes subdomains) and no allow entry does. *)
Lemma trie_blocks_exact es domain :
  let b := add_all empty_builder es in
  Forall (λ e, name_wf (e_name e)) es → fits (bd_rules b) → (zlen (bd_sources b) ≤ 65536)%Z → name_wf domain →
  ∃ t, build_trie b = Ok t ∧
    (blocked t domain = true ↔
      (∃ e, e ∈ es ∧ e_action e = Block ∧ covers e (labels domain) true) ∧
      ¬ ∃ e, e ∈ es ∧ e_action e = Allow ∧ covers e (labels domain) true).
Proof.
  intros b Hes Hfit Hsz Hd. assert (Hb : holds b es) by (by apply (holds_add_all es empty_builder []); [constructor|]).
  destruct (build_trie_represents b Hfit (rules_key_wf b es Hb Hes)) as (t & _ & Ht & _). exists t.
  split; [done|]. unfold blocked, bl_lookup, trie_blocklist. rewrite (lookup_refines b es) by done.
  rewrite <-!deepest_is_Some. unfold reference_lookup.
  destruct (deepest es Allow true (labels domain)) as [[d s]|], (deepest es Block true (labels domain)) as [[d' s']|];
    cbn; split; try done; try (intros [[? ?] _]; done); try (intros [_ []]; by eexists).
Qed.


Definition ex_entry (name : string) (a : ListAction) (sub : bool) : Entry :=
  mkEntry (default root_name (from_string (str name))) a (str "list.txt") sub.

Definition ex_entries : list Entry :=
  [ex_entry "ads.example" Block true; ex_entry "example" Block false; ex_entry "ok.ads.example" Allow true;
   ex_entry "tracker.test" Block true].

Definition ex_domain : Name := default root_name (from_string (str "x.Ads.example")).

Lemma trie_refines_witness : ∃ t, build_trie (add_all empty_builder ex_entries) = Ok t ∧
  ∀ domain, name_wf domain → trie_lookup t domain = Ok (reference_lookup ex_entries domain).
Proof. apply trie_refines; by_compute. Defined.

Lemma trie_blocks_exact_witness : ∃ t, build_trie (add_all empty_builder ex_entries) = Ok t ∧
    (blocked t ex_domain = true ↔
      (∃ e, e ∈ ex_entries ∧ e_action e = Block ∧ covers e (labels ex_domain) true) ∧
      ¬ ∃ e, e ∈ ex_entries ∧ e_action e = Allow ∧ covers e (labels ex_domain) true).
Proof. apply trie_blocks_exact; by_compute. Defined.

(** The lines a real list holds. *)
Example load_file_lines :
  (λ r, (r.1.(bd_sources), length r.1.(bd_rules), r.2)) <$>
    @load_file ex_pton empty_builder (str "l") Block
      (Some [str "||ads.example^"; str "*.trackers.test"; str "! note"; str "two words"; str "https://x/y"; str " plain.org # c"])
  = Some ([str "l"], 3, mkStats 3 2).
Proof. vm_compute. reflexivity. Qed.

(** An allow below a blocked subtree wins; an exact rule stops at its name. *)
Example trie_lookup_examples :
  (t ← build_trie (add_all empty_builder ex_entries);
   Ok (map (λ s, blocked t (default root_name (from_string (str s))))
         ["ads.example"; "a.ads.example"; "b.ok.ads.example"; "example"; "www.example"; "TRACKER.test"]%string))
  = Ok [true; true; false; true; false; true].
Proof. vm_compute. reflexivity. Qed.
