(* ===== verification/Blocklists.v ===== *)
(** * The configured lists and their reloading: [policy/blocklists.cpp]

    The lists the configuration names are read into one trie, at start-up or
    on a worker thread, and swapped in whole.  The file system is a
    parameter: [Disk] says what [stat] reports before reading starts, what
    each file holds at the moment it is read (files may change in between)
    and whether a stop was requested by then.

    The worker thread is a step of its own: between [start_reload] and the
    moment the attempt appears in [finished_], any other operation may run.
    The fields of [LoadReport] that only feed the log (the memory estimate
    and the duration) are left out. *)

From stdpp Require Import base tactics numbers list gmap strings.
From Stdlib Require Import ZArith Lia.
From S2P Require Import Prelude Names Acl Blocklist Trie TrieLookup.

Inductive BlockResponse := NullIp | NxDomain.

Record ListsConfig := mkLists {
  lc_blocklists : list (list Z); lc_allowlists : list (list Z); lc_response : BlockResponse;
  lc_block_ttl : Z; lc_check_cname_chain : bool; lc_reload_check_seconds : Z;
}.

Record ListReport := mkListReport { lr_path : list Z; lr_action : ListAction; lr_stats : ListFileStats }.
Record LoadReport := mkLoadReport { lr_files : list ListReport; lr_domains : Z }.

Record FileStamp := mkStamp {
  fs_exists : bool; fs_device : Z; fs_inode : Z; fs_size : Z; fs_mtime_sec : Z; fs_mtime_nsec : Z;
}.

Definition no_file : FileStamp := mkStamp false 0 0 0 0 0.

Global Instance FileStamp_eq_dec : EqDecision FileStamp.
Proof. solve_decision. Defined.

Record Disk := mkDisk {
  dk_stat : list Z → option (Z * Z * Z * Z * Z);
  dk_read : nat → list Z → option (list (list Z));
  dk_stop : nat → bool;
}.

Inductive LoadError := CannotOpen (path : list Z) | Cancelled.

Record Loaded := mkLoaded { ld_trie : BlocklistTrie; ld_report : LoadReport }.
Record Attempt := mkAttempt { at_stamps : list FileStamp; at_result : LoadError + Loaded }.

Record Blocklists := mkBlocklists {
  bs_config : ListsConfig; bs_trie : BlocklistTrie; bs_stamps : list FileStamp; bs_reloading : bool;
  bs_finished : option Attempt;
  bs_worker : option ListsConfig;  (* the configuration the running worker captured *)
}.

Definition new_blocklists (config : ListsConfig) : Blocklists := mkBlocklists config empty_trie [] false None None.

Definition stamp_file (disk : Disk) (path : list Z) : FileStamp :=
  match dk_stat disk path with
  | Some (dev, ino, size, sec, nsec) => mkStamp true dev ino size sec nsec
  | None => no_file
  end.

Definition stamp_files (config : ListsConfig) (disk : Disk) : list FileStamp :=
  map (stamp_file disk) (lc_blocklists config ++ lc_allowlists config).

(** The files in the order they are read. *)
Definition list_files (config : ListsConfig) : list (list Z * ListAction) :=
  map (λ p, (p, Block)) (lc_blocklists config) ++ map (λ p, (p, Allow)) (lc_allowlists config).

Section read.
Context `{InetPton}.

(** The nested [for] loops; [i] counts the files opened. *)
Fixpoint read_files (disk : Disk) (i : nat) (files : list (list Z * ListAction)) (b : TrieBuilder)
    (reports : list ListReport) : LoadError + (TrieBuilder * list ListReport) :=
  match files with
  | [] => inr (b, reports)
  | (path, action) :: files =>
    if dk_stop disk i then inl Cancelled else
    match load_file b path action (dk_read disk i path) with
    | None => inl (CannotOpen path)
    | Some (b, stats) => read_files disk (S i) files b (reports ++ [mkListReport path action stats])
    end
  end.

Definition read_lists (config : ListsConfig) (disk : Disk) : outcome Empty_set Attempt :=
  let stamps := stamp_files config disk in
  match read_files disk 0 (list_files config) empty_builder [] with
  | inl e => Ok (mkAttempt stamps (inl e))
  | inr (b, reports) =>
    trie ← build_trie b;
    Ok (mkAttempt stamps (inr (mkLoaded trie (mkLoadReport reports (t_rule_count trie)))))
  end.

Definition use (s : Blocklists) (attempt : Attempt) : (LoadError + LoadReport) * Blocklists :=
  let s := mkBlocklists (bs_config s) (bs_trie s) (at_stamps attempt) (bs_reloading s) (bs_finished s) (bs_worker s) in
  match at_result attempt with
  | inl e => (inl e, s)
  | inr l => (inr (ld_report l),
      mkBlocklists (bs_config s) (ld_trie l) (bs_stamps s) (bs_reloading s) (bs_finished s) (bs_worker s))
  end.

(** No stop is ever requested of a direct load. *)
Definition never_stopped (disk : Disk) : Disk := mkDisk (dk_stat disk) (dk_read disk) (λ _, false).

Definition load (s : Blocklists) (disk : Disk) : outcome Empty_set ((LoadError + LoadReport) * Blocklists) :=
  attempt ← read_lists (bs_config s) (never_stopped disk); Ok (use s attempt).

(** Starting the worker joins the previous one: [Dangling] marks a join that
    would have to wait for a worker still running. *)
Definition start_reload (s : Blocklists) : outcome Empty_set (bool * Blocklists) :=
  if bs_reloading s then Ok (false, s) else
  match bs_worker s with
  | Some _ => Fault Dangling
  | None => Ok (true, mkBlocklists (bs_config s) (bs_trie s) (bs_stamps s) true (bs_finished s) (Some (bs_config s)))
  end.

(** The body of the worker thread. *)
Definition worker_run (s : Blocklists) (disk : Disk) : outcome Empty_set Blocklists :=
  match bs_worker s with
  | None => Ok s
  | Some config =>
    attempt ← read_lists config disk;
    Ok (mkBlocklists (bs_config s) (bs_trie s) (bs_stamps s) (bs_reloading s) (Some attempt) None)
  end.

Definition finish_reload (s : Blocklists) : option (LoadError + LoadReport) * Blocklists :=
  match bs_finished s with
  | None => (None, s)
  | Some attempt =>
    let s := mkBlocklists (bs_config s) (bs_trie s) (bs_stamps s) false None (bs_worker s) in
    let '(r, s) := use s attempt in (Some r, s)
  end.

Definition files_changed (s : Blocklists) (disk : Disk) : bool :=
  negb (bool_decide (stamp_files (bs_config s) disk = bs_stamps s)).

Definition lists_lookup (s : Blocklists) (name : Name) : TrieLookupResult := bl_lookup (bs_trie s) name.
Definition lists_size (s : Blocklists) : Z := t_rule_count (bs_trie s).

(** ** Steps *)

Inductive step : Blocklists → Blocklists → Prop :=
| step_load s disk r s' : load s disk = Ok (r, s') → step s s'
| step_start s b s' : start_reload s = Ok (b, s') → step s s'
| step_worker s disk s' : worker_run s disk = Ok s' → step s s'
| step_finish s r s' : finish_reload s = (r, s') → step s s'.

Inductive reachable (config : ListsConfig) : Blocklists → Prop :=
| reach_new : reachable config (new_blocklists config)
| reach_step s s' : reachable config s → step s s' → reachable config s'.

(** A trie that comes from reading every configured list to its end. *)
Definition complete (config : ListsConfig) (t : BlocklistTrie) : Prop :=
  ∃ disk b reports, read_files disk 0 (list_files config) empty_builder [] = inr (b, reports) ∧ build_trie b = Ok t.

Definition attempt_ok (config : ListsConfig) (a : Attempt) : Prop :=
  match at_result a with inl _ => True | inr l => complete config (ld_trie l) end.

Record lists_inv (config : ListsConfig) (s : Blocklists) : Prop := {
  li_config : bs_config s = config;
  li_trie : bs_trie s = empty_trie ∨ complete config (bs_trie s);
  li_idle : bs_reloading s = false → bs_worker s = None ∧ bs_finished s = None;
  li_busy : bs_reloading s = true →
    (bs_worker s = Some config ∧ bs_finished s = None) ∨
    (bs_worker s = None ∧ ∃ a, bs_finished s = Some a ∧ attempt_ok config a);
}.

Lemma read_lists_ok config disk a : read_lists config disk = Ok a → attempt_ok config a.
Proof.
  unfold read_lists. destruct (read_files _ _ _ _ _) as [e|[b reports]] eqn:E; [by intros [= <-]|].
  destruct (build_trie b) as [t| |] eqn:Eb; try done. rewrite bind_Ok. intros [= <-]. cbn. by eexists _, _, _.
Qed.

Lemma use_inv config s a r s' : use s a = (r, s') → attempt_ok config a →
  lists_inv config s → lists_inv config s'.
Proof.
  unfold use, attempt_ok. intros Hu Ha [Hc Ht Hi Hb]. destruct (at_result a) as [e|l]; injection Hu as <- <-; split; auto.
Qed.

Lemma step_inv config s s' : lists_inv config s → step s s' → lists_inv config s'.
Proof.
  intros Hinv Hs. revert Hinv. destruct Hs as [s0 disk r s1 E|s0 b s1 E|s0 disk s1 E|s0 r s1 E]; intros Hinv.
  - unfold load in E. destruct (read_lists _ _) as [a| |] eqn:Ea; try done. rewrite bind_Ok in E. injection E as E.
    eapply use_inv; [exact E| |done]. apply read_lists_ok in Ea. by rewrite (li_config _ _ Hinv) in Ea.
  - unfold start_reload in E. destruct (bs_reloading s0) eqn:Er; [by injection E as <- <-|].
    destruct Hinv as [Hc Ht Hi Hb]. destruct (Hi Er) as [Hw Hf]. rewrite Hw in E. injection E as <- <-.
    split; cbn; [done|done|done|]. left. by rewrite Hc.
  - unfold worker_run in E. destruct (bs_worker s0) as [c|] eqn:Ew; [|by injection E as <-].
    destruct (read_lists c disk) as [a| |] eqn:Ea; try done. rewrite bind_Ok in E. injection E as <-.
    destruct Hinv as [Hc Ht Hi Hb]. destruct (bs_reloading s0) eqn:Er; [|destruct (Hi eq_refl); congruence].
    destruct (Hb eq_refl) as [[Hw Hf]|[Hw _]]; [|congruence]. rewrite Ew in Hw. injection Hw as ->.
    split; cbn; [done|done|congruence|]. right. split; [done|]. exists a. split; [done|by eapply read_lists_ok].
  - unfold finish_reload in E. destruct (bs_finished s0) as [a|] eqn:Ef; [|by injection E as <- <-].
    destruct (use _ a) as [r' s2] eqn:Eu. injection E as <- <-. destruct Hinv as [Hc Ht Hi Hb].
    destruct (bs_reloading s0) eqn:Er; [|destruct (Hi eq_refl); congruence].
    destruct (Hb eq_refl) as [[_ Hf]|(Hw & a' & Ha & Hok)]; [congruence|]. rewrite Ef in Ha. injection Ha as <-.
    eapply use_inv; [exact Eu|done|]. split; cbn; [done|done|done|done].
Qed.

Lemma reachable_inv config s : reachable config s → lists_inv config s.
Proof.
  induction 1 as [|s s' _ IH Hs]; [|by eapply step_inv]. split; cbn; [done|by left|done|done].
Qed.

(** Files hold bytes. *)
Definition disk_wf (disk : Disk) : Prop := ∀ i path file, dk_read disk i path = Some file → Forall (Forall is_byte) file.

(** The entry comes from one of the configured files. *)
Definition listed (files : list (list Z * ListAction)) (e : Entry) : Prop :=
  ∃ path a, (path, a) ∈ files ∧ file_entry path a e.

Lemma read_files_entries disk files : disk_wf disk → ∀ i b reports b' reports',
  read_files disk i files b reports = inr (b', reports') → ∃ es, b' = add_all b es ∧ Forall (listed files) es.
Proof.
  intros Hd. induction files as [|[path a] files IH]; intros i b reports b' reports'; cbn [read_files].
  { intros [= <- <-]. exists []. by split. }
  destruct (dk_stop disk i); [done|]. destruct (dk_read disk i path) as [file|] eqn:Ef; [|done].
  destruct (load_file_loads b path a file) as (es & st & -> & Hes & _); [by eapply Hd|]. intros Hr.
  apply IH in Hr as (es' & -> & Hes'). exists (es ++ es'). split; [unfold add_all; by rewrite fold_left_app|].
  apply Forall_app. split.
  - eapply Forall_impl; [exact Hes|]. intros e He. exists path, a. split; [left|done].
  - eapply Forall_impl; [exact Hes'|]. intros e (p & a' & Hin & He). exists p, a'. split; [by right|done].
Qed.

(** What is in use is what the files say.  When every configured list can
    be read, and the rules fit the trie's 32-bit index and the sources its
    16-bit id, reading gives a trie whose every lookup is the reference
    lookup over the entries of those files: block entries from the block
    lists, allow entries from the allow lists, each with its own path as
    source. *)
Lemma read_lists_entries config disk b reports :
  disk_wf disk → read_files disk 0 (list_files config) empty_builder [] = inr (b, reports) →
  fits (bd_rules b) → (zlen (bd_sources b) ≤ 65536)%Z →
  ∃ t es, read_lists config disk = Ok (mkAttempt (stamp_files config disk)
      (inr (mkLoaded t (mkLoadReport reports (t_rule_count t))))) ∧
    b = add_all empty_builder es ∧ Forall (listed (list_files config)) es ∧
    ∀ domain, name_wf domain → trie_lookup t domain = Ok (reference_lookup es domain).
Proof.
  intros Hd Hr Hfit Hsz. destruct (read_files_entries disk _ Hd _ _ _ _ _ Hr) as (es & Hb & Hes).
  assert (Hwf : Forall (λ e, name_wf (e_name e)) es).
  { eapply Forall_impl; [exact Hes|]. by intros e (p & a & _ & [? _ _ _ _]). }
  assert (Hh : holds b es).
  { subst b. apply (holds_add_all es empty_builder []); [constructor|done]. }
  destruct (build_trie_represents b Hfit (rules_key_wf b es Hh Hwf)) as (t & _ & Ht & _). exists t, es. split.
  - unfold read_lists. by rewrite Hr, Ht, bind_Ok.
  - split_and!; [done|done|]. intros domain Hdom. by apply (lookup_refines b es).
Qed.

(** ** Properties *)

(** C21: the lists are never half loaded.  In every state the operations and
    the worker can reach, in any interleaving, the trie in use is the empty
    one or was built after reading every configured list to its end; a reload
    starts exactly when none is under way, and then never waits for an old
    worker; an outcome is collected at most once, by the reload it belongs to;
    a failed reload leaves the trie in use as it was. *)
Theorem reload_atomic config s : reachable config s →
  (bs_trie s = empty_trie ∨ complete config (bs_trie s)) ∧
  (∃ s', start_reload s = Ok (negb (bs_reloading s), s')) ∧
  (is_Some (finish_reload s).1 → bs_reloading s = true ∧ bs_worker s = None ∧
    bs_reloading (finish_reload s).2 = false ∧ bs_finished (finish_reload s).2 = None) ∧
  (∀ e, (finish_reload s).1 = Some (inl e) → bs_trie (finish_reload s).2 = bs_trie s).
Proof.
  intros [Hc Ht Hi Hb]%reachable_inv. split; [done|]. split.
  { unfold start_reload. destruct (bs_reloading s) eqn:Er; [by eexists|].
    destruct (Hi eq_refl) as [-> _]. by eexists. }
  unfold finish_reload, use. destruct (bs_finished s) as [a|] eqn:Ef; [|split; [by intros [? ?]|done]].
  split; [|by destruct (at_result a)]. intros _.
  destruct (bs_reloading s) eqn:Er; [|destruct (Hi eq_refl); congruence].
  destruct (Hb eq_refl) as [[_ ?]|[Hw _]]; [congruence|]. split_and!; [done|done| |]; by destruct (at_result a).
Qed.
End read.

Definition ex_lists : ListsConfig := mkLists [str "ads"] [str "ok"] NullIp 60 true 60.
Definition ex_disk : Disk :=
  mkDisk (λ _, Some (1, 2, 3, 4, 5)%Z)
    (λ _ p, Some (if decide (p = str "ads") then [str "||ads.example^"; str "tracker.test"] else [str "ok.ads.example"]))
    (λ _, false).

Lemma ex_disk_wf : disk_wf ex_disk.
Proof.
  intros i p file. unfold ex_disk. cbn [dk_read]. intros [= <-]. destruct (decide _); by_compute.
Qed.

Definition ex_read : LoadError + (TrieBuilder * list ListReport) :=
  Eval vm_compute in @read_files ex_pton ex_disk 0 (list_files ex_lists) empty_builder [].
Definition ex_built : TrieBuilder := match ex_read with inr (b, _) => b | inl _ => empty_builder end.
Definition ex_reports : list ListReport := match ex_read with inr (_, r) => r | inl _ => [] end.

(** The entries read. *)
Example ex_lists_read : ∃ t es,
  @read_lists ex_pton ex_lists ex_disk = Ok (mkAttempt (stamp_files ex_lists ex_disk)
      (inr (mkLoaded t (mkLoadReport ex_reports (t_rule_count t))))) ∧
    ex_built = add_all empty_builder es ∧ Forall (listed (list_files ex_lists)) es ∧
    ∀ domain, name_wf domain → trie_lookup t domain = Ok (reference_lookup es domain).
Proof.
  apply (@read_lists_entries ex_pton ex_lists ex_disk ex_built ex_reports);
    [exact ex_disk_wf|vm_compute; reflexivity|by_compute|by_compute].
Qed.

(** A reload under way. *)
Definition ex_started : Blocklists :=
  mkBlocklists ex_lists empty_trie [] true None (Some ex_lists).

Lemma reload_atomic_witness :
  (bs_trie ex_started = empty_trie ∨ @complete ex_pton ex_lists (bs_trie ex_started)) ∧
  (∃ s', start_reload ex_started = Ok (negb (bs_reloading ex_started), s')) ∧
  (is_Some (finish_reload ex_started).1 → bs_reloading ex_started = true ∧ bs_worker ex_started = None ∧
    bs_reloading (finish_reload ex_started).2 = false ∧ bs_finished (finish_reload ex_started).2 = None) ∧
  (∀ e, (finish_reload ex_started).1 = Some (inl e) → bs_trie (finish_reload ex_started).2 = bs_trie ex_started).
Proof.
  apply (@reload_atomic ex_pton ex_lists ex_started).
  apply (@reach_step ex_pton ex_lists (new_blocklists ex_lists)); [apply reach_new|].
  apply (@step_start ex_pton _ true). reflexivity.
Defined.

Example reload_example :
  (s ← start_reload (new_blocklists ex_lists);
   s ← @worker_run ex_pton s.2 ex_disk;
   Ok (let s := (finish_reload s).2 in
       (lists_size s, map (λ d, blocked (bs_trie s) (default root_name (from_string (str d))))
          ["x.ads.example"; "ok.ads.example"; "tracker.test"; "example"]%string)))
  = Ok (3%Z, [true; false; true; false]).
Proof. vm_compute. reflexivity. Qed.
