(* ===== verification/ServerSelection.v ===== *)
(** * Server selection: [resolver/server_selection.cpp]

    Smoothed round-trip times per upstream server, the choice among
    candidates and the time to wait.  The injected [clock_] and [random_] are
    streams: the [i]th call returns the [i]th element, and the state counts
    the calls, so that two readings within one operation may differ as they
    do in the code.  Times are nanoseconds of the steady clock, round trips
    microseconds, both 64-bit and far from their limits; [failures] and
    [updates_] wrap at 32 bits. *)

From stdpp Require Import base tactics numbers list gmap fin_maps.
From Stdlib Require Import ZArith Lia.
From S2P Require Import Prelude.

Definition kPruneEvery : Z := 1024.
Definition kUnmeasured : Z := 400000.
Definition kTimeoutPenalty : Z := 2000000.
Definition kMaxSrtt : Z := 5000000.
Definition kMaxFailures : Z := 5.
Definition kMinTimeout : Z := 100.
Definition kForgetAfter : Z := 15 * 60 * 1000000000.

Record Info := mkInfo {
  i_measured : bool; i_srtt : Z; i_rttvar : Z; i_failures : Z; i_updated : Z;
}.

(** [Info{}]; the default time point is the clock's epoch. *)
Definition default_info : Info := mkInfo false 0 0 0 0.

Record ServerSelection := mkSelection {
  ss_explore_one_in : Z; ss_servers : gmap Z Info; ss_updates : Z;
  ss_ticks : nat; ss_draws : nat;
}.

Definition new_selection (explore_one_in : Z) : ServerSelection := mkSelection explore_one_in ∅ 0 0 0.

Definition set_servers (s : ServerSelection) (m : gmap Z Info) : ServerSelection :=
  mkSelection (ss_explore_one_in s) m (ss_updates s) (ss_ticks s) (ss_draws s).

Section selection.
Context (clock : nat → Z) (random : nat → Z → Z).

Definition tick (s : ServerSelection) : Z * ServerSelection :=
  (clock (ss_ticks s), mkSelection (ss_explore_one_in s) (ss_servers s) (ss_updates s) (S (ss_ticks s)) (ss_draws s)).

Definition draw (s : ServerSelection) (n : Z) : Z * ServerSelection :=
  (random (ss_draws s) n, mkSelection (ss_explore_one_in s) (ss_servers s) (ss_updates s) (ss_ticks s) (S (ss_draws s))).

(** Older than [kForgetAfter] at [now]. *)
Definition forgotten (now : Z) (i : Info) : bool := (kForgetAfter <? now - i_updated i)%Z.

(** The clock is read only when the server is known. *)
Definition fresh (s : ServerSelection) (server : Z) : option Info * ServerSelection :=
  match ss_servers s !! server with
  | None => (None, s)
  | Some i => let '(now, s) := tick s in (if forgotten now i then None else Some i, s)
  end.

(** [entry]: the reference it returns is the value to be written back. *)
Definition entry (s : ServerSelection) (server : Z) : Info * ServerSelection :=
  match ss_servers s !! server with
  | None => (default_info, set_servers s (<[server := default_info]> (ss_servers s)))
  | Some i =>
    if (i_updated i =? 0)%Z then (i, s) else
    let '(now, s) := tick s in
    if forgotten now i then (default_info, set_servers s (<[server := default_info]> (ss_servers s))) else (i, s)
  end.

Definition set_updated (i : Info) (now : Z) : Info := mkInfo (i_measured i) (i_srtt i) (i_rttvar i) (i_failures i) now.

(** [touched] on the entry of [server], whose new value is [info]. *)
Definition touched (s : ServerSelection) (server : Z) (info : Info) : ServerSelection :=
  let '(now, s) := tick s in
  let s := set_servers s (<[server := set_updated info now]> (ss_servers s)) in
  let updates := u32 (ss_updates s + 1) in
  let s := mkSelection (ss_explore_one_in s) (ss_servers s) updates (ss_ticks s) (ss_draws s) in
  if (updates mod kPruneEvery =? 0)%Z then
    let '(now, s) := tick s in
    set_servers s (filter (λ kv, forgotten now kv.2 = false) (ss_servers s))
  else s.

Definition Rank : Type := bool * Z.

(** [std::pair]'s [<]: [false] before [true]. *)
Definition rank_lt (a b : Rank) : bool :=
  (negb a.1 && b.1) || (bool_decide (a.1 = b.1) && (a.2 <? b.2)%Z).

Definition rank_of (info : option Info) : Rank :=
  match info with
  | None => (false, kUnmeasured)
  | Some i => ((kMaxFailures <=? i_failures i)%Z, if i_measured i then i_srtt i else kUnmeasured)
  end.

Definition rank (s : ServerSelection) (a : Z) : Rank * ServerSelection :=
  let '(i, s) := fresh s a in (rank_of i, s).

(** The loop over the candidates. *)
Fixpoint best_of (s : ServerSelection) (candidates best : list Z) (best_rank : Rank) : list Z * ServerSelection :=
  match candidates with
  | [] => (best, s)
  | a :: candidates =>
    let '(r, s) := rank s a in
    if bool_decide (best = []) || rank_lt r best_rank then best_of s candidates [a] r
    else if decide (r = best_rank) then best_of s candidates (best ++ [a]) best_rank
    else best_of s candidates best best_rank
  end.

(** [v[i]]. *)
Definition at_index (v : list Z) (i : Z) : outcome Empty_set Z :=
  if decide (0 ≤ i)%Z then match v !! Z.to_nat i with Some a => Ok a | None => Fault OutOfBounds end
  else Fault OutOfBounds.

Definition pick_best (s : ServerSelection) (candidates : list Z) : outcome Empty_set (Z * ServerSelection) :=
  let '(best, s) := best_of s candidates [] (false, 0%Z) in
  if decide (length best = 1) then a ← at_index best 0; Ok (a, s)
  else let '(i, s) := draw s (u32 (zlen best)) in a ← at_index best i; Ok (a, s).

Definition pick (s : ServerSelection) (candidates : list Z) : outcome Empty_set (Z * ServerSelection) :=
  let n := u32 (zlen candidates) in
  if ((1 <? n) && negb (ss_explore_one_in s =? 0))%Z then
    let '(d, s) := draw s (ss_explore_one_in s) in
    if (d =? 0)%Z then let '(i, s) := draw s n in a ← at_index candidates i; Ok (a, s)
    else pick_best s candidates
  else pick_best s candidates.

(** [std::chrono::ceil<milliseconds>] of microseconds. *)
Definition ceil_ms (us : Z) : Z :=
  let t := Z.quot us 1000 in if (t * 1000 <? us)%Z then (t + 1)%Z else t.

(** [std::clamp]. *)
Definition clamp (v lo hi : Z) : Z := if (v <? lo)%Z then lo else if (hi <? v)%Z then hi else v.

Definition timeout (s : ServerSelection) (server ceiling : Z) : Z * ServerSelection :=
  let '(info, s) := fresh s server in
  match info with
  | Some i =>
    if i_measured i then (clamp (ceil_ms (i_srtt i + 4 * i_rttvar i)) (Z.min kMinTimeout ceiling) ceiling, s)
    else (ceiling, s)
  | None => (ceiling, s)
  end.

(** One round-trip sample (RFC 6298). *)
Definition absorb_sample (i : Info) (rtt : Z) : Info :=
  let sample := Z.max rtt 0 in
  if negb (i_measured i) then mkInfo true sample (Z.quot sample 2) (i_failures i) (i_updated i)
  else
    let error := if (sample <? i_srtt i)%Z then (i_srtt i - sample)%Z else (sample - i_srtt i)%Z in
    mkInfo true (Z.quot (7 * i_srtt i + sample) 8) (Z.quot (3 * i_rttvar i + error) 4) (i_failures i) (i_updated i).

Definition set_failures (i : Info) (n : Z) : Info := mkInfo (i_measured i) (i_srtt i) (i_rttvar i) n (i_updated i).

Definition record_answer (s : ServerSelection) (server : Z) (rtt : option Z) : ServerSelection :=
  let '(i, s) := entry s server in
  let i := set_failures i 0 in
  touched s server match rtt with Some rtt => absorb_sample i rtt | None => i end.

Definition record_unusable (s : ServerSelection) (server : Z) : ServerSelection :=
  let '(i, s) := entry s server in
  touched s server (set_failures i (u32 (i_failures i + 1))).

(** A timeout is a measurement too. *)
Definition penalise (i : Info) : Info :=
  let srtt := if i_measured i then i_srtt i else kUnmeasured in
  mkInfo true (Z.min (srtt + kTimeoutPenalty) kMaxSrtt) (i_rttvar i) (i_failures i) (i_updated i).

Definition record_failure (s : ServerSelection) (server : Z) : ServerSelection :=
  let '(i, s) := entry s server in
  let i := penalise i in
  touched s server (set_failures i (u32 (i_failures i + 1))).

Definition info (s : ServerSelection) (server : Z) : option Info * ServerSelection := fresh s server.

(** ** What is known of a server *)

Inductive Event := Answered (rtt : option Z) | Unusable | Failed.

Definition apply_event (s : ServerSelection) (e : Z * Event) : ServerSelection :=
  match e.2 with
  | Answered rtt => record_answer s e.1 rtt
  | Unusable => record_unusable s e.1
  | Failed => record_failure s e.1
  end.

(** The effect of an event on a server's information. *)
Definition event_info (e : Event) (i : Info) : Info :=
  match e with
  | Answered (Some rtt) => absorb_sample (set_failures i 0) rtt
  | Answered None => set_failures i 0
  | Unusable => set_failures i (u32 (i_failures i + 1))
  | Failed => set_failures (penalise i) (u32 (i_failures i + 1))
  end.

Lemma apply_event_entry s a e :
  apply_event s (a, e) = let '(i, s) := entry s a in touched s a (event_info e i).
Proof. destruct e as [[rtt|]| |]; cbn; unfold record_answer, record_unusable, record_failure; by destruct (entry s a). Qed.

(** What [info] would report at [t]. *)
Definition known (t : Z) (i : option Info) : option Info := i ≫= λ i, if forgotten t i then None else Some i.
Definition view (s : ServerSelection) (t : Z) (a : Z) : option Info := known t (ss_servers s !! a).

Definition steady : Prop := (∀ i, 0 < clock i)%Z ∧ (∀ i j : nat, i ≤ j → (clock i ≤ clock j)%Z).
Definition dated (s : ServerSelection) : Prop := ∀ a i, ss_servers s !! a = Some i → (0 < i_updated i)%Z.

Lemma forgotten_later t t' i : (t ≤ t')%Z → forgotten t i = true → forgotten t' i = true.
Proof. unfold forgotten. rewrite !Z.ltb_lt. lia. Qed.

(** [entry] hands out what is known of the server when it looks, or nothing. *)
Lemma entry_spec s a : dated s → ∃ t k,
  (t = clock (ss_ticks s)) ∧ k ≤ 1 ∧
  (entry s a).1 = default default_info (view s t a) ∧
  ss_ticks (entry s a).2 = ss_ticks s + k ∧ ss_updates (entry s a).2 = ss_updates s ∧
  (∀ b, b ≠ a → ss_servers (entry s a).2 !! b = ss_servers s !! b).
Proof.
  intros Hd. exists (clock (ss_ticks s)). unfold entry, view, tick.
  destruct (ss_servers s !! a) as [i|] eqn:E.
  - specialize (Hd a i E). rewrite (proj2 (Z.eqb_neq _ _)) by lia. exists 1.
    cbn [known mbind option_bind]. destruct (forgotten (clock (ss_ticks s)) i) eqn:Ef; cbn;
      (split_and!; [done|lia|by rewrite ?Ef|lia|done|]); [|done].
    intros b Hb. by rewrite lookup_insert_ne.
  - exists 0. cbn. split_and!; [done|lia|done|lia|done|]. intros b Hb. by rewrite lookup_insert_ne.
Qed.

(** Pruning removes only what has been forgotten. *)
Lemma touched_view s a i b t : steady → (clock (S (ss_ticks s)) ≤ t)%Z →
  view (touched s a i) t b =
    if decide (b = a) then known t (Some (set_updated i (clock (ss_ticks s)))) else view s t b.
Proof.
  intros [Hpos Hmono] Ht. unfold touched, tick, view. cbn [set_servers ss_servers ss_ticks ss_updates ss_draws ss_explore_one_in].
  set (m := <[a := set_updated i (clock (ss_ticks s))]> (ss_servers s)).
  assert (Hm : known t (m !! b) =
    if decide (b = a) then known t (Some (set_updated i (clock (ss_ticks s)))) else known t (ss_servers s !! b)).
  { unfold m. case_decide; [subst; by rewrite lookup_insert_eq|by rewrite lookup_insert_ne]. }
  destruct (_ =? 0)%Z; cbn [set_servers ss_servers ss_ticks]; [|done]. rewrite <-Hm. rewrite map_lookup_filter.
  destruct (m !! b) as [j|] eqn:Ej; [|done]. cbn. destruct (forgotten (clock (S (ss_ticks s))) j) eqn:Ef; cbn.
  - by rewrite (forgotten_later _ t _ Ht Ef).
  - done.
Qed.

Lemma touched_ticks s a i : ss_ticks s < ss_ticks (touched s a i) ≤ ss_ticks s + 2.
Proof. unfold touched, tick. cbn. destruct (_ =? 0)%Z; cbn; lia. Qed.

(** ** What the table holds *)

Lemma touched_lookup s a i b j : ss_servers (touched s a i) !! b = Some j →
  (b = a ∧ j = set_updated i (clock (ss_ticks s))) ∨ (b ≠ a ∧ ss_servers s !! b = Some j).
Proof.
  unfold touched, tick. cbn [set_servers ss_servers ss_ticks ss_updates ss_draws ss_explore_one_in].
  destruct (_ =? 0)%Z; cbn [set_servers ss_servers]; [rewrite map_lookup_filter_Some; intros [H _]; revert H|];
    rewrite lookup_insert_Some; naive_solver.
Qed.

Lemma entry_value s a : (entry s a).1 = default_info ∨ ss_servers s !! a = Some (entry s a).1.
Proof.
  unfold entry, tick. destruct (ss_servers s !! a) as [i|] eqn:E; [|by left]. destruct (_ =? 0)%Z; [by right|].
  destruct (forgotten _ _); cbn; auto.
Qed.

Lemma entry_lookup s a b j : b ≠ a → ss_servers (entry s a).2 !! b = Some j → ss_servers s !! b = Some j.
Proof.
  intros Hb. unfold entry, tick. destruct (ss_servers s !! a) as [i|] eqn:E; cbn.
  - destruct (_ =? 0)%Z; [done|]. destruct (forgotten _ _); cbn; [|done]. by rewrite lookup_insert_ne.
  - by rewrite lookup_insert_ne.
Qed.

(** A property of a server's information that every event keeps, the time of
    the update aside, holds of the whole table. *)
Lemma apply_event_lookup s a e b j : ss_servers (apply_event s (a, e)) !! b = Some j →
  (∃ i now, j = set_updated (event_info e i) now ∧ (i = default_info ∨ ss_servers s !! a = Some i) ∧
            ∃ k, now = clock k) ∨
  ss_servers s !! b = Some j.
Proof.
  rewrite apply_event_entry. pose proof (entry_value s a) as Hv. pose proof (entry_lookup s a b j) as Hl.
  destruct (entry s a) as [i s']. cbn [fst snd] in *. intros [[-> ->]|[Hb Hj]]%touched_lookup; [left|right; by apply Hl].
  exists i, (clock (ss_ticks s')). split; [done|]. split; [destruct Hv; auto|by eexists].
Qed.

Definition run (s : ServerSelection) (events : list (Z * Event)) : ServerSelection := fold_left apply_event events s.

Lemma run_dated events : steady → ∀ s, dated s → dated (run s events).
Proof.
  intros [Hpos _]. induction events as [|[a e] events IH]; intros s Hd; [done|]. apply IH. intros b j Hj.
  apply apply_event_lookup in Hj as [(i & now & -> & _ & k & ->)|Hj]; [apply Hpos|by eapply Hd].
Qed.

Lemma new_dated n : dated (new_selection n).
Proof. intros a i. cbn. by rewrite lookup_empty. Qed.

(** Round trips stay within the largest sample. *)
Record info_ok (M : Z) (i : Info) : Prop := {
  io_srtt : (0 ≤ i_srtt i ≤ M)%Z;
  io_rttvar : (0 ≤ i_rttvar i ≤ M)%Z;
  io_failures : is_u32 (i_failures i);
}.

Definition sample_ok (M : Z) (e : Z * Event) : Prop :=
  match e.2 with Answered (Some rtt) => (rtt ≤ M)%Z | _ => True end.

Lemma event_info_ok M a e i : (kMaxSrtt ≤ M)%Z → sample_ok M (a, e) → info_ok M i → info_ok M (event_info e i).
Proof.
  clear clock random. intros HM He [Hs Hv Hf]. assert (Hu : ∀ v, is_u32 (u32 v)) by (intros v; apply Z.mod_pos_bound; lia).
  unfold sample_ok, kMaxSrtt in *. destruct e as [[rtt|]| |]; cbn [event_info snd] in *.
  - unfold absorb_sample. cbn [i_measured set_failures i_srtt i_rttvar i_failures]. unfold is_u32.
    destruct (i_measured i); cbn [negb]; [|split; cbn [i_srtt i_rttvar i_failures]; unfold is_u32; Z.to_euclidean_division_equations; lia].
    assert (0 ≤ (if (Z.max rtt 0 <? i_srtt i)%Z then i_srtt i - Z.max rtt 0 else Z.max rtt 0 - i_srtt i) ≤ M)%Z
      by (destruct (Z.ltb_spec (Z.max rtt 0) (i_srtt i)); lia).
    split; cbn [i_srtt i_rttvar i_failures]; unfold is_u32; Z.to_euclidean_division_equations; lia.
  - split; cbn [i_srtt i_rttvar i_failures set_failures]; [done|done|unfold is_u32; lia].
  - split; [exact Hs|exact Hv|apply Hu].
  - unfold penalise, kTimeoutPenalty, kMaxSrtt, kUnmeasured. split; cbn [i_srtt i_rttvar i_failures set_failures];
      [destruct (i_measured i); lia|done|done].
Qed.

Lemma run_info_ok M events : (kMaxSrtt ≤ M)%Z → Forall (sample_ok M) events → ∀ s,
  (∀ a i, ss_servers s !! a = Some i → info_ok M i) →
  ∀ a i, ss_servers (run s events) !! a = Some i → info_ok M i.
Proof.
  intros HM Hev. induction Hev as [|[a e] events He _ IH]; intros s Hs; [done|]. apply IH. intros b j Hj.
  apply apply_event_lookup in Hj as [(i & now & -> & Hi & _)|Hj]; [|by eapply Hs].
  assert (Hok : info_ok M (event_info e i)).
  { eapply event_info_ok; [done|done|]. destruct Hi as [-> |Hi]; [|by eapply Hs].
    unfold kMaxSrtt in HM. split; cbn; try lia. unfold is_u32; lia. }
  by destruct Hok.
Qed.

(** ** The choice *)

Lemma rank_lt_spec (a b : Rank) : rank_lt a b = true ↔ (a.1 = false ∧ b.1 = true) ∨ (a.1 = b.1 ∧ (a.2 < b.2)%Z).
Proof.
  unfold rank_lt. rewrite orb_true_iff, !andb_true_iff, negb_true_iff, bool_decide_eq_true, Z.ltb_lt. done.
Qed.

Lemma rank_lt_trans a b c : rank_lt a b = true → rank_lt b c = true → rank_lt a c = true.
Proof.
  rewrite !rank_lt_spec. destruct a as [[] x], b as [[] y], c as [[] z]; cbn; intuition (try congruence; try lia).
Qed.

Lemma rank_lt_irrefl a : rank_lt a a = false.
Proof. apply not_true_iff_false. rewrite rank_lt_spec. destruct a as [[] x]; cbn; intuition (try congruence; try lia). Qed.

(** The rank of each candidate when the loop looks at it. *)
Fixpoint ranks (s : ServerSelection) (candidates : list Z) : list Rank :=
  match candidates with
  | [] => []
  | a :: candidates => let '(r, s) := rank s a in r :: ranks s candidates
  end.

(** [best] are candidates of the least rank [r] among those looked at. *)
Record best_inv (looked : list Z) (rs : list Rank) (best : list Z) (r : Rank) : Prop := {
  be_length : length looked = length rs;
  be_some : looked ≠ [] → best ≠ [];
  be_rank : ∀ a, a ∈ best → ∃ i, looked !! i = Some a ∧ rs !! i = Some r;
  be_least : best ≠ [] → ∀ r', r' ∈ rs → rank_lt r' r = false;
}.

Lemma lookup_snoc_both (looked : list Z) (rs : list Rank) a r i x y :
  length looked = length rs → looked !! i = Some x → rs !! i = Some y →
  (looked ++ [a]) !! i = Some x ∧ (rs ++ [r]) !! i = Some y.
Proof. intros _ Hx Hy. by rewrite (lookup_app_l_Some _ _ _ _ Hx), (lookup_app_l_Some _ _ _ _ Hy). Qed.

Lemma best_inv_new looked rs best r a r' : best_inv looked rs best r → best = [] ∨ rank_lt r' r = true →
  best_inv (looked ++ [a]) (rs ++ [r']) [a] r'.
Proof.
  intros [Hl Hs Hr Hm] Hnew. split; [by rewrite !length_app, Hl|done| |].
  - intros x ->%list_elem_of_singleton. exists (length looked). rewrite lookup_app_r, Nat.sub_diag by lia.
    by rewrite Hl, lookup_app_r, Nat.sub_diag by lia.
  - intros _ q [Hq| ->%list_elem_of_singleton]%elem_of_app; [|apply rank_lt_irrefl].
    assert (best ≠ []) as Hne.
    { intros ->. destruct looked; [|by apply Hs]. destruct rs; [by apply elem_of_nil in Hq|done]. }
    destruct Hnew as [?|Hlt]; [done|]. destruct (rank_lt q r') eqn:E; [|done].
    rewrite <-(Hm Hne q Hq). symmetry. by eapply rank_lt_trans.
Qed.

Lemma best_inv_keep looked rs best r a r' : best_inv looked rs best r → best ≠ [] → rank_lt r' r = false →
  best_inv (looked ++ [a]) (rs ++ [r']) (if decide (r' = r) then best ++ [a] else best) r.
Proof.
  intros [Hl Hs Hr Hm] Hne Hlt.
  assert (Hold : ∀ x, x ∈ best → ∃ i, (looked ++ [a]) !! i = Some x ∧ (rs ++ [r']) !! i = Some r).
  { intros x (i & Hx & Hy)%Hr. exists i. by eapply lookup_snoc_both. }
  split; [by rewrite !length_app, Hl|by case_decide; [destruct best|]| |].
  - case_decide as E; [|done]. intros x [Hx| ->%list_elem_of_singleton]%elem_of_app; [by apply Hold|].
    exists (length looked). rewrite lookup_app_r, Nat.sub_diag by lia. rewrite Hl, lookup_app_r, Nat.sub_diag by lia.
    by subst.
  - intros _ q [Hq| ->%list_elem_of_singleton]%elem_of_app; [by apply Hm|done].
Qed.

Lemma best_of_spec candidates : ∀ s looked rs best r, best_inv looked rs best r →
  ∃ r', best_inv (looked ++ candidates) (rs ++ ranks s candidates) (best_of s candidates best r).1 r'.
Proof.
  induction candidates as [|a candidates IH]; intros s looked rs best r Hinv.
  { exists r. by rewrite !app_nil_r. }
  cbn [best_of ranks]. destruct (rank s a) as [r' s'].
  rewrite (cons_middle a looked), (cons_middle r' rs), !app_assoc.
  destruct (bool_decide (best = [])) eqn:Eb; cbn [orb].
  { apply bool_decide_eq_true in Eb. apply IH. eapply best_inv_new; [done|by left]. }
  apply bool_decide_eq_false in Eb. destruct (rank_lt r' r) eqn:El.
  { apply IH. eapply best_inv_new; [done|by right]. }
  pose proof (best_inv_keep _ _ _ _ a r' Hinv Eb El) as Hk. destruct (decide (r' = r)); by apply IH.
Qed.

Definition fair : Prop := ∀ i n, (0 < n)%Z → (0 ≤ random i n < n)%Z.

Lemma at_index_ok v i : (0 ≤ i < zlen v)%Z → ∃ a, at_index v i = Ok a ∧ a ∈ v.
Proof.
  intros Hi. unfold at_index. rewrite decide_True by lia. unfold zlen in Hi.
  destruct (lookup_lt_is_Some_2 v (Z.to_nat i)) as [a Ha]; [lia|]. exists a. rewrite Ha. split; [done|].
  by eapply list_elem_of_lookup_2.
Qed.

(** Whether this pick is one of the random ones. *)
Definition explores (s : ServerSelection) (candidates : list Z) : bool :=
  ((1 <? u32 (zlen candidates)) && negb (ss_explore_one_in s =? 0)%Z &&
   (random (ss_draws s) (ss_explore_one_in s) =? 0))%Z.

Lemma best_of_length s candidates : ∀ best r, length (best_of s candidates best r).1 ≤ length best + length candidates.
Proof.
  revert s. induction candidates as [|a candidates IH]; intros s best r; cbn [best_of length]; [cbn; lia|].
  destruct (rank s a) as [r' s']. destruct (_ || _); [etrans; [apply IH|simpl; lia]|].
  destruct (decide _); (etrans; [apply IH|]); rewrite ?length_app; simpl; lia.
Qed.

Lemma pick_best_spec s candidates : fair → candidates ≠ [] → (zlen candidates < 4294967296)%Z →
  ∃ a s' i r, pick_best s candidates = Ok (a, s') ∧ candidates !! i = Some a ∧
    ranks s candidates !! i = Some r ∧ ∀ r', r' ∈ ranks s candidates → rank_lt r' r = false.
Proof.
  intros Hfair Hne Hsz. unfold pick_best.
  destruct (best_of_spec candidates s [] [] [] (false, 0%Z)) as [r [Hl Hs Hr Hm]].
  { split; [done|done|by intros ? ?%elem_of_nil|done]. }
  pose proof (best_of_length s candidates [] (false, 0%Z)) as Hbl.
  rewrite !app_nil_l in *. destruct (best_of s candidates [] (false, 0%Z)) as [best s']. cbn [fst length] in *.
  specialize (Hs Hne).
  assert (Hpick : ∃ a s'', (if decide (length best = 1) then a ← at_index best 0; Ok (a, s')
      else let '(i, s) := draw s' (u32 (zlen best)) in a ← at_index best i; Ok (a, s)) = Ok (a, s'') ∧ a ∈ best).
  { destruct (decide (length best = 1)) as [E|E].
    - destruct (at_index_ok best 0) as (a & -> & Ha); [unfold zlen; lia|]. by exists a, s'.
    - unfold draw. assert (Hb : (0 < zlen best)%Z) by (destruct best; [done|unfold zlen; simpl; lia]).
      assert (u32 (zlen best) = zlen best) as -> by (apply Z.mod_small; unfold zlen in *; lia).
      destruct (at_index_ok best (random (ss_draws s') (zlen best))) as (a & -> & Ha); [by apply Hfair|].
      eexists a, _. by split. }
  destruct Hpick as (a & s'' & -> & Ha). destruct (Hr a Ha) as (i & Hi & Hri).
  exists a, s'', i, r. split_and!; [done|done|done|by apply Hm].
Qed.

(** [arc4random_uniform] returns 0 for a bound below 2; so the pick is one of
    the candidates whatever their number. *)
Definition uniform : Prop := ∀ i n, (0 ≤ random i n < Z.max n 1)%Z.

Lemma pick_best_member s candidates : uniform → candidates ≠ [] →
  ∃ a s', pick_best s candidates = Ok (a, s') ∧ a ∈ candidates.
Proof.
  intros Hu Hne. unfold pick_best. destruct (best_of_spec candidates s [] [] [] (false, 0%Z)) as [r [_ Hs Hr _]].
  { split; [done|done|by intros ? ?%elem_of_nil|done]. }
  rewrite !app_nil_l in *. destruct (best_of s candidates [] (false, 0%Z)) as [best s']. cbn [fst] in *. specialize (Hs Hne).
  assert (Hb : (0 < zlen best)%Z) by (destruct best; [done|unfold zlen; simpl; lia]).
  assert (Hin : ∀ a, a ∈ best → a ∈ candidates) by (intros a (i & Hi & _)%Hr; by eapply list_elem_of_lookup_2).
  destruct (decide (length best = 1)).
  - destruct (at_index_ok best 0) as (a & -> & Ha); [lia|]. exists a, s'. auto.
  - unfold draw. assert (u32 (zlen best) ≤ zlen best)%Z by (apply Z.mod_le; lia).
    destruct (at_index_ok best (random (ss_draws s') (u32 (zlen best)))) as (a & -> & Ha).
    { specialize (Hu (ss_draws s') (u32 (zlen best))). lia. }
    eexists a, _. auto.
Qed.

Lemma pick_member s candidates : uniform → candidates ≠ [] → ∃ a s', pick s candidates = Ok (a, s') ∧ a ∈ candidates.
Proof.
  intros Hu Hne. unfold pick. destruct (_ && _) eqn:Eg; [|by apply pick_best_member]. unfold draw. cbn [ss_draws].
  destruct (random _ _ =? 0)%Z; [|by apply pick_best_member].
  apply andb_true_iff in Eg as [Eg%Z.ltb_lt _]. assert (u32 (zlen candidates) ≤ zlen candidates)%Z by (apply Z.mod_le; unfold zlen; lia).
  destruct (at_index_ok candidates (random (S (ss_draws s)) (u32 (zlen candidates)))) as (a & -> & Ha).
  { specialize (Hu (S (ss_draws s)) (u32 (zlen candidates))). lia. }
  eexists a, _. auto.
Qed.
End selection.

(** ** Properties *)

Section properties.
Context (clock : nat → Z) (random : nat → Z → Z).

(** The choice of a server.  With at least one candidate a pick never
    indexes out of range and returns a candidate; unless it is one of the
    random picks, no candidate ranks before it: a server with fewer than five
    failures in a row comes before every deprioritised one, then the lowest
    smoothed round trip wins. *)
Lemma pick_least_rank s candidates :
  fair random → candidates ≠ [] → (zlen candidates < 4294967296)%Z →
  ∃ a s' i, pick clock random s candidates = Ok (a, s') ∧ candidates !! i = Some a ∧
    (explores random s candidates = false →
     ∃ s1 r, ss_servers s1 = ss_servers s ∧ ranks clock s1 candidates !! i = Some r ∧
       ∀ r', r' ∈ ranks clock s1 candidates → rank_lt r' r = false).
Proof.
  intros Hfair Hne Hsz. unfold pick, explores.
  assert (Hbest : ∀ s0, ss_servers s0 = ss_servers s → ∃ a s' i, pick_best clock random s0 candidates = Ok (a, s') ∧
    candidates !! i = Some a ∧ ∃ s1 r, ss_servers s1 = ss_servers s ∧ ranks clock s1 candidates !! i = Some r ∧
       ∀ r', r' ∈ ranks clock s1 candidates → rank_lt r' r = false).
  { intros s0 Hs0. destruct (pick_best_spec clock random s0 candidates Hfair Hne Hsz) as (a & s' & i & r & ? & ? & ? & ?).
    exists a, s', i. split_and!; [done|done|]. by exists s0, r. }
  destruct ((1 <? u32 (zlen candidates))%Z && negb (ss_explore_one_in s =? 0)%Z) eqn:Eg; unfold draw; cbn [andb].
  - destruct (random (ss_draws s) (ss_explore_one_in s) =? 0)%Z eqn:Ed.
    + assert (Hn : u32 (zlen candidates) = zlen candidates) by (apply Z.mod_small; unfold zlen in *; lia).
      apply andb_true_iff in Eg as [Eg _]. apply Z.ltb_lt in Eg.
      destruct (at_index_ok candidates (random (S (ss_draws s)) (u32 (zlen candidates)))) as (a & Ha & Hin).
      { rewrite Hn in *. apply Hfair. lia. }
      cbn [ss_draws]. rewrite Ha. apply list_elem_of_lookup in Hin as [i Hi]. eexists a, _, i. by split_and!.
    + destruct (Hbest (mkSelection (ss_explore_one_in s) (ss_servers s) (ss_updates s) (ss_ticks s) (S (ss_draws s))))
        as (a & s' & i & ? & ? & ?); [done|]. exists a, s', i. by split_and!.
  - destruct (Hbest s eq_refl) as (a & s' & i & ? & ? & ?). exists a, s', i. by split_and!.
Qed.

(** C26: the table is the ideal table.  After any history, recording an event
    for one server updates what is known of it (nothing, if it had been
    forgotten when the event arrived) and nothing else; the sweep for
    forgotten servers, whenever it runs, never changes what a later query
    sees. *)
Theorem record_refines n events a e :
  steady clock →
  let s := run clock (new_selection n) events in
  let s' := apply_event clock s (a, e) in
  ∃ now, (clock (ss_ticks s) ≤ now)%Z ∧ ∀ b t, (clock (ss_ticks s') ≤ t)%Z →
    view s' t b =
      if decide (b = a)
      then known t (Some (set_updated (event_info e (default default_info (view s (clock (ss_ticks s)) a))) now))
      else view s t b.
Proof.
  intros Hst s s'. assert (Hd : dated s) by (by apply run_dated, new_dated).
  destruct (entry_spec clock s a Hd) as (t0 & k & -> & Hk & Hv & Ht & _ & Hoth). unfold s'. rewrite apply_event_entry.
  destruct (entry clock s a) as [i s1]. cbn [fst snd] in *.
  exists (clock (ss_ticks s1)). split; [apply Hst; lia|]. intros b t Hle.
  pose proof (touched_ticks clock s1 a (event_info e i)) as Htk.
  assert (Hview : (clock (S (ss_ticks s1)) ≤ t)%Z) by (etrans; [|exact Hle]; apply Hst; lia).
  rewrite touched_view by done. rewrite Hv. case_decide; [done|]. unfold view. by rewrite Hoth.
Qed.

(** Round trips and timeouts stay in range.  If no round-trip sample
    exceeds [M] (at least the penalty ceiling of 5 s), then after any history
    every smoothed round trip and deviation is between 0 and [M], and the
    time to wait for any server is between 100 ms, or the ceiling if that is
    lower, and the ceiling. *)
Lemma timeout_in_range n events M a ceiling :
  (kMaxSrtt ≤ M)%Z → Forall (sample_ok M) events →
  let s := run clock (new_selection n) events in
  (∀ b i, ss_servers s !! b = Some i → info_ok M i) ∧
  (Z.min kMinTimeout ceiling ≤ (timeout clock s a ceiling).1 ≤ ceiling)%Z.
Proof.
  intros HM Hev s. split.
  - intros b i. apply (run_info_ok clock M events HM Hev (new_selection n)). intros c j. cbn. by rewrite lookup_empty.
  - unfold timeout. destruct (fresh clock s a) as [[i|] s']; cbn [fst]; [|lia].
    destruct (i_measured i); cbn [fst]; [|lia]. unfold clamp.
    destruct (Z.ltb_spec (ceil_ms (i_srtt i + 4 * i_rttvar i)) (Z.min kMinTimeout ceiling)); [lia|].
    destruct (Z.ltb_spec ceiling (ceil_ms (i_srtt i + 4 * i_rttvar i))); lia.
Qed.

(** A revived server recovers.  One usable answer ends its run of
    failures, and every further answer with round trip [r] takes at least an
    eighth off the distance between its smoothed round trip and [r]. *)
Lemma penalties_fade i r n :
  i_measured i = true → (0 ≤ r ≤ i_srtt i)%Z →
  let j := Nat.iter n (event_info (Answered (Some r))) i in
  (0 ≤ i_srtt j - r)%Z ∧ (8 ^ Z.of_nat n * (i_srtt j - r) ≤ 7 ^ Z.of_nat n * (i_srtt i - r))%Z ∧
  (n ≠ 0 → i_failures j = 0%Z).
Proof.
  clear clock random. intros Hm Hr j.
  assert (H : i_measured j = true ∧ (r ≤ i_srtt j)%Z ∧
    (8 ^ Z.of_nat n * (i_srtt j - r) ≤ 7 ^ Z.of_nat n * (i_srtt i - r))%Z ∧ (n ≠ 0 → i_failures j = 0%Z)).
  { unfold j. clear j. induction n as [|n (Hmj & Hrj & IH & _)]; 
      [change (Nat.iter 0 ?f ?x) with x; split_and!; [done|lia|rewrite !Z.pow_0_r; lia|done]|].
    rewrite Nat.iter_succ.
    set (k := Nat.iter n (event_info (Answered (Some r))) i) in *.
    cbn [event_info]. unfold absorb_sample. cbn [i_measured set_failures]. rewrite Hmj. cbn [negb i_measured i_srtt i_rttvar i_failures i_updated set_failures].
    rewrite Z.max_l by lia. rewrite Z.quot_div_nonneg by lia.
    assert (Hq : (8 * ((7 * i_srtt k + r) / 8 - r) ≤ 7 * (i_srtt k - r))%Z) by (Z.to_euclidean_division_equations; lia).
    assert (Hq' : (r ≤ (7 * i_srtt k + r) / 8)%Z) by (Z.to_euclidean_division_equations; lia).
    split_and!; [done|done| |done]. rewrite Nat2Z.inj_succ, !Z.pow_succ_r by lia.
    assert (0 < 8 ^ Z.of_nat n)%Z by (apply Z.pow_pos_nonneg; lia). nia. }
  destruct H as (_ & ? & ? & ?). split_and!; [lia|done|done].
Qed.
End properties.

Definition ex_clock (i : nat) : Z := 1000 + Z.of_nat i * 1000000.
Definition ex_random (i : nat) (n : Z) : Z := (Z.of_nat i mod Z.max n 1)%Z.
Definition ex_events : list (Z * Event) :=
  [(1, Answered (Some 20000)); (2, Failed); (1, Answered (Some 40000)); (3, Unusable)]%Z.

Lemma ex_steady : steady ex_clock.
Proof. split; unfold ex_clock; intros; lia. Qed.
Lemma ex_fair : fair ex_random.
Proof. intros i n Hn. unfold ex_random. rewrite Z.max_l by lia. apply Z.mod_pos_bound. lia. Qed.

Lemma pick_least_rank_witness :
  let s := run ex_clock (new_selection 0) ex_events in
  ∃ a s' i, pick ex_clock ex_random s [2; 1; 3]%Z = Ok (a, s') ∧ [2; 1; 3]%Z !! i = Some a ∧
    (explores ex_random s [2; 1; 3]%Z = false →
     ∃ s1 r, ss_servers s1 = ss_servers s ∧ ranks ex_clock s1 [2; 1; 3]%Z !! i = Some r ∧
       ∀ r', r' ∈ ranks ex_clock s1 [2; 1; 3]%Z → rank_lt r' r = false).
Proof. intros s. apply pick_least_rank; [exact ex_fair|done|vm_compute; reflexivity]. Defined.

Lemma record_refines_witness :
  let s := run ex_clock (new_selection 20) ex_events in
  let s' := apply_event ex_clock s (1%Z, Failed) in
  ∃ now, (ex_clock (ss_ticks s) ≤ now)%Z ∧ ∀ b t, (ex_clock (ss_ticks s') ≤ t)%Z →
    view s' t b =
      if decide (b = 1%Z)
      then known t (Some (set_updated (event_info Failed (default default_info (view s (ex_clock (ss_ticks s)) 1%Z))) now))
      else view s t b.
Proof. apply record_refines. exact ex_steady. Defined.

Lemma timeout_in_range_witness :
  let s := run ex_clock (new_selection 20) ex_events in
  (∀ b i, ss_servers s !! b = Some i → info_ok 5000000 i) ∧
  (Z.min kMinTimeout 2000 ≤ (timeout ex_clock s 1 2000).1 ≤ 2000)%Z.
Proof.
  apply timeout_in_range; [unfold kMaxSrtt; lia|]. unfold ex_events, sample_ok.
  repeat (apply Forall_cons; split; [cbn; try exact I; lia|]). apply Forall_nil_2.
Defined.

Lemma penalties_fade_witness :
  let i := mkInfo true 5000000 0 7 1 in
  let j := Nat.iter 10 (event_info (Answered (Some 30000%Z))) i in
  (0 ≤ i_srtt j - 30000)%Z ∧ (8 ^ 10 * (i_srtt j - 30000) ≤ 7 ^ 10 * (5000000 - 30000))%Z ∧ (10 ≠ 0 → i_failures j = 0%Z).
Proof. apply (penalties_fade (mkInfo true 5000000 0 7 1) 30000 10); cbn; lia. Defined.

(** The fast server is asked; a fifth failure puts a server last. *)
Example pick_examples :
  let s := run ex_clock (new_selection 0) ex_events in
  let dead := run ex_clock s (replicate 5 (1%Z, Unusable)) in
  (fst <$> pick ex_clock ex_random s [2; 1; 3]%Z, fst <$> pick ex_clock ex_random dead [2; 1]%Z) = (Ok 1%Z, Ok 2%Z).
Proof. vm_compute. reflexivity. Qed.
