(* ===== verification/QueryProcessor.v ===== *)
(** * The query pipeline: [server/query_processor.cpp]

    One query goes through access control, the client's rate limit, the
    checks on the message, the block lists, the resolver, and on the way back
    the CNAME check, rebinding protection and response rate limiting.  What
    the handler does to the world is a list of effects in order; asking the
    resolver hands it a continuation, [Pending], which [on_resolved] runs when
    the resolver calls back.  The lists are the ones in use at each moment,
    since a reload may swap them in between.

    The limiter on queries per client is an interface, [RateLimit], that
    [RateLimiter] implements; the
    blocklist is the [Blocklist] interface that [Trie] implements. *)

From stdpp Require Import base tactics numbers list sets.
From Stdlib Require Import ZArith Lia.
From S2P Require Import Prelude Names Types Builder Acl Rrl Rebinding Blocklist CnameCheck Trie TrieLookup Blocklists.

Definition kClassIN : Z := 1.
Definition kTypeOPT : Z := RRType.OPT.
Definition kTypeIXFR : Z := 251.
Definition kTypeAXFR : Z := 252.
Definition kTypeANY : Z := 255.
Definition kBadVers : Z := 16.

Inductive Transport := Udp | TcpTransport | Dot | Doh.
Record ClientInfo := mkClient { ci_addr : sockaddr; ci_transport : Transport }.

Global Instance Transport_eq_dec : EqDecision Transport.
Proof. solve_decision. Defined.

Definition reject_reason (query : Message) : option Z :=
  if match m_edns query with Some e => negb (e_version e =? 0)%Z | None => false end then Some kBadVers else
  if negb (h_opcode (m_header query) =? 0)%Z then Some RCode.NotImp else
  match m_questions query with
  | [q] =>
    if negb (q_qclass q =? kClassIN)%Z then Some RCode.Refused else
    if ((q_qtype q =? kTypeIXFR) || (q_qtype q =? kTypeAXFR))%Z then Some RCode.Refused else
    if ((q_qtype q =? kTypeOPT) || ((128 <=? q_qtype q) && (q_qtype q <? kTypeANY)))%Z then Some RCode.FormErr
    else None
  | _ => Some RCode.FormErr
  end.

Definition set_rcode (m : Message) (rcode : Z) : Message :=
  let h := m_header m in
  mkMessage (mkHeader (h_id h) (h_qr h) (h_opcode h) (h_aa h) (h_tc h) (h_rd h) (h_ra h) (h_ad h) (h_cd h)
               rcode (h_qdcount h) (h_ancount h) (h_nscount h) (h_arcount h))
    (m_questions m) (m_answers m) (m_authority m) (m_additional m) (m_edns m).

Definition set_answers (m : Message) (answers : list RR) : Message :=
  mkMessage (m_header m) (m_questions m) answers (m_authority m) (m_additional m) (m_edns m).
Definition set_authority (m : Message) (authority : list RR) : Message :=
  mkMessage (m_header m) (m_questions m) (m_answers m) authority (m_additional m) (m_edns m).

(** [blocked]; the front of an empty vector is undefined behaviour. *)
Definition blocked_response {E} (response : Message) (lists : ListsConfig) : outcome E Message :=
  match lc_response lists with
  | NxDomain => Ok (set_rcode response RCode.NXDomain)
  | NullIp =>
    match m_questions response with
    | [] => Fault OutOfBounds
    | q :: _ =>
      let rr type rdata := mkRR (q_qname q) type 1 (lc_block_ttl lists) rdata TrustRank.Answer in
      if (q_qtype q =? RRType.A)%Z
      then Ok (set_answers response (m_answers response ++ [rr RRType.A (RDataA (replicate 4 0%Z))]))
      else if (q_qtype q =? RRType.AAAA)%Z
      then Ok (set_answers response (m_answers response ++ [rr RRType.AAAA (RDataAAAA (replicate 16 0%Z))]))
      else Ok response
    end
  end.

Record BlockEvent := mkBlockEvent { be_question : Question; be_chain : list Name; be_match : TrieLookupResult }.
Record RebindingEvent := mkRebindingEvent { rbe_question : Question; rbe_removed : list RR; rbe_emptied : bool }.

(** What the pipeline needs of the limiter on queries per client. *)
Class RateLimit (L : Type) := {
  rate_allow : L → sockaddr → Z → bool * L;
  rate_action : L → DenyAction;
}.

(** The continuation the resolver holds. *)
Record Pending := mkPending {
  pd_check_chain : bool; pd_response : Message; pd_addr : sockaddr; pd_limited : bool;
}.

Inductive Effect :=
| Sent (m : Message)
| ReportedBlock (e : BlockEvent)
| ReportedRebinding (e : RebindingEvent)
| AskedResolver (q : Question) (k : Pending).

Definition lift {E A} (m : outcome Empty_set A) : outcome E A :=
  match m with Ok a => Ok a | Err e => match e with end | Fault f => Fault f end.

Section processor.
Context `{InetPton} {L T RE : Type} `{RateLimit L} `{Blocklist T}.

Record Checks := mkChecks {
  ck_access : AccessConfig; ck_rate_limit : L; ck_rebinding : RebindingConfig; ck_rrl : ResponseRateLimiter;
}.

(** The lists in use. *)
Record Lists := mkListsInUse { ls_config : ListsConfig; ls_trie : T }.

Record QueryProcessor := mkProcessor { qp_checks : Checks; qp_on_block : bool; qp_on_rebinding : bool }.

Definition set_rrl (p : QueryProcessor) (rl : ResponseRateLimiter) : QueryProcessor :=
  let c := qp_checks p in
  mkProcessor (mkChecks (ck_access c) (ck_rate_limit c) (ck_rebinding c) rl) (qp_on_block p) (qp_on_rebinding p).
Definition set_rate_limit (p : QueryProcessor) (l : L) : QueryProcessor :=
  let c := qp_checks p in
  mkProcessor (mkChecks (ck_access c) l (ck_rebinding c) (ck_rrl c)) (qp_on_block p) (qp_on_rebinding p).

(** The callbacks are called only when set. *)
Definition report (p : QueryProcessor) (q : Question) (chain : list Name) (m : TrieLookupResult) : list Effect :=
  if qp_on_block p then [ReportedBlock (mkBlockEvent q chain m)] else [].
Definition report_rebinding (p : QueryProcessor) (e : RebindingEvent) : list Effect :=
  if qp_on_rebinding p then [ReportedRebinding e] else [].

(** The responder, wrapped in response rate limiting when [limited]. *)
Definition respond (p : QueryProcessor) (addr : sockaddr) (limited : bool) (m : Message) (now : Z) :
    list Effect * QueryProcessor :=
  if limited then
    let '(v, rl) := rrl_check (ck_rrl (qp_checks p)) addr m now in
    (match v with RrlSend => [Sent m] | RrlSlip => [Sent (truncated m)] | RrlDrop => [] end, set_rrl p rl)
  else ([Sent m], p).

Definition limits (p : QueryProcessor) (client : ClientInfo) : bool :=
  bool_decide (ci_transport client = Udp) && enabled (ck_rrl (qp_checks p)).

(** [handle]; [limit_now] and [now] are the two clock readings. *)
Definition handle (p : QueryProcessor) (lists : Lists) (query : Message) (client : ClientInfo) (limit_now now : Z) :
    outcome SubnetError (list Effect * QueryProcessor) :=
  let addr := ci_addr client in
  let limited := limits p client in
  if negb (allows (ck_access (qp_checks p)) addr) then
    match ac_deny (ck_access (qp_checks p)) with
    | Refuse => Ok (respond p addr limited (make_response query RCode.Refused) now)
    | DropQuery => Ok ([], p)
    end
  else
  let '(ok, l) := rate_allow (ck_rate_limit (qp_checks p)) addr limit_now in
  let p := set_rate_limit p l in
  if negb ok then
    match rate_action l with
    | Refuse => Ok (respond p addr limited (make_response query RCode.Refused) now)
    | DropQuery => Ok ([], p)
    end
  else
  match reject_reason query with
  | Some rcode => Ok (respond p addr limited (make_response query rcode) now)
  | None =>
    match m_questions query with
    | [] => Fault OutOfBounds
    | q :: _ =>
      let m := bl_lookup (ls_trie lists) (q_qname q) in
      if tr_matched m && bool_decide (tr_action m = Block) then
        response ← blocked_response (make_response query RCode.NoError) (ls_config lists);
        let '(effects, p') := respond p addr limited response now in
        Ok (report p q [q_qname q] m ++ effects, p')
      else
        let check_chain := lc_check_cname_chain (ls_config lists) && negb (tr_matched m) in
        Ok ([AskedResolver q (mkPending check_chain (make_response query RCode.NoError) addr limited)], p)
    end
  end.

Definition is_address (rr : RR) : bool := ((rr_type rr =? RRType.A) || (rr_type rr =? RRType.AAAA))%Z.

(** The callback's last part, on an answer that is not cloaked. *)
Definition finish (p : QueryProcessor) (k : Pending) (asked : Question) (result : Message) (now : Z) :
    outcome SubnetError (list Effect * QueryProcessor) :=
  '(removed, answers) ← strip (ck_rebinding (qp_checks p)) (q_qname asked) (m_answers result);
  let emptied := negb (existsb is_address answers) in
  let reported := match removed with [] => [] | _ => report_rebinding p (mkRebindingEvent asked removed emptied) end in
  let response :=
    if negb (bool_decide (removed = [])) && emptied then set_rcode (pd_response k) RCode.NXDomain
    else set_authority (set_answers (set_rcode (pd_response k) (h_rcode (m_header result))) answers) (m_authority result) in
  let '(effects, p) := respond p (pd_addr k) (pd_limited k) response now in
  Ok (reported ++ effects, p).

(** The callback [handle] gives to [resolve]. *)
Definition on_resolved (p : QueryProcessor) (lists : Lists) (k : Pending) (result : RE + Message) (now : Z) :
    outcome SubnetError (list Effect * QueryProcessor) :=
  match result with
  | inl _ => Ok (respond p (pd_addr k) (pd_limited k) (set_rcode (pd_response k) RCode.ServFail) now)
  | inr result =>
    match m_questions (pd_response k) with
    | [] => Fault OutOfBounds
    | asked :: _ =>
      cloaked ← (if pd_check_chain k then lift (find_cloaked (q_qname asked) (m_answers result) (ls_trie lists)) else Ok None);
      match cloaked with
      | Some c =>
        response ← blocked_response (pd_response k) (ls_config lists);
        let '(effects, p') := respond p (pd_addr k) (pd_limited k) response now in
        Ok (report p asked (cl_chain c) (cl_match c) ++ effects, p')
      | None => finish p k asked result now
      end
    end
  end.

(** ** Effects *)

Definition sent (effects : list Effect) : list Message := omap (λ e, match e with Sent m => Some m | _ => None end) effects.
Definition asks (effects : list Effect) : list (Question * Pending) :=
  omap (λ e, match e with AskedResolver q k => Some (q, k) | _ => None end) effects.

(** [m] answers [query]: same id, opcode and question, letter case included. *)
Record echoes (query m : Message) : Prop := {
  ec_id : h_id (m_header m) = h_id (m_header query);
  ec_qr : h_qr (m_header m) = true;
  ec_opcode : h_opcode (m_header m) = h_opcode (m_header query);
  ec_questions : m_questions m = m_questions query;
}.

Lemma echoes_response query rcode : echoes query (make_response query rcode).
Proof. by split. Qed.
Lemma echoes_truncated query m : echoes query m → echoes query (truncated m).
Proof. by intros [? ? ? ?]; split. Qed.
Lemma echoes_rcode query m rcode : echoes query m → echoes query (set_rcode m rcode).
Proof. by intros [? ? ? ?]; split. Qed.
Lemma echoes_answers query m answers : echoes query m → echoes query (set_answers m answers).
Proof. by intros [? ? ? ?]; split. Qed.
Lemma echoes_authority query m authority : echoes query m → echoes query (set_authority m authority).
Proof. by intros [? ? ? ?]; split. Qed.
Hint Resolve echoes_response echoes_truncated echoes_rcode echoes_answers echoes_authority : dns.

(** What [respond] may send for [m]. *)
Lemma respond_sent p addr limited m now :
  asks (respond p addr limited m now).1 = [] ∧
  (sent (respond p addr limited m now).1 = [m] ∨
   limited = true ∧ (sent (respond p addr limited m now).1 = [] ∨ sent (respond p addr limited m now).1 = [truncated m])).
Proof.
  unfold respond. destruct limited; [|by split; [|left]]. destruct (rrl_check _ _ _ _) as [[] rl]; cbn; auto.
Qed.

(** At most one response, for [query]; one for certain when not rate limited. *)
Definition one_answer (query : Message) (limited : bool) (effects : list Effect) : Prop :=
  asks effects = [] ∧ length (sent effects) ≤ 1 ∧ Forall (echoes query) (sent effects) ∧
  (limited = false → length (sent effects) = 1).

Lemma respond_one_answer query p addr limited m now :
  echoes query m → one_answer query limited (respond p addr limited m now).1.
Proof.
  intros Hm. unfold one_answer. destruct (respond_sent p addr limited m now) as [-> [-> |[-> [-> | ->]]]];
    (split_and!; [done|cbn; lia| |done]); rewrite ?Forall_singleton; auto with dns.
Qed.

Lemma report_one_answer query limited p q chain m effects :
  one_answer query limited effects → one_answer query limited (report p q chain m ++ effects).
Proof. unfold report. by destruct (qp_on_block p). Qed.

Lemma rebinding_one_answer query limited p e effects :
  one_answer query limited effects → one_answer query limited (report_rebinding p e ++ effects).
Proof. unfold report_rebinding. by destruct (qp_on_rebinding p). Qed.

Lemma blocked_response_ok {E} query lists q rest : m_questions query = q :: rest →
  ∃ m, blocked_response (E:=E) (make_response query RCode.NoError) lists = Ok m ∧ echoes query m ∧
    m_authority m = [] ∧ Forall (λ rr, rr_rdata rr = RDataA (replicate 4 0%Z) ∨ rr_rdata rr = RDataAAAA (replicate 16 0%Z)) (m_answers m).
Proof.
  intros Hq. unfold blocked_response. destruct (lc_response lists);
    [|eexists; split; [done|]; split; [auto with dns|]; split; [done|constructor]].
  assert (m_questions (make_response query RCode.NoError) = q :: rest) as -> by done.
  destruct (q_qtype q =? RRType.A)%Z; [|destruct (q_qtype q =? RRType.AAAA)%Z];
    (eexists; split; [done|]; split; [auto with dns|]; split; [done|]; cbn; rewrite ?Forall_singleton; auto).
Qed.

(** ** Handling *)

(** What a query must pass to be resolved. *)
Definition admitted (p : QueryProcessor) (lists : Lists) (query : Message) (client : ClientInfo) (limit_now : Z) : Prop :=
  allows (ck_access (qp_checks p)) (ci_addr client) = true ∧
  (rate_allow (ck_rate_limit (qp_checks p)) (ci_addr client) limit_now).1 = true ∧
  reject_reason query = None ∧
  Forall (λ q, blocked (ls_trie lists) (q_qname q) = false) (m_questions query).

Lemma reject_reason_None query : reject_reason query = None →
  ∃ q, m_questions query = [q] ∧ h_opcode (m_header query) = 0%Z ∧ q_qclass q = kClassIN ∧
    q_qtype q ≠ kTypeIXFR ∧ q_qtype q ≠ kTypeAXFR ∧ q_qtype q ≠ kTypeOPT ∧ ¬ (128 ≤ q_qtype q < kTypeANY)%Z.
Proof.
  unfold reject_reason. destruct (match m_edns query with Some _ => _ | None => _ end); [done|].
  destruct (Z.eqb_spec (h_opcode (m_header query)) 0); [|done]. cbn [negb].
  destruct (m_questions query) as [|q [|]]; try done. destruct (Z.eqb_spec (q_qclass q) kClassIN); [|done]. cbn [negb].
  destruct (Z.eqb_spec (q_qtype q) kTypeIXFR); [done|]. destruct (Z.eqb_spec (q_qtype q) kTypeAXFR); [done|]. cbn [orb].
  destruct (Z.eqb_spec (q_qtype q) kTypeOPT); [done|]. cbn [orb].
  destruct (Z.leb_spec 128 (q_qtype q)), (Z.ltb_spec (q_qtype q) kTypeANY); try done; intros _; exists q;
    (split_and!; try done; lia).
Qed.

(** The continuation a resolved query leaves with the resolver. *)
Definition continuation (query : Message) (p : QueryProcessor) (client : ClientInfo) (check_chain : bool) : Pending :=
  mkPending check_chain (make_response query RCode.NoError) (ci_addr client) (limits p client).

Lemma handle_spec p lists query client limit_now now :
  ∃ effects p', handle p lists query client limit_now now = Ok (effects, p') ∧
    ((admitted p lists query client limit_now ∧ ∃ q check_chain, m_questions query = [q] ∧
        effects = [AskedResolver q (continuation query p client check_chain)]) ∨
     (¬ admitted p lists query client limit_now ∧
        (effects = [] ∨ one_answer query (limits p client) effects))).
Proof.
  unfold handle, admitted. destruct (allows (ck_access (qp_checks p)) (ci_addr client)); cbn [negb].
  2:{ destruct (ac_deny _).
      - rewrite (surjective_pairing (respond _ _ _ _ _)). do 2 eexists. split; [done|]. right. split; [by intros [? _]|].
        right. apply respond_one_answer. auto with dns.
      - do 2 eexists. split; [done|]. right. split; [by intros [? _]|by left]. }
  destruct (rate_allow _ _ _) as [ok l]. cbn [fst]. destruct ok; cbn [negb].
  2:{ destruct (rate_action _).
      - rewrite (surjective_pairing (respond _ _ _ _ _)). do 2 eexists. split; [done|]. right. split; [by intros (_ & ? & _)|].
        right. apply respond_one_answer. auto with dns.
      - do 2 eexists. split; [done|]. right. split; [by intros (_ & ? & _)|by left]. }
  destruct (reject_reason query) as [rcode|] eqn:Er.
  { rewrite (surjective_pairing (respond _ _ _ _ _)). do 2 eexists. split; [done|]. right. split; [by intros (_ & _ & ? & _)|].
    right. apply respond_one_answer. auto with dns. }
  destruct (reject_reason_None query Er) as (q & Hq & _). rewrite Hq. fold (blocked (ls_trie lists) (q_qname q)).
  destruct (blocked (ls_trie lists) (q_qname q)) eqn:Eb.
  - destruct (blocked_response_ok (E:=SubnetError) query (ls_config lists) q [] Hq) as (m & -> & Hm & _).
    rewrite bind_Ok. rewrite (surjective_pairing (respond _ _ _ _ _)). do 2 eexists. split; [done|]. right. split.
    + intros (_ & _ & _ & Hb). rewrite Forall_singleton in Hb. congruence.
    + right. by apply report_one_answer, respond_one_answer.
  - do 2 eexists. split; [done|]. left. split; [by rewrite Forall_singleton|]. by eexists _, _.
Qed.

(** ** Completing *)

Lemma finish_spec p k asked result now query : pd_response k = make_response query RCode.NoError →
  InetPtonLiterals → Forall rr_wf (m_answers result) →
  let protect := rb_enabled (ck_rebinding (qp_checks p)) && negb (exempt (ck_rebinding (qp_checks p)) (q_qname asked)) in
  ∃ effects p', finish p k asked result now = Ok (effects, p') ∧ one_answer query (pd_limited k) effects ∧
    Forall (λ m, m_answers m ⊆ m_answers result ∧
                 (protect = true → Forall (λ rr, private_rdata (rr_rdata rr) = false) (m_answers m))) (sent effects).
Proof.
  intros Hk Hlit Hwf protect. unfold finish. rewrite strip_value, bind_Ok by done. fold protect.
  set (kept := if protect then filter (λ rr, private_rdata (rr_rdata rr) = false) (m_answers result) else m_answers result).
  set (removed := if protect then filter (λ rr, private_rdata (rr_rdata rr) = true) (m_answers result) else []).
  assert ((if protect then (filter (λ rr, private_rdata (rr_rdata rr) = true) (m_answers result),
              filter (λ rr, private_rdata (rr_rdata rr) = false) (m_answers result))
           else ([], m_answers result)) = (removed, kept)) as -> by (unfold kept, removed; by destruct protect).
  assert (Hkept : kept ⊆ m_answers result ∧ (protect = true → Forall (λ rr, private_rdata (rr_rdata rr) = false) kept)).
  { unfold kept. destruct protect; [|done]. split; [intros rr; by rewrite list_elem_of_filter; intros [_ ?]|].
    intros _. apply Forall_forall. by intros rr [? _]%list_elem_of_filter. }
  set (emptied := negb (existsb is_address kept)).
  set (response := if negb (bool_decide (removed = [])) && emptied then _ else _).
  assert (Hresp : echoes query response ∧ m_answers response ⊆ m_answers result ∧
    (protect = true → Forall (λ rr, private_rdata (rr_rdata rr) = false) (m_answers response))).
  { unfold response. rewrite Hk. destruct (negb (bool_decide (removed = [])) && emptied); (split; [auto with dns|]); [|done].
    cbn. split; [apply list_subseteq_nil|constructor]. }
  destruct Hresp as (He & Hans).
  rewrite (surjective_pairing (respond _ _ _ response _)). do 2 eexists. split; [done|].
  assert (Hone : one_answer query (pd_limited k) (respond p (pd_addr k) (pd_limited k) response now).1)
    by (by apply respond_one_answer).
  assert (Hsent : Forall (λ m, m_answers m ⊆ m_answers result ∧
      (protect = true → Forall (λ rr, private_rdata (rr_rdata rr) = false) (m_answers m)))
      (sent (respond p (pd_addr k) (pd_limited k) response now).1)).
  { destruct (respond_sent p (pd_addr k) (pd_limited k) response now) as [_ [-> |[_ [-> | ->]]]];
      rewrite ?Forall_singleton; [done|constructor|]. cbn. split; [apply list_subseteq_nil|constructor]. }
  destruct removed; [done|]. split; [by apply rebinding_one_answer|].
  unfold report_rebinding. by destruct (qp_on_rebinding p).
Qed.

(** An answer made here: the null address or nothing, no upstream data. *)
Definition null_answer (m : Message) : Prop :=
  m_authority m = [] ∧
  Forall (λ rr, rr_rdata rr = RDataA (replicate 4 0%Z) ∨ rr_rdata rr = RDataAAAA (replicate 16 0%Z)) (m_answers m).

(** The answer section a client may see, given what the resolver found. *)
Definition filtered (p : QueryProcessor) (lists : Lists) (check_chain : bool) (q : Question) (result m : Message) : Prop :=
  match cname_chain (q_qname q) (m_answers result) with
  | Ok chain =>
    if check_chain && existsb (blocked (ls_trie lists)) chain then null_answer m
    else m_answers m ⊆ m_answers result ∧
      (rb_enabled (ck_rebinding (qp_checks p)) && negb (exempt (ck_rebinding (qp_checks p)) (q_qname q)) = true →
       Forall (λ rr, private_rdata (rr_rdata rr) = false) (m_answers m))
  | _ => False
  end.

Lemma on_resolved_spec p lists query q k check_chain (result : RE + Message) now :
  m_questions query = [q] → pd_response k = make_response query RCode.NoError → pd_check_chain k = check_chain →
  InetPtonLiterals → match result with inr r => Forall rr_wf (m_answers r) | inl _ => True end →
  ∃ effects p', on_resolved p lists k result now = Ok (effects, p') ∧ one_answer query (pd_limited k) effects ∧
    match result with
    | inl _ => True
    | inr r => Forall (filtered p lists check_chain q r) (sent effects)
    end.
Proof.
  intros Hq Hk Hcc Hlit Hwf. unfold on_resolved. destruct result as [e|r].
  { rewrite (surjective_pairing (respond _ _ _ _ _)). do 2 eexists. split; [done|]. split; [|done].
    apply respond_one_answer. rewrite Hk. auto with dns. }
  assert (m_questions (pd_response k) = [q]) as -> by (by rewrite Hk).
  destruct (find_cloaked_value (q_qname q) (m_answers r) (ls_trie lists)) as (chain & c & Hchain & Hc & Hspec).
  unfold filtered. rewrite Hchain, Hcc.
  destruct (finish_spec p k q r now query Hk Hlit Hwf) as (effs & p1 & Hfin & Hone & Hsent).
  destruct check_chain; cbn [andb]; [|rewrite bind_Ok, Hfin; by do 2 eexists].
  rewrite Hc. cbn [lift]. rewrite bind_Ok. destruct c as [c|].
  - destruct Hspec as (passed & hop & rest & -> & _ & Hhop & _).
    assert (existsb (blocked (ls_trie lists)) (passed ++ hop :: rest) = true) as ->.
    { rewrite existsb_app. cbn. by rewrite Hhop, orb_true_r. }
    destruct (blocked_response_ok (E:=SubnetError) query (ls_config lists) q [] Hq) as (m & Hm & He & Ha & Hn).
    rewrite Hk, Hm, bind_Ok, (surjective_pairing (respond _ _ _ _ _)). do 2 eexists. split; [done|].
    split; [by apply report_one_answer, respond_one_answer|].
    assert (Hs : Forall null_answer (sent (respond p (pd_addr k) (pd_limited k) m now).1)).
    { destruct (respond_sent p (pd_addr k) (pd_limited k) m now) as [_ [-> |[_ [-> | ->]]]];
        rewrite ?Forall_singleton; [done|constructor|]. split; [done|constructor]. }
    unfold report. by destruct (qp_on_block p).
  - assert (existsb (blocked (ls_trie lists)) chain = false) as ->.
    { apply not_true_iff_false. rewrite existsb_exists. intros (h & Hin & Hb). rewrite Forall_forall in Hspec.
      apply list_elem_of_In in Hin. rewrite (Hspec h Hin) in Hb. done. }
    rewrite Hfin. by do 2 eexists.
Qed.

(** ** Properties *)

(** C17: only admitted queries go upstream.  Handling never faults, and the
    resolver is asked exactly when the client's address is allowed, its rate
    limit is not exceeded, the message is a single standard question of class
    IN for a data type, and its name is not blocked; then nothing has been
    sent yet, and the question goes out as it came in. *)
Theorem upstream_only_admitted p lists query client limit_now now :
  ∃ effects p', handle p lists query client limit_now now = Ok (effects, p') ∧
    (asks effects ≠ [] ↔ admitted p lists query client limit_now) ∧
    ∀ q k, (q, k) ∈ asks effects →
      effects = [AskedResolver q k] ∧ m_questions query = [q] ∧ h_opcode (m_header query) = 0%Z ∧
      q_qclass q = kClassIN ∧ (q_qtype q ∉ [kTypeIXFR; kTypeAXFR; kTypeOPT]) ∧ ¬ (128 ≤ q_qtype q < kTypeANY)%Z.
Proof.
  destruct (handle_spec p lists query client limit_now now) as (effects & p' & Hh & [[Ha (q & cc & Hq & ->)]|[Ha He]]).
  - exists [AskedResolver q (continuation query p client cc)], p'. split; [done|]. split; [done|]. intros q' k' Hin. cbn in Hin. apply list_elem_of_singleton in Hin as [= -> ->].
    destruct Ha as (_ & _ & Hr & _). destruct (reject_reason_None query Hr) as (q2 & Hq2 & ? & ? & ? & ? & ? & ?).
    rewrite Hq in Hq2. injection Hq2 as <-. split_and!; try done. set_solver.
  - exists effects, p'. split; [done|].
    assert (asks effects = []) as -> by (destruct He as [-> |[? _]]; done). split; [done|]. by intros q k ?%elem_of_nil.
Qed.

(** Every query gets at most one response, and it is its own.  Whether it
    is answered at once or after resolution, at most one message is sent; it
    carries the query's id, opcode and question, letter case included; no
    second resolution is started; and unless the response limiter is in the
    way, exactly one message is sent once the resolver has called back. *)
Lemma one_response p lists query client limit_now now :
  InetPtonLiterals →
  ∃ effects p', handle p lists query client limit_now now = Ok (effects, p') ∧
    length (sent effects) ≤ 1 ∧ Forall (echoes query) (sent effects) ∧
    ∀ q k, (q, k) ∈ asks effects → sent effects = [] ∧
      ∀ p1 lists1 (result : RE + Message) later,
        match result with inr r => Forall rr_wf (m_answers r) | inl _ => True end →
        ∃ effects1 p2, on_resolved p1 lists1 k result later = Ok (effects1, p2) ∧
          one_answer query (limits p client) effects1.
Proof.
  intros Hlit.
  destruct (handle_spec p lists query client limit_now now) as (effects & p' & Hh & [[Ha (q & cc & Hq & ->)]|[Ha He]]).
  - exists [AskedResolver q (continuation query p client cc)], p'. split; [done|]. split; [cbn; lia|]. split; [constructor|].
    intros q' k' Hin. cbn in Hin. apply list_elem_of_singleton in Hin as [= -> ->]. split; [done|].
    intros p1 lists1 result later Hwf.
    destruct (on_resolved_spec p1 lists1 query q (continuation query p client cc) cc result later) as (e1 & p2 & ? & ? & _);
      [done..|]. by exists e1, p2.
  - exists effects, p'. split; [done|].
    assert (asks effects = []) as -> by (destruct He as [-> |[? _]]; done).
    destruct He as [-> |(_ & Hl & Hec & _)]; (split_and!; [cbn; lia|done|]); by intros q k ?%elem_of_nil.
Qed.

(** C18: what a client sees of an answer.  When the answer's CNAME chain goes
    through a blocked name and is checked, the response holds the null address
    or nothing, and no upstream record; otherwise its answers are records the
    resolver found, without any private address unless the name is exempt or
    the protection is off. *)
Theorem answers_filtered p lists query q check_chain addr limited (result : Message) now :
  InetPtonLiterals → m_questions query = [q] → Forall rr_wf (m_answers result) →
  let k := mkPending check_chain (make_response query RCode.NoError) addr limited in
  ∃ effects p', on_resolved p lists k (inr result : RE + Message) now = Ok (effects, p') ∧
    Forall (filtered p lists check_chain q result) (sent effects).
Proof.
  intros Hlit Hq Hwf k.
  destruct (on_resolved_spec p lists query q k check_chain (inr result) now) as (effects & p' & ? & _ & ?); [done..|].
  by exists effects, p'.
Qed.
End processor.

(** ** Witnesses *)

(** A limiter that allows everybody. *)
Global Instance ex_no_limit : RateLimit unit := { rate_allow l _ _ := (true, l); rate_action _ := Refuse }.

Definition ex_query : Message :=
  mkMessage (mkHeader 77 false 0 false false true false false false 0 1 0 0 0)
    [mkQuestion ex_name RRType.A 1] [] [] [] None.
Definition ex_processor : QueryProcessor :=
  mkProcessor (mkChecks (mkAccess [ex_subnet] Refuse) tt (mkRebinding true []) (new_rrl default_rrl_config)) true true.
Definition ex_trie : BlocklistTrie :=
  Eval vm_compute in match build_trie (add_all empty_builder ex_entries) with Ok t => t | _ => empty_trie end.
Definition ex_in_use : Lists (T := BlocklistTrie) := mkListsInUse ex_lists ex_trie.
Definition ex_inside : ClientInfo := mkClient (SockV4 [192; 168; 7; 9]%Z 4000) Udp.
Definition ex_outside : ClientInfo := mkClient (SockV4 [8; 8; 8; 8]%Z 4000) Udp.
Definition ex_result : Message := mkMessage default_header [] ex_private [] [] None.

Lemma one_response_witness :
  ∃ effects p', @handle unit BlocklistTrie _ _ ex_processor ex_in_use ex_query ex_inside 1 2 = Ok (effects, p') ∧
    length (sent effects) ≤ 1 ∧ Forall (echoes ex_query) (sent effects) ∧
    ∀ q k, (q, k) ∈ asks effects → sent effects = [] ∧
      ∀ p1 lists1 (result : unit + Message) later,
        match result with inr r => Forall rr_wf (m_answers r) | inl _ => True end →
        ∃ effects1 p2, @on_resolved ex_pton unit BlocklistTrie unit _ p1 lists1 k result later = Ok (effects1, p2) ∧
          one_answer ex_query (limits ex_processor ex_inside) effects1.
Proof. apply (@one_response ex_pton). exact ex_pton_literals. Defined.

Lemma answers_filtered_witness :
  let k := mkPending true (make_response ex_query RCode.NoError) (ci_addr ex_inside) false in
  ∃ effects p', @on_resolved ex_pton unit BlocklistTrie unit _ ex_processor ex_in_use k (inr ex_result) 5 = Ok (effects, p') ∧
    Forall (filtered ex_processor ex_in_use true (mkQuestion ex_name RRType.A 1) ex_result) (sent effects).
Proof. apply (@answers_filtered ex_pton); [exact ex_pton_literals|reflexivity|by_compute]. Defined.

(** Inside and allowed: resolved; outside: refused; a blocked name: answered
    with the null address. *)
Example handle_examples :
  let run query client := match @handle unit BlocklistTrie _ _ ex_processor ex_in_use query client 1 2 with
    | Ok (effects, _) => (length (asks effects), map (λ m, (h_rcode (m_header m), map rr_rdata (m_answers m))) (sent effects))
    | _ => (9, [])
    end in
  let blocked_query := mkMessage (m_header ex_query) [mkQuestion ex_domain RRType.A 1] [] [] [] None in
  (run ex_query ex_inside, run ex_query ex_outside, run blocked_query ex_inside) =
  ((1, []), (0, [(RCode.Refused, [])]), (0, [(RCode.NoError, [RDataA [0; 0; 0; 0]%Z])])).
Proof. vm_compute. reflexivity. Qed.
