(* ===== verification/Upstream.v ===== *)
(** * The upstream client: [resolver/upstream.cpp]

    One query to one upstream server over UDP or TCP, with a fresh socket and
    a random id, waiting on the event loop for the matching reply.

    System calls are arguments: what [socket], [connect], [send] and [recv]
    return is given, and what the client does to the outside is a list of
    effects in order.  The event loop's part is the table of registrations it
    keeps for the client ([Loop]): which query each descriptor and each timer
    calls back.  Calling a query's [done] is always the last effect, so a
    callback that sends again is a later operation. *)

From stdpp Require Import base tactics numbers list gmap fin_maps.
From Stdlib Require Import ZArith Lia.
From S2P Require Import Prelude Names Types Wire Builder Security.

Inductive UpstreamError := Timeout | NetworkError | CaseMismatch | SpoofSuspected.
Inductive UpstreamTransport := OverUdp | OverTcp.

Inductive Counter := CSent | CSentTcp | CAnswered | CTimeouts | CErrors | CMismatched | CCaseMismatches | CSpoofAlerts.

Record Stats := mkUpstreamStats {
  us_sent : Z; us_sent_tcp : Z; us_answered : Z; us_timeouts : Z; us_errors : Z; us_mismatched : Z;
  us_case_mismatches : Z; us_spoof_alerts : Z;
}.

Definition zero_stats : Stats := mkUpstreamStats 0 0 0 0 0 0 0 0.

(** [++stats_.x]. *)
Definition count_up (x : Counter) (s : Stats) : Stats :=
  let inc y v := if match x, y with
    | CSent, CSent | CSentTcp, CSentTcp | CAnswered, CAnswered | CTimeouts, CTimeouts | CErrors, CErrors
    | CMismatched, CMismatched | CCaseMismatches, CCaseMismatches | CSpoofAlerts, CSpoofAlerts => true
    | _, _ => false end then u64 (v + 1) else v in
  mkUpstreamStats (inc CSent (us_sent s)) (inc CSentTcp (us_sent_tcp s)) (inc CAnswered (us_answered s))
    (inc CTimeouts (us_timeouts s)) (inc CErrors (us_errors s)) (inc CMismatched (us_mismatched s))
    (inc CCaseMismatches (us_case_mismatches s)) (inc CSpoofAlerts (us_spoof_alerts s)).

(** [Pending] without its callback, which the effects name by the query's id. *)
Record Pending := mkUpstreamPending {
  up_fd : Z; up_txid : Z; up_question : Question; up_timer : Z; up_match_case : bool;
  up_wrong_case_seen : bool; up_suspicious : Z; up_out : list Z; up_written : nat; up_in : list Z;
}.

Definition default_question : Question := mkQuestion root_name 0 1.

(** What the loop calls back, and for which query. *)
Inductive TimerAction := FailNow | TimeOut.
Inductive FdAction := ReadUdp | TcpEvent.
Record Loop := mkLoop { lo_timers : gmap Z (Z * TimerAction); lo_fds : gmap Z (Z * FdAction) }.

Record UpstreamClient := mkUpstream {
  uc_spoof_threshold : Z; uc_next_id : Z; uc_pending : gmap Z Pending; uc_stats : Stats; uc_loop : Loop;
}.

Definition new_client (spoof_threshold : Z) : UpstreamClient :=
  mkUpstream spoof_threshold 1 ∅ zero_stats (mkLoop ∅ ∅).

Inductive Effect :=
| Opened (fd : Z)
| Wrote (fd : Z) (bytes : list Z)
| Closed (fd : Z)
| Done (id : Z) (result : UpstreamError + Message).

Definition set_pending (c : UpstreamClient) (m : gmap Z Pending) : UpstreamClient :=
  mkUpstream (uc_spoof_threshold c) (uc_next_id c) m (uc_stats c) (uc_loop c).
Definition set_loop (c : UpstreamClient) (l : Loop) : UpstreamClient :=
  mkUpstream (uc_spoof_threshold c) (uc_next_id c) (uc_pending c) (uc_stats c) l.
Definition count (x : Counter) (c : UpstreamClient) : UpstreamClient :=
  mkUpstream (uc_spoof_threshold c) (uc_next_id c) (uc_pending c) (count_up x (uc_stats c)) (uc_loop c).

(** ** The loop's registrations *)

Definition add_timer (c : UpstreamClient) (t id : Z) (a : TimerAction) : UpstreamClient :=
  set_loop c (mkLoop (<[t := (id, a)]> (lo_timers (uc_loop c))) (lo_fds (uc_loop c))).
Definition cancel_timer (c : UpstreamClient) (t : Z) : UpstreamClient :=
  set_loop c (mkLoop (delete t (lo_timers (uc_loop c))) (lo_fds (uc_loop c))).
Definition add_fd (c : UpstreamClient) (fd id : Z) (a : FdAction) : UpstreamClient :=
  set_loop c (mkLoop (lo_timers (uc_loop c)) (<[fd := (id, a)]> (lo_fds (uc_loop c)))).
Definition remove_fd (c : UpstreamClient) (fd : Z) : UpstreamClient :=
  set_loop c (mkLoop (lo_timers (uc_loop c)) (delete fd (lo_fds (uc_loop c)))).

(** ** Matching a reply *)

Inductive Match := MatchNo | MatchWrongCase | MatchYes.

(** [match]; [parse] returns a message or an error. *)
Definition match_reply (msg : outcome ParseError Message) (txid : Z) (question : Question) (match_case : bool) : Match :=
  match msg with
  | Ok m =>
    match m_questions m with
    | [q] =>
      if negb (h_qr (m_header m)) || negb (h_id (m_header m) =? txid)%Z || negb (question_eqb q question) then MatchNo
      else if match_case && negb (same_case (q_qname q) (q_qname question)) then MatchWrongCase
      else MatchYes
    | _ => MatchNo
    end
  | _ => MatchNo
  end.

(** ** Ending a query *)

(** [release]: the descriptor, then the timer. *)
Definition release (c : UpstreamClient) (p : Pending) : list Effect * UpstreamClient :=
  let '(effects, c) := if (0 <=? up_fd p)%Z then ([Closed (up_fd p)], remove_fd c (up_fd p)) else ([], c) in
  (effects, if (up_timer p =? 0)%Z then c else cancel_timer c (up_timer p)).

Definition finish (c : UpstreamClient) (id : Z) (result : UpstreamError + Message) : list Effect * UpstreamClient :=
  match uc_pending c !! id with
  | None => ([], c)
  | Some p =>
    let '(effects, c) := release c p in
    (effects ++ [Done id result], set_pending c (delete id (uc_pending c)))
  end.

Definition cancel (c : UpstreamClient) (id : Z) : list Effect * UpstreamClient :=
  match uc_pending c !! id with
  | None => ([], c)
  | Some p => let '(effects, c) := release c p in (effects, set_pending c (delete id (uc_pending c)))
  end.

(** The destructor: every query in flight is released, no callback runs. *)
Definition destroy (c : UpstreamClient) : list Effect * UpstreamClient :=
  fold_left (λ acc kv, let '(effects, c) := release acc.2 kv.2 in (acc.1 ++ effects, c))
    (map_to_list (uc_pending c)) ([], c).

(** ** Sending *)

Inductive Connect := Connected | InProgress | ConnectFailed.

(** What the system calls of one [send] return: [arc4random], [socket] (a
    descriptor, or negative), [connect], [::send], [add_fd] (whether it
    worked) and the new timer's id. *)
Record SendCalls := mkCalls {
  sc_random : Z; sc_socket : Z; sc_connect : Connect; sc_send_ok : bool; sc_add_fd_ok : bool; sc_timer : Z;
}.

Definition set_id (m : Message) (id : Z) : Message :=
  let h := m_header m in
  mkMessage (mkHeader id (h_qr h) (h_opcode h) (h_aa h) (h_tc h) (h_rd h) (h_ra h) (h_ad h) (h_cd h)
               (h_rcode h) (h_qdcount h) (h_ancount h) (h_nscount h) (h_arcount h))
    (m_questions m) (m_answers m) (m_authority m) (m_additional m) (m_edns m).

Definition store (c : UpstreamClient) (id : Z) (p : Pending) : UpstreamClient :=
  set_pending c (<[id := p]> (uc_pending c)).

Definition set_timer (p : Pending) (t : Z) : Pending :=
  mkUpstreamPending (up_fd p) (up_txid p) (up_question p) t (up_match_case p) (up_wrong_case_seen p)
    (up_suspicious p) (up_out p) (up_written p) (up_in p).
Definition set_out (p : Pending) (out : list Z) : Pending :=
  mkUpstreamPending (up_fd p) (up_txid p) (up_question p) (up_timer p) (up_match_case p) (up_wrong_case_seen p)
    (up_suspicious p) out (up_written p) (up_in p).

(** [fail_soon]: the callback comes from the next turn of the loop. *)
Definition fail_soon (c : UpstreamClient) (id : Z) (p : Pending) (t : Z) : UpstreamClient :=
  store (add_timer (count CErrors c) t id FailNow) id (set_timer p t).

Definition send (c : UpstreamClient) (query : Message) (transport : UpstreamTransport) (match_case : bool)
    (calls : SendCalls) : Z * list Effect * UpstreamClient :=
  let id := uc_next_id c in
  let c := mkUpstream (uc_spoof_threshold c) (u64 (id + 1)) (uc_pending c) (uc_stats c) (uc_loop c) in
  let txid := u16 (sc_random calls) in
  let question := match m_questions query with q :: _ => q | [] => default_question end in
  let fd := sc_socket calls in
  let p := mkUpstreamPending fd txid question 0 match_case false 0 [] 0 [] in
  let query := set_id query txid in
  let failed effects c p := (id, effects, fail_soon c id p (sc_timer calls)) in
  let waiting c p := store (add_timer (count CSent c) (sc_timer calls) id TimeOut) id (set_timer p (sc_timer calls)) in
  if (fd <? 0)%Z then failed [] c p else
  match sc_connect calls, transport with
  | ConnectFailed, _ | InProgress, OverUdp => failed [Opened fd] c p
  | _, OverTcp =>
    let p := set_out p (build_tcp query (mkOptions 512 true)) in
    if sc_add_fd_ok calls then (id, [Opened fd], waiting (count CSentTcp (add_fd c fd id TcpEvent)) p)
    else failed [Opened fd] c p
  | _, OverUdp =>
    let bytes := build query (mkOptions 512 true) in
    if sc_send_ok calls then
      if sc_add_fd_ok calls then (id, [Opened fd; Wrote fd bytes], waiting (add_fd c fd id ReadUdp) p)
      else failed [Opened fd; Wrote fd bytes] c p
    else failed [Opened fd] c p
  end.

(** ** Timers *)

(** The loop runs a timer once, having forgotten it. *)
Definition on_timer (c : UpstreamClient) (t : Z) : list Effect * UpstreamClient :=
  match lo_timers (uc_loop c) !! t with
  | None => ([], c)
  | Some (id, action) =>
    let c := cancel_timer c t in
    match action with
    | FailNow => finish c id (inl NetworkError)
    | TimeOut =>
      let c := count CTimeouts c in
      let wrong_case := match uc_pending c !! id with Some p => up_wrong_case_seen p | None => false end in
      finish c id (inl (if wrong_case then CaseMismatch else Timeout))
    end
  end.

(** ** Reading a UDP reply *)

Inductive Recv := RecvAgain | RecvInterrupted | RecvFailed | Received (bytes : list Z).

Definition suspect (p : Pending) (wrong_case : bool) (suspicious : Z) : Pending :=
  mkUpstreamPending (up_fd p) (up_txid p) (up_question p) (up_timer p) (up_match_case p)
    (up_wrong_case_seen p || wrong_case) suspicious (up_out p) (up_written p) (up_in p).

(** The [while (true)]; [recvs] are the results of its [recv] calls, and the
    socket would block after the last one. *)
Fixpoint on_readable_loop (c : UpstreamClient) (id : Z) (p : Pending) (recvs : list Recv) :
    list Effect * UpstreamClient :=
  match recvs with
  | [] | RecvAgain :: _ => ([], c)
  | RecvInterrupted :: recvs => on_readable_loop c id p recvs
  | RecvFailed :: _ => finish (count CErrors c) id (inl NetworkError)
  | Received bytes :: recvs =>
    let msg := parse bytes in
    match match_reply msg (up_txid p) (up_question p) (up_match_case p), msg with
    | MatchYes, Ok m => finish (count CAnswered c) id (inr m)
    | verdict, _ =>
      let wrong_case := match verdict with MatchWrongCase => true | _ => false end in
      let c := count (if wrong_case then CCaseMismatches else CMismatched) c in
      if (uc_spoof_threshold c =? 0)%Z then
        let p := suspect p wrong_case (up_suspicious p) in on_readable_loop (store c id p) id p recvs
      else
        let p := suspect p wrong_case (u32 (up_suspicious p + 1)) in
        let c := store c id p in
        if (uc_spoof_threshold c <=? up_suspicious p)%Z
        then finish (count CSpoofAlerts c) id (inl SpoofSuspected)
        else on_readable_loop c id p recvs
    end
  end.

Definition on_readable (c : UpstreamClient) (id : Z) (recvs : list Recv) : list Effect * UpstreamClient :=
  match uc_pending c !! id with
  | None => ([], c)
  | Some p => on_readable_loop c id p recvs
  end.

(** ** A TCP exchange *)

Inductive SendResult := SendAgain | SendInterrupted | SendFailed | SendAccepted (n : nat).

Definition set_written (p : Pending) (n : nat) : Pending :=
  mkUpstreamPending (up_fd p) (up_txid p) (up_question p) (up_timer p) (up_match_case p) (up_wrong_case_seen p)
    (up_suspicious p) (up_out p) n (up_in p).
Definition set_in (p : Pending) (bytes : list Z) : Pending :=
  mkUpstreamPending (up_fd p) (up_txid p) (up_question p) (up_timer p) (up_match_case p) (up_wrong_case_seen p)
    (up_suspicious p) (up_out p) (up_written p) bytes.

Definition broke_off (c : UpstreamClient) (id : Z) : list Effect * UpstreamClient :=
  finish (count CErrors c) id (inl NetworkError).

(** Sending the query; [modify_ok] is whether [modify_fd] works. *)
Fixpoint tcp_write (c : UpstreamClient) (id : Z) (p : Pending) (modify_ok : bool) (sends : list SendResult) :
    list Effect * UpstreamClient :=
  if decide (length (up_out p) ≤ up_written p) then if modify_ok then ([], c) else broke_off c id
  else match sends with
  | [] | SendAgain :: _ => ([], c)
  | SendInterrupted :: sends => tcp_write c id p modify_ok sends
  | SendFailed :: _ => broke_off c id
  | SendAccepted n :: sends =>
    let n := Nat.min n (length (up_out p) - up_written p) in
    let '(effects, c') := tcp_write (store c id (set_written p (up_written p + n))) id
                            (set_written p (up_written p + n)) modify_ok sends in
    (Wrote (up_fd p) (take n (drop (up_written p) (up_out p))) :: effects, c')
  end.

(** The body of the framed response, once it is all there. *)
Definition framed (bytes : list Z) : option (list Z) :=
  match bytes with
  | hi :: lo :: rest =>
    let length' := Z.to_nat (Z.lor (Z.shiftl hi 8) lo) in
    if decide (length rest < length') then None else Some (take length' rest)
  | _ => None
  end.

(** What the client does with a whole response. *)
Definition tcp_verdict (c : UpstreamClient) (id : Z) (p : Pending) (body : list Z) : list Effect * UpstreamClient :=
  let msg := parse body in
  match match_reply msg (up_txid p) (up_question p) (up_match_case p), msg with
  | MatchYes, Ok m => finish (count CAnswered c) id (inr m)
  | MatchWrongCase, _ => finish (count CCaseMismatches c) id (inl CaseMismatch)
  | _, _ => broke_off (count CMismatched c) id
  end.

Fixpoint tcp_read (c : UpstreamClient) (id : Z) (p : Pending) (recvs : list Recv) : list Effect * UpstreamClient :=
  match recvs with
  | [] | RecvAgain :: _ => ([], c)
  | RecvInterrupted :: recvs => tcp_read c id p recvs
  | RecvFailed :: _ | Received [] :: _ => broke_off c id
  | Received bytes :: recvs =>
    let p := set_in p (up_in p ++ bytes) in
    let c := store c id p in
    match framed (up_in p) with
    | None => tcp_read c id p recvs
    | Some body => tcp_verdict c id p body
    end
  end.

(** [hung_up]: the event has [EPOLLERR] or [EPOLLHUP]. *)
Definition on_tcp_event (c : UpstreamClient) (id : Z) (hung_up modify_ok : bool) (sends : list SendResult)
    (recvs : list Recv) : list Effect * UpstreamClient :=
  match uc_pending c !! id with
  | None => ([], c)
  | Some p =>
    if decide (up_written p < length (up_out p)) then
      if hung_up then broke_off c id else tcp_write c id p modify_ok sends
    else tcp_read c id p recvs
  end.

(** ** Sequences of operations *)

Inductive Op :=
| OpSend (query : Message) (transport : UpstreamTransport) (match_case : bool) (calls : SendCalls)
| OpCancel (id : Z)
| OpFd (fd : Z) (hung_up modify_ok : bool) (sends : list SendResult) (recvs : list Recv)
| OpTimer (t : Z).

(** The loop calls back only what is registered. *)
Definition exec (c : UpstreamClient) (op : Op) : list Effect * UpstreamClient :=
  match op with
  | OpSend query transport match_case calls => let '(_, effects, c) := send c query transport match_case calls in (effects, c)
  | OpCancel id => cancel c id
  | OpFd fd hung_up modify_ok sends recvs =>
    match lo_fds (uc_loop c) !! fd with
    | None => ([], c)
    | Some (id, ReadUdp) => on_readable c id recvs
    | Some (id, TcpEvent) => on_tcp_event c id hung_up modify_ok sends recvs
    end
  | OpTimer t => on_timer c t
  end.

Fixpoint exec_all (c : UpstreamClient) (ops : list Op) : list Effect * UpstreamClient :=
  match ops with
  | [] => ([], c)
  | op :: ops =>
    let '(effects, c) := exec c op in
    let '(effects', c) := exec_all c ops in
    (effects ++ effects', c)
  end.

(** ** Who is called back, and what is left open *)

Definition dones (effects : list Effect) : list Z :=
  omap (λ e, match e with Done id _ => Some id | _ => None end) effects.

Definition track (open : gset Z) (e : Effect) : gset Z :=
  match e with Opened fd => open ∪ {[fd]} | Closed fd => open ∖ {[fd]} | _ => open end.
Definition open_fds (effects : list Effect) : gset Z := fold_left track effects ∅.

Record client_inv (c : UpstreamClient) (past : list Effect) : Prop := {
  ci_id : ∀ id p, uc_pending c !! id = Some p → (1 ≤ id < uc_next_id c)%Z;
  ci_timer : ∀ id p, uc_pending c !! id = Some p →
    up_timer p ≠ 0%Z ∧ ∃ a, lo_timers (uc_loop c) !! up_timer p = Some (id, a);
  ci_timers : ∀ t id a, lo_timers (uc_loop c) !! t = Some (id, a) → ∃ p, uc_pending c !! id = Some p ∧ up_timer p = t;
  ci_fds : ∀ fd id a, lo_fds (uc_loop c) !! fd = Some (id, a) →
    (0 ≤ fd)%Z ∧ ∃ p, uc_pending c !! id = Some p ∧ up_fd p = fd;
  ci_fd_inj : ∀ id p id' p', uc_pending c !! id = Some p → uc_pending c !! id' = Some p' →
    up_fd p = up_fd p' → (0 ≤ up_fd p)%Z → id = id';
  ci_open : ∀ fd, fd ∈ open_fds past ↔ (0 ≤ fd)%Z ∧ ∃ id p, uc_pending c !! id = Some p ∧ up_fd p = fd;
  ci_done : ∀ id, id ∈ dones past → (id < uc_next_id c)%Z ∧ uc_pending c !! id = None;
  ci_once : NoDup (dones past);
}.

Lemma open_fds_app e1 e2 : open_fds (e1 ++ e2) = fold_left track e2 (open_fds e1).
Proof. unfold open_fds. by rewrite fold_left_app. Qed.

Lemma dones_app e1 e2 : dones (e1 ++ e2) = dones e1 ++ dones e2.
Proof. apply omap_app. Qed.

Lemma client_inv_count c past x : client_inv c past → client_inv (count x c) past.
Proof. by intros []. Qed.

(** A query's record may change as long as its descriptor and timer stay. *)
Lemma client_inv_store c past id p p' : client_inv c past → uc_pending c !! id = Some p →
  up_fd p' = up_fd p → up_timer p' = up_timer p → client_inv (store c id p') past.
Proof.
  intros [Hid Ht Hts Hf Hinj Ho Hd Hon] Hp Efd Et.
  assert (Hlk : ∀ i q, <[id := p']> (uc_pending c) !! i = Some q → ∃ q0, uc_pending c !! i = Some q0 ∧
    up_fd q = up_fd q0 ∧ up_timer q = up_timer q0).
  { intros i q. rewrite lookup_insert_Some. intros [[<- <-]|[_ Hq]]; [by exists p|by exists q]. }
  assert (Hlk' : ∀ i q, uc_pending c !! i = Some q → ∃ q0, <[id := p']> (uc_pending c) !! i = Some q0 ∧
    up_fd q0 = up_fd q ∧ up_timer q0 = up_timer q).
  { intros i q Hq. destruct (decide (i = id)) as [-> |]; [|exists q; by rewrite lookup_insert_ne].
    exists p'. rewrite lookup_insert_eq. by simplify_eq. }
  split; cbn [store set_pending uc_pending uc_next_id uc_loop].
  - intros i q (q0 & Hq & _)%Hlk. by eapply Hid.
  - intros i q (q0 & Hq & _ & ->)%Hlk. by apply Ht.
  - intros t i a (q & Hq & Eq)%Hts. destruct (Hlk' i q Hq) as (q0 & ? & _ & ?). exists q0. split; [done|congruence].
  - intros fd i a (Hpos & q & Hq & Eq)%Hf. split; [done|]. destruct (Hlk' i q Hq) as (q0 & ? & ? & _).
    exists q0. split; [done|congruence].
  - intros i q j r (q0 & Hq & Eq & _)%Hlk (r0 & Hr & Er & _)%Hlk Heq Hpos. apply (Hinj i q0 j r0); congruence.
  - intros fd. rewrite Ho. split; intros [Hpos (i & q & Hq & <-)]; (split; [done|]).
    + destruct (Hlk' i q Hq) as (q0 & ? & ? & _). by exists i, q0.
    + destruct (Hlk i q Hq) as (q0 & ? & -> & _). by exists i, q0.
  - intros i Hi. destruct (Hd i Hi) as [? Hn]. split; [done|]. rewrite lookup_insert_ne; [done|].
    intros <-. congruence.
  - done.
Qed.

(** What ending a query does to the client. *)
Definition ended (c : UpstreamClient) (id : Z) (p : Pending) : UpstreamClient :=
  mkUpstream (uc_spoof_threshold c) (uc_next_id c) (delete id (uc_pending c)) (uc_stats c)
    (mkLoop (delete (up_timer p) (lo_timers (uc_loop c)))
       (if (0 <=? up_fd p)%Z then delete (up_fd p) (lo_fds (uc_loop c)) else lo_fds (uc_loop c))).

Definition closing (p : Pending) : list Effect := if (0 <=? up_fd p)%Z then [Closed (up_fd p)] else [].

Lemma release_spec c p : up_timer p ≠ 0%Z →
  release c p = (closing p, set_pending (ended c 0 p) (uc_pending c)).
Proof.
  intros Ht. unfold release, closing, ended. rewrite (proj2 (Z.eqb_neq _ _)) by done. by destruct (0 <=? up_fd p)%Z.
Qed.

Lemma finish_ends c id p r : uc_pending c !! id = Some p → up_timer p ≠ 0%Z →
  finish c id r = (closing p ++ [Done id r], ended c id p).
Proof. intros Hp Ht. unfold finish. by rewrite Hp, release_spec. Qed.

Lemma cancel_spec c id p : uc_pending c !! id = Some p → up_timer p ≠ 0%Z →
  cancel c id = (closing p, ended c id p).
Proof. intros Hp Ht. unfold cancel. by rewrite Hp, release_spec. Qed.

Lemma open_fds_closing past p fd :
  fd ∈ open_fds (past ++ closing p) ↔ fd ∈ open_fds past ∧ ¬ (up_fd p = fd ∧ (0 ≤ fd)%Z) .
Proof.
  rewrite open_fds_app. unfold closing. destruct (Z.leb_spec 0 (up_fd p)); cbn; set_solver by lia.
Qed.

Lemma client_inv_ended c past id p tail : client_inv c past → uc_pending c !! id = Some p →
  tail = [] ∨ (∃ r, tail = [Done id r]) → client_inv (ended c id p) (past ++ closing p ++ tail).
Proof.
  intros [Hid Ht Hts Hf Hinj Ho Hd Hon] Hp Htail.
  assert (Hopen : ∀ fd, fd ∈ open_fds (past ++ closing p ++ tail) ↔ fd ∈ open_fds (past ++ closing p)).
  { intros fd. rewrite app_assoc, open_fds_app. by destruct Htail as [-> |[r ->]]. }
  assert (Hdones : ∀ i, i ∈ dones (past ++ closing p ++ tail) → i ∈ dones past ∨ i = id).
  { intros i. rewrite !dones_app, !elem_of_app. unfold closing.
    destruct Htail as [-> |[r ->]]; destruct (0 <=? up_fd p)%Z; cbn; set_solver. }
  split; cbn [ended uc_pending uc_next_id uc_loop lo_timers lo_fds].
  - intros i q [_ Hq]%lookup_delete_Some. by eapply Hid.
  - intros i q [Hne Hq]%lookup_delete_Some. destruct (Ht i q Hq) as (? & a & Ha). split; [done|]. exists a.
    rewrite lookup_delete_ne; [done|]. intros E. destruct (Ht id p Hp) as (_ & a' & Ha'). congruence.
  - intros t i a [Hne (q & Hq & Eq)%Hts]%lookup_delete_Some. exists q. split; [|done].
    rewrite lookup_delete_ne; [done|]. intros <-. congruence.
  - intros fd i a Hfd. assert (Hold : lo_fds (uc_loop c) !! fd = Some (i, a) ∧ ¬ ((0 ≤ up_fd p)%Z ∧ fd = up_fd p)).
    { destruct (Z.leb_spec 0 (up_fd p)); [|split; [done|lia]]. apply lookup_delete_Some in Hfd as [? ?]. split; [done|].
      intros [_ ->]. done. }
    destruct Hold as [Hold Hne]. destruct (Hf fd i a Hold) as (Hpos & q & Hq & Eq). split; [done|]. exists q. split; [|done].
    rewrite lookup_delete_ne; [done|]. intros <-. apply Hne. simplify_eq. done.
  - intros i q j r [_ Hq]%lookup_delete_Some [_ Hr]%lookup_delete_Some. by eapply Hinj.
  - intros fd. rewrite Hopen, open_fds_closing, Ho. split.
    + intros [[Hpos (i & q & Hq & Eq)] Hn]. split; [done|]. exists i, q. split; [|done].
      rewrite lookup_delete_ne; [done|]. intros <-. apply Hn. simplify_eq. done.
    + intros [Hpos (i & q & [Hne Hq]%lookup_delete_Some & Eq)]. split; [by eauto|]. intros [Ep _].
      apply Hne. apply (Hinj id p i q); [done|done|congruence|lia].
  - intros i [Hi| ->]%Hdones; [destruct (Hd i Hi) as [? Hn]|split; [by eapply Hid|by rewrite lookup_delete_eq]].
    split; [done|]. by rewrite lookup_delete_None; right.
  - rewrite !dones_app. unfold closing. destruct Htail as [-> |[r ->]]; destruct (0 <=? up_fd p)%Z; cbn;
      rewrite ?app_nil_r; try done; (apply NoDup_app; split_and!; [done| |apply NoDup_singleton];
      intros i Hi ->%list_elem_of_singleton; destruct (Hd id Hi); congruence).
Qed.

(** [r] keeps the invariant from [c] on. *)
Definition keeps (c : UpstreamClient) (r : list Effect * UpstreamClient) : Prop :=
  ∀ past, client_inv c past → client_inv r.2 (past ++ r.1).

Lemma keeps_nil c : keeps c ([], c).
Proof. intros past Hinv. by rewrite app_nil_r. Qed.

Lemma keeps_count c x r : keeps (count x c) r → keeps c r.
Proof. intros Hk past Hinv. by apply Hk, client_inv_count. Qed.

Lemma keeps_finish c id r : keeps c (finish c id r).
Proof.
  intros past Hinv. destruct (uc_pending c !! id) as [p|] eqn:Hp.
  - pose proof (ci_timer _ _ Hinv id p Hp) as [Ht _]. rewrite (finish_ends c id p r Hp Ht).
    apply client_inv_ended; [done|done|]. right. by eexists.
  - unfold finish. rewrite Hp. cbn. by rewrite app_nil_r.
Qed.

Lemma keeps_cancel c id : keeps c (cancel c id).
Proof.
  intros past Hinv. destruct (uc_pending c !! id) as [p|] eqn:Hp.
  - pose proof (ci_timer _ _ Hinv id p Hp) as [Ht _]. rewrite (cancel_spec c id p Hp Ht). cbn [fst snd].
    rewrite <-(app_nil_r (closing p)). apply client_inv_ended; [done|done|by left].
  - unfold cancel. rewrite Hp. cbn. by rewrite app_nil_r.
Qed.

Lemma keeps_store c id p p' r : uc_pending c !! id = Some p → up_fd p' = up_fd p → up_timer p' = up_timer p →
  keeps (store c id p') r → keeps c r.
Proof. intros Hp Ef Et Hk past Hinv. by eapply Hk, client_inv_store. Qed.

Lemma stored c id p : uc_pending (store c id p) !! id = Some p.
Proof. cbn. by rewrite lookup_insert_eq. Qed.

Lemma keeps_broke_off c id : keeps c (broke_off c id).
Proof. apply (keeps_count c CErrors), keeps_finish. Qed.
Hint Resolve keeps_nil keeps_finish keeps_cancel keeps_broke_off : dns.

Lemma keeps_on_readable_loop recvs : ∀ c id p, uc_pending c !! id = Some p → keeps c (on_readable_loop c id p recvs).
Proof.
  induction recvs as [|[| | |bytes] recvs IH]; intros c id p Hp; cbn [on_readable_loop]; auto with dns.
  - by eapply keeps_count, keeps_finish.
  - assert (Hnoise : ∀ wrong_case : bool, keeps c
      (let c := count (if wrong_case then CCaseMismatches else CMismatched) c in
       if (uc_spoof_threshold c =? 0)%Z then
         let p := suspect p wrong_case (up_suspicious p) in on_readable_loop (store c id p) id p recvs
       else
         let p := suspect p wrong_case (u32 (up_suspicious p + 1)) in
         let c := store c id p in
         if (uc_spoof_threshold c <=? up_suspicious p)%Z
         then finish (count CSpoofAlerts c) id (inl SpoofSuspected)
         else on_readable_loop c id p recvs)).
    { intros wrong_case. set (x := if wrong_case then CCaseMismatches else CMismatched). cbv zeta.
      apply (keeps_count c x). destruct (_ =? 0)%Z.
      - apply (keeps_store _ id p (suspect p wrong_case (up_suspicious p))); [done..|]. apply IH, stored.
      - apply (keeps_store _ id p (suspect p wrong_case (u32 (up_suspicious p + 1)))); [done..|].
        destruct (_ <=? _)%Z; [by eapply keeps_count, keeps_finish|]. apply IH, stored. }
    destruct (match_reply _ _ _ _); [apply (Hnoise false)|apply (Hnoise true)|].
    destruct (parse bytes); [by eapply keeps_count, keeps_finish|apply (Hnoise false)..].
Qed.

Lemma keeps_tcp_write sends : ∀ c id p m, uc_pending c !! id = Some p → keeps c (tcp_write c id p m sends).
Proof.
  induction sends as [|[| | |n] sends IH]; intros c id p m Hp; cbn [tcp_write];
    destruct (decide _); try (destruct m; by auto with dns); auto with dns.
  set (p' := set_written p _).
  assert (Hk : keeps c (tcp_write (store c id p') id p' m sends)).
  { apply (keeps_store c id p p'); [done..|]. apply IH, stored. }
  intros past Hinv. specialize (Hk past Hinv). destruct (tcp_write _ _ _ _ _) as [effects c']. cbn [fst snd] in *.
  destruct Hk as [H1 H2 H3 H4 H5 H6 H7 H8]. split; try done; [|intros i; rewrite dones_app in *; by apply H7|by rewrite dones_app in *].
  intros fd. rewrite <-H6, !open_fds_app. done.
Qed.

Lemma keeps_tcp_verdict c id p body : keeps c (tcp_verdict c id p body).
Proof.
  unfold tcp_verdict. destruct (match_reply _ _ _ _); [by eapply keeps_count, keeps_broke_off|by eapply keeps_count, keeps_finish|].
  destruct (parse body); [by eapply keeps_count, keeps_finish|by eapply keeps_count, keeps_broke_off..].
Qed.

Lemma keeps_tcp_read recvs : ∀ c id p, uc_pending c !! id = Some p → keeps c (tcp_read c id p recvs).
Proof.
  induction recvs as [|[| | |[|b bytes]] recvs IH]; intros c id p Hp; cbn [tcp_read]; auto with dns.
  apply (keeps_store c id p (set_in p (up_in p ++ b :: bytes))); [done..|]. destruct (framed _) as [body|]; [apply keeps_tcp_verdict|apply IH, stored].
Qed.

(** A timer that fires has just left the table; ending its query would
    remove it anyway. *)
Lemma keeps_on_timer c t : keeps c (on_timer c t).
Proof.
  intros past Hinv. unfold on_timer. destruct (lo_timers (uc_loop c) !! t) as [[id a]|] eqn:Et; [|by apply keeps_nil].
  destruct (ci_timers _ _ Hinv t id a Et) as (p & Hp & <-). destruct (ci_timer _ _ Hinv id p Hp) as [Ht _].
  assert (Hend : ∀ r x, client_inv (finish (count x (cancel_timer c (up_timer p))) id r).2
    (past ++ (finish (count x (cancel_timer c (up_timer p))) id r).1)).
  { intros r x. rewrite (finish_ends _ id p) by done. cbn [fst snd].
    assert (ended (count x (cancel_timer c (up_timer p))) id p = count x (ended c id p)) as ->.
    { unfold ended, count. cbn. by rewrite delete_delete_eq. }
    apply client_inv_count, client_inv_ended; [done|done|]. right. by eexists. }
  destruct a; [|apply Hend].
  rewrite (finish_ends _ id p) by done. cbn [fst snd].
  assert (ended (cancel_timer c (up_timer p)) id p = ended c id p) as ->.
  { unfold ended. cbn. by rewrite delete_delete_eq. }
  apply client_inv_ended; [done|done|]. right. by eexists.
Qed.

(** What the kernel and the loop promise a new query: a descriptor that is not
    open and a timer id that is not in use (and is not 0); and the 64-bit query
    counter is not exhausted. *)
Definition calls_ok (c : UpstreamClient) (calls : SendCalls) : Prop :=
  sc_timer calls ≠ 0%Z ∧ lo_timers (uc_loop c) !! sc_timer calls = None ∧
  (∀ id p, uc_pending c !! id = Some p → (0 ≤ up_fd p)%Z → up_fd p ≠ sc_socket calls) ∧
  (0 < uc_next_id c < 18446744073709551615)%Z.

(** The state after sending: one more query, its timer, its descriptor if
    registered. *)
Definition started (c : UpstreamClient) (p : Pending) (a : TimerAction) (registered : option FdAction) (s : Stats) :
    UpstreamClient :=
  let id := uc_next_id c in
  mkUpstream (uc_spoof_threshold c) (id + 1) (<[id := p]> (uc_pending c)) s
    (mkLoop (<[up_timer p := (id, a)]> (lo_timers (uc_loop c)))
       (match registered with Some b => <[up_fd p := (id, b)]> (lo_fds (uc_loop c)) | None => lo_fds (uc_loop c) end)).

Lemma client_inv_started c past calls p a registered s effects :
  client_inv c past → calls_ok c calls → up_timer p = sc_timer calls → up_fd p = sc_socket calls →
  (registered ≠ None → (0 ≤ up_fd p)%Z) → dones effects = [] →
  (∀ fd, fd ∈ open_fds (past ++ effects) ↔ fd ∈ open_fds past ∨ ((0 ≤ fd)%Z ∧ fd = up_fd p)) →
  client_inv (started c p a registered s) (past ++ effects).
Proof.
  intros [Hid Ht Hts Hf Hinj Ho Hd Hon] (Ht0 & Htn & Hfd & Hnx) Etp Efp Hreg Hde Hopen.
  assert (Hfresh : uc_pending c !! uc_next_id c = None).
  { destruct (uc_pending c !! uc_next_id c) eqn:E; [|done]. apply Hid in E. lia. }
  assert (Hlk : ∀ i q, <[uc_next_id c := p]> (uc_pending c) !! i = Some q →
    (i = uc_next_id c ∧ q = p) ∨ (i ≠ uc_next_id c ∧ uc_pending c !! i = Some q)).
  { intros i q. rewrite lookup_insert_Some. naive_solver. }
  assert (Hkeep : ∀ i q, uc_pending c !! i = Some q → <[uc_next_id c := p]> (uc_pending c) !! i = Some q).
  { intros i q Hq. rewrite lookup_insert_ne; [done|]. intros <-. congruence. }
  split; cbn [started uc_pending uc_next_id uc_loop lo_timers lo_fds].
  - intros i q [[-> ->]|[_ Hq%Hid]]%Hlk; lia.
  - intros i q [[-> ->]|[_ Hq]]%Hlk; [split; [congruence|]; exists a; by rewrite lookup_insert_eq|].
    destruct (Ht i q Hq) as (? & a' & Ha). split; [done|]. exists a'. rewrite lookup_insert_ne; [done|]. congruence.
  - intros t i b. rewrite lookup_insert_Some. intros [[<- [= <- <-]]|[_ (q & Hq & Eq)%Hts]].
    + exists p. by rewrite lookup_insert_eq.
    + exists q. split; [by apply Hkeep|done].
  - assert (Hold : ∀ fd i b, lo_fds (uc_loop c) !! fd = Some (i, b) →
      (0 ≤ fd)%Z ∧ ∃ q, <[uc_next_id c := p]> (uc_pending c) !! i = Some q ∧ up_fd q = fd).
    { intros fd i b (Hpos & q & Hq & Eq)%Hf. split; [done|]. exists q. split; [by apply Hkeep|done]. }
    intros fd i b. destruct registered as [b'|]; [|by apply Hold]. rewrite lookup_insert_Some.
    intros [[<- [= <- <-]]|[_ ?%Hold]]; [|done]. split; [by apply Hreg|]. exists p. by rewrite lookup_insert_eq.
  - intros i q j r [[-> ->]|[_ Hq]]%Hlk [[-> ->]|[_ Hr]]%Hlk E Hpos; [done| | |by eapply Hinj].
    + exfalso. apply (Hfd j r Hr); congruence.
    + exfalso. apply (Hfd i q Hq); congruence.
  - intros fd. rewrite Hopen, Ho. split.
    + intros [[Hpos (i & q & Hq & Eq)]|[Hpos ->]]; (split; [done|]); [exists i, q; split; [by apply Hkeep|done]|].
      exists (uc_next_id c), p. by rewrite lookup_insert_eq.
    + intros [Hpos (i & q & [[-> ->]|[_ Hq]]%Hlk & Eq)]; [right; by subst|left; by eauto].
  - intros i. rewrite dones_app, Hde, app_nil_r. intros Hi. destruct (Hd i Hi) as [? Hn]. split; [lia|].
    rewrite lookup_insert_ne; [done|lia].
  - by rewrite dones_app, Hde, app_nil_r.
Qed.

(** A sequence of operations whose system calls keep those promises. *)
Fixpoint ops_ok (c : UpstreamClient) (ops : list Op) : Prop :=
  match ops with
  | [] => True
  | op :: ops =>
    match op with OpSend _ _ _ calls => calls_ok c calls | _ => True end ∧ ops_ok (exec c op).2 ops
  end.

Lemma send_started c query transport match_case calls : calls_ok c calls →
  ∃ p a registered s effects,
    send c query transport match_case calls = (uc_next_id c, effects, started c p a registered s) ∧
    up_timer p = sc_timer calls ∧ up_fd p = sc_socket calls ∧ (registered ≠ None → (0 ≤ up_fd p)%Z) ∧
    dones effects = [] ∧
    ∀ past fd, fd ∈ open_fds (past ++ effects) ↔ fd ∈ open_fds past ∨ ((0 ≤ fd)%Z ∧ fd = up_fd p).
Proof.
  intros (_ & _ & _ & Hnx). unfold send.
  assert (u64 (uc_next_id c + 1) = uc_next_id c + 1)%Z as -> by (apply Z.mod_small; lia).
  assert (Hopen1 : ∀ past fd x, (0 ≤ x)%Z → fd ∈ open_fds (past ++ [Opened x]) ↔ fd ∈ open_fds past ∨ (0 ≤ fd)%Z ∧ fd = x).
  { intros past fd x Hx. rewrite open_fds_app. cbn. set_solver by lia. }
  assert (Hopen2 : ∀ past fd x bs, (0 ≤ x)%Z →
    fd ∈ open_fds (past ++ [Opened x; Wrote x bs]) ↔ fd ∈ open_fds past ∨ (0 ≤ fd)%Z ∧ fd = x).
  { intros past fd x bs Hx. rewrite open_fds_app. cbn. set_solver by lia. }
  set (p0 := mkUpstreamPending (sc_socket calls) _ _ 0 match_case false 0 [] 0 []).
  set (p1 := set_out p0 (build_tcp (set_id query (u16 (sc_random calls))) (mkOptions 512 true))).
  destruct (Z.ltb_spec (sc_socket calls) 0).
  { exists (set_timer p0 (sc_timer calls)), FailNow, None. eexists _, _. split; [reflexivity|]. cbn. split_and!; try done.
    intros past fd. rewrite app_nil_r. split; [by left|]. intros [?|[? ->]]; [done|lia]. }
  destruct (sc_connect calls), transport;
    try (destruct (sc_send_ok calls)); try (destruct (sc_add_fd_ok calls)).
  all: first
    [ exists (set_timer p0 (sc_timer calls)), FailNow, None; eexists _, _; split; [reflexivity|]
    | exists (set_timer p1 (sc_timer calls)), FailNow, None; eexists _, _; split; [reflexivity|]
    | exists (set_timer p0 (sc_timer calls)), TimeOut, (Some ReadUdp); eexists _, _; split; [reflexivity|]
    | exists (set_timer p1 (sc_timer calls)), TimeOut, (Some TcpEvent); eexists _, _; split; [reflexivity|] ].
  all: cbn [up_timer up_fd set_timer p0 p1 set_out]; split_and!; [done|done|done|done|intros; by auto].
Qed.

Lemma keeps_exec c op : match op with OpSend _ _ _ calls => calls_ok c calls | _ => True end → keeps c (exec c op).
Proof.
  destruct op as [query transport match_case calls|id|fd h m sends recvs|t]; cbn [exec]; intros Hop.
  - intros past Hinv. destruct (send_started c query transport match_case calls Hop)
      as (p & a & reg & s & effects & -> & Ht & Hf & Hr & Hd & Ho). cbn [fst snd].
    by eapply client_inv_started.
  - apply keeps_cancel.
  - destruct (lo_fds (uc_loop c) !! fd) as [[id []]|]; [| |apply keeps_nil].
    + unfold on_readable. destruct (uc_pending c !! id) eqn:Hp; [by apply keeps_on_readable_loop|apply keeps_nil].
    + unfold on_tcp_event. destruct (uc_pending c !! id) eqn:Hp; [|apply keeps_nil].
      destruct (decide _); [destruct h; [apply keeps_broke_off|by apply keeps_tcp_write]|by apply keeps_tcp_read].
  - apply keeps_on_timer.
Qed.

Lemma keeps_exec_all ops : ∀ c, ops_ok c ops → keeps c (exec_all c ops).
Proof.
  induction ops as [|op ops IH]; intros c Hops past Hinv; [by apply keeps_nil|]. destruct Hops as [Hop Hops].
  pose proof (keeps_exec c op Hop past Hinv) as H1. cbn [exec_all]. destruct (exec c op) as [e1 c1]. cbn [fst snd] in *.
  pose proof (IH c1 Hops _ H1) as H2. destruct (exec_all c1 ops) as [e2 c2]. cbn [fst snd] in *. by rewrite app_assoc.
Qed.

Lemma new_client_inv threshold : client_inv (new_client threshold) [].
Proof.
  split; cbn; try (intros *; rewrite lookup_empty; done); try (intros *; rewrite ?elem_of_empty).
  - split; [done|]. intros [_ (id & p & H & _)]. by rewrite lookup_empty in H.
  - by intros ?%elem_of_nil.
  - constructor.
Qed.

(** ** Destruction *)

Lemma release_effects c p : (release c p).1 = closing p.
Proof. unfold release, closing. by destruct (0 <=? up_fd p)%Z. Qed.

Lemma destroy_effects ps : ∀ acc : list Effect * UpstreamClient,
  (fold_left (λ acc kv, let '(effects, c) := release acc.2 kv.2 in (acc.1 ++ effects, c)) ps acc).1 =
  acc.1 ++ concat (map (λ kv : Z * Pending, closing kv.2) ps).
Proof.
  induction ps as [|kv ps IH]; intros acc; cbn [fold_left map concat]; [by rewrite app_nil_r|]. rewrite IH.
  pose proof (release_effects acc.2 kv.2) as E. destruct (release acc.2 kv.2) as [effects c]. cbn [fst] in *. subst.
  by rewrite app_assoc.
Qed.

Lemma destroy_closes c past : client_inv c past →
  dones (destroy c).1 = [] ∧ ∀ fd, fd ∉ open_fds (past ++ (destroy c).1).
Proof.
  intros Hinv. unfold destroy. rewrite destroy_effects. cbn [fst app]. split.
  { generalize (map_to_list (uc_pending c)). intros ps. induction ps as [|kv ps IH]; [done|]. cbn [map concat].
    rewrite dones_app, IH, app_nil_r. unfold closing. by destruct (0 <=? up_fd kv.2)%Z. }
  assert (Hsub : ∀ ps past fd, fd ∈ open_fds (past ++ concat (map (λ kv : Z * Pending, closing kv.2) ps)) →
    fd ∈ open_fds past ∧ ∀ kv, kv ∈ ps → ¬ (up_fd kv.2 = fd ∧ (0 ≤ fd)%Z)).
  { intros ps. induction ps as [|kv ps IH]; intros E fd; cbn [map concat].
    - rewrite app_nil_r. split; [done|]. by intros ? ?%elem_of_nil.
    - rewrite app_assoc. intros [H1 H2]%IH. rewrite open_fds_closing in H1. destruct H1 as [H1 H3]. split; [done|].
      intros kv' [-> |Hkv]%elem_of_cons; [done|by apply H2]. }
  intros fd [H1 H2]%Hsub. rewrite (ci_open _ _ Hinv) in H1. destruct H1 as [Hpos (id & p & Hp & Ef)].
  apply (H2 (id, p)); [by apply elem_of_map_to_list|done].
Qed.

(** ** Which replies are taken *)

(** [m] is the reply the query waits for. *)
Definition genuine (p : Pending) (m : Message) : Prop :=
  h_qr (m_header m) = true ∧ h_id (m_header m) = up_txid p ∧
  ∃ q, m_questions m = [q] ∧ question_eqb q (up_question p) = true ∧
    (up_match_case p = true → same_case (q_qname q) (q_qname (up_question p)) = true).

Definition reply_match (p : Pending) (bytes : list Z) : Match :=
  match_reply (parse bytes) (up_txid p) (up_question p) (up_match_case p).

Lemma match_reply_yes p bytes m : parse bytes = Ok m → reply_match p bytes = MatchYes ↔ genuine p m.
Proof.
  intros Hm. unfold reply_match, match_reply, genuine. rewrite Hm. destruct (m_questions m) as [|q [|q' qs]].
  1,3: split; [done|]; intros (_ & _ & q0 & [=] & _).
  destruct (h_qr (m_header m)); cbn [negb orb]; [|split; [done|by intros [? _]]].
  destruct (Z.eqb_spec (h_id (m_header m)) (up_txid p)); cbn [negb orb]; [|split; [done|by intros (_ & ? & _)]].
  destruct (question_eqb q (up_question p)) eqn:Eq; cbn [negb orb].
  2: split; [done|]; intros (_ & _ & q0 & [= <-] & E & _); congruence.
  destruct (up_match_case p), (same_case (q_qname q) (q_qname (up_question p))) eqn:Es; cbn [negb andb].
  2: split; [done|]; intros (_ & _ & q0 & [= <-] & _ & E); rewrite E in Es; done.
  all: split; [|done]; intros _; split_and!; try done; by exists q.
Qed.

(** What leaves a query waiting: an interrupted call, or a reply that does not
    match. *)
Definition noise (p : Pending) (r : Recv) : Prop :=
  match r with
  | RecvInterrupted => True
  | Received bytes => reply_match p bytes ≠ MatchYes
  | _ => False
  end.

(** How many replies there are. *)
Fixpoint forged (recvs : list Recv) : Z :=
  match recvs with
  | [] => 0
  | r :: recvs => match r with Received _ => 1 | _ => 0 end + forged recvs
  end.

(** The fields a reply is matched against, and the handles. *)
Record same_query (p p' : Pending) : Prop := {
  sq_fd : up_fd p' = up_fd p; sq_timer : up_timer p' = up_timer p; sq_txid : up_txid p' = up_txid p;
  sq_question : up_question p' = up_question p; sq_case : up_match_case p' = up_match_case p;
}.

Lemma same_query_match p p' bytes : same_query p p' → reply_match p' bytes = reply_match p bytes.
Proof. intros [_ _ E1 E2 E3]. unfold reply_match. by rewrite E1, E2, E3. Qed.

Lemma forged_nonneg recvs : (0 ≤ forged recvs)%Z.
Proof. induction recvs as [|[] recvs IH]; cbn; lia. Qed.

(** One turn on a reply that does not match. *)
Lemma on_readable_noise c id p bytes recvs : reply_match p bytes ≠ MatchYes →
  ∃ wrong_case : bool, on_readable_loop c id p (Received bytes :: recvs) =
    (let c := count (if wrong_case then CCaseMismatches else CMismatched) c in
     if (uc_spoof_threshold c =? 0)%Z then
       let p := suspect p wrong_case (up_suspicious p) in on_readable_loop (store c id p) id p recvs
     else
       let p := suspect p wrong_case (u32 (up_suspicious p + 1)) in
       let c := store c id p in
       if (uc_spoof_threshold c <=? up_suspicious p)%Z
       then finish (count CSpoofAlerts c) id (inl SpoofSuspected)
       else on_readable_loop c id p recvs).
Proof.
  unfold reply_match. cbn [on_readable_loop]. intros Hm. destruct (match_reply _ _ _ _); [by exists false|by exists true|done].
Qed.

Section udp.
Context (id : Z).

Lemma on_readable_waits recvs rest : ∀ c p,
  Forall (noise p) recvs → (0 ≤ up_suspicious p)%Z → (0 ≤ uc_spoof_threshold c < 4294967296)%Z →
  uc_spoof_threshold c = 0%Z ∨ (up_suspicious p + forged recvs < uc_spoof_threshold c)%Z →
  uc_pending c !! id = Some p →
  ∃ c' p', on_readable_loop c id p (recvs ++ rest) = on_readable_loop c' id p' rest ∧ same_query p p' ∧
    uc_pending c' !! id = Some p' ∧ uc_spoof_threshold c' = uc_spoof_threshold c ∧
    up_suspicious p' = (if (uc_spoof_threshold c =? 0)%Z then up_suspicious p else up_suspicious p + forged recvs)%Z.
Proof.
  induction recvs as [|r recvs IH]; intros c p Hn Hs HT Hlt Hp.
  { exists c, p. split_and!; [done|done|done|done|]. cbn [forged]. destruct (_ =? 0)%Z; lia. }
  inv Hn. rename select (noise p r) into Hr. rename select (Forall _ recvs) into Hrs.
  cbn [forged] in *. pose proof (forged_nonneg recvs) as Hf.
  destruct r as [| | |bytes]; try done; cbn [app].
  { cbn [on_readable_loop]. destruct (IH c p Hrs Hs HT) as (c' & p' & ? & ? & ? & ? & Hsus); [lia|done|].
    exists c', p'. split_and!; try done. }
  destruct (on_readable_noise c id p bytes (recvs ++ rest) Hr) as [w ->]. cbv zeta.
  cbn [count uc_spoof_threshold store set_pending up_suspicious suspect].
  assert (Hnoise : ∀ q, same_query p q → Forall (noise q) recvs).
  { intros q Hq. eapply Forall_impl; [exact Hrs|]. intros [| | |bs]; try done. cbn. by rewrite (same_query_match p q bs Hq). }
  destruct (Z.eqb_spec (uc_spoof_threshold c) 0) as [E|E].
  - set (q := suspect p w (up_suspicious p)). set (c1 := store _ id q).
    destruct (IH c1 q) as (c' & p' & -> & Hq & ? & ? & Hsus); [by apply Hnoise|done|done|by left|apply stored|].
    exists c', p'. split; [done|]. split; [by destruct Hq|]. split_and!; [done|done|].
    rewrite Hsus. change (uc_spoof_threshold c1) with (uc_spoof_threshold c). rewrite E. done.
  - destruct Hlt as [?|Hlt]; [done|].
    assert (u32 (up_suspicious p + 1) = up_suspicious p + 1)%Z as -> by (apply Z.mod_small; lia).
    rewrite (proj2 (Z.leb_gt _ _)) by lia.
    set (q := suspect p w (up_suspicious p + 1)). set (c1 := store _ id q).
    destruct (IH c1 q) as (c' & p' & -> & Hq & ? & ? & Hsus);
      [by apply Hnoise|cbn; lia|done|right; cbn; lia|apply stored|].
    exists c', p'. split; [done|]. split; [by destruct Hq|]. split_and!; [done|done|].
    rewrite Hsus. change (uc_spoof_threshold c1) with (uc_spoof_threshold c).
    rewrite (proj2 (Z.eqb_neq _ _)) by done. cbn. lia.
Qed.

(** Only a genuine reply is ever handed over. *)
Lemma on_readable_sound recvs : ∀ c p m, uc_pending c !! id = Some p → up_timer p ≠ 0%Z →
  Done id (inr m) ∈ (on_readable_loop c id p recvs).1 →
  genuine p m ∧ ∃ bytes, Received bytes ∈ recvs ∧ parse bytes = Ok m.
Proof.
  assert (Hfin : ∀ c p r m, uc_pending c !! id = Some p → up_timer p ≠ 0%Z →
    Done id (inr m) ∈ (finish c id r).1 → r = inr m).
  { intros c p r m Hp Ht. rewrite (finish_ends c id p r Hp Ht). unfold closing. cbn [fst].
    destruct (0 <=? up_fd p)%Z; cbn; rewrite ?elem_of_cons, elem_of_nil; naive_solver. }
  induction recvs as [|r recvs IH]; intros c p m Hp Ht Hin; [by apply elem_of_nil in Hin|].
  assert (Hrec : ∀ c' p', same_query p p' → uc_pending c' !! id = Some p' →
    Done id (inr m) ∈ (on_readable_loop c' id p' recvs).1 → genuine p m ∧ ∃ bytes, Received bytes ∈ r :: recvs ∧ parse bytes = Ok m).
  { intros c' p' [E0 E1 E2 E3 E4] Hp' Hin'. destruct (IH c' p' m Hp') as [Hg (bs & ? & ?)]; [congruence|done|].
    split; [|exists bs; split; [by right|done]]. unfold genuine in *. by rewrite E2, E3, E4 in Hg. }
  destruct r as [| | |bytes].
  - by apply elem_of_nil in Hin.
  - by apply (Hrec c p).
  - cbn [on_readable_loop] in Hin. by apply (Hfin _ p) in Hin.
  - destruct (reply_match p bytes) eqn:Em.
    3:{ cbn [on_readable_loop] in Hin. unfold reply_match in Em. rewrite Em in Hin.
        destruct (parse bytes) as [m'| |] eqn:Ep; [|by rewrite ?Ep in Em..].
        apply (Hfin _ p) in Hin as [= ->]; [|done|done]. split; [|exists bytes; split; [left|done]].
        apply (match_reply_yes p bytes m Ep). unfold reply_match. by rewrite Ep. }
    all: assert (Hne : reply_match p bytes ≠ MatchYes) by congruence;
      destruct (on_readable_noise c id p bytes recvs Hne) as [w Hw]; rewrite Hw in Hin; cbv zeta in Hin;
      destruct (_ =? 0)%Z;
      [apply (Hrec (store (count (if w then CCaseMismatches else CMismatched) c) id (suspect p w (up_suspicious p)))
                (suspect p w (up_suspicious p))); [done|apply stored|done]|];
      destruct (_ <=? _)%Z;
      [apply (Hfin _ (suspect p w (u32 (up_suspicious p + 1)))) in Hin; [done|apply stored|done]|];
      apply (Hrec (store (count (if w then CCaseMismatches else CMismatched) c) id (suspect p w (u32 (up_suspicious p + 1))))
                (suspect p w (u32 (up_suspicious p + 1)))); [done|apply stored|done].
Qed.
End udp.

(** ** Reassembling a TCP response *)

(** What a whole response ends the query with. *)
Definition tcp_result (p : Pending) (body : list Z) : UpstreamError + Message :=
  match reply_match p body, parse body with
  | MatchYes, Ok m => inr m
  | MatchWrongCase, _ => inl CaseMismatch
  | _, _ => inl NetworkError
  end.

(** The bytes a run of [recv] calls brings, when none of them ends the
    exchange. *)
Definition flowing (r : Recv) : Prop :=
  match r with RecvInterrupted => True | Received (_ :: _) => True | _ => False end.
Definition stream (recvs : list Recv) : list Z := concat (map (λ r, match r with Received bytes => bytes | _ => [] end) recvs).

(** A complete frame stays the same frame as more bytes arrive. *)
Lemma framed_app a b body : framed a = Some body → framed (a ++ b) = Some body.
Proof.
  destruct a as [|hi [|lo rest]]; try done. cbn [framed app]. case_decide; [done|]. intros [= <-].
  rewrite decide_False by (rewrite length_app; lia). f_equal. rewrite take_app_le; [done|lia].
Qed.

Lemma tcp_verdict_effects c id p q body : uc_pending c !! id = Some q → up_timer q ≠ 0%Z →
  (tcp_verdict c id p body).1 = closing q ++ [Done id (tcp_result p body)].
Proof.
  intros Hq Ht. unfold tcp_verdict, tcp_result, broke_off. fold (reply_match p body).
  destruct (reply_match p body), (parse body); by rewrite (finish_ends _ id q).
Qed.

Lemma tcp_read_stream id recvs : ∀ c p, Forall flowing recvs → uc_pending c !! id = Some p → up_timer p ≠ 0%Z →
  framed (up_in p) = None →
  (tcp_read c id p recvs).1 =
    match framed (up_in p ++ stream recvs) with Some body => closing p ++ [Done id (tcp_result p body)] | None => [] end.
Proof.
  induction recvs as [|r recvs IH]; intros c p Hfl Hp Ht Hin; [cbn; by rewrite app_nil_r, Hin|].
  inv Hfl. destruct r as [| | |[|b bytes]]; try done; cbn [tcp_read]; [by apply IH|].
  unfold stream. cbn [map concat]. fold (stream recvs). rewrite app_assoc.
  set (p' := set_in p (up_in p ++ b :: bytes)). change (up_in p') with (up_in p ++ b :: bytes).
  destruct (framed (up_in p ++ b :: bytes)) as [body|] eqn:Ef.
  - rewrite (framed_app _ (stream recvs) _ Ef). by rewrite (tcp_verdict_effects _ id p' p') by (done || apply stored).
  - by apply (IH (store c id p') p'); [done|apply stored|done|].
Qed.

(** ** Properties *)

(** C20: each query is called back at most once and nothing leaks.  After any
    sequence of sends, cancellations, socket events and timers, no query's
    callback ran twice, none ran for a query still in flight, every query in
    flight has a timer that will end it, and the open descriptors are exactly
    those of the queries in flight; destroying the client closes those without
    running a callback. *)
Theorem callback_once threshold ops :
  ops_ok (new_client threshold) ops →
  let '(effects, c) := exec_all (new_client threshold) ops in
  NoDup (dones effects) ∧
  (∀ id, id ∈ dones effects → uc_pending c !! id = None) ∧
  (∀ id p, uc_pending c !! id = Some p → ∃ a, lo_timers (uc_loop c) !! up_timer p = Some (id, a)) ∧
  (∀ fd, fd ∈ open_fds effects ↔ (0 ≤ fd)%Z ∧ ∃ id p, uc_pending c !! id = Some p ∧ up_fd p = fd) ∧
  dones (destroy c).1 = [] ∧ open_fds (effects ++ (destroy c).1) = ∅.
Proof.
  intros Hops. pose proof (keeps_exec_all ops _ Hops [] (new_client_inv threshold)) as Hinv.
  destruct (exec_all (new_client threshold) ops) as [effects c]. cbn [fst snd app] in Hinv.
  destruct (destroy_closes c effects Hinv) as [Hdd Hdo]. destruct Hinv as [_ Ht _ _ _ Ho Hd Hon].
  split_and!; [done| |by intros id p (_ & ?)%Ht|done|done|set_solver]. intros id Hid. by apply Hd.
Qed.

(** C19: forged replies over UDP.  A reply is handed over only if it is one of
    the datagrams received and carries the query's id and question, and with
    0x20 its exact letter case.  Fewer mismatching replies than the threshold
    never cut a query short: the genuine one that follows is delivered.  The
    mismatching reply that reaches the threshold ends the query with
    [SpoofSuspected]. *)
Theorem udp_reply_exact c id p :
  uc_pending c !! id = Some p → up_timer p ≠ 0%Z → (0 ≤ up_suspicious p)%Z →
  (0 ≤ uc_spoof_threshold c < 4294967296)%Z →
  (∀ recvs m, Done id (inr m) ∈ (on_readable c id recvs).1 →
     genuine p m ∧ ∃ bytes, Received bytes ∈ recvs ∧ parse bytes = Ok m) ∧
  (∀ before bytes after m, Forall (noise p) before →
     uc_spoof_threshold c = 0%Z ∨ (up_suspicious p + forged before < uc_spoof_threshold c)%Z →
     parse bytes = Ok m → genuine p m →
     (on_readable c id (before ++ Received bytes :: after)).1 = closing p ++ [Done id (inr m)]) ∧
  (∀ before bytes after, Forall (noise p) before → noise p (Received bytes) →
     (up_suspicious p + forged before + 1 = uc_spoof_threshold c)%Z →
     (on_readable c id (before ++ Received bytes :: after)).1 = closing p ++ [Done id (inl SpoofSuspected)]).
Proof.
  intros Hp Ht Hs HT. unfold on_readable. rewrite Hp. split_and!.
  - intros recvs m. by apply on_readable_sound.
  - intros before bytes after m Hn Hlt Hm Hg.
    destruct (on_readable_waits id before (Received bytes :: after) c p) as (c' & p' & -> & Hq & Hp' & _ & _); [done..|].
    apply (match_reply_yes p bytes m Hm) in Hg. rewrite <-(same_query_match p p' bytes Hq) in Hg.
    unfold reply_match in Hg. cbn [on_readable_loop]. rewrite Hg, Hm. destruct Hq as [Ef Et _ _ _].
    rewrite (finish_ends _ id p') by (done || congruence). unfold closing. by rewrite Ef.
  - intros before bytes after Hn Hb Heq. pose proof (forged_nonneg before).
    destruct (on_readable_waits id before (Received bytes :: after) c p) as (c' & p' & -> & Hq & Hp' & HT' & Hsus);
      [done|done|done|right; lia|done|].
    assert (Hb' : reply_match p' bytes ≠ MatchYes) by (by rewrite (same_query_match p p' bytes Hq)).
    destruct (on_readable_noise c' id p' bytes after Hb') as [w ->]. cbv zeta.
    cbn [count uc_spoof_threshold store set_pending up_suspicious suspect]. rewrite HT'.
    rewrite (proj2 (Z.eqb_neq _ _)) in Hsus by lia. rewrite (proj2 (Z.eqb_neq _ _)) by lia.
    assert (u32 (up_suspicious p' + 1) = up_suspicious p' + 1)%Z as -> by (apply Z.mod_small; lia).
    rewrite (proj2 (Z.leb_le _ _)) by lia. destruct Hq as [Ef Et _ _ _].
    rewrite (finish_ends _ id (suspect p' w (up_suspicious p' + 1))); [|apply stored|cbn; congruence].
    unfold closing. cbn [fst up_fd suspect]. by rewrite Ef.
Qed.

(** TCP responses are reassembled.  However the stream is cut into reads
    (and however often a read is interrupted), the outcome depends only on the
    bytes: nothing until the announced length has arrived, then exactly one
    verdict, on the framed message alone. *)
Lemma tcp_reassembly c id p recvs hung_up modify_ok sends :
  uc_pending c !! id = Some p → up_timer p ≠ 0%Z → length (up_out p) ≤ up_written p →
  framed (up_in p) = None → Forall flowing recvs →
  (on_tcp_event c id hung_up modify_ok sends recvs).1 =
    match framed (up_in p ++ stream recvs) with Some body => closing p ++ [Done id (tcp_result p body)] | None => [] end.
Proof.
  intros Hp Ht Hw Hin Hfl. unfold on_tcp_event. rewrite Hp, decide_False by lia. by apply tcp_read_stream.
Qed.

(** ** Witnesses *)

Definition ex_question : Question := mkQuestion ex_name RRType.A 1.
Definition ex_ask : Message := mkMessage default_header [ex_question] [] [] [] None.
Definition ex_calls (fd t : Z) : SendCalls := mkCalls 4660 fd Connected true true t.
Definition ex_reply (txid : Z) : Message :=
  mkMessage (mkHeader txid true 0 true false false false false false 0 1 1 0 0) [ex_question]
    [mkRR ex_name RRType.A 1 60 (RDataA [192; 0; 2; 1]%Z) TrustRank.Additional] [] [] None.
Definition ex_bytes (txid : Z) : list Z := Eval vm_compute in build (ex_reply txid) (mkOptions 512 true).
Definition ex_ops : list Op :=
  [OpSend ex_ask OverUdp true (ex_calls 7 1); OpSend ex_ask OverTcp true (ex_calls 8 2);
   OpFd 7 false true [] [Received (ex_bytes 1); RecvInterrupted; Received (ex_bytes 4660)];
   OpSend ex_ask OverUdp true (mkCalls 9 (-1) Connected true true 3); OpTimer 3; OpCancel 2].

Lemma ex_ops_ok : ops_ok (new_client 5) ex_ops.
Proof.
  assert (Hlk : ∀ (m : gmap Z Pending) fd, map_to_list m = [] ∨ Forall (λ kv, up_fd kv.2 ≠ fd) (map_to_list m) →
    ∀ id p, m !! id = Some p → (0 ≤ up_fd p)%Z → up_fd p ≠ fd).
  { intros m fd H id p Hp _. apply elem_of_map_to_list in Hp. destruct H as [H|H].
    - rewrite H in Hp. by apply elem_of_nil in Hp.
    - rewrite Forall_forall in H. apply (H (id, p) Hp). }
  unfold ex_ops. cbn [ops_ok]. split_and!; try exact I.
  all: split; [done|]; split; [vm_compute; reflexivity|]; split; [apply Hlk|vm_compute; by split].
  - left. vm_compute. reflexivity.
  - right. by_compute.
  - right. by_compute.
Qed.

Lemma callback_once_witness :
  let '(effects, c) := exec_all (new_client 5) ex_ops in
  NoDup (dones effects) ∧
  (∀ id, id ∈ dones effects → uc_pending c !! id = None) ∧
  (∀ id p, uc_pending c !! id = Some p → ∃ a, lo_timers (uc_loop c) !! up_timer p = Some (id, a)) ∧
  (∀ fd, fd ∈ open_fds effects ↔ (0 ≤ fd)%Z ∧ ∃ id p, uc_pending c !! id = Some p ∧ up_fd p = fd) ∧
  dones (destroy c).1 = [] ∧ open_fds (effects ++ (destroy c).1) = ∅.
Proof. apply (callback_once 5 ex_ops). exact ex_ops_ok. Defined.

Definition ex_waiting : Pending := mkUpstreamPending 7 4660 ex_question 1 true false 0 [] 0 [].
Definition ex_client : UpstreamClient := mkUpstream 5 2 {[1%Z := ex_waiting]} zero_stats (mkLoop ∅ ∅).

Lemma udp_reply_exact_witness :
  (∀ recvs m, Done 1 (inr m) ∈ (on_readable ex_client 1 recvs).1 →
     genuine ex_waiting m ∧ ∃ bytes, Received bytes ∈ recvs ∧ parse bytes = Ok m) ∧
  (∀ before bytes after m, Forall (noise ex_waiting) before →
     uc_spoof_threshold ex_client = 0%Z ∨ (up_suspicious ex_waiting + forged before < uc_spoof_threshold ex_client)%Z →
     parse bytes = Ok m → genuine ex_waiting m →
     (on_readable ex_client 1 (before ++ Received bytes :: after)).1 = closing ex_waiting ++ [Done 1 (inr m)]) ∧
  (∀ before bytes after, Forall (noise ex_waiting) before → noise ex_waiting (Received bytes) →
     (up_suspicious ex_waiting + forged before + 1 = uc_spoof_threshold ex_client)%Z →
     (on_readable ex_client 1 (before ++ Received bytes :: after)).1 = closing ex_waiting ++ [Done 1 (inl SpoofSuspected)]).
Proof. apply (udp_reply_exact ex_client 1 ex_waiting); [reflexivity|done|done|done]. Defined.

Lemma tcp_reassembly_witness :
  (on_tcp_event ex_client 1 false true [] [Received [0]%Z; RecvInterrupted; Received (zlen (ex_bytes 4660) :: ex_bytes 4660)]).1 =
    closing ex_waiting ++ [Done 1 (tcp_result ex_waiting (ex_bytes 4660))].
Proof.
  rewrite (tcp_reassembly ex_client 1 ex_waiting); [vm_compute; reflexivity|reflexivity|done|done|reflexivity|].
  by repeat (apply Forall_cons; split; [exact I|]); apply Forall_nil_2.
Defined.

(** A forged id is ignored and the genuine reply delivered; five forgeries end
    the query. *)
Example upstream_examples :
  let results effects := omap (λ e, match e with Done id r => Some (id, match r with inl e => Some e | inr _ => None end) | _ => None end) effects in
  (results (exec_all (new_client 5) ex_ops).1,
   results (on_readable ex_client 1 (replicate 6 (Received (ex_bytes 1)))).1,
   open_fds (exec_all (new_client 5) ex_ops).1) =
  ([(1, None); (3, Some NetworkError)]%Z, [(1%Z, Some SpoofSuspected)], ∅).
Proof. vm_compute. reflexivity. Qed.
