(* ===== verification/RateLimiter.v ===== *)
(** * The client rate limiter: [policy/rate_limiter.cpp]

    A token bucket per client address, refilled at [qps] tokens a second up
    to [burst].  Tokens are [double]s: the Standard Library's specification of
    IEEE 754 arithmetic (SpecFloat, binary64 with rounding to nearest even) is
    what the code computes, bit for bit.  Times are nanoseconds of the steady
    clock, which fit a 64-bit integer. *)

From stdpp Require Import base tactics numbers list gmap fin_maps fin_map_dom.
From Stdlib Require Import ZArith Lia SpecFloat.
From S2P Require Import Prelude Acl QueryProcessor.

(** ** Doubles *)

Abbreviation double := spec_float.

(** An integer converted to [double]. *)
Definition dbl (n : Z) : double := binary_normalize 53 1024 n 0 false.
Definition dbl_add (a b : double) : double := SFadd 53 1024 a b.
Definition dbl_sub (a b : double) : double := SFsub 53 1024 a b.
Definition dbl_mul (a b : double) : double := SFmul 53 1024 a b.
Definition dbl_div (a b : double) : double := SFdiv 53 1024 a b.

(** [std::min<double>(a, b)]. *)
Definition dbl_min (a b : double) : double := if SFltb b a then b else a.

(** [std::chrono::duration<double>(ns).count()]. *)
Definition seconds_of (ns : Z) : double := dbl_div (dbl ns) (dbl 1000000000).

(** ** The limiter *)

Record RateLimitConfig := mkRateConfig {
  rlc_qps : Z; rlc_burst : Z; rlc_action : DenyAction; rlc_exempt : list Subnet; rlc_max_clients : Z;
}.

Record Bucket := mkBucket { bk_tokens : double; bk_last : Z }.

(** A client's key in the table: the members [operator==] compares. *)
Definition ip_key (ip : IpAddress) : Z * list Z := (ip_family ip, ip_bytes ip).

Record RateLimiter := mkLimiter {
  rt_config : RateLimitConfig; rt_buckets : gmap (Z * list Z) Bucket; rt_overflow : Bucket;
  rt_overflow_used : bool; rt_last_sweep : Z; rt_limited : Z;
}.

Definition new_limiter (config : RateLimitConfig) : RateLimiter :=
  let config := mkRateConfig (rlc_qps config) (Z.max (rlc_burst config) 1) (rlc_action config) (rlc_exempt config)
                  (rlc_max_clients config) in
  mkLimiter config ∅ (mkBucket (S754_zero false) 0) false 0 0.

Definition limiter_enabled (l : RateLimiter) : bool := (0 <? rlc_qps (rt_config l))%Z.

Definition refilled (l : RateLimiter) (b : Bucket) (now : Z) : double :=
  dbl_add (bk_tokens b) (dbl_mul (seconds_of (now - bk_last b)) (dbl (rlc_qps (rt_config l)))).

(** [take]; the bucket is passed by reference, so it is returned. *)
Definition take_token (l : RateLimiter) (b : Bucket) (now : Z) : bool * Bucket * RateLimiter :=
  let tokens := dbl_min (dbl (rlc_burst (rt_config l))) (refilled l b now) in
  if SFltb tokens (dbl 1)
  then (false, mkBucket tokens now,
        mkLimiter (rt_config l) (rt_buckets l) (rt_overflow l) (rt_overflow_used l) (rt_last_sweep l) (u64 (rt_limited l + 1)))
  else (true, mkBucket (dbl_sub tokens (dbl 1)) now, l).

Definition full_again (l : RateLimiter) (now : Z) (b : Bucket) : bool :=
  SFleb (dbl (rlc_burst (rt_config l))) (refilled l b now).

Definition forget_idle (l : RateLimiter) (now : Z) : RateLimiter :=
  mkLimiter (rt_config l) (filter (λ kv, full_again l now kv.2 = false) (rt_buckets l)) (rt_overflow l)
    (rt_overflow_used l) now (rt_limited l).

Definition set_bucket (l : RateLimiter) (k : Z * list Z) (b : Bucket) : RateLimiter :=
  mkLimiter (rt_config l) (<[k := b]> (rt_buckets l)) (rt_overflow l) (rt_overflow_used l) (rt_last_sweep l) (rt_limited l).
Definition set_shared (l : RateLimiter) (b : Bucket) : RateLimiter :=
  mkLimiter (rt_config l) (rt_buckets l) b true (rt_last_sweep l) (rt_limited l).

Definition table_full (l : RateLimiter) : bool := (rlc_max_clients (rt_config l) <=? Z.of_nat (size (rt_buckets l)))%Z.

Definition new_bucket (l : RateLimiter) (now : Z) : Bucket := mkBucket (dbl (rlc_burst (rt_config l))) now.

Definition allow (l : RateLimiter) (client : sockaddr) (now : Z) : bool * RateLimiter :=
  if negb (limiter_enabled l) then (true, l) else
  match ip_address client with
  | None => (true, l)
  | Some ip =>
    if any_contains (rlc_exempt (rt_config l)) client then (true, l) else
    match rt_buckets l !! ip_key ip with
    | Some b => let '(ok, b, l) := take_token l b now in (ok, set_bucket l (ip_key ip) b)
    | None =>
      let l := if table_full l && (1000000000 <=? now - rt_last_sweep l)%Z then forget_idle l now else l in
      if table_full l then
        let b := if rt_overflow_used l then rt_overflow l else new_bucket l now in
        let '(ok, b, l) := take_token l b now in (ok, set_shared l b)
      else
        let '(ok, b, l) := take_token l (new_bucket l now) now in (ok, set_bucket l (ip_key ip) b)
    end
  end.

(** The limiter the query pipeline uses. *)
Global Instance rate_limiter : RateLimit RateLimiter :=
  { rate_allow := allow; rate_action l := rlc_action (rt_config l) }.

(** ** Integers up to 53 bits are exact *)

(** [k * 2 ^ n]. *)
Definition shl (k : positive) (n : nat) : positive := Nat.iter n xO k.

Lemma shl_Z k n : Zpos (shl k n) = (Zpos k * 2 ^ Z.of_nat n)%Z.
Proof.
  induction n as [|n IH]; [by rewrite Z.pow_0_r, Z.mul_1_r|]. unfold shl in *. rewrite Nat.iter_succ.
  rewrite Nat2Z.inj_succ, Z.pow_succ_r by lia. rewrite Pos2Z.inj_xO, IH. lia.
Qed.

Lemma shl_shl k n m : shl (shl k n) m = shl k (m + n).
Proof. unfold shl. by rewrite Nat.iter_add. Qed.

Definition digits (k : positive) : nat := Pos.to_nat (digits2_pos k).

Lemma digits_pos k : 1 ≤ digits k.
Proof. unfold digits. lia. Qed.

Lemma digits_shl k n : digits (shl k n) = digits k + n.
Proof.
  induction n as [|n IH]; [by rewrite Nat.add_0_r|]. unfold shl in *. rewrite Nat.iter_succ. unfold digits in *.
  cbn [digits2_pos]. lia.
Qed.

Lemma digits_bounds k : (2 ^ (Z.of_nat (digits k) - 1) ≤ Zpos k < 2 ^ Z.of_nat (digits k))%Z.
Proof.
  unfold digits. rewrite positive_nat_Z. induction k as [k IH|k IH|]; cbn [digits2_pos]; [| |done];
    rewrite Pos2Z.inj_succ; replace (Z.succ (Z.pos (digits2_pos k)) - 1)%Z with (Z.succ (Z.pos (digits2_pos k) - 1))%Z by lia;
    rewrite !Z.pow_succ_r by lia; lia.
Qed.

Lemma digits_le k n : (Zpos k < 2 ^ Z.of_nat n)%Z → digits k ≤ n.
Proof.
  intros Hk. destruct (digits_bounds k) as [Hlo _]. destruct (decide (digits k ≤ n)) as [|Hn]; [done|].
  assert (2 ^ Z.of_nat n ≤ 2 ^ (Z.of_nat (digits k) - 1))%Z by (apply Z.pow_le_mono_r; lia). lia.
Qed.

Lemma pos_iter_shl k (d : positive) : Pos.iter xO k d = shl k (Pos.to_nat d).
Proof. unfold shl. by rewrite Pos2Nat.inj_iter. Qed.

Lemma iter_pos_nat {A} (f : A → A) n : ∀ x, iter_pos f n x = Nat.iter (Pos.to_nat n) f x.
Proof.
  induction n as [n IH|n IH|]; intros x; cbn [iter_pos]; [| |done]; rewrite !IH, <-Nat.iter_add.
  - rewrite Pos2Nat.inj_xI. replace (S (2 * Pos.to_nat n)) with (Pos.to_nat n + Pos.to_nat n + 1) by lia.
    by rewrite (Nat.iter_add (Pos.to_nat n + Pos.to_nat n) 1).
  - rewrite Pos2Nat.inj_xO. f_equal. lia.
Qed.

Definition exact_record (k : positive) : shr_record := Build_shr_record (Zpos k) false false.

Lemma shr_shl k n : Nat.iter n shr_1 (exact_record (shl k n)) = exact_record k.
Proof.
  induction n as [|n IH]; [done|]. rewrite Nat.iter_succ_r. unfold shl. rewrite Nat.iter_succ. fold (shl k n). exact IH.
Qed.

(** The [double] of a number of at most 53 bits. *)
Definition canon (k : positive) : double :=
  S754_finite false (shl k (53 - digits k)) (Z.of_nat (digits k) - 53).

Lemma fexp_small d : (1 ≤ d ≤ 53)%Z → fexp 53 1024 d = (d - 53)%Z.
Proof. intros. unfold fexp, emin. lia. Qed.

Lemma shr_fexp_exact k s n e : digits k ≤ 53 → digits k + s = 53 + n → e = (Z.of_nat (digits k) - 53 - Z.of_nat n)%Z →
  shr_fexp 53 1024 (Zpos (shl k s)) e loc_Exact = (exact_record (shl k (53 - digits k)), (Z.of_nat (digits k) - 53)%Z).
Proof.
  intros Hk Hs ->. pose proof (digits_pos k) as Hpos. unfold shr_fexp. cbn [shr_record_of_loc Zdigits2].
  assert (Zpos (digits2_pos (shl k s)) = Z.of_nat (digits k + s)) as ->.
  { rewrite <-digits_shl. unfold digits. by rewrite positive_nat_Z. }
  rewrite fexp_small by lia.
  replace (Z.of_nat (digits k + s) + (Z.of_nat (digits k) - 53 - Z.of_nat n) - 53
           - (Z.of_nat (digits k) - 53 - Z.of_nat n))%Z with (Z.of_nat n) by lia.
  unfold shr. destruct n as [|n]; cbn [Z.of_nat].
  - f_equal; [|lia]. unfold exact_record. do 2 f_equal. f_equal. lia.
  - f_equal; [|lia]. rewrite iter_pos_nat, SuccNat2Pos.id_succ.
    assert (shl k s = shl (shl k (53 - digits k)) (S n)) as -> by (rewrite shl_shl; f_equal; lia).
    apply shr_shl.
Qed.

Lemma round_exact k s n e : digits k ≤ 53 → digits k + s = 53 + n → e = (Z.of_nat (digits k) - 53 - Z.of_nat n)%Z →
  binary_round_aux 53 1024 false (Zpos (shl k s)) e loc_Exact = canon k.
Proof.
  intros Hk Hs He. pose proof (digits_pos k). unfold binary_round_aux. rewrite (shr_fexp_exact k s n e) by done.
  cbn [shr_m exact_record loc_of_shr_record round_nearest_even].
  rewrite (shr_fexp_exact k (53 - digits k) 0) by lia. cbn [shr_m exact_record].
  rewrite (proj2 (Z.leb_le _ _)) by lia. done.
Qed.

Lemma normalize_exact k s : digits k ≤ 53 →
  binary_normalize 53 1024 (Zpos (shl k s)) (- Z.of_nat s) false = canon k.
Proof.
  intros Hk. pose proof (digits_pos k) as Hpos. cbn [binary_normalize]. unfold binary_round, shl_align.
  assert (Zpos (digits2_pos (shl k s)) = Z.of_nat (digits k + s)) as ->.
  { rewrite <-digits_shl. unfold digits. by rewrite positive_nat_Z. }
  replace (Z.of_nat (digits k + s) + - Z.of_nat s)%Z with (Z.of_nat (digits k)) by lia.
  rewrite fexp_small by lia. destruct (decide (digits k + s < 53)) as [Hlt|Hge].
  - replace (Z.of_nat (digits k) - 53 - - Z.of_nat s)%Z with (Zneg (Pos.of_nat (53 - digits k - s))) by lia.
    rewrite pos_iter_shl, Nat2Pos.id by lia. rewrite shl_shl. replace (53 - digits k - s + s) with (53 - digits k) by lia.
    apply (round_exact k _ 0); lia.
  - destruct (Z.of_nat (digits k) - 53 - - Z.of_nat s)%Z eqn:E; [| |lia];
      apply (round_exact k s (digits k + s - 53)); lia.
Qed.

(** A token count. *)
Definition token_count (n : Z) : Prop := (0 ≤ n < 2 ^ 53)%Z.

Lemma dbl_pos k : (Zpos k < 2 ^ 53)%Z → digits k ≤ 53 ∧ dbl (Zpos k) = canon k.
Proof.
  intros Hk. assert (Hd : digits k ≤ 53) by (by apply digits_le). split; [done|]. exact (normalize_exact k 0 Hd).
Qed.

Lemma align_canon k : digits k ≤ 53 →
  fst (shl_align (shl k (53 - digits k)) (Z.of_nat (digits k) - 53) (-52)) = shl k 52.
Proof.
  intros Hk. pose proof (digits_pos k). unfold shl_align. destruct (decide (digits k = 1)) as [E|E].
  - rewrite E. done.
  - replace (-52 - (Z.of_nat (digits k) - 53))%Z with (Zneg (Pos.of_nat (digits k - 1))) by lia. cbn [fst].
    rewrite pos_iter_shl, Nat2Pos.id by lia. rewrite shl_shl. f_equal. lia.
Qed.

(** Taking a token is exact. *)
Lemma dbl_sub_one n : (1 ≤ n < 2 ^ 53)%Z → dbl_sub (dbl n) (dbl 1) = dbl (n - 1).
Proof.
  intros Hn. destruct n as [|k|]; try lia. destruct (dbl_pos k) as [Hd ->]; [lia|].
  destruct (dbl_pos 1) as [Hd1 ->]; [done|]. unfold dbl_sub, canon. pose proof (digits_pos k).
  change (Z.of_nat (digits 1) - 53)%Z with (-52)%Z. cbn [SFsub cond_Zopp]. rewrite Z.min_r by lia.
  rewrite align_canon by done. 
  change (fst (shl_align (shl 1 (53 - digits 1)) (-52) (-52))) with (shl 1 52). rewrite !shl_Z.
  destruct (decide (k = 1%positive)) as [-> |Hk]; [done|].
  assert (Zpos k * 2 ^ Z.of_nat 52 - 1 * 2 ^ Z.of_nat 52 = Zpos (shl (k - 1) 52))%Z as ->.
  { rewrite shl_Z. rewrite Pos2Z.inj_sub by lia. lia. }
  assert (Hk1 : (Zpos (k - 1) < 2 ^ 53)%Z) by lia.
  destruct (dbl_pos (k - 1) Hk1) as [Hd2 Hc]. replace (Zpos k - 1)%Z with (Zpos (k - 1)) by lia. rewrite Hc.
  exact (normalize_exact (k - 1) 52 Hd2).
Qed.

Lemma dbl_lt a b : (0 ≤ a < b)%Z → (b < 2 ^ 53)%Z → SFltb (dbl a) (dbl b) = true.
Proof.
  intros Ha Hb. destruct b as [|kb|]; try lia. destruct (dbl_pos kb) as [Hdb ->]; [lia|].
  destruct a as [|ka|]; [done| |lia]. destruct (dbl_pos ka) as [Hda ->]; [lia|].
  unfold SFltb, canon. cbn [SFcompare].
  pose proof (digits_bounds ka) as [La Ua]. pose proof (digits_bounds kb) as [Lb Ub].
  assert (Hdd : digits ka ≤ digits kb) by (apply digits_le; lia).
  destruct (Z.compare_spec (Z.of_nat (digits ka) - 53) (Z.of_nat (digits kb) - 53)) as [E|E|E]; [|done|lia].
  assert (digits ka = digits kb) as -> by lia.
  change (Pos.compare_cont Eq ?x ?y) with (Pos.compare x y). rewrite (proj2 (Pos.compare_lt_iff _ _)); [done|].
  cut (Zpos (shl ka (53 - digits kb)) < Zpos (shl kb (53 - digits kb)))%Z; [lia|]. rewrite !shl_Z.
  assert (0 < 2 ^ Z.of_nat (53 - digits kb))%Z by (apply Z.pow_pos_nonneg; lia). nia.
Qed.

Lemma dbl_not_lt a b : (0 ≤ b ≤ a)%Z → (a < 2 ^ 53)%Z → SFltb (dbl a) (dbl b) = false.
Proof.
  intros Hb Ha. destruct (decide (a = b)) as [-> |Hne].
  - destruct b as [|k|]; [done| |lia]. destruct (dbl_pos k) as [_ ->]; [lia|]. unfold SFltb, canon. cbn [SFcompare].
    rewrite Z.compare_refl. change (Pos.compare_cont Eq ?x ?y) with (Pos.compare x y). by rewrite Pos.compare_refl.
  - pose proof (dbl_lt b a ltac:(lia) Ha) as Hlt. unfold SFltb in *.
    assert (Hswap : ∀ x y, SFcompare x y = Some Lt → SFcompare y x = Some Gt).
    { intros [[]|[]| |[] m e] [[]|[]| |[] m' e']; cbn; try done; rewrite (Z.compare_antisym e e');
        destruct (Z.compare e e'); cbn; try done; change (Pos.compare_cont Eq ?x ?y) with (Pos.compare x y);
        rewrite (Pos.compare_antisym m m'); destruct (Pos.compare m m'); done. }
    destruct (SFcompare (dbl b) (dbl a)) as [[]|] eqn:E; try done. by rewrite (Hswap _ _ E).
Qed.

(** ** No time, no refill *)

Definition config_ok (c : RateLimitConfig) : Prop :=
  (0 < rlc_qps c < 4294967296)%Z ∧ (1 ≤ rlc_burst c < 4294967296)%Z.

Lemma refilled_now l n now : config_ok (rt_config l) → token_count n → refilled l (mkBucket (dbl n) now) now = dbl n.
Proof.
  intros [Hq _] Hn. unfold refilled, seconds_of. cbn [bk_tokens bk_last]. rewrite Z.sub_diag.
  destruct (rlc_qps (rt_config l)) as [|q|] eqn:Eq; try lia. destruct (dbl_pos q) as [_ ->]; [lia|].
  change (dbl_div (dbl 0) (dbl 1000000000)) with (S754_zero false). unfold token_count in Hn.
  destruct n as [|k|]; [done| |lia]. destruct (dbl_pos k) as [_ ->]; [lia|]. done.
Qed.

Lemma take_now l n now : config_ok (rt_config l) → (0 ≤ n ≤ rlc_burst (rt_config l))%Z →
  ∃ l', take_token l (mkBucket (dbl n) now) now =
    ((0 <? n)%Z, mkBucket (dbl (Z.max (n - 1) 0)) now, l') ∧ rt_config l' = rt_config l ∧ rt_buckets l' = rt_buckets l.
Proof.
  intros Hc Hn. pose proof Hc as [_ Hb]. unfold take_token. rewrite refilled_now by (done || unfold token_count; lia).
  assert (dbl_min (dbl (rlc_burst (rt_config l))) (dbl n) = dbl n) as ->.
  { unfold dbl_min. destruct (decide (n = rlc_burst (rt_config l))) as [E|E].
    - rewrite dbl_not_lt by lia. by rewrite E.
    - by rewrite dbl_lt by lia. }
  destruct (Z.ltb_spec 0 n).
  - rewrite dbl_not_lt by lia. rewrite dbl_sub_one, Z.max_l by lia. by eexists.
  - assert (n = 0)%Z as -> by lia. rewrite dbl_lt by lia. by eexists.
Qed.

(** [n] queries at the same instant. *)
Fixpoint allow_times (l : RateLimiter) (client : sockaddr) (now : Z) (n : nat) : list bool * RateLimiter :=
  match n with
  | O => ([], l)
  | S n =>
    let '(ok, l) := allow l client now in
    let '(oks, l) := allow_times l client now n in
    (ok :: oks, l)
  end.

(** A client the limiter applies to. *)
Definition limited_client (l : RateLimiter) (client : sockaddr) (ip : IpAddress) : Prop :=
  ip_address client = Some ip ∧ any_contains (rlc_exempt (rt_config l)) client = false.

Lemma allow_bucket l client ip b now : config_ok (rt_config l) → limited_client l client ip →
  rt_buckets l !! ip_key ip = Some b →
  allow l client now = (let '(ok, b, l) := take_token l b now in (ok, set_bucket l (ip_key ip) b)).
Proof.
  intros [Hq _] [Hip Hex] Hb. unfold allow, limiter_enabled. rewrite (proj2 (Z.ltb_lt _ _)) by lia. cbn [negb].
  by rewrite Hip, Hex, Hb.
Qed.

Lemma allow_times_bucket client ip now n : ∀ l k, config_ok (rt_config l) → limited_client l client ip →
  (0 ≤ k ≤ rlc_burst (rt_config l))%Z → rt_buckets l !! ip_key ip = Some (mkBucket (dbl k) now) →
  (allow_times l client now n).1 = replicate (Nat.min n (Z.to_nat k)) true ++ replicate (n - Z.to_nat k) false.
Proof.
  induction n as [|n IH]; intros l k Hc Hl Hk Hb; [done|]. cbn [allow_times].
  rewrite (allow_bucket l client ip _ now Hc Hl Hb).
  destruct (take_now l k now Hc Hk) as (l' & -> & Hc' & Hb'). cbn [fst snd].
  set (l1 := set_bucket l' (ip_key ip) (mkBucket (dbl (Z.max (k - 1) 0)) now)).
  assert (Hcfg : rt_config l1 = rt_config l) by done.
  specialize (IH l1 (Z.max (k - 1) 0)). rewrite Hcfg in IH.
  destruct (allow_times l1 client now n) as [oks l2]. cbn [fst] in *. rewrite IH; [|done| |lia|].
  - destruct (Z.ltb_spec 0 k).
    + rewrite Z.max_l by lia. replace (Z.to_nat k) with (S (Z.to_nat (k - 1))) by lia. done.
    + assert (k = 0)%Z as -> by lia. change (Z.to_nat (Z.max (0 - 1) 0)) with 0. change (Z.to_nat 0) with 0.
      rewrite Nat.min_0_r, Nat.sub_0_r. done.
  - destruct Hl as [? ?]. split; [done|]. by rewrite Hcfg.
  - cbn. by rewrite lookup_insert_eq.
Qed.

(** ** The table stays within its bound *)

Definition table_ok (l : RateLimiter) : Prop :=
  (Z.of_nat (size (rt_buckets l)) ≤ Z.max 0 (rlc_max_clients (rt_config l)))%Z.

Lemma take_token_frame l b now ok b' l' : take_token l b now = (ok, b', l') →
  rt_config l' = rt_config l ∧ rt_buckets l' = rt_buckets l.
Proof. unfold take_token. destruct (SFltb _ _); by intros [= <- <- <-]. Qed.

Lemma allow_table l client now : table_ok l →
  table_ok (allow l client now).2 ∧ rt_config (allow l client now).2 = rt_config l.
Proof.
  intros Ht. unfold allow. destruct (limiter_enabled l); [|done]. destruct (ip_address client) as [ip|]; [|done].
  cbn [negb]. destruct (any_contains _ _); [done|]. destruct (rt_buckets l !! ip_key ip) as [b|] eqn:Eb.
  { destruct (take_token l b now) as [[ok b'] l'] eqn:E. apply take_token_frame in E as [Ec Ebk].
    split; [|done]. unfold table_ok in *. cbn. rewrite Ebk, Ec, map_size_insert_Some by (by rewrite Eb). done. }
  set (l1 := if _ && _ then forget_idle l now else l).
  assert (H1 : rt_config l1 = rt_config l ∧ size (rt_buckets l1) ≤ size (rt_buckets l) ∧ rt_buckets l1 !! ip_key ip = None).
  { unfold l1. destruct (_ && _); [|done]. split_and!; [done|apply map_subseteq_size, map_filter_subseteq|].
    cbn. by rewrite map_lookup_filter, Eb. }
  clearbody l1. destruct H1 as (Hc1 & Hsz & Hk1). unfold table_ok in *. destruct (table_full l1) eqn:Ef.
  - destruct (take_token l1 _ now) as [[ok b'] l'] eqn:E. apply take_token_frame in E as [Ec Ebk].
    cbn. rewrite Ebk, Ec, Hc1. split; [lia|done].
  - apply Z.leb_gt in Ef. destruct (take_token l1 _ now) as [[ok b'] l'] eqn:E. apply take_token_frame in E as [Ec Ebk].
    cbn. rewrite Ebk, Ec, map_size_insert_None by done. rewrite Hc1 in *. split; [lia|done].
Qed.

Definition allow_all (l : RateLimiter) (queries : list (sockaddr * Z)) : RateLimiter :=
  fold_left (λ l q, (allow l q.1 q.2).2) queries l.

Lemma allow_all_table queries : ∀ l, table_ok l → table_ok (allow_all l queries) ∧ rt_config (allow_all l queries) = rt_config l.
Proof.
  induction queries as [|[client now] queries IH]; intros l Ht; [done|]. cbn [allow_all fold_left].
  destruct (allow_table l client now Ht) as [H1 H2]. destruct (IH _ H1) as [H3 H4]. split; [exact H3|exact (eq_trans H4 H2)].
Qed.

(** ** Properties *)

(** A burst is exactly a burst.  Whatever happened before, a client the
    table has room for and has no bucket for may send exactly [burst] queries
    at one instant: those are allowed and every further one is refused.  The
    [double] arithmetic loses nothing here. *)
Lemma burst_exact config queries client ip now n :
  config_ok (rt_config (new_limiter config)) →
  let l := allow_all (new_limiter config) queries in
  limited_client l client ip → rt_buckets l !! ip_key ip = None → table_full l = false →
  let burst := Z.to_nat (rlc_burst (rt_config (new_limiter config))) in
  (allow_times l client now n).1 = replicate (Nat.min n burst) true ++ replicate (n - burst) false.
Proof.
  intros Hok l Hl Hb Hf burst.
  assert (Ht0 : table_ok (new_limiter config)) by (unfold table_ok; cbn; rewrite map_size_empty; lia).
  destruct (allow_all_table queries _ Ht0) as [_ Hc]. fold l in Hc. unfold burst. clear burst. rewrite <-Hc in Hok |- *.
  destruct n as [|n]; [done|]. cbn [allow_times].
  assert (Ha : allow l client now = (let '(ok, b, l) := take_token l (new_bucket l now) now in (ok, set_bucket l (ip_key ip) b))).
  { destruct Hok as [Hq _]. destruct Hl as [Hip Hex]. unfold allow, limiter_enabled.
    rewrite (proj2 (Z.ltb_lt _ _)) by lia. cbn [negb]. rewrite Hip, Hex, Hb, Hf. cbn [andb]. by rewrite Hf. }
  rewrite Ha. unfold new_bucket. set (k := rlc_burst (rt_config l)) in *.
  destruct (take_now l k now Hok) as (l' & -> & Hc' & Hb'); [unfold k in *; destruct Hok; lia|]. cbn [fst snd].
  set (l1 := set_bucket l' (ip_key ip) (mkBucket (dbl (Z.max (k - 1) 0)) now)).
  assert (Hcfg : rt_config l1 = rt_config l) by done.
  pose proof (allow_times_bucket client ip now n l1 (Z.max (k - 1) 0)) as IH. rewrite Hcfg in IH.
  destruct (allow_times l1 client now n) as [oks l2]. cbn [fst] in *. destruct Hok as [Hq Hk]. fold k in Hk.
  rewrite IH; [|done| |fold k; lia|].
  - rewrite (proj2 (Z.ltb_lt _ _)) by lia. rewrite Z.max_l by lia. replace (Z.to_nat k) with (S (Z.to_nat (k - 1))) by lia. done.
  - destruct Hl as [? ?]. split; [done|]. by rewrite Hcfg.
  - cbn. by rewrite lookup_insert_eq.
Qed.

(** A flood cannot grow the table.  After any sequence of queries from any
    addresses at any times, at most [max_clients] clients have a bucket. *)
Lemma clients_bounded config queries :
  (Z.of_nat (size (rt_buckets (allow_all (new_limiter config) queries))) ≤ Z.max 0 (rlc_max_clients config))%Z.
Proof.
  assert (Ht0 : table_ok (new_limiter config)) by (unfold table_ok; cbn; rewrite map_size_empty; lia).
  destruct (allow_all_table queries _ Ht0) as [Ht Hc]. unfold table_ok in Ht. by rewrite Hc in Ht.
Qed.

(** ** Witnesses *)

Definition ex_rate : RateLimitConfig := mkRateConfig 100 3 DropQuery [] 2.
Definition ex_home : sockaddr := SockV4 [192; 168; 7; 9]%Z 4000.
Definition ex_home_ip : IpAddress := mkIp AF_INET (into_array [192; 168; 7; 9]%Z).
Definition ex_history : list (sockaddr * Z) := [(SockV4 [192; 168; 7; 1]%Z 1, 5)]%Z.

Lemma burst_exact_witness :
  (allow_times (allow_all (new_limiter ex_rate) ex_history) ex_home 7 5).1 = [true; true; true; false; false].
Proof.
  apply (burst_exact ex_rate ex_history ex_home ex_home_ip 7 5);
    [split; cbn; lia|split; vm_compute; reflexivity|vm_compute; reflexivity|vm_compute; reflexivity].
Defined.

(** A token comes back after 10 ms at 100 a second; the third client shares a
    bucket once the table is full. *)
Example refill_examples :
  let l := (allow_times (new_limiter ex_rate) ex_home 7 4).2 in
  ((allow l ex_home 9000000).1, (allow l ex_home 10000007).1,
   size (rt_buckets (allow_all (new_limiter ex_rate) (map (λ i, (SockV4 [10; 0; 0; i]%Z 1, 5%Z)) [1; 2; 3; 4]%Z))))
  = (false, true, 2).
Proof. vm_compute. reflexivity. Qed.
