(* ===== verification/EventLoop.v ===== *)
(** * The event loop: [net/event_loop.cpp]

    One thread waits in epoll and calls back the owners of descriptors and
    timers.  Callbacks are values of abstract types ([Io] for descriptors,
    [Tm] for timers); what a callback does to the loop is the list of calls it
    makes, and an arbitrary function gives the calls of the n-th callback run,
    so a theorem for every such function covers every behaviour, including
    callbacks that remove or re-add themselves and each other.  What the kernel
    returns (epoll_ctl, epoll_wait) and the clock are arguments.

    [std::map<TimerKey, TimerCallback>] is a list sorted by (deadline, id);
    times are nanoseconds. *)

From stdpp Require Import base tactics numbers list gmap fin_maps sorting.
From Stdlib Require Import ZArith Lia.
From S2P Require Import Prelude.

Definition kWakeToken : Z := 0.
Definition kMaxEventsPerWait : Z := 64.
Definition INT_MAX : Z := 2147483647.

Definition TimerKey : Type := Z * Z.

(** [operator<] of [std::pair]. *)
Definition key_lt (a b : TimerKey) : Prop := (a.1 < b.1 ∨ a.1 = b.1 ∧ a.2 < b.2)%Z.
Global Instance key_lt_dec a b : Decision (key_lt a b).
Proof. unfold key_lt. apply _. Defined.

Inductive LoopError := FileExists | NoSuchFile | SystemError.

Section loop.
Context {Io Tm : Type}.

Record Watch := mkWatch { w_fd : Z; w_cb : Io }.

Record EventLoop := mkEventLoop {
  el_stop_requested : bool; el_next_token : Z; el_watches : gmap Z Watch; el_tokens : gmap Z Z;
  el_next_timer_id : Z; el_timers : list (TimerKey * Tm); el_timer_deadlines : gmap Z Z;
}.

Definition new_loop : EventLoop := mkEventLoop false 1 ∅ ∅ 1 [] ∅.

(** [create]: the results of [epoll_create1], [eventfd] and [epoll_ctl]; the
    descriptors it closes, and the loop if all went well. *)
Definition create (epoll_fd wake_fd : Z) (ctl_ok : bool) : list Z * option EventLoop :=
  if (epoll_fd <? 0)%Z then ([], None)
  else if (wake_fd <? 0)%Z then ([epoll_fd], None)
  else if ctl_ok then ([], Some new_loop) else ([wake_fd; epoll_fd], None).

Definition set_stop (l : EventLoop) (b : bool) : EventLoop :=
  mkEventLoop b (el_next_token l) (el_watches l) (el_tokens l) (el_next_timer_id l) (el_timers l) (el_timer_deadlines l).
Definition set_fds (l : EventLoop) (next : Z) (ws : gmap Z Watch) (ts : gmap Z Z) : EventLoop :=
  mkEventLoop (el_stop_requested l) next ws ts (el_next_timer_id l) (el_timers l) (el_timer_deadlines l).
Definition set_timers (l : EventLoop) (next : Z) (ts : list (TimerKey * Tm)) (ds : gmap Z Z) : EventLoop :=
  mkEventLoop (el_stop_requested l) (el_next_token l) (el_watches l) (el_tokens l) next ts ds.

Definition stop (l : EventLoop) : EventLoop := set_stop l true.

(** ** Descriptors *)

(** [epoll_ctl] fails: the token has been taken all the same. *)
Definition add_fd (l : EventLoop) (fd : Z) (cb : Io) (ctl_ok : bool) : option LoopError * EventLoop :=
  if decide (is_Some (el_tokens l !! fd)) then (Some FileExists, l) else
  let token := el_next_token l in
  let next := u64 (token + 1) in
  if ctl_ok then (None, set_fds l next (<[token := mkWatch fd cb]> (el_watches l)) (<[fd := token]> (el_tokens l)))
  else (Some SystemError, set_fds l next (el_watches l) (el_tokens l)).

Definition modify_fd (l : EventLoop) (fd : Z) (ctl_ok : bool) : option LoopError :=
  match el_tokens l !! fd with
  | None => Some NoSuchFile
  | Some _ => if ctl_ok then None else Some SystemError
  end.

Definition remove_fd (l : EventLoop) (fd : Z) : EventLoop :=
  match el_tokens l !! fd with
  | None => l
  | Some token => set_fds l (el_next_token l) (delete token (el_watches l)) (delete fd (el_tokens l))
  end.

(** ** Timers *)

(** [std::map::emplace]: nothing changes if the key is there. *)
Fixpoint emplace (k : TimerKey) (cb : Tm) (m : list (TimerKey * Tm)) : list (TimerKey * Tm) :=
  match m with
  | [] => [(k, cb)]
  | (k', cb') :: rest =>
    if decide (key_lt k k') then (k, cb) :: m
    else if decide (k = k') then m else (k', cb') :: emplace k cb rest
  end.

Definition erase_key (k : TimerKey) (m : list (TimerKey * Tm)) : list (TimerKey * Tm) := filter (λ e, e.1 ≠ k) m.

(** [unordered_map::emplace]. *)
Definition emplace_deadline (id d : Z) (m : gmap Z Z) : gmap Z Z :=
  match m !! id with Some _ => m | None => <[id := d]> m end.

Definition add_timer (l : EventLoop) (now delay : Z) (cb : Tm) : Z * EventLoop :=
  let id := el_next_timer_id l in
  let deadline := (now + delay)%Z in
  (id, set_timers l (u64 (id + 1)) (emplace (deadline, id) cb (el_timers l))
         (emplace_deadline id deadline (el_timer_deadlines l))).

Definition cancel_timer (l : EventLoop) (id : Z) : bool * EventLoop :=
  match el_timer_deadlines l !! id with
  | None => (false, l)
  | Some d => (true, set_timers l (el_next_timer_id l) (erase_key (d, id) (el_timers l)) (delete id (el_timer_deadlines l)))
  end.

(** [std::chrono::ceil<milliseconds>] of a positive duration. *)
Definition ceil_millis (ns : Z) : Z := (Z.quot ns 1000000 + if (Z.rem ns 1000000 =? 0)%Z then 0 else 1)%Z.

Definition next_timeout_ms (l : EventLoop) (now : Z) : Z :=
  match el_timers l with
  | [] => -1
  | (k, _) :: _ =>
    let delay := (k.1 - now)%Z in
    if (delay <=? 0)%Z then 0 else Z.min (ceil_millis delay) INT_MAX
  end.

(** ** What a callback does to the loop *)

Inductive Call :=
| AddFd (fd : Z) (cb : Io) (ctl_ok : bool)
| ModifyFd (fd : Z) (ctl_ok : bool)
| RemoveFd (fd : Z)
| AddTimer (now delay : Z) (cb : Tm)
| CancelTimer (id : Z)
| Stop.

Definition do_call (l : EventLoop) (c : Call) : EventLoop :=
  match c with
  | AddFd fd cb ok => (add_fd l fd cb ok).2
  | ModifyFd _ _ => l
  | RemoveFd fd => remove_fd l fd
  | AddTimer now delay cb => (add_timer l now delay cb).2
  | CancelTimer id => (cancel_timer l id).2
  | Stop => stop l
  end.
Definition do_calls (l : EventLoop) (cs : list Call) : EventLoop := fold_left do_call cs l.

Section turn.
Context (acts : nat → list Call).

(** ** [dispatch_io]: the events of one [epoll_wait], as (token, mask). *)
Fixpoint dispatch_events (l : EventLoop) (n : nat) (events : list (Z * Z)) : list (Z * Io * Z) * nat * EventLoop :=
  match events with
  | [] => ([], n, l)
  | (token, mask) :: events =>
    if (token =? kWakeToken)%Z then dispatch_events l n events else
    match el_watches l !! token with
    | None => dispatch_events l n events
    | Some watch =>
      let '(fired, n', l') := dispatch_events (do_calls l (acts n)) (S n) events in
      ((token, w_cb watch, mask) :: fired, n', l')
    end
  end.

Inductive Wait := Interrupted | WaitFailed | Events (events : list (Z * Z)).

(** [None] is [std::abort]. *)
Definition dispatch_io (l : EventLoop) (n : nat) (w : Wait) : option (list (Z * Io * Z) * nat * EventLoop) :=
  match w with
  | Interrupted => Some ([], n, l)
  | WaitFailed => None
  | Events events => Some (dispatch_events l n events)
  end.

(** ** [run_due_timers] *)

(** One turn of its loop: the timer to run, taken out of the tables. *)
Definition pop_due (l : EventLoop) (now newest : Z) : option (Z * Tm * EventLoop) :=
  match el_timers l with
  | [] => None
  | ((deadline, id), cb) :: rest =>
    if ((now <? deadline) || (newest <=? id))%Z then None
    else Some (id, cb, set_timers l (el_next_timer_id l) rest (delete id (el_timer_deadlines l)))
  end.

Fixpoint due_loop (fuel : nat) (l : EventLoop) (n : nat) (now newest : Z) : outcome Empty_set (list (Z * Tm) * nat * EventLoop) :=
  match fuel with
  | 0 => Fault OutOfFuel
  | S fuel =>
    match pop_due l now newest with
    | None => Ok ([], n, l)
    | Some (id, cb, l) =>
      '(fired, n', l') ← due_loop fuel (do_calls l (acts n)) (S n) now newest;
      Ok ((id, cb) :: fired, n', l')
    end
  end.

Definition run_due_timers (l : EventLoop) (n : nat) (now : Z) : outcome Empty_set (list (Z * Tm) * nat * EventLoop) :=
  due_loop (S (length (el_timers l))) l n now (el_next_timer_id l).
End turn.

(** ** [run], over the waits and clock readings of its iterations; [None] for
    the loop if it is still running after the last one (or aborted). *)
Fixpoint run (acts : nat → list Call) (l : EventLoop) (n : nat) (turns : list (Wait * Z)) : outcome Empty_set (option EventLoop) :=
  if el_stop_requested l then Ok (Some (set_stop l false)) else
  match turns with
  | [] => Ok None
  | (w, now) :: turns =>
    match dispatch_io acts l n w with
    | None => Ok None
    | Some (_, n, l) =>
      '(_, n, l) ← run_due_timers acts l n now;
      run acts l n turns
    end
  end.
End loop.
Arguments Watch : clear implicits.
Arguments EventLoop : clear implicits.
Arguments Call : clear implicits.

(** ** The invariant of the tables *)

Section proofs.
Context {Io Tm : Type}.
Implicit Types (l : EventLoop Io Tm) (m : list (TimerKey * Tm)).

Record loop_inv l : Prop := {
  li_sorted : StronglySorted key_lt (el_timers l).*1;
  li_deadlines : ∀ id d, el_timer_deadlines l !! id = Some d ↔ (d, id) ∈ (el_timers l).*1;
  li_ids : ∀ d id, (d, id) ∈ (el_timers l).*1 → (1 ≤ id < el_next_timer_id l)%Z;
  li_watches : ∀ fd token, el_tokens l !! fd = Some token ↔ ∃ w, el_watches l !! token = Some w ∧ w_fd w = fd;
  li_tokens : ∀ token w, el_watches l !! token = Some w → (1 ≤ token < el_next_token l)%Z;
  li_next : (1 ≤ el_next_token l ∧ 1 ≤ el_next_timer_id l)%Z;
}.

(** [k] more registrations before a 64-bit counter wraps. *)
Definition room l (k : nat) : Prop :=
  (el_next_token l + Z.of_nat k < 18446744073709551616 ∧ el_next_timer_id l + Z.of_nat k < 18446744073709551616)%Z.

Lemma new_loop_inv : loop_inv (new_loop (Io:=Io) (Tm:=Tm)).
Proof.
  split; cbn [new_loop el_timers el_timer_deadlines el_next_timer_id el_tokens el_watches el_next_token]; [constructor|..|lia].
  - intros id d. rewrite lookup_empty. by split; [|intros ?%elem_of_nil].
  - by intros d id ?%elem_of_nil.
  - intros fd token. setoid_rewrite lookup_empty. by split; [|intros (w & ? & _)].
  - by intros token w ?%lookup_empty_Some.
Qed.

Lemma elem_of_emplace k cb m x : x ∈ (emplace k cb m).*1 ↔ x = k ∨ x ∈ m.*1.
Proof.
  induction m as [|[k' cb'] m IH]; cbn [emplace fmap list_fmap fst]; [cbn; set_solver|].
  repeat case_decide; cbn [fmap list_fmap fst]; rewrite ?elem_of_cons, ?IH; set_solver.
Qed.

Lemma key_lt_trans a b c : key_lt a b → key_lt b c → key_lt a c.
Proof. unfold key_lt. lia. Qed.

Lemma emplace_sorted k cb m : StronglySorted key_lt m.*1 → StronglySorted key_lt (emplace k cb m).*1.
Proof.
  induction m as [|[k' cb'] m IH]; cbn [emplace fmap list_fmap fst]; intros Hs; [repeat constructor|].
  inv Hs. case_decide as Hlt; [|case_decide as Heq].
  - cbn [fmap list_fmap fst]. constructor; [by constructor|]. constructor; [done|].
    eapply Forall_impl; [eassumption|]. intros x. by apply key_lt_trans.
  - by constructor.
  - cbn [fmap list_fmap fst]. constructor; [by apply IH|]. apply Forall_forall. intros x [-> |Hx]%elem_of_emplace.
    + destruct k as [d i], k' as [d' i']. unfold key_lt in *. cbn in *. destruct (decide (d = d')), (decide (i = i')); simplify_eq; lia.
    + by eapply Forall_forall.
Qed.

Lemma sublist_sorted m P `{!∀ x, Decision (P x)} :
  StronglySorted key_lt m.*1 → StronglySorted key_lt (filter P m).*1.
Proof.
  induction m as [|e m IH]; [done|]. cbn [fmap list_fmap]. intros Hs. inv Hs. rewrite filter_cons. case_decide; [|by apply IH].
  cbn. constructor; [by apply IH|]. apply Forall_forall. intros x (y & -> & [_ Hy]%list_elem_of_filter)%list_elem_of_fmap.
  eapply Forall_forall; [eassumption|]. by apply list_elem_of_fmap_2.
Qed.

Lemma elem_of_erase_key k m x : x ∈ (erase_key k m).*1 ↔ x ∈ m.*1 ∧ x ≠ k.
Proof.
  unfold erase_key. rewrite !list_elem_of_fmap. split.
  - intros (y & -> & [Hne Hy]%list_elem_of_filter). split; [by exists y|done].
  - intros [(y & -> & Hy) Hne]. exists y. split; [done|]. by apply list_elem_of_filter.
Qed.

Lemma add_timer_spec l now delay cb : loop_inv l → room l 1 →
  add_timer l now delay cb = (el_next_timer_id l, set_timers l (el_next_timer_id l + 1)
    (emplace (now + delay, el_next_timer_id l)%Z cb (el_timers l))
    (<[el_next_timer_id l := (now + delay)%Z]> (el_timer_deadlines l))).
Proof.
  intros Hinv Hroom. unfold add_timer. f_equal. unfold emplace_deadline.
  replace (u64 (el_next_timer_id l + 1)) with (el_next_timer_id l + 1)%Z
    by (symmetry; destruct Hroom, (li_next _ Hinv); apply Z.mod_small; lia).
  destruct (el_timer_deadlines l !! _) as [d|] eqn:E; [|done].
  apply (li_deadlines _ Hinv), (li_ids _ Hinv) in E. lia.
Qed.

Lemma add_timer_inv l now delay cb : loop_inv l → room l 1 → loop_inv (add_timer l now delay cb).2.
Proof.
  intros Hinv Hroom. rewrite add_timer_spec by done. destruct Hinv as [Hs Hd Hi Hw Ht Hn].
  split; cbn [snd set_timers el_timers el_timer_deadlines el_next_timer_id el_tokens el_watches el_next_token]; try done; try lia.
  - by apply emplace_sorted.
  - intros id d. rewrite elem_of_emplace, lookup_insert_Some, Hd. split; [naive_solver|].
    intros [[= -> ->]|Hx]; [by left|]. right. split; [|done]. pose proof (Hi _ _ Hx). lia.
  - intros d id [[= -> ->]|Hx]%elem_of_emplace; [lia|]. pose proof (Hi _ _ Hx). lia.
Qed.

Lemma forget_timer_inv l id d : loop_inv l → el_timer_deadlines l !! id = Some d →
  loop_inv (set_timers l (el_next_timer_id l) (erase_key (d, id) (el_timers l)) (delete id (el_timer_deadlines l))).
Proof.
  intros [Hs Hd Hi Hw Ht Hn] E. split; cbn [set_timers el_timers el_timer_deadlines el_next_timer_id el_tokens el_watches el_next_token]; try done.
  - by apply sublist_sorted.
  - intros i e. rewrite elem_of_erase_key, lookup_delete_Some, Hd. apply Hd in E as E'. split; [|naive_solver].
    intros [? ?]. split; [done|]. intros [= -> ->]. done.
  - intros e i [Hx _]%elem_of_erase_key. by eapply Hi.
Qed.

Lemma cancel_timer_inv l id : loop_inv l → loop_inv (cancel_timer l id).2.
Proof.
  intros Hinv. unfold cancel_timer. destruct (el_timer_deadlines l !! id) as [d|] eqn:E; [|done]. by apply forget_timer_inv.
Qed.

Lemma add_fd_inv l fd cb ok : loop_inv l → room l 1 → loop_inv (add_fd l fd cb ok).2.
Proof.
  intros Hinv Hroom. unfold add_fd. case_decide as Hfd; [done|].
  rewrite <-eq_None_not_Some in Hfd. destruct Hinv as [Hs Hd Hi Hw Ht Hn], Hroom as [Hr _].
  assert (u64 (el_next_token l + 1) = el_next_token l + 1)%Z as -> by (apply Z.mod_small; lia).
  destruct ok; split; cbn [snd set_fds el_timers el_timer_deadlines el_next_timer_id el_tokens el_watches el_next_token]; try done; try lia.
  - intros f tok. rewrite lookup_insert_Some, Hw. split.
    + intros [[<- <-]|[Hne (w & Hx & <-)]]; [exists (mkWatch fd cb); by rewrite lookup_insert_eq|].
      exists w. rewrite lookup_insert_ne; [done|]. pose proof (Ht _ _ Hx). lia.
    + intros (w & [[<- <-]|[Hne Hx]]%lookup_insert_Some & <-); [by left|]. right. split; [|by exists w].
      intros ->. assert (el_tokens l !! w_fd w = Some tok) by (apply Hw; by exists w). congruence.
  - intros tok w [[<- <-]|[_ Hx]]%lookup_insert_Some; [lia|]. pose proof (Ht _ _ Hx). lia.
  - intros tok w Hx. pose proof (Ht _ _ Hx). lia.
Qed.

Lemma remove_fd_inv l fd : loop_inv l → loop_inv (remove_fd l fd).
Proof.
  intros Hinv. unfold remove_fd. destruct (el_tokens l !! fd) as [tok|] eqn:E; [|done]. destruct Hinv as [Hs Hd Hi Hw Ht Hn].
  apply Hw in E as E'. destruct E' as (w0 & Hw0 & <-).
  split; cbn [set_fds el_timers el_timer_deadlines el_next_timer_id el_tokens el_watches el_next_token]; try done.
  - intros f t. rewrite lookup_delete_Some, Hw. split.
    + intros [Hne (w & Hx & <-)]. exists w. split; [|done]. rewrite lookup_delete_ne; [done|]. intros ->. congruence.
    + intros (w & [Hne Hx]%lookup_delete_Some & <-). split; [|by exists w]. intros Heq.
      assert (el_tokens l !! w_fd w = Some t) by (apply Hw; by exists w). congruence.
  - intros t w [_ Hx]%lookup_delete_Some. by eapply Ht.
Qed.

Lemma do_call_inv l c : loop_inv l → room l 1 → loop_inv (do_call l c).
Proof.
  intros Hinv Hroom. destruct c; cbn [do_call]; [by apply add_fd_inv|done|by apply remove_fd_inv|by apply add_timer_inv|by apply cancel_timer_inv|].
  by destruct Hinv.
Qed.

Lemma do_call_next l c k : loop_inv l → room l (S k) → room (do_call l c) k ∧
  (el_next_token l ≤ el_next_token (do_call l c) ∧ el_next_timer_id l ≤ el_next_timer_id (do_call l c))%Z.
Proof.
  intros [_ _ _ _ _ Hn] [Hr1 Hr2]. unfold room, u64.
  destruct c; cbn [do_call snd add_timer set_timers el_next_token el_next_timer_id stop set_stop]; try (split; lia).
  - unfold add_fd. case_decide; [split; cbn; lia|]. destruct ctl_ok; cbn; unfold u64; rewrite Z.mod_small by lia; lia.
  - unfold remove_fd. destruct (el_tokens l !! fd); cbn; lia.
  - unfold u64; rewrite Z.mod_small by lia. lia.
  - unfold cancel_timer. destruct (el_timer_deadlines l !! id); cbn; lia.
Qed.

Lemma room_le l a b : room l b → a ≤ b → room l a.
Proof. unfold room. lia. Qed.

Lemma do_calls_inv cs : ∀ l k, loop_inv l → room l (length cs + k) → loop_inv (do_calls l cs) ∧ room (do_calls l cs) k ∧
  (el_next_token l ≤ el_next_token (do_calls l cs) ∧ el_next_timer_id l ≤ el_next_timer_id (do_calls l cs))%Z.
Proof.
  induction cs as [|c cs IH]; intros l k Hinv Hroom; [split_and!; [done|exact Hroom|cbn; lia..]|].
  cbn [do_calls fold_left]. destruct (do_call_next l c (length cs + k) Hinv Hroom) as [Hr ?].
  destruct (IH (do_call l c) k) as (? & ? & ?); [|done|unfold do_calls in *; split_and!; [done|done|lia..]].
  apply do_call_inv; [done|]. eapply room_le; [exact Hroom|cbn; lia].
Qed.


(** ** Timers run when due, in order, once *)

(** The ids a callback cancels, the descriptors it stops watching. *)
Definition cancels (cs : list (Call Io Tm)) : gset Z :=
  list_to_set (omap (λ c, match c with CancelTimer id => Some id | _ => None end) cs).
Definition removes (cs : list (Call Io Tm)) : gset Z :=
  list_to_set (omap (λ c, match c with RemoveFd fd => Some fd | _ => None end) cs).

(** The specification: the timers due at the start, in order, less those that
    an earlier one cancelled. *)
Fixpoint due_spec (acts : nat → list (Call Io Tm)) (due : list (TimerKey * Tm)) (cancelled : gset Z) (n : nat) : list (Z * Tm) :=
  match due with
  | [] => []
  | (k, cb) :: due =>
    if decide (k.2 ∈ cancelled) then due_spec acts due cancelled n
    else (k.2, cb) :: due_spec acts due (cancelled ∪ cancels (acts n)) (S n)
  end.

(** The clock is steady: what a callback adds is due no earlier than the
    round's own reading. *)
Definition punctual (now : Z) (c : Call Io Tm) : Prop :=
  match c with AddTimer now' delay _ => (now ≤ now' ∧ 0 ≤ delay)%Z | _ => True end.

(** The callbacks from the [n]-th on never exhaust the 64-bit counters. *)
Definition calls_made (acts : nat → list (Call Io Tm)) (n k : nat) : nat := sum_list_with (λ i, length (acts i)) (seq n k).
Definition fits (acts : nat → list (Call Io Tm)) l (n : nat) : Prop := ∀ k, room l (calls_made acts n k).

Lemma fits_run acts l l0 n : fits acts l n → loop_inv l0 → (∀ k, room l k → room l0 k) →
  loop_inv (do_calls l0 (acts n)) ∧ fits acts (do_calls l0 (acts n)) (S n) ∧
  (el_next_token l0 ≤ el_next_token (do_calls l0 (acts n)) ∧ el_next_timer_id l0 ≤ el_next_timer_id (do_calls l0 (acts n)))%Z.
Proof.
  intros Hfits Hinv Hl. split_and!.
  - apply (do_calls_inv _ _ 0); [done|]. apply Hl. eapply room_le; [exact (Hfits 1)|]. unfold calls_made. cbn. lia.
  - intros k. apply (do_calls_inv _ _ (calls_made acts (S n) k)); [done|]. apply Hl, (Hfits (S k)).
  - apply (do_calls_inv _ _ 0); [done|]. apply Hl. eapply room_le; [exact (Hfits 1)|]. unfold calls_made. cbn. lia.
  - apply (do_calls_inv _ _ 0); [done|]. apply Hl. eapply room_le; [exact (Hfits 1)|]. unfold calls_made. cbn. lia.
Qed.

(** The timers a round may run: due, and older than the round. *)
Definition old_due (now newest : Z) (e : TimerKey * Tm) : Prop := (e.1.1 ≤ now ∧ e.1.2 < newest)%Z.
Instance old_due_dec now newest e : Decision (old_due now newest e).
Proof. unfold old_due. apply _. Defined.

(** Every timer younger than the round is due no earlier than [now]. *)
Definition young_late (now newest : Z) l : Prop := ∀ d id, (d, id) ∈ (el_timers l).*1 → (newest ≤ id → now ≤ d)%Z.

Lemma filter_emplace P `{!∀ e, Decision (P e)} k cb m : ¬ P (k, cb) → filter P (emplace k cb m) = filter P m.
Proof.
  intros Hk. induction m as [|[k' cb'] m IH]; cbn [emplace]; [by rewrite filter_cons_False|].
  case_decide; [by rewrite filter_cons_False|]. case_decide; [done|]. rewrite !filter_cons. case_decide; by rewrite IH.
Qed.

Lemma filter_ext_in {A} (P Q : A → Prop) `{!∀ x, Decision (P x), !∀ x, Decision (Q x)} (xs : list A) :
  (∀ x, x ∈ xs → (P x ↔ Q x)) → filter P xs = filter Q xs.
Proof.
  induction xs as [|x xs IH]; [done|]. intros Hiff. pose proof (Hiff x ltac:(left)) as Hx. rewrite !filter_cons, IH by (intros y Hy; apply Hiff; by right).
  repeat case_decide; tauto.
Qed.

(** What a callback leaves of the timers that may still run. *)
Lemma old_due_call l c now newest : loop_inv l → room l 1 → (newest ≤ el_next_timer_id l)%Z → young_late now newest l →
  punctual now c →
  filter (old_due now newest) (el_timers (do_call l c)) =
    filter (λ e, e.1.2 ∉ cancels [c]) (filter (old_due now newest) (el_timers l)) ∧
  young_late now newest (do_call l c).
Proof.
  intros Hinv Hroom Hnew Hlate Hp.
  assert (Hsame : cancels [c] = ∅ → filter (old_due now newest) (el_timers l) =
    filter (λ e, e.1.2 ∉ cancels [c]) (filter (old_due now newest) (el_timers l))).
  { intros ->. symmetry. apply filter_keep, Forall_forall. set_solver. }
  destruct c; cbn [do_call].
  - unfold add_fd. case_decide; [by split; [apply Hsame|]|]. destruct ctl_ok; (split; [by apply Hsame|done]).
  - split; [by apply Hsame|done].
  - unfold remove_fd. destruct (el_tokens l !! fd); (split; [by apply Hsame|done]).
  - rewrite add_timer_spec by done. cbn [snd set_timers el_timers]. split.
    + rewrite filter_emplace by (unfold old_due; cbn; lia). by apply Hsame.
    + intros d id [[= -> ->]|Hx]%elem_of_emplace; [cbn in Hp; lia|by apply Hlate].
  - assert (cancels [CancelTimer id] = ({[id]} : gset Z)) as Hc by set_solver. unfold cancel_timer.
    destruct (el_timer_deadlines l !! id) as [d|] eqn:E; cbn [snd set_timers el_timers].
    + split.
      * unfold erase_key. rewrite !list_filter_filter. apply filter_ext_in. intros [[d' i'] cb'] Hx. rewrite Hc, not_elem_of_singleton. cbn.
        assert (Hk : (d', i') ∈ (el_timers l).*1) by (apply list_elem_of_fmap; by eexists (_, cb')).
        apply (li_deadlines _ Hinv) in Hk.
        split; [intros [H1 H2]; split; [|done]; intros ->; congruence|intros [H1 H2]; split; [done|congruence]].
      * intros d' i' [Hx _]%elem_of_erase_key. by apply Hlate.
    + split; [|done]. symmetry. apply filter_keep, Forall_forall. intros [[d' i'] cb'] [_ Hx]%list_elem_of_filter.
      rewrite Hc, not_elem_of_singleton. cbn. intros ->.
      assert (Hk : (d', id) ∈ (el_timers l).*1) by (apply list_elem_of_fmap; by eexists (_, cb')).
      apply (li_deadlines _ Hinv) in Hk. congruence.
  - split; [by apply Hsame|done].
Qed.

Lemma cancels_cons c cs : cancels (c :: cs) = cancels [c] ∪ cancels cs.
Proof. unfold cancels. destruct c; cbn; set_solver. Qed.

Lemma old_due_calls cs : ∀ l now newest, loop_inv l → room l (length cs) → (newest ≤ el_next_timer_id l)%Z → young_late now newest l →
  Forall (punctual now) cs →
  filter (old_due now newest) (el_timers (do_calls l cs)) =
    filter (λ e, e.1.2 ∉ cancels cs) (filter (old_due now newest) (el_timers l)) ∧
  young_late now newest (do_calls l cs).
Proof.
  induction cs as [|c cs IH]; intros l now newest Hinv Hroom Hnew Hlate Hp.
  { split; [|done]. symmetry. apply filter_keep, Forall_forall. set_solver. }
  inv Hp. cbn [do_calls fold_left].
  assert (Hroom1 : room l 1) by (eapply room_le; [exact Hroom|cbn; lia]).
  destruct (do_call_next l c (length cs) Hinv Hroom) as [Hr [_ Hn]].
  destruct (old_due_call l c now newest) as [Heq Hlate']; [done..|].
  destruct (IH (do_call l c) now newest) as [IHeq IHlate]; [by apply do_call_inv|done|lia|done..|].
  unfold do_calls in *. split; [|done]. rewrite IHeq, Heq, (cancels_cons c cs), list_filter_filter.
  apply filter_ext_in. set_solver.
Qed.

Lemma due_spec_filter acts due : ∀ X Y n, due_spec acts (filter (λ e, e.1.2 ∉ Y) due) X n = due_spec acts due (X ∪ Y) n.
Proof.
  induction due as [|[k cb] due IH]; intros X Y n; [done|]. rewrite filter_cons. cbn [due_spec fst].
  case_decide as HY; [|rewrite (decide_True (P := k.2 ∈ X ∪ Y)) by set_solver; apply IH].
  cbn [due_spec]. destruct (decide (k.2 ∈ X)); [rewrite decide_True by set_solver; apply IH|].
  rewrite decide_False by set_solver. f_equal. rewrite IH. f_equal. set_solver.
Qed.

(** The entry at the front decides whether anything is left to run. *)
Lemma pop_due_None l now newest : loop_inv l → young_late now newest l → pop_due l now newest = None →
  filter (old_due now newest) (el_timers l) = [].
Proof.
  intros [Hs _ _ _ _ _] Hlate. unfold pop_due. destruct (el_timers l) as [|[[d i] cb] rest] eqn:E; [done|].
  destruct ((now <? d) || (newest <=? i))%Z eqn:Eb; [|done]. intros _. apply filter_drop. cbn in Hs. inv Hs.
  assert (Hhead : ¬ old_due now newest ((d, i), cb) ∧ (now ≤ d)%Z).
  { apply orb_true_iff in Eb as [Eb|Eb]; [apply Z.ltb_lt in Eb|apply Z.leb_le in Eb]; unfold old_due; cbn; [lia|].
    split; [lia|]. apply (Hlate d i); [rewrite E; left|done]. }
  constructor; [apply Hhead|]. apply Forall_forall. intros [[d' i'] cb'] Hx [Ho1 Ho2]. cbn in Ho1, Ho2.
  assert (Hlt : key_lt (d, i) (d', i')).
  { eapply Forall_forall; [eassumption|]. apply list_elem_of_fmap. by eexists (_, cb'). }
  destruct Hhead as [Hh1 Hh2]. unfold old_due in Hh1. cbn in Hh1. unfold key_lt in Hlt. cbn in Hlt. lia.
Qed.

Lemma pop_due_Some l now newest id cb l' : loop_inv l → pop_due l now newest = Some (id, cb, l') →
  ∃ d, el_timers l = ((d, id), cb) :: el_timers l' ∧ old_due now newest ((d, id), cb) ∧ loop_inv l' ∧
    el_next_timer_id l' = el_next_timer_id l ∧ el_next_token l' = el_next_token l.
Proof.
  intros Hinv. unfold pop_due. destruct (el_timers l) as [|[[d i] cb0] rest] eqn:E; [done|].
  destruct ((now <? d) || (newest <=? i))%Z eqn:Eb; [done|]. intros [= <- <- <-].
  apply orb_false_iff in Eb as [E1%Z.ltb_ge E2%Z.leb_gt]. exists d. split_and!; try done.
  assert (Hd : el_timer_deadlines l !! i = Some d) by (apply (li_deadlines _ Hinv); rewrite E; left).
  pose proof (forget_timer_inv l i d Hinv Hd) as Hf. unfold erase_key in Hf. rewrite E in Hf.
  rewrite filter_cons_False in Hf by (cbn; tauto). rewrite filter_keep in Hf; [done|].
  pose proof (li_sorted _ Hinv) as Hs. rewrite E in Hs. cbn in Hs. inv Hs. apply Forall_forall. intros e He.
  assert (Hlt : key_lt (d, i) e.1) by (eapply Forall_forall; [eassumption|]; by apply list_elem_of_fmap_2).
  intros Heq. rewrite Heq in Hlt. unfold key_lt in Hlt. cbn in Hlt. lia.
Qed.

Lemma due_loop_exact acts now newest fuel : ∀ l n, loop_inv l → fits acts l n → (newest ≤ el_next_timer_id l)%Z →
  young_late now newest l → (∀ k, Forall (punctual now) (acts k)) →
  length (filter (old_due now newest) (el_timers l)) < fuel →
  ∃ n' l', due_loop acts fuel l n now newest = Ok (due_spec acts (filter (old_due now newest) (el_timers l)) ∅ n, n', l') ∧ loop_inv l'.
Proof.
  induction fuel as [|fuel IH]; intros l n Hinv Hfits Hnew Hlate Hp Hlen; [lia|]. cbn [due_loop].
  destruct (pop_due l now newest) as [[[id cb] l0]|] eqn:E.
  - destruct (pop_due_Some _ _ _ _ _ _ Hinv E) as (d & Et & Hold & Hinv0 & En & Ek).
    assert (Hlate0 : young_late now newest l0). { intros d' i' Hx. apply Hlate. rewrite Et. by right. }
    assert (Hroom0 : ∀ k, room l k → room l0 k) by (intros k; unfold room; lia).
    destruct (fits_run acts l l0 n Hfits Hinv0 Hroom0) as (Hinv1 & Hfits1 & _ & Hn1).
    destruct (old_due_calls (acts n) l0 now newest) as [Heq Hlate1]; [done| |lia|done|done|].
    { apply Hroom0. eapply room_le; [exact (Hfits 1)|]. unfold calls_made. cbn. lia. }
    rewrite Et, filter_cons_True in Hlen |- * by done. cbn [length] in Hlen.
    destruct (IH (do_calls l0 (acts n)) (S n)) as (n' & l' & -> & Hinv'); [done|done|lia|done|done| |].
    { rewrite Heq. eapply Nat.le_lt_trans; [apply length_filter|]. lia. }
    exists n', l'. split; [|done]. cbn [mbind outcome_bind due_spec]. rewrite decide_False by set_solver.
    do 4 f_equal. rewrite Heq, due_spec_filter. done.
  - exists n, l. rewrite (pop_due_None l now newest) by done. done.
Qed.

(** ** Descriptors: who gets the events of one batch *)

(** The specification: an event goes to the registration its token named when
    the batch was collected, unless an earlier callback of the batch stopped
    watching that descriptor. *)
Fixpoint io_spec (acts : nat → list (Call Io Tm)) (watches : gmap Z (Watch Io)) (events : list (Z * Z)) (removed : gset Z) (n : nat) :
    list (Z * Io * Z) :=
  match events with
  | [] => []
  | (token, mask) :: events =>
    if decide (token = kWakeToken) then io_spec acts watches events removed n else
    match watches !! token with
    | None => io_spec acts watches events removed n
    | Some w =>
      if decide (w_fd w ∈ removed) then io_spec acts watches events removed n
      else (token, w_cb w, mask) :: io_spec acts watches events (removed ∪ removes (acts n)) (S n)
    end
  end.

(** The registrations below token [T] are those of [ws] less [R]. *)
Definition survivors (T : Z) (ws : gmap Z (Watch Io)) (R : gset Z) l : Prop :=
  ∀ token, (token < T)%Z → el_watches l !! token = ws !! token ≫= λ w, if decide (w_fd w ∈ R) then None else Some w.

Lemma survivors_call T ws R l c : loop_inv l → room l 1 → (T ≤ el_next_token l)%Z → survivors T ws R l →
  survivors T ws (R ∪ removes [c]) (do_call l c).
Proof.
  intros Hinv Hroom HT Hs.
  assert (Hsame : removes [c] = ∅ → survivors T ws (R ∪ removes [c]) l) by (intros ->; by rewrite (right_id_L ∅ (∪))).
  destruct c; cbn [do_call]; try (by apply Hsame).
  - unfold add_fd. case_decide; [by apply Hsame|]. destruct ctl_ok; [|by apply Hsame]. intros tok Htok.
    cbn [snd set_fds el_watches]. rewrite lookup_insert_ne by lia. by apply Hsame.
  - assert (removes [RemoveFd fd] = ({[fd]} : gset Z)) as -> by set_solver. intros tok Htok. unfold remove_fd.
    destruct (el_tokens l !! fd) as [t|] eqn:E; cbn [set_fds el_watches].
    + apply (li_watches _ Hinv) in E as (w0 & Hw0 & <-). destruct (decide (tok = t)) as [-> |Hne].
      * rewrite lookup_delete_eq. rewrite Hs in Hw0 by done. destruct (ws !! t) as [w|]; [|done]. cbn in Hw0 |- *.
        case_decide; [done|]. simplify_eq. by rewrite decide_True by set_solver.
      * rewrite lookup_delete_ne, Hs by done. destruct (ws !! tok) as [w|] eqn:Ew; [|done]. cbn.
        destruct (decide (w_fd w ∈ R)); [by rewrite decide_True by set_solver|].
        rewrite decide_False; [done|]. intros [?|Heq%elem_of_singleton]%elem_of_union; [done|].
        assert (Hl : el_watches l !! tok = Some w) by (rewrite Hs, Ew by done; cbn; by rewrite decide_False).
        assert (el_tokens l !! w_fd w = Some tok) by (apply (li_watches _ Hinv); by exists w).
        assert (el_tokens l !! w_fd w0 = Some t) by (apply (li_watches _ Hinv); by exists w0). congruence.
    + rewrite Hs by done. destruct (ws !! tok) as [w|] eqn:Ew; [|done]. cbn.
      destruct (decide (w_fd w ∈ R)); [by rewrite decide_True by set_solver|].
      rewrite decide_False; [done|]. intros [?|Heq%elem_of_singleton]%elem_of_union; [done|].
      assert (Hl : el_watches l !! tok = Some w) by (rewrite Hs, Ew by done; cbn; by rewrite decide_False).
      assert (el_tokens l !! w_fd w = Some tok) by (apply (li_watches _ Hinv); by exists w). congruence.
  - intros tok Htok. unfold cancel_timer. destruct (el_timer_deadlines l !! id); by apply Hsame.
Qed.

Lemma survivors_calls T ws cs : ∀ R l, loop_inv l → room l (length cs) → (T ≤ el_next_token l)%Z → survivors T ws R l →
  survivors T ws (R ∪ removes cs) (do_calls l cs).
Proof.
  induction cs as [|c cs IH]; intros R l Hinv Hroom HT Hs.
  { assert (removes [] = ∅) as -> by done. by rewrite (right_id_L ∅ (∪)). }
  cbn [do_calls fold_left].
  destruct (do_call_next l c (length cs) Hinv Hroom) as [Hr [Hn _]].
  assert (Hroom1 : room l 1) by (eapply room_le; [exact Hroom|cbn; lia]).
  assert (removes (c :: cs) = removes [c] ∪ removes cs) as -> by (unfold removes; destruct c; cbn; set_solver).
  rewrite (assoc_L (∪)). apply (IH (R ∪ removes [c]) (do_call l c)); [by apply do_call_inv|done|lia|]. by apply survivors_call.
Qed.

Lemma dispatch_events_exact acts T ws events : ∀ R l n, loop_inv l → fits acts l n → (T ≤ el_next_token l)%Z → survivors T ws R l →
  Forall (λ e, e.1 < T)%Z events →
  (dispatch_events acts l n events).1.1 = io_spec acts ws events R n ∧ loop_inv (dispatch_events acts l n events).2.
Proof.
  induction events as [|[token mask] events IH]; intros R l n Hinv Hfits HT Hs Hev; [done|]. inv Hev.
  cbn [dispatch_events io_spec]. destruct (Z.eqb_spec token kWakeToken) as [->|Hne]; [rewrite decide_True by done; by apply IH|].
  rewrite (decide_False (P := token = kWakeToken)) by done. cbn in H1. rewrite Hs by done.
  destruct (ws !! token) as [w|]; [|by apply IH]. cbn. case_decide; [by apply IH|].
  destruct (fits_run acts l l n Hfits Hinv (λ k H, H)) as (Hinv1 & Hfits1 & Hn1 & _).
  destruct (IH (R ∪ removes (acts n)) (do_calls l (acts n)) (S n)) as [IH1 IH2]; [done|done|lia| |done|].
  { apply survivors_calls; try done. eapply room_le; [exact (Hfits 1)|]. unfold calls_made. cbn. lia. }
  destruct (dispatch_events acts (do_calls l (acts n)) (S n) events) as [[fired n'] l']. cbn in *. split; [by f_equal|done].
Qed.

(** ** The timers as a map from ids to callbacks, for the loop's clients *)

Definition armed l : gmap Z Tm := list_to_map ((λ e, (e.1.2, e.2)) <$> el_timers l).

Lemma sorted_NoDup (ks : list TimerKey) : StronglySorted key_lt ks → NoDup ks.
Proof.
  induction 1 as [|k ks Hs IH Hk]; constructor; [|done]. intros Hin. eapply Forall_forall in Hk; [|done].
  unfold key_lt in Hk. lia.
Qed.

Lemma armed_Some l x cb : loop_inv l → armed l !! x = Some cb ↔ ∃ d, ((d, x), cb) ∈ el_timers l.
Proof.
  intros Hinv. pose proof (sorted_NoDup _ (li_sorted _ Hinv)) as Hkeys.
  assert (Hids : NoDup ((λ e, (e.1.2, e.2)) <$> el_timers l).*1).
  { assert (((λ e, (e.1.2, e.2)) <$> el_timers l).*1 = ((el_timers l).*1).*2) as -> by (rewrite <-!list_fmap_compose; done).
    apply NoDup_fmap_2_strong; [|done]. intros [d i] [d' i'] H1 H2 E. cbn in E. subst i'.
    apply (li_deadlines _ Hinv) in H1, H2. congruence. }
  unfold armed. rewrite <-elem_of_list_to_map by done. rewrite list_elem_of_fmap. split.
  - intros ([[d i] cb'] & [= -> ->] & He). by exists d.
  - intros [d Hd]. by exists ((d, x), cb).
Qed.

Lemma elem_of_emplace_new k cb m e : k ∉ m.*1 → e ∈ emplace k cb m ↔ e = (k, cb) ∨ e ∈ m.
Proof.
  induction m as [|[k' cb'] m IH]; cbn [emplace fmap list_fmap fst]; intros Hk; [set_solver|].
  case_decide; [set_solver|]. rewrite decide_False by set_solver. rewrite !elem_of_cons, IH by set_solver. tauto.
Qed.

Lemma armed_add l now delay cb : loop_inv l → room l 1 →
  ∃ l', add_timer l now delay cb = (el_next_timer_id l, l') ∧ loop_inv l' ∧ el_next_timer_id l ≠ 0%Z ∧
    armed l !! el_next_timer_id l = None ∧ armed l' = <[el_next_timer_id l := cb]> (armed l) ∧
    el_next_timer_id l' = (el_next_timer_id l + 1)%Z ∧ el_next_token l' = el_next_token l ∧
    el_timer_deadlines l' = <[el_next_timer_id l := (now + delay)%Z]> (el_timer_deadlines l).
Proof.
  intros Hinv Hroom. pose proof (add_timer_inv l now delay cb Hinv Hroom) as Hinv'.
  rewrite add_timer_spec in Hinv' |- * by done. eexists. split; [done|]. cbn [snd] in Hinv'.
  assert (Hnew : ∀ d, (d, el_next_timer_id l) ∉ (el_timers l).*1). { intros d Hd%(li_ids _ Hinv). lia. }
  pose proof (li_next _ Hinv). split_and!; [done|lia| | |done|done|done].
  - destruct (armed l !! el_next_timer_id l) eqn:E; [|done]. apply armed_Some in E as [d Hd]; [|done].
    destruct (Hnew d). apply list_elem_of_fmap. by eexists (_, _).
  - apply map_eq. intros i. apply option_eq. intros x. rewrite armed_Some by done. rewrite lookup_insert_Some, armed_Some by done.
    cbn [set_timers el_timers]. setoid_rewrite (elem_of_emplace_new _ _ _ _ (Hnew _)).
    split; [|naive_solver]. intros [d [[= -> -> ->]|Hd]]; [by left|]. right. split; [|by exists d].
    intros <-. destruct (Hnew d). apply list_elem_of_fmap. by eexists (_, _).
Qed.

Lemma armed_forget l l' x d : loop_inv l → el_timer_deadlines l !! x = Some d →
  el_timers l' = erase_key (d, x) (el_timers l) → loop_inv l' → armed l' = delete x (armed l).
Proof.
  intros Hinv Hd El Hinv'. apply map_eq. intros i. apply option_eq. intros cb.
  rewrite armed_Some, lookup_delete_Some, armed_Some, El by done. unfold erase_key. setoid_rewrite list_elem_of_filter. cbn [fst].
  split.
  - intros (d' & Hne & Hin). split; [|by exists d']. intros <-. apply Hne. f_equal.
    assert (el_timer_deadlines l !! x = Some d') by (apply (li_deadlines _ Hinv), list_elem_of_fmap; by eexists (_, _)). congruence.
  - intros [Hne [d' Hin]]. exists d'. split; [congruence|done].
Qed.

Lemma armed_cancel l x : loop_inv l →
  loop_inv (cancel_timer l x).2 ∧ armed (cancel_timer l x).2 = delete x (armed l) ∧
  el_next_timer_id (cancel_timer l x).2 = el_next_timer_id l ∧ el_next_token (cancel_timer l x).2 = el_next_token l.
Proof.
  intros Hinv. pose proof (cancel_timer_inv l x Hinv) as Hinv'. split; [done|]. unfold cancel_timer in *.
  destruct (el_timer_deadlines l !! x) as [d|] eqn:E; cbn [snd] in *; (split; [|done]).
  - by eapply armed_forget.
  - rewrite delete_id; [done|]. destruct (armed l !! x) eqn:Ea; [|done]. apply armed_Some in Ea as [d Hd]; [|done].
    assert (el_timer_deadlines l !! x = Some d) by (apply (li_deadlines _ Hinv), list_elem_of_fmap; by eexists (_, _)). congruence.
Qed.

Lemma armed_pop l now newest x cb l' : loop_inv l → pop_due l now newest = Some (x, cb, l') →
  loop_inv l' ∧ armed l !! x = Some cb ∧ armed l' = delete x (armed l) ∧
  el_next_timer_id l' = el_next_timer_id l ∧ el_next_token l' = el_next_token l.
Proof.
  intros Hinv Hpop. destruct (pop_due_Some _ _ _ _ _ _ Hinv Hpop) as (d & Et & _ & Hinv' & En & Ek).
  split_and!; try done.
  - apply armed_Some; [done|]. exists d. rewrite Et. left.
  - assert (Hd : el_timer_deadlines l !! x = Some d) by (apply (li_deadlines _ Hinv); rewrite Et; left).
    apply (armed_forget l l' x d); try done. rewrite Et. unfold erase_key. rewrite filter_cons_False by (cbn; tauto).
    symmetry. apply filter_keep, Forall_forall. intros e He E. pose proof (li_sorted _ Hinv) as Hs. rewrite Et in Hs. cbn in Hs. inv Hs.
    assert (Hlt : key_lt (d, x) e.1) by (eapply Forall_forall; [eassumption|]; by apply list_elem_of_fmap_2).
    rewrite E in Hlt. unfold key_lt in Hlt. cbn in Hlt. lia.
Qed.
End proofs.

(** ** Properties *)

(** C32: timers fire exactly when due.  One round runs the timers whose
    deadline has passed, in the order of deadline and then of creation, each
    once, except those an earlier callback of the round cancelled; what the
    callbacks add waits for the next round, the loop ends, and the tables stay
    consistent, whatever the callbacks do. *)
Theorem due_timers_exact {Io Tm} (l : EventLoop Io Tm) acts n now :
  loop_inv l → fits acts l n → (∀ k, Forall (punctual now) (acts k)) →
  ∃ n' l', run_due_timers acts l n now =
      Ok (due_spec acts (filter (λ e, e.1.1 ≤ now)%Z (el_timers l)) ∅ n, n', l') ∧ loop_inv l'.
Proof.
  intros Hinv Hfits Hp. unfold run_due_timers.
  assert (Hids : ∀ e, e ∈ el_timers l → (e.1.2 < el_next_timer_id l)%Z).
  { intros [[d i] cb] He. apply (li_ids _ Hinv d i). apply list_elem_of_fmap. by eexists (_, cb). }
  destruct (due_loop_exact acts now (el_next_timer_id l) (S (length (el_timers l))) l n) as (n' & l' & -> & Hinv');
    [done|done|lia| |done| |].
  - intros d i Hx%(li_ids _ Hinv). lia.
  - apply Nat.lt_succ_r, length_filter.
  - exists n', l'. split; [|done]. do 4 f_equal. apply filter_ext_in. intros e He. specialize (Hids e He).
    destruct e as [[d i] cb]. unfold old_due. cbn in *. lia.
Qed.

(** C33: a stale event never reaches a newer registration.  Of one batch of
    collected events, each goes to the callback its token was registered with
    when the batch was collected, unless a callback run earlier in the batch
    stopped watching that descriptor, even if the same descriptor number has
    been registered again since. *)
Theorem stale_events_dropped {Io Tm} (l : EventLoop Io Tm) acts n events :
  loop_inv l → fits acts l n → Forall (λ e, e.1 < el_next_token l)%Z events →
  ∃ n' l', dispatch_io acts l n (Events events) = Some (io_spec acts (el_watches l) events ∅ n, n', l') ∧ loop_inv l'.
Proof.
  intros Hinv Hfits Hev. cbn [dispatch_io].
  destruct (dispatch_events_exact acts (el_next_token l) (el_watches l) events ∅ l n) as [H1 H2]; [done|done|lia| |done|].
  - intros token _. destruct (el_watches l !! token); [|done]. cbn. by rewrite decide_False by set_solver.
  - destruct (dispatch_events acts l n events) as [[fired n'] l']. cbn in *. exists n', l'. by subst.
Qed.

(** The wait is never shorter than the next deadline needs (no spinning) and
    never more than a millisecond longer. *)
Lemma next_timeout_exact {Io Tm} (l : EventLoop Io Tm) now k cb rest :
  el_timers l = (k, cb) :: rest →
  let r := next_timeout_ms l now in
  (0 ≤ r ≤ INT_MAX)%Z ∧ (r = 0 ↔ k.1 ≤ now)%Z ∧
  (r < INT_MAX → k.1 ≤ now + r * 1000000)%Z ∧ (0 < r → now + (r - 1) * 1000000 < k.1)%Z.
Proof.
  intros E. unfold next_timeout_ms, ceil_millis, INT_MAX. rewrite E. cbv zeta. destruct (Z.leb_spec (k.1 - now) 0).
  - lia.
  - destruct (Z.eqb_spec (Z.rem (k.1 - now) 1000000) 0); Z.to_euclidean_division_equations; lia.
Qed.

(** [stop] before [run] is not lost, and [run] leaves the loop ready to run
    again. *)
Lemma stop_then_run {Io Tm} (l : EventLoop Io Tm) acts n turns :
  run acts (stop l) n turns = Ok (Some (set_stop (stop l) false)).
Proof. by destruct turns. Qed.

(** ** Witnesses *)

(** Two timers due at 10 and one at 50; the first cancels the second and adds
    another that is due at once. *)
Definition ex_loop : EventLoop Z Z :=
  do_calls new_loop [AddTimer 0 10 101; AddTimer 0 10 102; AddTimer 0 50 103; AddTimer 5 5 104; AddFd 7 71 true; AddFd 8 81 true]%Z.
Definition ex_acts (n : nat) : list (Call Z Z) :=
  match n with
  | 0 => [CancelTimer 2; AddTimer 20 0 105; RemoveFd 8; AddFd 8 82 true]%Z
  | _ => []
  end.

Lemma ex_loop_inv : loop_inv ex_loop.
Proof. apply (do_calls_inv _ _ 0); [apply new_loop_inv|by split]. Qed.

Lemma ex_fits : fits ex_acts ex_loop 0.
Proof.
  assert (Hs : ∀ n k, calls_made ex_acts (S n) k = 0).
  { intros n k. revert n. induction k as [|k IH]; intros n; [done|]. unfold calls_made in *. cbn. by rewrite IH. }
  intros [|k]; [by split|]. unfold calls_made. cbn [seq sum_list_with]. fold (calls_made ex_acts 1 k). rewrite Hs. by split.
Qed.

Lemma due_timers_exact_witness :
  ∃ n' l', run_due_timers ex_acts ex_loop 0 20 = Ok ([(1, 101); (4, 104)]%Z, n', l') ∧ loop_inv l'.
Proof.
  apply (due_timers_exact ex_loop ex_acts 0 20); [exact ex_loop_inv|exact ex_fits|].
  intros [|k]; [|constructor]. repeat constructor; cbn; lia.
Defined.

Lemma stale_events_dropped_witness :
  ∃ n' l', dispatch_io ex_acts ex_loop 0 (Events [(1, 5); (0, 1); (2, 5)]%Z) = Some ([(1, 71, 5)]%Z, n', l') ∧ loop_inv l'.
Proof.
  apply (stale_events_dropped ex_loop ex_acts 0 [(1, 5); (0, 1); (2, 5)]%Z); [exact ex_loop_inv|exact ex_fits|].
  by_compute.
Defined.
