(* ===== verification/RootHints.v ===== *)
(** * Root hints: [resolver/root_hints.cpp]

    The names and addresses of the root servers, read from a zone-file-like
    text.  Strings are byte lists; [inet_pton] is the class [InetPton]; the
    file system is an argument of [load_root_hints]. *)

From stdpp Require Import base tactics numbers list strings.
From Stdlib Require Import ZArith Lia.
From S2P Require Import Prelude Names Types Wire Acl.

Record RootHints := mkHints { rh_ns : list RR; rh_addresses : list RR }.

(** An error names its line unless it is about the whole file. *)
Inductive HintsError := AtLine (line_no : Z) (what : list Z) | WholeFile (what : list Z).

Definition lower_char (c : Z) : Z := if ((65 <=? c) && (c <=? 90))%Z then (c - 65 + 97)%Z else c.

Fixpoint iequals_chars (a b : list Z) : bool :=
  match a, b with
  | x :: a, y :: b => if (lower_char x =? lower_char y)%Z then iequals_chars a b else false
  | _, _ => true
  end.
Definition iequals (a b : list Z) : bool := if decide (length a = length b) then iequals_chars a b else false.

Definition all_digits (s : list Z) : bool := negb (bool_decide (s = [])) && forallb is_digit_byte s.

(** Space, tab or carriage return. *)
Definition is_blank (c : Z) : bool := (c =? 32)%Z || (c =? 9)%Z || (c =? 13)%Z.

(** [field] is the text since [start]. *)
Fixpoint split_fields_from (line field : list Z) : list (list Z) :=
  let push rest := if decide (field = []) then rest else field :: rest in
  match line with
  | [] => push []
  | c :: line => if is_blank c then push (split_fields_from line []) else split_fields_from line (field ++ [c])
  end.
Definition split_fields (line : list Z) : list (list Z) := split_fields_from line [].

(** The text up to the first [c] (all of it if there is none), and what
    follows that character. *)
Fixpoint cut_at (c : Z) (text : list Z) : list Z * list Z :=
  match text with
  | [] => ([], [])
  | x :: text => if (x =? c)%Z then ([], text) else let '(line, rest) := cut_at c text in (x :: line, rest)
  end.

Section parse.
Context `{InetPton}.

(** What one line contributes. *)
Inductive Entry := Blank | NsRecord (rr : RR) | AddressRecord (rr : RR).

(** [<owner> [ttl] [IN] <type> <data>] *)
Definition optional_ttl (fields : list (list Z)) : list Z + (Z * list (list Z)) :=
  match fields with
  | f :: rest =>
    if all_digits f then match from_chars f with Some (ttl, _) => inr (ttl, rest) | None => inl (str "TTL out of range") end
    else inr (0%Z, fields)
  | [] => inr (0%Z, fields)
  end.
Definition optional_class (fields : list (list Z)) : list (list Z) :=
  match fields with f :: rest => if iequals f (str "IN") then rest else fields | [] => fields end.

Definition parse_record (owner : Name) (ttl : Z) (type data : list Z) : list Z + Entry :=
  if iequals type (str "NS") then
    if decide (label_count owner ≠ 0) then inl (str "NS records must belong to the root '.'") else
    match from_string data with
    | None => inl (str "invalid NS target")
    | Some target => inr (NsRecord (mkRR owner RRType.NS 1 ttl (RDataNS target) TrustRank.Additional))
    end
  else if iequals type (str "A") then
    match inet_pton AF_INET (c_str data) with
    | None => inl (str "invalid IPv4 address")
    | Some a => inr (AddressRecord (mkRR owner RRType.A 1 ttl (RDataA a) TrustRank.Additional))
    end
  else if iequals type (str "AAAA") then
    match inet_pton AF_INET6 (c_str data) with
    | None => inl (str "invalid IPv6 address")
    | Some a => inr (AddressRecord (mkRR owner RRType.AAAA 1 ttl (RDataAAAA a) TrustRank.Additional))
    end
  else inl (str "unsupported record type '" ++ type ++ str "' (only NS, A, AAAA)").

Definition parse_line (line : list Z) : list Z + Entry :=
  match split_fields (cut_at 59 line).1 with
  | [] => inr Blank
  | owner :: fields =>
    match from_string owner with
    | None => inl (str "invalid owner name")
    | Some owner =>
      match optional_ttl fields with
      | inl what => inl what
      | inr (ttl, fields) =>
        match optional_class fields with
        | [type; data] => parse_record owner ttl type data
        | _ => inl (str "expected '<owner> [ttl] [IN] <type> <data>'")
        end
      end
    end
  end.

Definition add_entry (hints : RootHints) (e : Entry) : RootHints :=
  match e with
  | Blank => hints
  | NsRecord rr => mkHints (rh_ns hints ++ [rr]) (rh_addresses hints)
  | AddressRecord rr => mkHints (rh_ns hints) (rh_addresses hints ++ [rr])
  end.

(** The [while (!text.empty())]. *)
Fixpoint parse_loop (fuel : nat) (text : list Z) (line_no : Z) (hints : RootHints) : outcome HintsError RootHints :=
  match text with
  | [] => Ok hints
  | _ :: _ =>
    match fuel with
    | 0 => Fault OutOfFuel
    | S fuel =>
      let line_no := (line_no + 1)%Z in
      let '(line, rest) := cut_at 10 text in
      match parse_line line with
      | inl what => Err (AtLine line_no what)
      | inr e => parse_loop fuel rest line_no (add_entry hints e)
      end
    end
  end.

Definition parse_root_hints (text : list Z) : outcome HintsError RootHints :=
  hints ← parse_loop (length text) text 0 (mkHints [] []);
  match rh_ns hints, rh_addresses hints with
  | [], _ => Err (WholeFile (str "no root NS records"))
  | _, [] => Err (WholeFile (str "no root server addresses"))
  | _, _ => Ok hints
  end.

(** [contents]: the file's bytes, or nothing if it cannot be opened.  The
    error's text is prefixed with the path there; here the path is not shown. *)
Inductive LoadError := CannotOpen | BadHints (e : HintsError).
Definition load_root_hints (contents : option (list Z)) : outcome LoadError RootHints :=
  match contents with
  | None => Err CannotOpen
  | Some text => match parse_root_hints text with Ok h => Ok h | Err e => Err (BadHints e) | Fault f => Fault f end
  end.
End parse.

(** ** The lines of a text, as a reference *)

Fixpoint lines (text : list Z) : list (list Z) :=
  match text with
  | [] => []
  | c :: text => if (c =? 10)%Z then [] :: lines text else match lines text with [] => [[c]] | l :: ls => (c :: l) :: ls end
  end.

Lemma cut_at_lines text : text ≠ [] → lines text = (cut_at 10 text).1 :: lines (cut_at 10 text).2.
Proof.
  induction text as [|c text IH]; [done|]. intros _. cbn [lines cut_at]. destruct (c =? 10)%Z; [done|].
  destruct text as [|d text]; [done|]. rewrite IH by done. by destruct (cut_at 10 (d :: text)).
Qed.

Lemma cut_at_rest c text : length (cut_at c text).2 ≤ pred (length text).
Proof.
  induction text as [|x text IH]; [done|]. cbn [cut_at]. destruct (x =? c)%Z; [done|].
  destruct (cut_at c text). cbn in *. lia.
Qed.

Lemma cut_at_incl c text P : Forall P text → Forall P (cut_at c text).1.
Proof.
  induction 1 as [|x text Hx Ht IH]; [constructor|]. cbn [cut_at]. destruct (x =? c)%Z; [constructor|].
  destruct (cut_at c text). by constructor.
Qed.

Lemma lines_incl text (P : Z → Prop) : Forall P text → Forall (Forall P) (lines text).
Proof.
  induction 1 as [|c text Hc Ht IH]; [constructor|]. cbn [lines]. destruct (c =? 10)%Z; [by repeat constructor|].
  destruct (lines text); inv IH; by repeat constructor.
Qed.

Lemma split_fields_incl line (P : Z → Prop) : ∀ field, Forall P line → Forall P field → Forall (Forall P) (split_fields_from line field).
Proof.
  induction line as [|c line IH]; intros field Hl Hf; cbn [split_fields_from]; [case_decide; by repeat constructor|]. inv Hl.
  destruct (is_blank c); [case_decide; [by apply IH|constructor; [done|by apply IH]]|]. apply IH; [done|].
  apply Forall_app. by repeat constructor.
Qed.

Section hints.
Context `{InetPton}.

(** The entries of a list of lines, or the index of the first bad one. *)
Fixpoint entries (ls : list (list Z)) (line_no : Z) : HintsError + list Entry :=
  match ls with
  | [] => inr []
  | l :: ls =>
    match parse_line l with
    | inl what => inl (AtLine (line_no + 1) what)
    | inr e => match entries ls (line_no + 1) with inl err => inl err | inr es => inr (e :: es) end
    end
  end.

Lemma parse_loop_entries fuel : ∀ text n hints, length text ≤ fuel →
  parse_loop fuel text n hints =
    match entries (lines text) n with inl e => Err e | inr es => Ok (fold_left add_entry es hints) end.
Proof.
  induction fuel as [|fuel IH]; intros [|c text] n hints Hlen; try done; [cbn in Hlen; lia|].
  cbn [parse_loop]. rewrite (cut_at_lines (c :: text)) by done.
  pose proof (cut_at_rest 10 (c :: text)) as Hr. destruct (cut_at 10 (c :: text)) as [line rest]. cbn [fst snd entries] in *.
  destruct (parse_line line) as [what|e]; [done|]. rewrite IH by (cbn in *; lia). by destruct (entries (lines rest) (n + 1)).
Qed.

Lemma entries_error ls : ∀ n k what,
  entries ls n = inl (AtLine k what) ↔
  ∃ i l, ls !! i = Some l ∧ k = (n + Z.of_nat i + 1)%Z ∧ parse_line l = inl what ∧
    ∀ j l', (j < i)%nat → ls !! j = Some l' → ∃ e, parse_line l' = inr e.
Proof.
  induction ls as [|l ls IH]; intros n k what; cbn [entries].
  { split; [done|]. by intros (i & l & ? & _). }
  destruct (parse_line l) as [w|e] eqn:E.
  - split.
    + intros [= <- <-]. exists 0, l. split_and!; [done|lia|done|]. intros j l' Hj. lia.
    + intros ([|i] & l0 & Hl & -> & Hw & Hb); [cbn in Hl; simplify_eq; rewrite Z.add_0_r; congruence|].
      destruct (Hb 0 l) as [e He]; [lia|done|congruence].
  - transitivity (entries ls (n + 1) = inl (AtLine k what)); [destruct (entries ls (n + 1)); naive_solver|].
    rewrite IH. split.
    + intros (i & l0 & Hl & -> & Hw & Hb). exists (S i), l0. split_and!; [done|lia|done|].
      intros [|j] l' Hj Hl'; [cbn in Hl'; simplify_eq; eauto|]. apply (Hb j); [lia|done].
    + intros ([|i] & l0 & Hl & -> & Hw & Hb); [cbn in Hl; simplify_eq; congruence|].
      exists i, l0. split_and!; [done|lia|done|]. intros j l' Hj Hl'. apply (Hb (S j)); [lia|done].
Qed.

Lemma entries_whole ls what : ∀ n, entries ls n ≠ inl (WholeFile what).
Proof.
  induction ls as [|l ls IH]; intros n; cbn [entries]; [done|]. destruct (parse_line l); [done|].
  specialize (IH (n + 1)%Z). destruct (entries ls (n + 1)); naive_solver.
Qed.

(** What the resolver relies on. *)
Definition ns_ok (rr : RR) : Prop :=
  labels (rr_name rr) = [] ∧ rr_type rr = RRType.NS ∧ rr_cls rr = 1%Z ∧ is_u32 (rr_ttl rr) ∧
  ∃ target, rr_rdata rr = RDataNS target ∧ name_wf target.
Definition address_ok (rr : RR) : Prop :=
  name_wf (rr_name rr) ∧ is_u32 (rr_ttl rr) ∧ rr_cls rr = 1%Z ∧
  match rr_rdata rr with RDataA _ | RDataAAAA _ => True | _ => False end ∧ rdata_wf (rr_type rr) (rr_cls rr) (rr_rdata rr).
Definition entry_ok (e : Entry) : Prop :=
  match e with Blank => True | NsRecord rr => ns_ok rr | AddressRecord rr => address_ok rr end.

Lemma from_chars_u32 digits v rest : from_chars digits = Some (v, rest) → is_u32 v.
Proof using.
  assert (Hloop : ∀ digits acc, is_u32 acc → from_chars_loop digits acc = Some (v, rest) → is_u32 v).
  { clear digits. induction digits as [|c digits IH]; intros acc Ha; cbn [from_chars_loop]; [by intros [= <- _]|].
    destruct (is_digit_byte c) eqn:Hc; [|by intros [= <- _]]. unfold is_digit_byte in Hc.
    apply andb_true_iff in Hc as [Hc1%Z.leb_le Hc2%Z.leb_le].
    destruct (from_chars_loop digits _) as [[v' r']|] eqn:E; [|done]. destruct (_ <? _)%Z eqn:El; [|done].
    intros [= -> ->]. apply Z.ltb_lt in El. apply (IH (acc * 10 + (c - 48))%Z); [|done]. unfold is_u32 in *. lia. }
  unfold from_chars. destruct digits as [|c digits]; [done|]. destruct (is_digit_byte c); [|done]. apply Hloop. by_compute.
Qed.

Lemma parse_record_ok owner ttl type data e : name_wf owner → is_u32 ttl → Forall is_byte data →
  parse_record owner ttl type data = inr e → entry_ok e.
Proof.
  intros Ho Ht Hd. unfold parse_record. destruct (iequals type _); [|destruct (iequals type _); [|destruct (iequals type _); [|done]]].
  - case_decide as Hl; [done|]. destruct (from_string data) as [target|] eqn:E; [|done]. intros [= <-].
    split_and!; [|done..|]; [cbn; unfold label_count in Hl; by destruct (labels owner)|].
    exists target. split; [done|]. by eapply from_string_valid.
  - destruct (inet_pton AF_INET _) as [a|] eqn:E; [|done]. intros [= <-]. apply pton_v4_size in E as [? ?]. by split_and!.
  - destruct (inet_pton AF_INET6 _) as [a|] eqn:E; [|done]. intros [= <-]. apply pton_v6_size in E as [? ?]. by split_and!.
Qed.

Lemma parse_line_ok line e : Forall is_byte line → parse_line line = inr e → entry_ok e.
Proof.
  intros Hb. unfold parse_line. pose proof (split_fields_incl _ is_byte [] (cut_at_incl 59 _ _ Hb)) as Hf.
  fold (split_fields (cut_at 59 line).1) in Hf. specialize (Hf (Forall_nil_2 _)).
  destruct (split_fields _) as [|owner fields]; [by intros [= <-]|]. inv Hf.
  destruct (from_string owner) as [o|] eqn:Eo; [|done].
  assert (Hopt : ∀ ttl fs, optional_ttl fields = inr (ttl, fs) → is_u32 ttl ∧ Forall (Forall is_byte) fs).
  { intros ttl fs. unfold optional_ttl. destruct fields as [|f fields]; [intros [= <- <-]; split; [by_compute|done]|].
    destruct (all_digits f); [|intros [= <- <-]; split; [by_compute|done]]. destruct (from_chars f) as [[v r]|] eqn:E; [|done].
    intros [= <- <-]. apply from_chars_u32 in E. by inv H3. }
  destruct (optional_ttl fields) as [|[ttl fs]]; [done|]. destruct (Hopt ttl fs eq_refl) as [Ht Hfs].
  assert (Hcls : Forall (Forall is_byte) (optional_class fs)).
  { unfold optional_class. destruct fs as [|f fs]; [done|]. destruct (iequals f _); [by inv Hfs|done]. }
  destruct (optional_class fs) as [|type [|data [|]]]; try done. inv Hcls. inv H5.
  apply parse_record_ok; [by apply (from_string_valid owner)|done|done].
Qed.

Lemma fold_entries es : ∀ hints, fold_left add_entry es hints =
  mkHints (rh_ns hints ++ omap (λ e, match e with NsRecord rr => Some rr | _ => None end) es)
          (rh_addresses hints ++ omap (λ e, match e with AddressRecord rr => Some rr | _ => None end) es).
Proof using.
  induction es as [|e es IH]; intros [ns addresses]; cbn; [by rewrite !app_nil_r|].
  rewrite IH. destruct e; cbn; by rewrite <-?app_assoc.
Qed.

Lemma entries_ok ls : ∀ n es, Forall (Forall is_byte) ls → entries ls n = inr es → Forall entry_ok es.
Proof.
  induction ls as [|l ls IH]; intros n es Hb; cbn [entries]; [by intros [= <-]|]. inv Hb.
  destruct (parse_line l) as [|e] eqn:E; [done|]. destruct (entries ls (n + 1)) as [|es'] eqn:Es; [done|].
  intros [= <-]. constructor; [by eapply parse_line_ok|by eapply IH].
Qed.
End hints.

(** ** Properties *)

(** A bad hints file is reported at its first bad line.  Parsing always
    ends, and fails with line [k] and a reason exactly when line [k] is
    rejected for that reason and every line before it is accepted. *)
Lemma hints_error_line `{InetPton} text k what :
  (∀ f, parse_root_hints text ≠ Fault f) ∧
  (parse_root_hints text = Err (AtLine k what) ↔
   ∃ i l, lines text !! i = Some l ∧ k = (Z.of_nat i + 1)%Z ∧ parse_line l = inl what ∧
     ∀ j l', (j < i)%nat → lines text !! j = Some l' → ∃ e, parse_line l' = inr e).
Proof.
  unfold parse_root_hints. rewrite parse_loop_entries by done. pose proof (entries_error (lines text) 0 k what) as He.
  setoid_rewrite Z.add_0_l in He. rewrite <-He. clear He.
  destruct (entries (lines text) 0) as [e|es]; cbn [mbind outcome_bind].
  - split; [done|]. naive_solver.
  - destruct (fold_left _ _ _) as [[|] [|]]; cbn; (split; [done|]); naive_solver.
Qed.

(** What an accepted hints file gives the resolver: at least one server name,
    owned by the root, and at least one address, all well formed, in the
    file's order. *)
Lemma hints_sound `{InetPton} text h : Forall is_byte text → parse_root_hints text = Ok h →
  rh_ns h ≠ [] ∧ rh_addresses h ≠ [] ∧ Forall ns_ok (rh_ns h) ∧ Forall address_ok (rh_addresses h).
Proof.
  intros Hb. unfold parse_root_hints. rewrite parse_loop_entries by done.
  destruct (entries (lines text) 0) as [e|es] eqn:E; [done|]. apply entries_ok in E; [|by apply lines_incl].
  cbn [mbind outcome_bind]. rewrite fold_entries. cbn [rh_ns rh_addresses app].
  assert (Hns : Forall ns_ok (omap (λ e, match e with NsRecord rr => Some rr | _ => None end) es)).
  { apply Forall_forall. intros rr ([|r|r] & He & [= ->])%list_elem_of_omap. by eapply (Forall_forall entry_ok es) in He. }
  assert (Hads : Forall address_ok (omap (λ e, match e with AddressRecord rr => Some rr | _ => None end) es)).
  { apply Forall_forall. intros rr ([|r|r] & He & [= ->])%list_elem_of_omap. by eapply (Forall_forall entry_ok es) in He. }
  destruct (omap _ es) as [|n ns]; [done|]. destruct (omap _ es) as [|a ads]; [done|]. by intros [= <-].
Qed.

(** The second line has an owner and nothing else. *)
Definition ex_hints_text : list Z := str ". 3600 IN NS a.root." ++ [10%Z] ++ str "a.root. ; no data" ++ [10%Z].

Lemma hints_error_line_witness :
  @parse_root_hints ex_pton ex_hints_text = Err (AtLine 2 (str "expected '<owner> [ttl] [IN] <type> <data>'")).
Proof.
  apply (proj2 (@hints_error_line ex_pton ex_hints_text 2 (str "expected '<owner> [ttl] [IN] <type> <data>'"))).
  exists 1, (str "a.root. ; no data"). split; [vm_compute; reflexivity|]. split; [reflexivity|]. split; [vm_compute; reflexivity|].
  intros [|j] l' Hj Hl; [|exfalso; lia].
  assert (l' = str ". 3600 IN NS a.root.") as -> by (vm_compute in Hl; injection Hl as <-; vm_compute; reflexivity).
  eexists. vm_compute. reflexivity.
Defined.
