(* ===== verification/Interfaces.v ===== *)
(** * What the resolver uses of the cache and of the upstream client

    The recursive resolver is written against two classes, each an interface
    with laws: [AnswerCache] (lookup and insert, and that every entry found
    was once inserted under that key) and [UpstreamService] (send, cancel and
    the events of queries in flight, and that each query is answered at most
    once, while it is in flight).  The cache of [Cache] and the client of
    [Upstream] are their instances. *)

From stdpp Require Import base tactics numbers list gmap fin_maps.
From Stdlib Require Import ZArith Lia.
From S2P Require Import Prelude Names Types Wire Cache Upstream.

(** ** The cache *)

(** A property of entries that serving a copy keeps: TTLs and hit counts
    change, nothing else. *)
Definition served_as (e e' : CacheEntry) : Prop :=
  (∃ ttl, ce_records e' = map (set_ttl ttl) (ce_records e)) ∧ ce_trust e' = ce_trust e ∧ ce_is_negative e' = ce_is_negative e.

Definition touched_as (e e' : CacheEntry) : Prop :=
  ce_records e' = ce_records e ∧ ce_trust e' = ce_trust e ∧ ce_is_negative e' = ce_is_negative e.

Record entry_property (P : key_id → CacheEntry → Prop) : Prop := {
  ep_touched : ∀ k e e', touched_as e e' → P k e → P k e';
  ep_served : ∀ k e e', served_as e e' → P k e → P k e';
}.

Class AnswerCache (C : Type) := {
  ac_lookup : C → CacheKey → Z → mem (option CacheEntry * C);
  ac_insert : C → CacheKey → list RR → TrustRank.t → Z → bool → Z → mem C;
  (** Every entry has the property, under its key. *)
  ac_holds : (key_id → CacheEntry → Prop) → C → Prop;
  ac_lookup_holds : ∀ P c k now, entry_property P → ac_holds P c →
    ∃ r c', ac_lookup c k now = Ok (r, c') ∧ ac_holds P c' ∧ ∀ e, r = Some e → P (canon k) e;
  ac_insert_holds : ∀ P c k records trust ttl negative now, entry_property P → ac_holds P c →
    (∀ expires, P (canon k) (mkEntry records trust expires now 0 negative)) →
    ∃ c', ac_insert c k records trust ttl negative now = Ok c' ∧ ac_holds P c';
}.

(** ** The upstream client *)

(** What the loop can tell the client about queries in flight. *)
Inductive UpstreamEvent :=
| FdEvent (fd : Z) (hung_up modify_ok : bool) (sends : list SendResult) (recvs : list Recv)
| TimerEvent (t : Z).

Class UpstreamService (U : Type) := {
  us_send : U → Message → UpstreamTransport → bool → SendCalls → Z * U;
  us_cancel : U → Z → U;
  us_event : U → UpstreamEvent → option (Z * (UpstreamError + Message)) * U;
  (** The queries in flight, a sane state, and what a send needs of the system. *)
  us_in_flight : U → gset Z;
  us_sane : U → Prop;
  us_calls_ok : U → SendCalls → Prop;
  us_send_law : ∀ u m t mc calls, us_sane u → us_calls_ok u calls →
    let '(id, u') := us_send u m t mc calls in
    id ≠ 0%Z ∧ (id ∉ us_in_flight u) ∧ us_in_flight u' = {[id]} ∪ us_in_flight u ∧ us_sane u';
  us_cancel_law : ∀ u id, us_sane u →
    us_in_flight (us_cancel u id) = us_in_flight u ∖ {[id]} ∧ us_sane (us_cancel u id) ∧
    ∀ calls, us_calls_ok u calls → us_calls_ok (us_cancel u id) calls;
  us_event_law : ∀ u ev, us_sane u →
    match us_event u ev with
    | (Some (id, _), u') => id ∈ us_in_flight u ∧ us_in_flight u' = us_in_flight u ∖ {[id]} ∧ us_sane u'
    | (None, u') => us_in_flight u' = us_in_flight u ∧ us_sane u'
    end;
}.

(** ** The cache is an answer cache *)

Section cache_instance.
Context (sz : Sizes) (cfg : CacheConfig) (Hcfg : config_ok cfg).

Definition node_holds (P : key_id → CacheEntry → Prop) (n : Node) : Prop := P (key_of n) (n_entry n).
Definition cache_holds (P : key_id → CacheEntry → Prop) (c : Cache) : Prop :=
  ∃ vs, cache_rep cfg c vs ∧ Forall (Forall (node_holds P)) vs.

Lemma new_cache_holds P : cache_holds P (new_cache cfg).
Proof using Hcfg. eexists. split; [by apply cache_rep_new|]. by apply Forall_replicate. Qed.

(** An operation keeps the property if what it inserts has it. *)
Lemma a_op_holds P budget vs op : entry_property P →
  match op with
  | OpInsert k records trust _ negative now => ∀ expires, P (canon k) (mkEntry records trust expires now 0 negative)
  | _ => True
  end →
  Forall (Forall (node_holds P)) vs → Forall (Forall (node_holds P)) (a_op sz cfg budget vs op).2.
Proof using.
  intros HP Hop Hvs.
  assert (Hat : ∀ k, Forall (node_holds P) (vs !!! shard_index (length vs) k)).
  { intros k. destruct (vs !! shard_index (length vs) k) as [v|] eqn:E.
    - rewrite (list_lookup_total_correct _ _ _ E). by eapply Forall_lookup_1.
    - rewrite list_lookup_total_alt, E. constructor. }
  destruct op as [k now|k records trust ttl negative now|k|]; cbn [a_op].
  - specialize (Hat k). unfold a_lookup. destruct (a_find _ _) as [n|] eqn:E; [|by apply Forall_insert].
    destruct (live _ _); [|by apply Forall_insert]. cbn. apply Forall_insert; [done|]. constructor; [|by apply Forall_a_remove].
    apply a_find_Some in E as [_ Hn]. rewrite Forall_forall in Hat. specialize (Hat n Hn).
    by apply (ep_touched P HP (key_of n) (n_entry n)).
  - destruct (_ =? 0)%Z; [done|]. specialize (Hat k). apply Forall_insert; [done|]. unfold a_insert.
    destruct (outranked _ _ _ _); [done|]. destruct (_ <? _)%Z; [by apply Forall_a_remove|].
    apply Forall_fit. constructor; [|by apply Forall_a_remove]. unfold node_holds, key_of. cbn [n_key n_entry].
    destruct (a_find (canon k) _) as [n|] eqn:E; [|apply Hop]. cbn.
    apply a_find_Some in E as [E _]. unfold key_of in E. rewrite E. apply Hop.
  - apply Forall_insert; [done|]. by apply Forall_a_remove.
  - apply Forall_fmap. eapply Forall_impl; [exact Hvs|]. constructor.
Qed.

Lemma cache_lookup_holds P c k now : entry_property P → cache_holds P c →
  ∃ r c', cache_lookup c k now = Ok (r, c') ∧ cache_holds P c' ∧ ∀ e, lr_entry r = Some e → P (canon k) e.
Proof using Hcfg sz.
  intros HP (vs & Hrep & Hvs).
  pose proof (run_op_refines cfg Hcfg sz c vs (OpLookup k now) Hrep) as (c2 & Hl & Hrep2 & _).
  pose proof (a_op_holds P (c_shard_budget c) vs (OpLookup k now) HP I Hvs) as Hvs2.
  cbn [run_op] in Hl. destruct (cache_lookup c k now) as [[r c2']| |]; [|done..].
  rewrite bind_Ok in Hl. apply Ok_pair_inj in Hl as [Hr ->]. exists r, c2. split_and!; [done|by eexists|].
  intros e He. cbn [a_op] in Hr. destruct (cache_rep_shard cfg Hcfg c vs k Hrep) as (s & v & _ & _ & Hv & Htot & _ & _).
  rewrite Htot in *. unfold a_lookup in Hr. destruct (a_find (canon k) v) as [n|] eqn:E; [|cbn in Hr; by injection Hr as ->].
  destruct (live (n_entry n) now); cbn in Hr; injection Hr as ->; [|done]. cbn in He. injection He as <-.
  apply a_find_Some in E as [Ek Hin]. rewrite Forall_lookup in Hvs. specialize (Hvs _ _ Hv). rewrite Forall_forall in Hvs.
  specialize (Hvs n Hin). unfold node_holds in Hvs. rewrite Ek in Hvs.
  apply (ep_served P HP _ (n_entry (touch n))); [by split; [eexists|]|]. by apply (ep_touched P HP _ (n_entry n)).
Qed.

Lemma cache_insert_holds P c k records trust ttl negative now : entry_property P → cache_holds P c →
  (∀ expires, P (canon k) (mkEntry records trust expires now 0 negative)) →
  ∃ c', cache_insert sz c k records trust ttl negative now = Ok c' ∧ cache_holds P c'.
Proof using Hcfg.
  intros HP (vs & Hrep & Hvs) He. set (op := OpInsert k records trust ttl negative now).
  pose proof (run_op_refines cfg Hcfg sz c vs op Hrep) as (c1 & Hi & Hrep1 & _).
  pose proof (a_op_holds P (c_shard_budget c) vs op HP He Hvs) as Hvs1.
  cbn [run_op op] in Hi. destruct (cache_insert _ _ _ _ _ _ _ _) as [c1'| |]; [|done..].
  rewrite bind_Ok in Hi. apply Ok_pair_inj in Hi as [_ ->]. exists c1. split; [done|]. by eexists.
Qed.

Definition cache_answer_cache : AnswerCache Cache.
Proof using sz Hcfg.
  refine {| ac_lookup c k now := '(r, c) ← cache_lookup c k now; Ok (lr_entry r, c);
            ac_insert := cache_insert sz; ac_holds := cache_holds |}.
  - abstract (intros P c k now HP Hc; destruct (cache_lookup_holds P c k now HP Hc) as (r & c' & -> & Hc' & Hr);
      by exists (lr_entry r), c').
  - exact cache_insert_holds.
Defined.
End cache_instance.

(** ** The client is an upstream service *)

Definition done_of (effects : list Effect) : option (Z * (UpstreamError + Message)) :=
  head (omap (λ e, match e with Done id r => Some (id, r) | _ => None end) effects).

Definition deliver (c : UpstreamClient) (ev : UpstreamEvent) : option (Z * (UpstreamError + Message)) * UpstreamClient :=
  let '(effects, c) := exec c match ev with
    | FdEvent fd hung_up modify_ok sends recvs => OpFd fd hung_up modify_ok sends recvs
    | TimerEvent t => OpTimer t
    end in
  (done_of effects, c).

(** [r] ends at most one query, one that was in flight at [c], and says so. *)
Definition settles (c : UpstreamClient) (r : list Effect * UpstreamClient) : Prop :=
  match done_of r.1 with
  | None => dom (uc_pending r.2) = dom (uc_pending c)
  | Some (id, _) => id ∈ dom (uc_pending c) ∧ dom (uc_pending r.2) = dom (uc_pending c) ∖ {[id]}
  end.

Lemma settles_same_dom c c' r : dom (uc_pending c') = dom (uc_pending c) → settles c' r → settles c r.
Proof. intros E. unfold settles. by rewrite E. Qed.

Lemma settles_nil c : settles c ([], c).
Proof. done. Qed.

Lemma settles_count c x r : settles (count x c) r → settles c r.
Proof. done. Qed.

Lemma settles_finish c id r : settles c (finish c id r).
Proof.
  unfold finish. destruct (uc_pending c !! id) as [p|] eqn:Hp; [|done].
  unfold release. destruct (0 <=? up_fd p)%Z, (up_timer p =? 0)%Z; unfold settles; cbn;
    (split; [by apply elem_of_dom_2 in Hp|apply dom_delete_L]).
Qed.

Lemma settles_store c id p p' r : uc_pending c !! id = Some p → settles (store c id p') r → settles c r.
Proof.
  intros Hp. apply settles_same_dom. cbn. rewrite dom_insert_L. apply elem_of_dom_2 in Hp. set_solver.
Qed.

Lemma settles_broke_off c id : settles c (broke_off c id).
Proof. apply (settles_count c CErrors), settles_finish. Qed.
Hint Resolve settles_nil settles_finish settles_broke_off : dns.

Lemma settles_on_readable_loop recvs : ∀ c id p, uc_pending c !! id = Some p → settles c (on_readable_loop c id p recvs).
Proof.
  induction recvs as [|[| | |bytes] recvs IH]; intros c id p Hp; cbn [on_readable_loop]; auto with dns.
  - apply (settles_count c CErrors), settles_finish.
  - destruct (reply_match p bytes) eqn:Em.
    3:{ unfold reply_match in Em. rewrite Em. destruct (parse bytes) eqn:Ep; [|by rewrite ?Ep in Em..].
        apply (settles_count c CAnswered), settles_finish. }
    all: assert (Hne : reply_match p bytes ≠ MatchYes) by congruence;
      destruct (on_readable_noise c id p bytes recvs Hne) as [w Hw]; cbn [on_readable_loop] in Hw; rewrite Hw; cbv zeta;
      apply (settles_count c (if w then CCaseMismatches else CMismatched));
      destruct (_ =? 0)%Z;
      [apply (settles_store _ id p (suspect p w (up_suspicious p))); [done|]; apply IH, stored|];
      apply (settles_store _ id p (suspect p w (u32 (up_suspicious p + 1)))); [done|];
      destruct (_ <=? _)%Z; [apply (settles_count _ CSpoofAlerts), settles_finish|apply IH, stored].
Qed.

Lemma settles_tcp_write sends : ∀ c id p m, uc_pending c !! id = Some p → settles c (tcp_write c id p m sends).
Proof.
  induction sends as [|[| | |n] sends IH]; intros c id p m Hp; cbn [tcp_write];
    destruct (decide _); try (destruct m; by auto with dns); auto with dns.
  set (p' := set_written p _).
  assert (Hk : settles c (tcp_write (store c id p') id p' m sends)).
  { apply (settles_store c id p p'); [done|]. apply IH, stored. }
  by destruct (tcp_write _ _ _ _ _) as [effects c'].
Qed.

Lemma settles_tcp_verdict c id p body : settles c (tcp_verdict c id p body).
Proof.
  unfold tcp_verdict. destruct (match_reply _ _ _ _);
    [apply (settles_count c CMismatched), settles_broke_off|apply (settles_count c CCaseMismatches), settles_finish|].
  destruct (parse body); [apply (settles_count c CAnswered), settles_finish|apply (settles_count c CMismatched), settles_broke_off..].
Qed.

Lemma settles_tcp_read recvs : ∀ c id p, uc_pending c !! id = Some p → settles c (tcp_read c id p recvs).
Proof.
  induction recvs as [|[| | |[|b bytes]] recvs IH]; intros c id p Hp; cbn [tcp_read]; auto with dns.
  apply (settles_store c id p (set_in p (up_in p ++ b :: bytes))); [done..|].
  destruct (framed _) as [body|]; [apply settles_tcp_verdict|apply IH, stored].
Qed.

Lemma settles_deliver c ev : match deliver c ev with
  | (Some (id, _), c') => id ∈ dom (uc_pending c) ∧ dom (uc_pending c') = dom (uc_pending c) ∖ {[id]}
  | (None, c') => dom (uc_pending c') = dom (uc_pending c)
  end.
Proof.
  unfold deliver. set (op := match ev with FdEvent _ _ _ _ _ => _ | TimerEvent _ => _ end).
  assert (Hs : settles c (exec c op)).
  { subst op. destruct ev as [fd h m sends recvs|t]; cbn [exec].
    - destruct (lo_fds (uc_loop c) !! fd) as [[id []]|]; [| |done].
      + unfold on_readable. destruct (uc_pending c !! id) eqn:Hp; [by apply settles_on_readable_loop|done].
      + unfold on_tcp_event. destruct (uc_pending c !! id) eqn:Hp; [|done]. case_decide; [|by apply settles_tcp_read].
        destruct h; [apply settles_broke_off|by apply settles_tcp_write].
    - unfold on_timer. destruct (lo_timers (uc_loop c) !! t) as [[id []]|]; [| |done].
      + by apply (settles_same_dom c (cancel_timer c t)), settles_finish.
      + by apply (settles_same_dom c (count CTimeouts (cancel_timer c t))), settles_finish. }
  destruct (exec c op) as [effects c']. unfold settles in Hs. cbn in *. by destruct (done_of effects) as [[id r]|].
Qed.

Definition client_sane (c : UpstreamClient) : Prop := ∃ past, client_inv c past.

Lemma deliver_sane c ev : client_sane c → client_sane (deliver c ev).2.
Proof.
  intros [past Hinv]. unfold deliver. set (op := match ev with FdEvent _ _ _ _ _ => _ | TimerEvent _ => _ end).
  assert (Hk : keeps c (exec c op)) by (apply keeps_exec; by destruct ev).
  specialize (Hk past Hinv). destruct (exec c op). by eexists.
Qed.

Lemma send_law c m t mc calls : client_sane c → calls_ok c calls →
  let '(id, _, c') := send c m t mc calls in
  id ≠ 0%Z ∧ (id ∉ dom (uc_pending c)) ∧ dom (uc_pending c') = {[id]} ∪ dom (uc_pending c) ∧ client_sane c'.
Proof.
  intros [past Hinv] Hok. pose proof (keeps_exec c (OpSend m t mc calls) Hok past Hinv) as Hk. cbn [exec] in Hk.
  assert (Hid : (send c m t mc calls).1.1 = uc_next_id c ∧
    dom (uc_pending (send c m t mc calls).2) = {[uc_next_id c]} ∪ dom (uc_pending c)).
  { unfold send. destruct (_ <? 0)%Z; [by split; [|cbn; rewrite dom_insert_L]|].
    destruct (sc_connect calls), t, (sc_send_ok calls), (sc_add_fd_ok calls); by split; [|cbn; rewrite dom_insert_L]. }
  destruct (send c m t mc calls) as [[id effects] c']. cbn in Hid, Hk. destruct Hid as [-> Hdom]. split_and!; [| |done|by eexists].
  - destruct Hok as (_ & _ & _ & ?). lia.
  - intros [p Hp]%elem_of_dom. apply (ci_id _ _ Hinv) in Hp. lia.
Qed.

Lemma cancel_law c id : client_sane c →
  dom (uc_pending (cancel c id).2) = dom (uc_pending c) ∖ {[id]} ∧ client_sane (cancel c id).2 ∧
  ∀ calls, calls_ok c calls → calls_ok (cancel c id).2 calls.
Proof.
  intros [past Hinv]. pose proof (keeps_cancel c id past Hinv) as Hk. split_and!; [|by eexists|].
  - unfold cancel. destruct (uc_pending c !! id) as [p|] eqn:Hp.
    + unfold release. destruct (0 <=? up_fd p)%Z, (up_timer p =? 0)%Z; cbn; apply dom_delete_L.
    + cbn. apply not_elem_of_dom in Hp. set_solver.
  - intros calls (H1 & H2 & H3 & H4). destruct (uc_pending c !! id) as [p|] eqn:Hp; [|unfold cancel; by rewrite Hp].
    pose proof (ci_timer _ _ Hinv id p Hp) as [Ht _]. rewrite (cancel_spec c id p Hp Ht). unfold calls_ok, ended. cbn.
    split_and!; [done| | |lia..].
    + by apply lookup_delete_None; right.
    + intros i q [_ Hq]%lookup_delete_Some. by apply (H3 i).
Qed.

Global Instance client_service : UpstreamService UpstreamClient.
Proof.
  refine {| us_send c m t mc calls := let '(id, _, c') := send c m t mc calls in (id, c');
            us_cancel c id := (cancel c id).2; us_event := deliver; us_in_flight c := dom (uc_pending c);
            us_sane := client_sane; us_calls_ok := calls_ok |}.
  - abstract (intros u m t mc calls Hs Hok; pose proof (send_law u m t mc calls Hs Hok); by destruct (send u m t mc calls) as [[??]?]).
  - exact cancel_law.
  - abstract (intros u ev Hs; pose proof (settles_deliver u ev) as H; pose proof (deliver_sane u ev Hs) as H';
      destruct (deliver u ev) as [[[id r]|] u']; naive_solver).
Defined.
