(* ===== verification/Resolver.v ===== *)
(** * The recursive resolver: [resolver/recursive_resolver.cpp]

    An event-driven state machine.  A [Task] is one resolution: a client's
    question, or the lookup of a name server's address on behalf of another
    task.  The operations of [Impl] are state transformers over [Resolver]:
    [M A] takes the state to a result and a new state, or to a [Fault] where
    the C++ would follow a dangling pointer or loop without end.

    - A [std::shared_ptr<Budget>] is an index into [r_budgets], so a query and
      its sub-queries really share one counter.
    - Callbacks are data: [ClientDone] and [PrimeDone] name the caller's
      callback, [ChildOf] is the closure that resumes the parent task, a
      [ResolverTimer] the closure of a timer, and [r_owner] the task captured
      by the callback of an upstream query.
    - The cache and the upstream client are any instances of [AnswerCache] and
      [UpstreamService]; server selection is the model of [ServerSelection]
      and the timers are those of [EventLoop].
    - Every use of [finish] is the last thing its caller does, and a client's
      callback the last thing [finish] does, so a callback that resolves again
      is a later operation.
    - [r_log] records, in order, what the resolver does to the outside: client
      callbacks, queries sent, insertions into the cache (with the zone of the
      response they come from) and spoofing alerts. *)

From stdpp Require Import base tactics numbers list gmap fin_maps strings.
From Stdlib Require Import ZArith Lia.
From S2P Require Import Prelude Names Types Cache Security ServerSelection Upstream EventLoop RootHints Interfaces.

(** ** Data *)

Module ResolveError.
Inductive t := Timeout | ServFail | MaxQueriesExceeded | MaxDepthExceeded | MaxCnameChainExceeded | AllServersFailed | NetworkError.
End ResolveError.

Definition resolve_error_to_string (e : ResolveError.t) : list Z :=
  match e with
  | ResolveError.Timeout => str "timed out"
  | ResolveError.ServFail => str "server failure"
  | ResolveError.MaxQueriesExceeded => str "too many upstream queries"
  | ResolveError.MaxDepthExceeded => str "too many referrals"
  | ResolveError.MaxCnameChainExceeded => str "CNAME chain too long"
  | ResolveError.AllServersFailed => str "no name server answered"
  | ResolveError.NetworkError => str "network error"
  end.

Record StubZone := mkStub { st_zone : Name; st_servers : list Z }.

Record ResolverConfig := mkResolverConfig {
  rc_root_hints_path : list Z; rc_qname_minimisation : bool; rc_use_0x20 : bool; rc_edns_buffer : Z;
  rc_max_upstream_queries : Z; rc_max_referral_depth : Z; rc_max_cname_chain : Z; rc_max_glueless_ns : Z;
  rc_query_timeout_ms : Z; rc_max_query_timeout_ms : Z; rc_overall_deadline_ms : Z; rc_explore_one_in : Z;
  rc_spoof_tcp_threshold : Z; rc_upstream_port : Z; rc_stub_zones : list StubZone;
}.

Definition default_resolver_config : ResolverConfig :=
  mkResolverConfig (str "config/named.root") true true 1232 30 16 8 5 800 3000 5000 20 5 53 [].

Record ResolveResult := mkResult {
  rs_response : Message; rs_upstream_queries_used : Z; rs_latency_us : Z; rs_coalesced : bool;
}.
Definition Outcome : Type := ResolveError.t + ResolveResult.

Record SpoofAlert := mkAlert { al_question : Question; al_server : Z; al_replies : Z }.

(** Callbacks; a client's names its call and what it asked. *)
Inductive Callback := ClientDone (k : nat) (q : Question) | PrimeDone (k : nat) | ChildOf (parent : Z).
Inductive ResolverTimer := StartOf (id : Z) | DeadlineOf (id : Z).

Record Waiter := mkWaiter { w_question : Question; w_asked : Z; w_done : Callback }.

(** The members of [Task] about the current zone cut, those that
    [reset_zone] resets. *)
Record ZoneCut := mkCut {
  z_zone : Name; z_servers : list Z; z_unresolved : list Name; z_tried : list Z; z_timed_out : list Z;
  z_retry_rounds : Z; z_glueless_lookups : Z; z_timeouts : Z;
}.

(** The members about the query sent last. *)
Record Sent := mkSent { n_asked : Z; n_over_tcp : bool; n_sent_0x20 : bool; n_sent_at : Z }.

Record Task := mkTask {
  t_question : Question; t_qname : Name; t_chain : list RR; t_cname_hops : Z; t_ancestry : list Question;
  t_cut : ZoneCut; t_sent : Sent; t_referrals : Z; t_budget : nat; t_started : Z;
  t_upstream : Z; t_child : Z; t_start_timer : Z; t_deadline : Z; t_done : Callback; t_client : bool; t_joiners : list Waiter;
}.

Definition no_cut : ZoneCut := mkCut root_name [] [] [] [] 0 0 0.
Definition not_sent : Sent := mkSent 0 false false 0.

(** What the resolver does to the outside, in order. *)
Inductive Event :=
| Called (k : nat) (q : Question) (result : Outcome)
| Primed (k : nat) (result : option ResolveError.t)
| Asked (task : Z) (budget : nat) (zone : Name) (server : Z) (query : Message) (timeout : Z) (transport : UpstreamTransport) (match_case : bool)
| Stored (zone : Name) (key : CacheKey) (records : list RR) (trust : TrustRank.t) (ttl : Z) (negative : bool)
| Alerted (alert : SpoofAlert).

(** ** Assigning to members *)

Definition set_target (t : Task) (qname : Name) (chain : list RR) (hops : Z) : Task :=
  mkTask (t_question t) qname chain hops (t_ancestry t) (t_cut t) (t_sent t) (t_referrals t) (t_budget t) (t_started t)
    (t_upstream t) (t_child t) (t_start_timer t) (t_deadline t) (t_done t) (t_client t) (t_joiners t).
Definition set_cut (t : Task) (c : ZoneCut) : Task :=
  mkTask (t_question t) (t_qname t) (t_chain t) (t_cname_hops t) (t_ancestry t) c (t_sent t) (t_referrals t) (t_budget t)
    (t_started t) (t_upstream t) (t_child t) (t_start_timer t) (t_deadline t) (t_done t) (t_client t) (t_joiners t).
Definition set_sent (t : Task) (n : Sent) : Task :=
  mkTask (t_question t) (t_qname t) (t_chain t) (t_cname_hops t) (t_ancestry t) (t_cut t) n (t_referrals t) (t_budget t)
    (t_started t) (t_upstream t) (t_child t) (t_start_timer t) (t_deadline t) (t_done t) (t_client t) (t_joiners t).
Definition set_referrals (t : Task) (n : Z) : Task :=
  mkTask (t_question t) (t_qname t) (t_chain t) (t_cname_hops t) (t_ancestry t) (t_cut t) (t_sent t) n (t_budget t)
    (t_started t) (t_upstream t) (t_child t) (t_start_timer t) (t_deadline t) (t_done t) (t_client t) (t_joiners t).
Definition set_waits (t : Task) (upstream child start : Z) : Task :=
  mkTask (t_question t) (t_qname t) (t_chain t) (t_cname_hops t) (t_ancestry t) (t_cut t) (t_sent t) (t_referrals t)
    (t_budget t) (t_started t) upstream child start (t_deadline t) (t_done t) (t_client t) (t_joiners t).
Definition set_client (t : Task) (deadline : Z) (client : bool) (joiners : list Waiter) : Task :=
  mkTask (t_question t) (t_qname t) (t_chain t) (t_cname_hops t) (t_ancestry t) (t_cut t) (t_sent t) (t_referrals t)
    (t_budget t) (t_started t) (t_upstream t) (t_child t) (t_start_timer t) deadline (t_done t) client joiners.

Definition set_upstream (t : Task) (u : Z) : Task := set_waits t u (t_child t) (t_start_timer t).
Definition set_child (t : Task) (c : Z) : Task := set_waits t (t_upstream t) c (t_start_timer t).
Definition set_start_timer (t : Task) (x : Z) : Task := set_waits t (t_upstream t) (t_child t) x.
Definition set_deadline (t : Task) (x : Z) : Task := set_client t x (t_client t) (t_joiners t).
Definition set_tries (t : Task) (tried timed_out : list Z) (rounds timeouts : Z) : Task :=
  set_cut t (mkCut (z_zone (t_cut t)) (z_servers (t_cut t)) (z_unresolved (t_cut t)) tried timed_out rounds
    (z_glueless_lookups (t_cut t)) timeouts).
Definition set_unresolved (t : Task) (names : list Name) (lookups : Z) : Task :=
  set_cut t (mkCut (z_zone (t_cut t)) (z_servers (t_cut t)) names (z_tried (t_cut t)) (z_timed_out (t_cut t))
    (z_retry_rounds (t_cut t)) lookups (z_timeouts (t_cut t))).

(** ** Helpers *)

Definition kClassIN : Z := 1.
Definition kTypeA : Z := RRType.A.
Definition kTypeNS : Z := RRType.NS.
Definition kTypeCNAME : Z := RRType.CNAME.
Definition kNxdomainType : Z := 0.
Definition kMaxSubqueryDepth : nat := 4.
Definition kMaxRetryRounds : Z := 2.

Definition collect (section : list RR) (name : Name) (type : Z) : list RR :=
  filter (λ rr, rr_cls rr = kClassIN ∧ rr_type rr = type ∧ name_eqb (rr_name rr) name = true) section.

Definition min_ttl (rrs : list RR) : Z :=
  let ttl := fold_left (λ ttl rr, Z.min ttl (rr_ttl rr)) rrs 4294967295%Z in
  match rrs with [] => 0%Z | _ => ttl end.

Fixpoint find_soa (authority : list RR) (qname : Name) : option RR :=
  match authority with
  | [] => None
  | rr :: rest =>
    match rr_rdata rr with
    | RDataSOA _ _ _ _ _ _ _ => if is_subdomain_of qname (rr_name rr) then Some rr else find_soa rest qname
    | _ => find_soa rest qname
    end
  end.

(** Only called on what [find_soa] returns. *)
Definition negative_ttl (soa : RR) : Z :=
  match rr_rdata soa with RDataSOA _ _ _ _ _ _ minimum => Z.min (rr_ttl soa) minimum | _ => rr_ttl soa end.

Definition is_ns (rr : RR) : bool := match rr_rdata rr with RDataNS _ => true | _ => false end.

Fixpoint referral_from (ns authority : list RR) : list RR :=
  match authority with
  | [] => ns
  | rr :: rest =>
    if negb (rr_cls rr =? kClassIN)%Z || negb (is_ns rr) then referral_from ns rest
    else if match ns with first :: _ => negb (name_eqb (rr_name rr) (rr_name first)) | [] => false end then referral_from ns rest
    else referral_from (ns ++ [rr]) rest
  end.
Definition referral_ns (authority : list RR) : list RR := referral_from [] authority.

(** [in_addr_t]: the four bytes as a little-endian number. *)
Definition in_addr (bytes : list Z) : Z := foldr (λ b acc, b + 256 * acc)%Z 0%Z bytes.
Definition ipv4_addresses (rrs : list RR) : list Z :=
  omap (λ rr, match rr_rdata rr with RDataA addr => Some (in_addr addr) | _ => None end) rrs.

(** Questions that compare equal; the map's hash does not matter. *)
Definition question_id (q : Question) : key_id := (labels (q_qname q), q_qtype q, q_qclass q).

Definition elapsed_us (since now : Z) : Z := u32 (Z.quot (now - since) 1000).

Definition add_server (t : Task) (address : Z) : Task :=
  let c := t_cut t in
  if decide (address ∈ z_servers c) then t
  else set_cut t (mkCut (z_zone c) (z_servers c ++ [address]) (z_unresolved c) (z_tried c) (z_timed_out c) (z_retry_rounds c)
                    (z_glueless_lookups c) (z_timeouts c)).
Definition add_servers (t : Task) (addresses : list Z) : Task := fold_left add_server addresses t.

Definition reset_zone (t : Task) (zone : Name) : Task := set_cut t (mkCut zone [] [] [] [] 0 0 0).

Definition would_cycle (t : Task) (q : Question) : bool :=
  if name_eqb (q_qname q) (t_qname t) && (q_qtype q =? q_qtype (t_question t))%Z then true
  else existsb (λ a, question_eqb a q) (t_ancestry t).

Definition task_outcome (t : Task) (rcode : Z) (answers authority : list RR) : Outcome :=
  inr (mkResult (mkMessage (mkHeader 0 true 0 false false false false false false (u8 rcode) 0 0 0 0)
                   [t_question t] (t_chain t ++ answers) authority [] None) 0 0 false).

Definition restore_name (asked : Name) (rr : RR) : RR :=
  if name_eqb (rr_name rr) asked
  then mkRR (mkName (labels (rr_name rr)) (original_case asked)) (rr_type rr) (rr_cls rr) (rr_ttl rr) (rr_rdata rr) (rr_trust rr)
  else rr.
Definition restore_case (response : Message) (asked : Name) : Message :=
  mkMessage (m_header response) (m_questions response) (map (restore_name asked) (m_answers response))
    (map (restore_name asked) (m_authority response)) (map (restore_name asked) (m_additional response)) (m_edns response).

(** The doubling loop of [send_query]. *)
Fixpoint doubled (n : nat) (timeout most : Z) : Z :=
  match n with
  | 0 => timeout
  | S n => if (timeout <? most)%Z then doubled n (timeout * 2) most else timeout
  end.

(** A joiner's copy of the outcome. *)
Definition join_outcome (result : Outcome) (w : Waiter) (now : Z) : Outcome :=
  match result with
  | inl e => inl e
  | inr r =>
    let m := rs_response r in
    inr (mkResult (mkMessage (m_header m) [w_question w] (m_answers m) (m_authority m) (m_additional m) (m_edns m))
           0 (elapsed_us (w_asked w) now) true)
  end.

(** ** State *)

Section resolver.
Context {C U : Type} `{AnswerCache C} `{UpstreamService U}.

Record Resolver := mkResolver {
  r_config : ResolverConfig; r_hints : RootHints; r_loop : EventLoop unit ResolverTimer; r_cache : C; r_upstream : U;
  r_selection : ServerSelection; r_stubs : gmap (list (list Z)) (list Z); r_next_task_id : Z; r_tasks : gmap Z Task;
  r_in_flight : gmap key_id Z; r_no_0x20 : gset Z; r_spoof_alert : bool;
  r_budgets : list Z; r_owner : gmap Z Z; r_ticks : nat; r_sends : nat; r_log : list Event;
}.

Definition set_loop (s : Resolver) (l : EventLoop unit ResolverTimer) : Resolver :=
  mkResolver (r_config s) (r_hints s) l (r_cache s) (r_upstream s) (r_selection s) (r_stubs s) (r_next_task_id s)
    (r_tasks s) (r_in_flight s) (r_no_0x20 s) (r_spoof_alert s) (r_budgets s) (r_owner s) (r_ticks s) (r_sends s) (r_log s).
Definition set_cache (s : Resolver) (c : C) : Resolver :=
  mkResolver (r_config s) (r_hints s) (r_loop s) c (r_upstream s) (r_selection s) (r_stubs s) (r_next_task_id s)
    (r_tasks s) (r_in_flight s) (r_no_0x20 s) (r_spoof_alert s) (r_budgets s) (r_owner s) (r_ticks s) (r_sends s) (r_log s).
Definition set_service (s : Resolver) (u : U) (owner : gmap Z Z) (sends : nat) : Resolver :=
  mkResolver (r_config s) (r_hints s) (r_loop s) (r_cache s) u (r_selection s) (r_stubs s) (r_next_task_id s)
    (r_tasks s) (r_in_flight s) (r_no_0x20 s) (r_spoof_alert s) (r_budgets s) owner (r_ticks s) sends (r_log s).
Definition set_selection (s : Resolver) (x : ServerSelection) : Resolver :=
  mkResolver (r_config s) (r_hints s) (r_loop s) (r_cache s) (r_upstream s) x (r_stubs s) (r_next_task_id s)
    (r_tasks s) (r_in_flight s) (r_no_0x20 s) (r_spoof_alert s) (r_budgets s) (r_owner s) (r_ticks s) (r_sends s) (r_log s).
Definition set_tasks (s : Resolver) (next : Z) (ts : gmap Z Task) : Resolver :=
  mkResolver (r_config s) (r_hints s) (r_loop s) (r_cache s) (r_upstream s) (r_selection s) (r_stubs s) next
    ts (r_in_flight s) (r_no_0x20 s) (r_spoof_alert s) (r_budgets s) (r_owner s) (r_ticks s) (r_sends s) (r_log s).
Definition set_in_flight (s : Resolver) (m : gmap key_id Z) : Resolver :=
  mkResolver (r_config s) (r_hints s) (r_loop s) (r_cache s) (r_upstream s) (r_selection s) (r_stubs s) (r_next_task_id s)
    (r_tasks s) m (r_no_0x20 s) (r_spoof_alert s) (r_budgets s) (r_owner s) (r_ticks s) (r_sends s) (r_log s).
Definition set_no_0x20 (s : Resolver) (x : gset Z) : Resolver :=
  mkResolver (r_config s) (r_hints s) (r_loop s) (r_cache s) (r_upstream s) (r_selection s) (r_stubs s) (r_next_task_id s)
    (r_tasks s) (r_in_flight s) x (r_spoof_alert s) (r_budgets s) (r_owner s) (r_ticks s) (r_sends s) (r_log s).
Definition set_budgets (s : Resolver) (x : list Z) : Resolver :=
  mkResolver (r_config s) (r_hints s) (r_loop s) (r_cache s) (r_upstream s) (r_selection s) (r_stubs s) (r_next_task_id s)
    (r_tasks s) (r_in_flight s) (r_no_0x20 s) (r_spoof_alert s) x (r_owner s) (r_ticks s) (r_sends s) (r_log s).
Definition set_ticks (s : Resolver) (n : nat) : Resolver :=
  mkResolver (r_config s) (r_hints s) (r_loop s) (r_cache s) (r_upstream s) (r_selection s) (r_stubs s) (r_next_task_id s)
    (r_tasks s) (r_in_flight s) (r_no_0x20 s) (r_spoof_alert s) (r_budgets s) (r_owner s) n (r_sends s) (r_log s).
Definition add_log (s : Resolver) (e : Event) : Resolver :=
  mkResolver (r_config s) (r_hints s) (r_loop s) (r_cache s) (r_upstream s) (r_selection s) (r_stubs s) (r_next_task_id s)
    (r_tasks s) (r_in_flight s) (r_no_0x20 s) (r_spoof_alert s) (r_budgets s) (r_owner s) (r_ticks s) (r_sends s) (r_log s ++ [e]).

(** [on_spoof_alert]. *)
Definition on_spoof_alert (s : Resolver) : Resolver :=
  mkResolver (r_config s) (r_hints s) (r_loop s) (r_cache s) (r_upstream s) (r_selection s) (r_stubs s) (r_next_task_id s)
    (r_tasks s) (r_in_flight s) (r_no_0x20 s) true (r_budgets s) (r_owner s) (r_ticks s) (r_sends s) (r_log s).

(** The constructor; [stubs[stub.zone]] collects the servers of a zone listed
    twice. *)
Definition add_stub (m : gmap (list (list Z)) (list Z)) (z : StubZone) : gmap (list (list Z)) (list Z) :=
  <[labels (st_zone z) := default [] (m !! labels (st_zone z)) ++ st_servers z]> m.
Definition new_resolver (cfg : ResolverConfig) (hints : RootHints) (cache : C) (client : U) : Resolver :=
  mkResolver cfg hints new_loop cache client (new_selection (rc_explore_one_in cfg))
    (fold_left add_stub (rc_stub_zones cfg) ∅) 1 ∅ ∅ ∅ false [] ∅ 0 0 [].

(** ** Computations *)

Definition M (A : Type) : Type := Resolver → mem (A * Resolver).
Global Instance M_ret : MRet M := λ A a s, Ok (a, s).
Global Instance M_bind : MBind M := λ A B k m s, match m s with Ok (a, s) => k a s | Err e => Err e | Fault f => Fault f end.

Definition action {A} (f : Resolver → mem (A * Resolver)) : M A := f.
Definition gets {A} (f : Resolver → A) : M A := λ s, Ok (f s, s).
Definition modify (f : Resolver → Resolver) : M unit := λ s, Ok (tt, f s).
Definition crash {A} (f : fault) : M A := λ _, Fault f.
Definition emit (e : Event) : M unit := modify (λ s, add_log s e).

(** The steady clock, [arc4random] for the letter case of the n-th query, and
    what the system calls of the n-th query return; [random] is
    [arc4random_uniform]. *)
Context (clock : nat → Z) (random : nat → Z → Z) (case_bits : nat → nat → Z) (calls : nat → SendCalls).

Definition now : M Z := λ s, Ok (clock (r_ticks s), set_ticks s (S (r_ticks s))).

Definition lookup_cache (name : Name) (type : Z) : M (option CacheEntry) :=
  n ← now;
  action (λ s, '(r, c) ← ac_lookup (r_cache s) (mkKey name type kClassIN) n; Ok (r, set_cache s c)).
Definition insert_cache (zone : Name) (name : Name) (type : Z) (records : list RR) (trust : TrustRank.t) (ttl : Z) (negative : bool) : M unit :=
  let key := mkKey name type kClassIN in
  n ← now;
  _ ← action (λ s, c ← ac_insert (r_cache s) key records trust ttl negative n; Ok (tt, set_cache s c));
  emit (Stored zone key records trust ttl negative).

Definition add_timer (delay_ms : Z) (cb : ResolverTimer) : M Z :=
  n ← now;
  action (λ s, let '(id, l) := EventLoop.add_timer (r_loop s) n (delay_ms * 1000000) cb in Ok (id, set_loop s l)).
Definition cancel_timer (id : Z) : M unit := modify (λ s, set_loop s (EventLoop.cancel_timer (r_loop s) id).2).

(** ** Task lifecycle *)

Definition find (id : Z) : M (option Task) := gets (λ s, r_tasks s !! id).
(** [*find(id)]: the caller knows that the task is there. *)
Definition deref (id : Z) : M Task :=
  t ← find id; match t with Some t => mret t | None => crash Dangling end.
(** Writing through a [Task*]. *)
Definition put (id : Z) (t : Task) : M unit :=
  _ ← deref id; modify (λ s, set_tasks s (r_next_task_id s) (<[id := t]> (r_tasks s))).

Definition queries_of (b : nat) : M Z :=
  q ← gets (λ s, r_budgets s !! b); match q with Some q => mret q | None => crash Dangling end.

Definition spawn (q : Question) (budget : nat) (ancestry : list Question) (done : Callback) : M Z :=
  id ← gets r_next_task_id;
  _ ← modify (λ s, set_tasks s (u64 (id + 1)) (r_tasks s));
  started ← now;
  start_timer ← add_timer 0 (StartOf id);
  let t := mkTask q (q_qname q) [] 0 ancestry no_cut not_sent 0 budget started 0 0 start_timer 0 done false [] in
  _ ← modify (λ s, set_tasks s (r_next_task_id s)
                     (match r_tasks s !! id with Some _ => r_tasks s | None => <[id := t]> (r_tasks s) end));
  mret id.

Definition make_budget : M nat :=
  b ← gets (λ s, length (r_budgets s));
  _ ← modify (λ s, set_budgets s (r_budgets s ++ [0%Z]));
  mret b.

Definition resolve_client (q : Question) (done : Callback) : M unit :=
  found ← gets (λ s, r_in_flight s !! question_id q);
  joined ← match found with Some id => find id | None => mret None end;
  match found, joined with
  | Some id, Some t =>
    asked ← now;
    put id (set_client t (t_deadline t) (t_client t) (t_joiners t ++ [mkWaiter q asked done]))
  | _, _ =>
    b ← make_budget;
    id ← spawn q b [] done;
    _ ← modify (λ s, set_in_flight s (<[question_id q := id]> (r_in_flight s)));
    t ← deref id;
    _ ← put id (set_client t (t_deadline t) true (t_joiners t));
    cfg ← gets r_config;
    deadline ← add_timer (rc_overall_deadline_ms cfg) (DeadlineOf id);
    t ← deref id;
    put id (set_deadline t deadline)
  end.

Definition when (b : bool) (m : M unit) : M unit := if b then m else mret tt.

(** [release], given [cancel]. *)
Definition release (cancel : Z → M unit) (id : Z) (t : Task) : M unit :=
  _ ← when (t_client t) (modify (λ s,
        if decide (r_in_flight s !! question_id (t_question t) = Some id)
        then set_in_flight s (delete (question_id (t_question t)) (r_in_flight s)) else s));
  _ ← when (negb (t_upstream t =? 0)%Z) (modify (λ s, set_service s (us_cancel (r_upstream s) (t_upstream t)) (r_owner s) (r_sends s)));
  _ ← when (negb (t_child t =? 0)%Z) (cancel (t_child t));
  _ ← when (negb (t_start_timer t =? 0)%Z) (cancel_timer (t_start_timer t));
  when (negb (t_deadline t =? 0)%Z) (cancel_timer (t_deadline t)).

Definition erase_task (id : Z) : M unit := modify (λ s, set_tasks s (r_next_task_id s) (delete id (r_tasks s))).

Fixpoint cancel (fuel : nat) (id : Z) : M unit :=
  match fuel with
  | 0 => crash OutOfFuel
  | S fuel =>
    t ← find id;
    match t with
    | None => mret tt
    | Some t => _ ← erase_task id; release (cancel fuel) id t
    end
  end.

(** ** Asking servers, given [finish] *)

Section with_finish.
Context (finish : Z → Outcome → M unit).

Definition send_query (id : Z) (address : Z) (transport : UpstreamTransport) : M unit :=
  t ← deref id;
  cfg ← gets r_config;
  queries ← queries_of (t_budget t);
  if (rc_max_upstream_queries cfg <=? queries)%Z then finish id (inl ResolveError.MaxQueriesExceeded) else
  _ ← modify (λ s, set_budgets s (<[t_budget t := u32 (queries + 1)]> (r_budgets s)));
  let over_tcp := match transport with OverTcp => true | OverUdp => false end in
  let c := t_cut t in
  let t := if over_tcp then t else set_tries t (z_tried c ++ [address]) (z_timed_out c) (z_retry_rounds c) (z_timeouts c) in
  no_0x20 ← gets r_no_0x20;
  let sent_0x20 := rc_use_0x20 cfg && negb over_tcp && negb (bool_decide (address ∈ no_0x20)) in
  n ← gets r_sends;
  let query := mkMessage default_header
    [mkQuestion (if sent_0x20 then randomize_case (case_bits n) (t_qname t) else t_qname t) (q_qtype (t_question t)) kClassIN]
    [] [] [] (Some (mkEdns (rc_edns_buffer cfg) 0 0 false)) in
  let most := rc_max_query_timeout_ms cfg in
  wait ← action (λ s, let '(w, x) := timeout clock (r_selection s) address (rc_query_timeout_ms cfg) in Ok (w, set_selection s x));
  let wait := Z.min (doubled (Z.to_nat (z_timeouts c)) wait most) most in
  sent_at ← now;
  qid ← action (λ s, let '(qid, u) := us_send (r_upstream s) query transport sent_0x20 (calls n) in
                     Ok (qid, set_service s u (<[qid := id]> (r_owner s)) (S n)));
  _ ← emit (Asked id (t_budget t) (z_zone c) address query wait transport sent_0x20);
  put id (set_upstream (set_sent t (mkSent address over_tcp sent_0x20 sent_at)) qid).

(** The glueless [while]: the next name server to look up, if any, and the
    names left. *)
Fixpoint next_glueless (cfg : ResolverConfig) (t : Task) (unresolved : list Name) : option Question * list Name :=
  match unresolved with
  | [] => (None, [])
  | name :: rest =>
    if (z_glueless_lookups (t_cut t) <? rc_max_glueless_ns cfg)%Z then
      let q := mkQuestion name kTypeA kClassIN in
      if would_cycle t q || bool_decide (kMaxSubqueryDepth ≤ length (t_ancestry t)) then next_glueless cfg t rest
      else (Some q, rest)
    else (None, unresolved)
  end.

(** [next_server]; it calls itself once per retry round. *)
Fixpoint next_server (fuel : nat) (id : Z) : M unit :=
  match fuel with
  | 0 => crash OutOfFuel
  | S fuel =>
    t ← find id;
    match t with
    | None => mret tt
    | Some t =>
      let c := t_cut t in
      match filter (λ x, x ∉ z_tried c) (z_servers c) with
      | a :: rest =>
        address ← action (λ s, '(x, y) ← pick clock random (r_selection s) (a :: rest); Ok (x, set_selection s y));
        send_query id address OverUdp
      | [] =>
        cfg ← gets r_config;
        match next_glueless cfg t (z_unresolved c) with
        | (Some q, rest) =>
          let t := set_unresolved t rest (u8 (z_glueless_lookups c + 1)) in
          _ ← put id t;
          child ← spawn q (t_budget t) (t_ancestry t ++ [mkQuestion (t_qname t) (q_qtype (t_question t)) kClassIN]) (ChildOf id);
          put id (set_child t child)
        | (None, rest) =>
          let t := set_unresolved t rest (z_glueless_lookups c) in
          _ ← put id t;
          if negb (bool_decide (z_timed_out c = [])) && (z_retry_rounds c <? kMaxRetryRounds)%Z then
            _ ← put id (set_tries t (filter (λ x, x ∉ z_timed_out c) (z_tried c)) [] (u8 (z_retry_rounds c + 1)) (z_timeouts c));
            next_server fuel id
          else finish id (inl ResolveError.AllServersFailed)
        end
      end
    end
  end.

Definition kServerFuel : nat := 4.

Definition on_child_done (parent : Z) (child : Outcome) : M unit :=
  t ← find parent;
  match t with
  | None => mret tt
  | Some t =>
    let t := set_child t 0 in
    let t := match child with inr r => add_servers t (ipv4_addresses (m_answers (rs_response r))) | inl _ => t end in
    _ ← put parent t;
    next_server kServerFuel parent
  end.

Definition call_back (done : Callback) (result : Outcome) : M unit :=
  match done with
  | ClientDone k q => emit (Called k q result)
  | PrimeDone k =>
    emit (Primed k match result with
                   | inl e => Some e
                   | inr r => match m_answers (rs_response r) with [] => Some ResolveError.ServFail | _ => None end
                   end)
  | ChildOf parent => on_child_done parent result
  end.

Fixpoint call_joiners (joiners : list (Callback * Outcome)) : M unit :=
  match joiners with
  | [] => mret tt
  | (done, result) :: rest => _ ← call_back done result; call_joiners rest
  end.
End with_finish.

Definition kTaskFuel : nat := 6.

Fixpoint finish_from (fuel : nat) (id : Z) (result : Outcome) : M unit :=
  match fuel with
  | 0 => crash OutOfFuel
  | S fuel =>
    t ← find id;
    match t with
    | None => mret tt
    | Some t =>
      _ ← erase_task id;
      _ ← release (cancel kTaskFuel) id t;
      n ← now;
      result ← match result with
               | inl e => mret (inl e)
               | inr r =>
                 used ← queries_of (t_budget t);
                 mret (inr (mkResult (rs_response r) used (elapsed_us (t_started t) n) (rs_coalesced r)))
               end : M Outcome;
      let joiners := map (λ w, (w_done w, join_outcome result w n)) (t_joiners t) in
      _ ← call_back (finish_from fuel) (t_done t) result;
      call_joiners (finish_from fuel) joiners
    end
  end.

Definition finish : Z → Outcome → M unit := finish_from kTaskFuel.

(** ** Resolution steps *)

(** Whether the CNAME may be followed, and the task. *)
Definition follow_cname (cfg : ResolverConfig) (t : Task) (cname : RR) : bool * Task :=
  match rr_rdata cname with
  | RDataCNAME target =>
    let hops := u8 (t_cname_hops t + 1) in
    if (rc_max_cname_chain cfg <? hops)%Z then (false, set_target t (t_qname t) (t_chain t) hops)
    else (true, set_target t target (t_chain t ++ [cname]) hops)
  | _ => (false, t)
  end.

(** The body of the [for] of [enter_zone]. *)
Fixpoint add_name_servers (t : Task) (ns_records glue : list RR) : M Task :=
  match ns_records with
  | [] => mret t
  | rr :: rest =>
    match rr_rdata rr with
    | RDataNS nsdname =>
      let fresh := ipv4_addresses (collect glue nsdname kTypeA) in
      addresses ← match fresh with
                  | [] =>
                    cached ← lookup_cache nsdname kTypeA;
                    mret match cached with
                         | Some e => if ce_is_negative e then [] else ipv4_addresses (ce_records e)
                         | None => []
                         end
                  | _ => mret fresh
                  end;
      let t := match addresses with [] => set_unresolved t (z_unresolved (t_cut t) ++ [nsdname]) (z_glueless_lookups (t_cut t)) | _ => t end in
      add_name_servers (add_servers t addresses) rest glue
    | _ => add_name_servers t rest glue
    end
  end.

Definition enter_zone (t : Task) (zone : Name) (ns_records glue : list RR) : M Task :=
  t ← add_name_servers (reset_zone t zone) ns_records glue;
  if decide (label_count (z_zone (t_cut t)) = 0) then
    hints ← gets r_hints;
    mret (add_servers t (ipv4_addresses (rh_addresses hints)))
  else mret t.

(** The [for] of [start_at_closest_zone]: from [z] up to the root. *)
Fixpoint closest_zone (fuel : nat) (t : Task) (z : Name) : M Task :=
  match fuel with
  | 0 => crash OutOfFuel
  | S fuel =>
    stub ← gets (λ s, r_stubs s !! labels z);
    match stub with
    | Some servers => mret (add_servers (reset_zone t z) servers)
    | None =>
      ns ← lookup_cache z kTypeNS;
      match ns with
      | Some (mkEntry (rr :: rrs) _ _ _ _ false) => enter_zone t z (rr :: rrs) []
      | _ =>
        if decide (label_count z = 0) then
          hints ← gets r_hints;
          enter_zone t root_name (rh_ns hints) []
        else closest_zone fuel t (parent z)
      end
    end
  end.
Definition start_at_closest_zone (t : Task) : M Task := closest_zone (S (label_count (t_qname t))) t (t_qname t).

(** The [while (true)] of [step]: [false] once the task has finished. *)
Fixpoint step_cached (fuel : nat) (id : Z) : M bool :=
  match fuel with
  | 0 => crash OutOfFuel
  | S fuel =>
    t ← deref id;
    let qtype := q_qtype (t_question t) in
    nx ← lookup_cache (t_qname t) kNxdomainType;
    match nx with
    | Some e => _ ← finish id (task_outcome t RCode.NXDomain [] (ce_records e)); mret false
    | None =>
      hit ← lookup_cache (t_qname t) qtype;
      let answer := match hit with
        | Some e =>
          if ce_is_negative e then Some (task_outcome t RCode.NoError [] (ce_records e))
          else if decide (ce_trust e = TrustRank.Answer) then Some (task_outcome t RCode.NoError (ce_records e) []) else None
        | None => None
        end in
      match answer with
      | Some o => _ ← finish id o; mret false
      | None =>
        if (qtype =? kTypeCNAME)%Z then mret true else
        cname ← lookup_cache (t_qname t) kTypeCNAME;
        match cname with
        | Some (mkEntry (rr :: _) TrustRank.Answer _ _ _ false) =>
          cfg ← gets r_config;
          let '(ok, t) := follow_cname cfg t rr in
          _ ← put id t;
          if ok then step_cached fuel id
          else _ ← finish id (inl ResolveError.MaxCnameChainExceeded); mret false
        | _ => mret true
        end
      end
    end
  end.

(** A hop counter is a [uint8_t], so a loop that ends at all follows at most
    255 CNAMEs. *)
Definition kChainFuel : nat := 257.

Definition step (id : Z) : M unit :=
  t ← find id;
  match t with
  | None => mret tt
  | Some t =>
    if negb (q_qclass (t_question t) =? kClassIN)%Z then finish id (inl ResolveError.ServFail) else
    go ← step_cached kChainFuel id;
    if go : bool then
      t ← deref id;
      t ← start_at_closest_zone t;
      _ ← put id t;
      next_server finish kServerFuel id
    else mret tt
  end.

(** ** Responses *)

Definition rate (t : Task) (usable : bool) (rtt : Z) : M unit :=
  modify (λ s, set_selection s
    (if usable then record_answer clock (r_selection s) (n_asked (t_sent t)) (if n_over_tcp (t_sent t) then None else Some rtt)
     else record_unusable clock (r_selection s) (n_asked (t_sent t)))).

Fixpoint cache_glue (zone : Name) (additional ns_records : list RR) : M unit :=
  match ns_records with
  | [] => mret tt
  | ns :: rest =>
    match rr_rdata ns with
    | RDataNS nsdname =>
      let glue := collect additional nsdname kTypeA in
      _ ← when (negb (bool_decide (glue = []))) (insert_cache zone nsdname kTypeA glue TrustRank.Glue (min_ttl glue) false);
      cache_glue zone additional rest
    | _ => cache_glue zone additional rest
    end
  end.

(** The [while (true)] over the answer section: nothing if the task has
    finished, else whether a CNAME was followed. *)
Fixpoint follow_answers (fuel : nat) (id : Z) (response : Message) (rank : TrustRank.t) (followed : bool) : M (option bool) :=
  match fuel with
  | 0 => crash OutOfFuel
  | S fuel =>
    t ← deref id;
    let qtype := q_qtype (t_question t) in
    let zone := z_zone (t_cut t) in
    match collect (m_answers response) (t_qname t) qtype with
    | rr :: rrs =>
      let rrset := rr :: rrs in
      _ ← insert_cache zone (t_qname t) qtype rrset rank (min_ttl rrset) false;
      _ ← when (qtype =? kTypeNS)%Z (cache_glue zone (m_additional response) rrset);
      _ ← finish id (task_outcome t RCode.NoError rrset []);
      mret None
    | [] =>
      if (qtype =? kTypeCNAME)%Z then mret (Some followed) else
      match collect (m_answers response) (t_qname t) kTypeCNAME with
      | [] => mret (Some followed)
      | cname :: _ =>
        _ ← insert_cache zone (t_qname t) kTypeCNAME [cname] rank (rr_ttl cname) false;
        cfg ← gets r_config;
        let '(ok, t) := follow_cname cfg t cname in
        _ ← put id t;
        if ok then follow_answers fuel id response rank true
        else _ ← finish id (inl ResolveError.MaxCnameChainExceeded); mret None
      end
    end
  end.

(** The rest of [handle_response]: NXDOMAIN, referral, NODATA or lame. *)
Definition without_answer (id : Z) (t : Task) (response : Message) (soa : option RR) (ns : list RR) (downward : bool) : M unit :=
  let rcode := h_rcode (m_header response) in
  let zone := z_zone (t_cut t) in
  let proof := match soa with Some rr => [rr] | None => [] end in
  let keep_proof type := match soa with
    | Some rr => insert_cache zone (t_qname t) type proof TrustRank.Authority (negative_ttl rr) true
    | None => mret tt
    end in
  if (rcode =? RCode.NXDomain)%Z then
    _ ← keep_proof kNxdomainType;
    finish id (task_outcome t RCode.NXDomain [] proof)
  else match ns with
  | first :: _ =>
    if negb downward then next_server finish kServerFuel id else
    cfg ← gets r_config;
    let t := set_referrals t (u16 (t_referrals t + 1)) in
    _ ← put id t;
    if (rc_max_referral_depth cfg <? t_referrals t)%Z then finish id (inl ResolveError.MaxDepthExceeded) else
    let child := rr_name first in
    _ ← insert_cache zone child kTypeNS ns TrustRank.Authority (min_ttl ns) false;
    _ ← cache_glue zone (m_additional response) ns;
    t ← enter_zone t child ns (m_additional response);
    _ ← put id t;
    next_server finish kServerFuel id
  | [] =>
    if h_aa (m_header response) || bool_decide (is_Some soa) then
      _ ← keep_proof (q_qtype (t_question t));
      finish id (task_outcome t RCode.NoError [] proof)
    else next_server finish kServerFuel id
  end.

Definition handle_response (id : Z) (response : Message) (rtt : Z) : M unit :=
  t ← deref id;
  let rcode := h_rcode (m_header response) in
  let response := if n_sent_0x20 (t_sent t) then restore_case response (t_qname t) else response in
  if h_tc (m_header response) then
    _ ← rate t (negb (n_over_tcp (t_sent t))) rtt;
    if n_over_tcp (t_sent t) then next_server finish kServerFuel id
    else send_query finish id (n_asked (t_sent t)) OverTcp
  else if negb (rcode =? RCode.NoError)%Z && negb (rcode =? RCode.NXDomain)%Z then
    _ ← rate t false rtt;
    next_server finish kServerFuel id
  else
  let zone := z_zone (t_cut t) in
  let response := (filter_to_bailiwick response zone).2 in
  let qtype := q_qtype (t_question t) in
  let aa := h_aa (m_header response) in
  let answer_rank := if aa then TrustRank.Answer else TrustRank.Authority in
  let answered := negb (bool_decide (collect (m_answers response) (t_qname t) qtype = [])) ||
    (negb (qtype =? kTypeCNAME)%Z && negb (bool_decide (collect (m_answers response) (t_qname t) kTypeCNAME = []))) in
  let soa := find_soa (m_authority response) (t_qname t) in
  let ns := if aa then [] else referral_ns (m_authority response) in
  let downward := match ns with
    | first :: _ => bool_decide (label_count zone < label_count (rr_name first)) && is_subdomain_of (t_qname t) (rr_name first)
    | [] => false
    end in
  _ ← rate t (answered || (rcode =? RCode.NXDomain)%Z ||
              match ns with [] => aa || bool_decide (is_Some soa) | _ => downward end) rtt;
  followed ← follow_answers kChainFuel id response answer_rank false;
  match followed with
  | None => mret tt
  | Some true => step id
  | Some false => without_answer id t response soa ns downward
  end.

Definition on_response (id : Z) (response : UpstreamError + Message) : M unit :=
  t ← find id;
  match t with
  | None => mret tt
  | Some t =>
    let t := set_upstream t 0 in
    _ ← put id t;
    n ← now;
    let rtt := Z.quot (n - n_sent_at (t_sent t)) 1000 in
    let asked := n_asked (t_sent t) in
    let c := t_cut t in
    match response with
    | inl SpoofSuspected =>
      alert ← gets r_spoof_alert;
      cfg ← gets r_config;
      _ ← when alert (emit (Alerted (mkAlert (mkQuestion (t_qname t) (q_qtype (t_question t)) kClassIN) asked
                                      (rc_spoof_tcp_threshold cfg))));
      send_query finish id asked OverTcp
    | inl CaseMismatch =>
      _ ← modify (λ s, set_no_0x20 s ({[asked]} ∪ r_no_0x20 s));
      _ ← put id (set_tries t (filter (λ x, x ≠ asked) (z_tried c)) (z_timed_out c) (z_retry_rounds c) (z_timeouts c));
      send_query finish id asked OverUdp
    | inl e =>
      _ ← modify (λ s, set_selection s (record_failure clock (r_selection s) asked));
      _ ← match e with
          | Timeout => put id (set_tries t (z_tried c) (z_timed_out c ++ [asked]) (z_retry_rounds c) (u32 (z_timeouts c + 1)))
          | _ => mret tt
          end;
      next_server finish kServerFuel id
    | inr m => handle_response id m rtt
    end
  end.

(** ** The public operations and the loop's callbacks *)

Definition prime (k : nat) : M unit := resolve_client (mkQuestion root_name kTypeNS kClassIN) (PrimeDone k).

Definition on_timer (cb : ResolverTimer) : M unit :=
  match cb with
  | StartOf id =>
    t ← find id;
    match t with
    | None => mret tt
    | Some t => _ ← put id (set_start_timer t 0); step id
    end
  | DeadlineOf id =>
    t ← find id;
    match t with
    | None => mret tt
    | Some t => _ ← put id (set_deadline t 0); finish id (inl ResolveError.Timeout)
    end
  end.

Inductive Op :=
| Resolve (q : Question) (k : nat)
| PrimeRoot (k : nat)
| TimersDue (at_time newest : Z)
| UpstreamCalls (ev : UpstreamEvent).

(** One operation: a call of the resolver, one turn of the loop's
    [run_due_timers], or an event of an upstream query. *)
Definition exec (op : Op) : M unit :=
  match op with
  | Resolve q k => resolve_client q (ClientDone k q)
  | PrimeRoot k => prime k
  | TimersDue at_time newest =>
    due ← gets (λ s, pop_due (r_loop s) at_time newest);
    match due with
    | None => mret tt
    | Some (_, cb, l) => _ ← modify (λ s, set_loop s l); on_timer cb
    end
  | UpstreamCalls ev =>
    reply ← action (λ s, let '(r, u) := us_event (r_upstream s) ev in Ok (r, set_service s u (r_owner s) (r_sends s)));
    match reply with
    | None => mret tt
    | Some (qid, result) =>
      owner ← gets (λ s, r_owner s !! qid);
      match owner with Some id => on_response id result | None => crash Dangling end
    end
  end.

(** The destructor: the loop keeps no timer of a task. *)
Definition destroy (s : Resolver) : EventLoop unit ResolverTimer :=
  fold_left (λ l kv,
    let l := if (t_start_timer kv.2 =? 0)%Z then l else (EventLoop.cancel_timer l (t_start_timer kv.2)).2 in
    if (t_deadline kv.2 =? 0)%Z then l else (EventLoop.cancel_timer l (t_deadline kv.2)).2)
    (map_to_list (r_tasks s)) (r_loop s).
End resolver.
Arguments Resolver : clear implicits.
