(* ===== verification/ResolverLinks.v ===== *)
(** * How tasks, timers and upstream queries point at each other

    The part of the resolver's invariant that is about pointers: every task
    that is not running waits for exactly one thing (its start timer, an
    upstream query or a sub-query), that thing exists and will resume this
    task and no other; every client task has its deadline timer and its entry
    in the in-flight table; parents and children point at each other; no timer
    and no upstream query is left behind by a task that is gone.  The
    transitions below are the ways the resolver changes that structure. *)

From stdpp Require Import base tactics numbers list gmap fin_maps.
From Stdlib Require Import ZArith Lia.
From S2P Require Import Prelude Names Types Cache EventLoop Resolver.

(** The structural members of a task. *)
Record Link := mkLink {
  l_question : Question; l_depth : nat; l_budget : nat; l_upstream : Z; l_child : Z; l_start : Z; l_deadline : Z;
  l_done : Callback; l_client : bool; l_joiners : list Waiter;
}.

Definition link_of (t : Task) : Link :=
  mkLink (t_question t) (length (t_ancestry t)) (t_budget t) (t_upstream t) (t_child t) (t_start_timer t) (t_deadline t)
    (t_done t) (t_client t) (t_joiners t).

Definition with_waits (k : Link) (upstream child start : Z) : Link :=
  mkLink (l_question k) (l_depth k) (l_budget k) upstream child start (l_deadline k) (l_done k) (l_client k) (l_joiners k).
Definition with_joiners (k : Link) (js : list Waiter) : Link :=
  mkLink (l_question k) (l_depth k) (l_budget k) (l_upstream k) (l_child k) (l_start k) (l_deadline k) (l_done k) (l_client k) js.

Definition is_child (cb : Callback) : bool := match cb with ChildOf _ => true | _ => false end.

Definition idle (k : Link) : Prop := l_upstream k = 0%Z ∧ l_child k = 0%Z ∧ l_start k = 0%Z.
Definition waits_once (k : Link) : Prop :=
  (l_upstream k ≠ 0%Z ∧ l_child k = 0%Z ∧ l_start k = 0%Z) ∨ (l_upstream k = 0%Z ∧ l_child k ≠ 0%Z ∧ l_start k = 0%Z) ∨
  (l_upstream k = 0%Z ∧ l_child k = 0%Z ∧ l_start k ≠ 0%Z).

(** A caller's callback carries the question it was registered with. *)
Definition asks (cb : Callback) (q : Question) : Prop :=
  match cb with
  | ClientDone _ q' => q' = q
  | PrimeDone _ => q = mkQuestion root_name kTypeNS kClassIN
  | ChildOf _ => False
  end.

(** [foc] is the task that is running, if any; [orph] a task whose parent has
    just been removed. *)
Record linked_up (foc orph : option Z) (L : gmap Z Link) (next : Z) (fl : gmap key_id Z) (tm : gmap Z ResolverTimer)
    (w : gset Z) (ow : gmap Z Z) : Prop := {
  lu_range : ∀ id k, L !! id = Some k → (1 ≤ id < next)%Z;
  lu_wait : ∀ id k, L !! id = Some k → if decide (foc = Some id) then idle k else waits_once k;
  lu_start : ∀ id k, L !! id = Some k → l_start k ≠ 0%Z → tm !! l_start k = Some (StartOf id);
  lu_deadline : ∀ id k, L !! id = Some k →
    if l_client k then l_deadline k ≠ 0%Z ∧ tm !! l_deadline k = Some (DeadlineOf id) else l_deadline k = 0%Z;
  lu_timers : ∀ x cb, tm !! x = Some cb → x ≠ 0%Z ∧
    match cb with
    | StartOf id => ∃ k, L !! id = Some k ∧ l_start k = x
    | DeadlineOf id => ∃ k, L !! id = Some k ∧ l_deadline k = x
    end;
  lu_upstream : ∀ id k, L !! id = Some k → l_upstream k ≠ 0%Z → l_upstream k ∈ w ∧ ow !! l_upstream k = Some id;
  lu_queries : ∀ q, q ∈ w → q ≠ 0%Z ∧ ∃ id k, ow !! q = Some id ∧ L !! id = Some k ∧ l_upstream k = q;
  lu_child : ∀ id k, L !! id = Some k → l_child k ≠ 0%Z →
    ∃ k', L !! l_child k = Some k' ∧ l_done k' = ChildOf id ∧ l_depth k' = S (l_depth k) ∧ l_budget k' = l_budget k;
  lu_parent : ∀ c k p, L !! c = Some k → l_done k = ChildOf p → orph ≠ Some c → ∃ kp, L !! p = Some kp ∧ l_child kp = c;
  lu_client : ∀ id k, L !! id = Some k → l_client k = negb (is_child (l_done k));
  lu_joiners : ∀ id k, L !! id = Some k → if l_client k then asks (l_done k) (l_question k) else l_joiners k = [];
  lu_joined : ∀ id k w, L !! id = Some k → w ∈ l_joiners k →
    asks (w_done w) (w_question w) ∧ question_id (w_question w) = question_id (l_question k);
  lu_registered : ∀ id k, L !! id = Some k → l_client k = true → fl !! question_id (l_question k) = Some id;
  lu_flight : ∀ qi id, fl !! qi = Some id → ∃ k, L !! id = Some k ∧ l_client k = true ∧ question_id (l_question k) = qi;
  lu_depth : ∀ id k, L !! id = Some k → l_depth k ≤ kMaxSubqueryDepth;
  lu_orphan : ∀ c i k, orph = Some c → L !! i = Some k → l_child k ≠ c;
}.

Ltac lookups :=
  repeat match goal with
  | H : <[_ := _]> _ !! _ = Some _ |- _ => apply lookup_insert_Some in H as [[<- <-]|[? H]]
  | H : delete _ _ !! _ = Some _ |- _ => apply lookup_delete_Some in H as [? H]
  end.

Section links.
Context (L : gmap Z Link) (next : Z) (fl : gmap key_id Z) (tm : gmap Z ResolverTimer) (w : gset Z) (ow : gmap Z Z).

(** A task changes what it waits for: its start timer and its upstream query
    are replaced by [st] and [u], everything else stays. *)
Lemma links_rewait foc foc' id k u st tm' w' ow' :
  let k' := with_waits k u (l_child k) st in
  linked_up foc None L next fl tm w ow → L !! id = Some k →
  (∀ i, i ≠ id → foc = Some i ↔ foc' = Some i) →
  (if decide (foc' = Some id) then idle k' else waits_once k') →
  (∀ x cb, tm' !! x = Some cb ↔ tm !! x = Some cb ∧ cb ≠ StartOf id ∨ cb = StartOf id ∧ x = st ∧ st ≠ 0%Z) →
  (∀ q, q ∈ w' ↔ q ∈ w ∧ q ≠ l_upstream k ∨ q = u ∧ u ≠ 0%Z) →
  (u ≠ 0%Z → ow' !! u = Some id) → (∀ q, q ∈ w → q ≠ l_upstream k → ow' !! q = ow !! q) →
  linked_up foc' None (<[id := k']> L) next fl tm' w' ow'.
Proof.
  intros k' [Hr Hw Hs Hd Ht Hu Hq Hc Hp Hcl Hj Hjj Hreg Hf Hdep Horp] Hk Hfoc Hwait Htm Hws Hou Hoq.
  assert (Hold : ∀ i x, <[id := k']> L !! i = Some x → ∃ y, L !! i = Some y ∧ l_question x = l_question y ∧ l_depth x = l_depth y ∧
    l_budget x = l_budget y ∧ l_child x = l_child y ∧ l_deadline x = l_deadline y ∧ l_done x = l_done y ∧
    l_client x = l_client y ∧ l_joiners x = l_joiners y).
  { intros i x Hi. lookups; eauto 10. }
  assert (Hnew : ∀ i y, L !! i = Some y → ∃ x, <[id := k']> L !! i = Some x ∧ l_question x = l_question y ∧ l_depth x = l_depth y ∧
    l_budget x = l_budget y ∧ l_child x = l_child y ∧ l_deadline x = l_deadline y ∧ l_done x = l_done y ∧
    l_client x = l_client y ∧ l_joiners x = l_joiners y ∧ (i ≠ id → x = y) ∧ (i = id → x = k')).
  { intros i y Hi. destruct (decide (i = id)) as [-> |]; [exists k'; rewrite lookup_insert_eq; by simplify_eq|].
    exists y. by rewrite lookup_insert_ne. }
  split.
  - intros i x (y & Hi & _)%Hold. eauto.
  - intros i x Hi. lookups; [done|]. specialize (Hw i x Hi).
    assert (foc = Some i ↔ foc' = Some i) by (apply Hfoc; congruence). repeat case_decide; tauto.
  - intros i x Hi Hx. apply Htm. lookups; [by right|]. left. split; [by eauto|congruence].
  - intros i x (y & Hi & _ & _ & _ & _ & -> & _ & -> & _)%Hold. specialize (Hd i y Hi). destruct (l_client y); [|done].
    destruct Hd as [? Hd]. split; [done|]. apply Htm. by left.
  - intros x cb [[Hx Hne]|(-> & -> & ?)]%Htm.
    + destruct (Ht x cb Hx) as [? Hcb]. split; [done|]. destruct cb as [i|i]; destruct Hcb as (y & Hy & <-);
        destruct (Hnew i y Hy) as (z & Hz & _ & _ & _ & _ & Ed & _ & _ & _ & Ez & _); exists z; (split; [done|]); [|done].
      rewrite Ez by congruence. done.
    + split; [done|]. eexists. by rewrite lookup_insert_eq.
  - intros i x Hi Hx. rewrite Hws. lookups; [split; [by right|by apply Hou]|].
    destruct (Hu i x Hi Hx) as [? Ho]. assert (l_upstream x ≠ l_upstream k).
    { intros E. destruct (decide (l_upstream k = 0%Z)); [congruence|]. destruct (Hu id k Hk) as [_ Ho']; [done|]. congruence. }
    split; [by left|]. by rewrite Hoq.
  - intros q [[Hqw Hne]|[-> ?]]%Hws.
    + destruct (Hq q Hqw) as (? & i & y & Ho & Hi & Eq). split; [done|]. exists i, y. rewrite Hoq by done.
      rewrite lookup_insert_ne; [done|]. intros ->. congruence.
    + split; [done|]. eexists id, _. rewrite lookup_insert_eq, Hou by done. done.
  - intros i x (y & Hi & _ & Ed & Eb & -> & _)%Hold Hx. destruct (Hc i y Hi Hx) as (z & Hz & E1 & E2 & E3).
    destruct (Hnew _ z Hz) as (x' & Hx' & _ & E4 & E5 & _ & _ & E6 & _). exists x'. split_and!; congruence.
  - intros c x p (y & Hi & _ & _ & _ & _ & _ & -> & _)%Hold Hdx _. destruct (Hp c y p Hi Hdx) as (z & Hz & <-); [done|].
    destruct (Hnew p z Hz) as (x' & Hx' & _ & _ & _ & E & _). eauto.
  - intros i x (y & Hi & _ & _ & _ & _ & _ & -> & -> & _)%Hold. eauto.
  - intros i x (y & Hi & -> & _ & _ & _ & _ & -> & -> & ->)%Hold. exact (Hj i y Hi).
  - intros i x wt (y & Hi & -> & _ & _ & _ & _ & _ & _ & ->)%Hold. eauto.
  - intros i x (y & Hi & -> & _ & _ & _ & _ & _ & -> & _)%Hold. eauto.
  - intros qi i (y & Hi & ? & ?)%Hf. destruct (Hnew i y Hi) as (x & Hx & E & _ & _ & _ & _ & _ & E' & _). exists x.
    split_and!; congruence.
  - intros i x (y & Hi & _ & -> & _)%Hold. eauto.
  - done.
Qed.

(** A running task sends an upstream query. *)
Lemma links_send id k q :
  linked_up (Some id) None L next fl tm w ow → L !! id = Some k → q ≠ 0%Z → q ∉ w →
  linked_up None None (<[id := with_waits k q 0 0]> L) next fl tm ({[q]} ∪ w) (<[q := id]> ow).
Proof.
  intros Hlu Hk Hq0 Hqw. pose proof (lu_wait _ _ _ _ _ _ _ _ Hlu id k Hk) as Hidle. rewrite decide_True in Hidle by done.
  destruct Hidle as (Eu & Ec & Es).
  assert (with_waits k q 0 0 = with_waits k q (l_child k) 0) as -> by (by rewrite Ec).
  eapply links_rewait; [done|done|naive_solver| |..].
  - rewrite decide_False by done. by left.
  - intros x cb. split; [intros Hx; left; split; [done|]|naive_solver]. intros ->.
    destruct (lu_timers _ _ _ _ _ _ _ _ Hlu x _ Hx) as (? & k' & ? & <-). congruence.
  - intros q'. rewrite Eu. split; [|set_solver]. intros [->%elem_of_singleton|Hq']%elem_of_union; [by right|].
    left. split; [done|]. by apply (lu_queries _ _ _ _ _ _ _ _ Hlu).
  - intros _. by rewrite lookup_insert_eq.
  - intros q' Hq' _. rewrite lookup_insert_ne; [done|]. by intros <-.
Qed.

(** An upstream query ends: its task runs. *)
Lemma links_reply q :
  linked_up None None L next fl tm w ow → q ∈ w →
  ∃ id k, ow !! q = Some id ∧ L !! id = Some k ∧
    linked_up (Some id) None (<[id := with_waits k 0 (l_child k) (l_start k)]> L) next fl tm (w ∖ {[q]}) ow.
Proof.
  intros Hlu Hq. destruct (lu_queries _ _ _ _ _ _ _ _ Hlu q Hq) as (Hq0 & id & k & Ho & Hk & Eu). exists id, k.
  split_and!; [done|done|]. pose proof (lu_wait _ _ _ _ _ _ _ _ Hlu id k Hk) as Hw. rewrite decide_False in Hw by done.
  destruct Hw as [(_ & Ec & Es)|[(? & _)|(? & _)]]; [|congruence..].
  eapply links_rewait; [done|done|naive_solver| |..].
  - rewrite decide_True by done. done.
  - intros x cb. rewrite Es. split; [intros Hx; left; split; [done|]|naive_solver]. intros ->.
    destruct (lu_timers _ _ _ _ _ _ _ _ Hlu x _ Hx) as (? & k' & ? & <-). congruence.
  - rewrite Eu. set_solver.
  - done.
  - done.
Qed.

(** A task's start timer fires: it runs. *)
Lemma links_start id x :
  linked_up None None L next fl tm w ow → tm !! x = Some (StartOf id) →
  ∃ k, L !! id = Some k ∧
    linked_up (Some id) None (<[id := with_waits k (l_upstream k) (l_child k) 0]> L) next fl (delete x tm) w ow.
Proof.
  intros Hlu Hx. destruct (lu_timers _ _ _ _ _ _ _ _ Hlu x _ Hx) as (Hx0 & k & Hk & Es). exists k. split; [done|].
  pose proof (lu_wait _ _ _ _ _ _ _ _ Hlu id k Hk) as Hw. rewrite decide_False in Hw by done.
  destruct Hw as [(_ & _ & ?)|[(_ & _ & ?)|(Eu & Ec & _)]]; [congruence..|].
  eapply links_rewait; [done|done|naive_solver| |..].
  - rewrite decide_True by done. done.
  - intros y cb. rewrite lookup_delete_Some. split; [|intros [[Hy Hne]|(_ & _ & ?)]; [|done]].
    + intros [Hne Hy]. left. split; [done|]. intros ->. destruct (lu_timers _ _ _ _ _ _ _ _ Hlu y _ Hy) as (_ & k' & ? & ?). congruence.
    + split; [|done]. intros <-. congruence.
  - rewrite Eu. intros q. split; [|naive_solver]. intros Hq. left. split; [done|]. by apply (lu_queries _ _ _ _ _ _ _ _ Hlu).
  - congruence.
  - done.
Qed.

(** A running task looks up a name server: a new task, waiting for its start
    timer [x], whose parent waits for it. *)
Lemma links_spawn p kp q x :
  linked_up (Some p) None L next fl tm w ow → (1 ≤ next)%Z → L !! p = Some kp → l_depth kp < kMaxSubqueryDepth →
  x ≠ 0%Z → tm !! x = None →
  linked_up None None
    (<[p := with_waits kp 0 next 0]> (<[next := mkLink q (S (l_depth kp)) (l_budget kp) 0 0 x 0 (ChildOf p) false []]> L))
    (next + 1) fl (<[x := StartOf next]> tm) w ow.
Proof.
  intros [Hr Hw Hs Hd Ht Hu Hq Hc Hp Hcl Hj Hjj Hreg Hf Hdep Horp] Hn Hk Hlt Hx0 Hx.
  pose proof (Hw p kp Hk) as Hidle. rewrite decide_True in Hidle by done. destruct Hidle as (Eu & Ec & Es).
  pose proof (Hr p kp Hk) as Hrp.
  assert (Hfresh : L !! next = None). { destruct (L !! next) eqn:E; [|done]. apply Hr in E. lia. }
  set (kc := mkLink q _ _ _ _ _ _ _ _ _). set (L' := <[p := _]> _).
  assert (Hpc : L' !! next = Some kc) by (unfold L'; rewrite lookup_insert_ne by lia; by rewrite lookup_insert_eq).
  assert (Hpp : L' !! p = Some (with_waits kp 0 next 0)) by (unfold L'; by rewrite lookup_insert_eq).
  assert (Hoth : ∀ i y, L !! i = Some y → i ≠ p → L' !! i = Some y).
  { intros i y Hi Hne. unfold L'. rewrite lookup_insert_ne by done. rewrite lookup_insert_ne; [done|]. intros <-. congruence. }
  assert (Hcases : ∀ i y, L' !! i = Some y → (i = p ∧ y = with_waits kp 0 next 0) ∨ (i = next ∧ y = kc) ∨ (i ≠ p ∧ i ≠ next ∧ L !! i = Some y)).
  { intros i y Hi. unfold L' in Hi. lookups; [by left|by right; left|by right; right]. }
  assert (Htk : ∀ y cb, tm !! y = Some cb → <[x := StartOf next]> tm !! y = Some cb).
  { intros y cb Hy. rewrite lookup_insert_ne; [done|]. intros <-. congruence. }
  clearbody L'. split.
  - intros i y [[-> _]|[[-> _]|(_ & _ & Hi)]]%Hcases; [lia|lia|]. apply Hr in Hi. lia.
  - intros i y Hi. rewrite decide_False by done. apply Hcases in Hi as [[-> ->]|[[-> ->]|(? & _ & Hi)]].
    + right; left. cbn. split_and!; [done|lia|done].
    + right; right. by cbn.
    + specialize (Hw i y Hi). by rewrite decide_False in Hw by congruence.
  - intros i y [[-> ->]|[[-> ->]|(? & _ & Hi)]]%Hcases Hy; [done|cbn; by rewrite lookup_insert_eq|]. eauto.
  - intros i y [[-> ->]|[[-> ->]|(? & _ & Hi)]]%Hcases; cbn; [|done|].
    + specialize (Hd p kp Hk). destruct (l_client kp); [|done]. naive_solver.
    + specialize (Hd i y Hi). destruct (l_client y); [|done]. naive_solver.
  - intros y cb Hy. lookups; [split; [done|]; by exists kc|]. destruct (Ht y cb Hy) as [? Hcb]. split; [done|].
    destruct cb as [i|i]; destruct Hcb as (z & Hz & <-); (destruct (decide (i = p)) as [-> |]; [|by eauto]); simplify_eq.
    + by eauto.
  - intros i y [[-> ->]|[[-> ->]|(? & _ & Hi)]]%Hcases Hy; [done|done|]. eauto.
  - intros q' Hq'. destruct (Hq q' Hq') as (? & i & y & Ho & Hi & Ey). split; [done|]. exists i, y. split_and!; [done| |done].
    apply Hoth; [done|]. intros ->. congruence.
  - intros i y [[-> ->]|[[-> ->]|(? & _ & Hi)]]%Hcases Hy; [by exists kc|done|]. destruct (Hc i y Hi Hy) as (z & Hz & E1 & E2 & E3).
    destruct (decide (l_child y = p)) as [E|]; [|by eauto 10]. rewrite E in *. simplify_eq. eexists. split; [exact Hpp|done].
  - intros c y p' [[-> ->]|[[-> ->]|(? & _ & Hi)]]%Hcases Hdy _; [|cbn in Hdy; simplify_eq; by eauto|].
    + destruct (Hp p kp p' Hk Hdy) as (z & Hz & Ez); [done|]. exists z. split; [|done]. apply Hoth; [done|]. intros ->. simplify_eq. lia.
    + destruct (Hp c y p' Hi Hdy) as (z & Hz & Ez); [done|]. exists z. split; [|done]. apply Hoth; [done|]. intros ->. simplify_eq.
      pose proof (Hr _ _ Hi). lia.
  - intros i y [[-> ->]|[[-> ->]|(? & _ & Hi)]]%Hcases; [exact (Hcl p kp Hk)|done|eauto].
  - intros i y [[-> ->]|[[-> ->]|(? & _ & Hi)]]%Hcases; [exact (Hj p kp Hk)|done|exact (Hj i y Hi)].
  - intros i y wt [[-> ->]|[[-> ->]|(? & _ & Hi)]]%Hcases Hwt; [exact (Hjj p kp wt Hk Hwt)|by apply elem_of_nil in Hwt|eauto].
  - intros i y [[-> ->]|[[-> ->]|(? & _ & Hi)]]%Hcases Hy; [exact (Hreg p kp Hk Hy)|done|eauto].
  - intros qi i (z & Hz & ? & ?)%Hf. destruct (decide (i = p)) as [-> |]; [|by eauto]. simplify_eq. by eauto.
  - intros i y [[-> ->]|[[-> ->]|(? & _ & Hi)]]%Hcases; [exact (Hdep p kp Hk)|cbn; lia|eauto].
  - done.
Qed.

(** A client asks something new. *)
Lemma links_client q b x y done :
  linked_up None None L next fl tm w ow → (1 ≤ next)%Z → fl !! question_id q = None → asks done q →
  x ≠ 0%Z → y ≠ 0%Z → x ≠ y → tm !! x = None → tm !! y = None →
  linked_up None None (<[next := mkLink q 0 b 0 0 x y done true []]> L) (next + 1) (<[question_id q := next]> fl)
    (<[y := DeadlineOf next]> (<[x := StartOf next]> tm)) w ow.
Proof.
  intros [Hr Hw Hs Hd Ht Hu Hq Hc Hp Hcl Hj Hjj Hreg Hf Hdep Horp] Hn Hqn Hasks Hx0 Hy0 Hxy Hx Hy.
  assert (Hfresh : L !! next = None). { destruct (L !! next) eqn:E; [|done]. apply Hr in E. lia. }
  set (k := mkLink q 0 b 0 0 x y done true []). set (tm' := <[y := _]> _).
  assert (Hold : ∀ i z, L !! i = Some z → <[next := k]> L !! i = Some z).
  { intros i z Hi. rewrite lookup_insert_ne; [done|]. intros <-. congruence. }
  assert (Htk : ∀ z cb, tm !! z = Some cb → tm' !! z = Some cb).
  { intros z cb Hz. unfold tm'. rewrite !lookup_insert_ne; [done|..]; intros <-; congruence. }
  assert (Htx : tm' !! x = Some (StartOf next)) by (unfold tm'; rewrite lookup_insert_ne by done; by rewrite lookup_insert_eq).
  assert (Hty : tm' !! y = Some (DeadlineOf next)) by (unfold tm'; by rewrite lookup_insert_eq).
  split.
  - intros i z Hi. lookups; [lia|]. apply Hr in Hi. lia.
  - intros i z Hi. rewrite decide_False by done. lookups; [by right; right|]. specialize (Hw i z Hi). by rewrite decide_False in Hw by done.
  - intros i z Hi Hz. lookups; [done|]. eauto.
  - intros i z Hi. lookups; [done|]. specialize (Hd i z Hi). destruct (l_client z); [|done]. naive_solver.
  - intros z cb Hz. unfold tm' in Hz. lookups; [split; [done|]; exists k; by rewrite lookup_insert_eq..|].
    destruct (Ht z cb Hz) as [? Hcb]. split; [done|]. destruct cb; destruct Hcb as (kk & ? & ?); eauto.
  - intros i z Hi Hz. lookups; [done|]. eauto.
  - intros q' Hq'. destruct (Hq q' Hq') as (? & i & kk & ? & ? & ?). split; [done|]. exists i, kk. eauto.
  - intros i z Hi Hz. lookups; [done|]. destruct (Hc i z Hi Hz) as (kk & ? & ?). eauto.
  - intros c z p Hi Hz _. lookups; [cbn in Hz; by subst done|]. destruct (Hp c z p Hi Hz) as (kk & ? & ?); [done|]. eauto.
  - intros i z Hi. lookups; [by destruct done|]. eauto.
  - intros i z Hi. lookups; [done|]. exact (Hj i z Hi).
  - intros i z wt Hi Hwt. lookups; [by apply elem_of_nil in Hwt|]. eauto.
  - intros i z Hi Hz. lookups; [by rewrite lookup_insert_eq|]. rewrite lookup_insert_ne; [by eauto|]. intros E.
    rewrite E in Hqn. rewrite (Hreg i z Hi Hz) in Hqn. done.
  - intros qi i Hi. lookups; [exists k; by rewrite lookup_insert_eq|]. destruct (Hf qi i Hi) as (kk & ? & ? & ?). eauto.
  - intros i z Hi. lookups; [cbn; lia|]. eauto.
  - done.
Qed.

(** A client joins a resolution in flight. *)
Lemma links_join id k wt :
  linked_up None None L next fl tm w ow → L !! id = Some k → l_client k = true →
  asks (w_done wt) (w_question wt) → question_id (w_question wt) = question_id (l_question k) →
  linked_up None None (<[id := with_joiners k (l_joiners k ++ [wt])]> L) next fl tm w ow.
Proof.
  intros [Hr Hw Hs Hd Ht Hu Hq Hc Hp Hcl Hj Hjj Hreg Hf Hdep Horp] Hk Hclient Hasks Hqid.
  set (k' := with_joiners k _).
  assert (Hold : ∀ i x, <[id := k']> L !! i = Some x → ∃ y, L !! i = Some y ∧ x = with_joiners y (l_joiners x)).
  { intros i x Hi. lookups; [by exists k|]. exists x. by destruct x. }
  assert (Hnew : ∀ i y, L !! i = Some y → ∃ x, <[id := k']> L !! i = Some x ∧ x = with_joiners y (l_joiners x)).
  { intros i y Hi. destruct (decide (i = id)) as [-> |]; [exists k'; rewrite lookup_insert_eq; by simplify_eq|].
    exists y. rewrite lookup_insert_ne by done. by destruct y. }
  split.
  - intros i x (y & Hi & _)%Hold. eauto.
  - intros i x (y & Hi & ->)%Hold. exact (Hw i y Hi).
  - intros i x (y & Hi & ->)%Hold. exact (Hs i y Hi).
  - intros i x (y & Hi & ->)%Hold. exact (Hd i y Hi).
  - intros x cb Hx. destruct (Ht x cb Hx) as [? Hcb]. split; [done|].
    destruct cb; destruct Hcb as (y & Hy & <-); destruct (Hnew _ y Hy) as (z & Hz & Ez); exists z; (split; [done|by rewrite Ez]).
  - intros i x (y & Hi & ->)%Hold. exact (Hu i y Hi).
  - intros q Hq'. destruct (Hq q Hq') as (? & i & y & ? & Hy & <-). destruct (Hnew _ y Hy) as (z & Hz & Ez). split; [done|].
    exists i, z. split_and!; [done|done|by rewrite Ez].
  - intros i x (y & Hi & ->)%Hold Hx. destruct (Hc i y Hi Hx) as (z & Hz & ? & ? & ?). destruct (Hnew _ z Hz) as (z' & Hz' & Ez).
    exists z'. rewrite Ez. split; [by rewrite <-Ez|done].
  - intros c x p (y & Hi & ->)%Hold Hx Ho. destruct (Hp c y p Hi Hx Ho) as (z & Hz & <-). destruct (Hnew _ z Hz) as (z' & Hz' & Ez).
    exists z'. split; [done|by rewrite Ez].
  - intros i x (y & Hi & ->)%Hold. exact (Hcl i y Hi).
  - intros i x Hi. lookups; [|exact (Hj i x Hi)]. pose proof (Hj id k Hk) as Hjk. cbn. rewrite Hclient in *. done.
  - intros i x wt' Hi Hwt'. lookups; [|by eauto]. cbn in Hwt'. apply elem_of_app in Hwt' as [Hwt'| ->%list_elem_of_singleton]; [|done].
    exact (Hjj id k wt' Hk Hwt').
  - intros i x (y & Hi & ->)%Hold. exact (Hreg i y Hi).
  - intros qi i (y & Hy & ? & ?)%Hf. destruct (Hnew _ y Hy) as (z & Hz & Ez). exists z. rewrite Ez. split; [by rewrite <-Ez|done].
  - intros i x (y & Hi & ->)%Hold. exact (Hdep i y Hi).
  - done.
Qed.

(** A task is removed with what it has in flight; its sub-query, if any, has
    no parent then. *)
Lemma links_drop foc orph id k fl' tm' w' :
  linked_up foc orph L next fl tm w ow → L !! id = Some k → foc = None ∨ foc = Some id →
  orph = Some id ∨ orph = None ∧ is_child (l_done k) = false →
  fl' = (if l_client k then delete (question_id (l_question k)) fl else fl) →
  (∀ x cb, tm' !! x = Some cb ↔ tm !! x = Some cb ∧ x ≠ l_start k ∧ x ≠ l_deadline k) →
  (∀ q, q ∈ w' ↔ q ∈ w ∧ q ≠ l_upstream k) →
  linked_up None (if decide (l_child k = 0%Z) then None else Some (l_child k)) (delete id L) next fl' tm' w' ow.
Proof.
  intros [Hr Hw Hs Hd Ht Hu Hq Hc Hp Hcl Hj Hjj Hreg Hf Hdep Horp] Hk Hfoc Horph -> Htm Hws.
  assert (Hne_start : ∀ i x, L !! i = Some x → i ≠ id → l_start x ≠ 0%Z → l_start x ≠ l_start k ∧ l_start x ≠ l_deadline k).
  { intros i x Hi Hne Hx. pose proof (Hs i x Hi Hx) as E. split; intros E'; rewrite E' in E, Hx.
    - rewrite (Hs id k Hk Hx) in E. congruence.
    - specialize (Hd id k Hk). destruct (l_client k); [|done]. destruct Hd as [_ Hd]. congruence. }
  assert (Hne_dead : ∀ i x, L !! i = Some x → i ≠ id → l_client x = true → l_deadline x ≠ l_start k ∧ l_deadline x ≠ l_deadline k).
  { intros i x Hi Hne Hx. pose proof (Hd i x Hi) as E. rewrite Hx in E. destruct E as [Hx0 E]. split; intros E'; rewrite E' in E, Hx0.
    - rewrite (Hs id k Hk Hx0) in E. congruence.
    - pose proof (Hd id k Hk) as E''. destruct (l_client k); [|done]. destruct E'' as [_ E'']. congruence. }
  split.
  - intros i x Hi. lookups. eauto.
  - intros i x Hi. lookups. specialize (Hw i x Hi). rewrite decide_False by done. rewrite decide_False in Hw; [done|].
    destruct Hfoc as [-> | ->]; congruence.
  - intros i x Hi Hx. lookups. apply Htm. split; [by eauto|]. by apply (Hne_start i).
  - intros i x Hi. lookups. pose proof (Hd i x Hi) as Hdi. destruct (l_client x) eqn:Ex; [|done]. destruct Hdi as [? ?].
    split; [done|]. apply Htm. split; [done|]. by apply (Hne_dead i).
  - intros x cb (Hx & Hn1 & Hn2)%Htm. destruct (Ht x cb Hx) as [? Hcb]. split; [done|].
    destruct cb as [i|i]; destruct Hcb as (y & Hy & Ey); exists y; (split; [|done]); rewrite lookup_delete_ne; try done; intros <-; congruence.
  - intros i x Hi Hx. lookups. destruct (Hu i x Hi Hx) as [? Ho]. split; [|done]. apply Hws. split; [done|]. intros E.
    destruct (Hu id k Hk) as [_ Ho']; congruence.
  - intros q [Hqw Hne]%Hws. destruct (Hq q Hqw) as (? & i & y & ? & Hy & <-). split; [done|]. exists i, y.
    rewrite lookup_delete_ne; [done|]. intros <-. congruence.
  - intros i x Hi Hx. lookups. destruct (Hc i x Hi Hx) as (z & Hz & Hdz & ?). exists z. rewrite lookup_delete_ne; [done|].
    intros E. rewrite <-E in Hz. simplify_eq. destruct Horph as [-> |[-> Hchild]]; [|by rewrite Hdz in Hchild].
    by apply (Horp (l_child x) i x).
  - intros c x p Hi Hx Hne. lookups. destruct (Hp c x p Hi Hx) as (y & Hy & Ey).
    { destruct Horph as [-> |[-> _]]; congruence. }
    exists y. rewrite lookup_delete_ne; [done|]. intros ->. simplify_eq. pose proof (Hr _ _ Hi).
    rewrite decide_False in Hne by lia. congruence.
  - intros i x Hi. lookups. eauto.
  - intros i x Hi. lookups. exact (Hj i x Hi).
  - intros i x wt Hi. lookups. eauto.
  - intros i x Hi Hx. lookups. pose proof (Hreg i x Hi Hx) as E. destruct (l_client k) eqn:Ek; [|done].
    rewrite lookup_delete_ne; [done|]. intros E'. rewrite <-E' in E. rewrite (Hreg id k Hk Ek) in E. congruence.
  - intros qi i Hi. assert (Hi' : fl !! qi = Some i ∧ i ≠ id).
    { destruct (l_client k) eqn:Ek; lookups; (split; [done|]); destruct (Hf qi i Hi) as (y & Hy & Ey & Eq); intros ->; congruence. }
    destruct Hi' as [Hi' Hne]. destruct (Hf qi i Hi') as (y & Hy & ?). exists y. by rewrite lookup_delete_ne.
  - intros i x Hi. lookups. eauto.
  - intros c i x Hcc Hi E. lookups. destruct (decide (l_child k = 0%Z)); simplify_eq.
    destruct (Hc i x Hi) as (z & Hz & Hdz & _); [congruence|]. destruct (Hc id k Hk) as (z' & Hz' & Hdz' & _); [done|]. congruence.
Qed.

(** A sub-query is done: its parent runs. *)
Lemma links_return id k p :
  linked_up (Some id) None L next fl tm w ow → L !! id = Some k → l_done k = ChildOf p →
  ∃ kp, L !! p = Some kp ∧ l_depth k = S (l_depth kp) ∧ p ≠ id ∧
    linked_up (Some p) None (<[p := with_waits kp (l_upstream kp) 0 (l_start kp)]> (delete id L)) next fl tm w ow.
Proof.
  intros [Hr Hw Hs Hd Ht Hu Hq Hc Hp Hcl Hj Hjj Hreg Hf Hdep Horp] Hk Hdone.
  destruct (Hp id k p Hk Hdone) as (kp & Hkp & Ekp); [done|]. exists kp.
  pose proof (Hr id k Hk) as Hrid. pose proof (Hw id k Hk) as Hidle. rewrite decide_True in Hidle by done. destruct Hidle as (Eu & Ec & Es).
  assert (Hpid : p ≠ id). { intros ->. simplify_eq. lia. }
  pose proof (Hw p kp Hkp) as Hwp. rewrite decide_False in Hwp by congruence.
  destruct Hwp as [(_ & ? & _)|[(Pu & _ & Ps)|(_ & ? & _)]]; [lia| |lia].
  destruct (Hc p kp Hkp) as (k0 & Hk0 & _ & Edep & _); [lia|]. assert (k0 = k) as -> by congruence.
  assert (Hnc : l_client k = false) by (rewrite (Hcl id k Hk), Hdone; done).
  assert (Hnd : l_deadline k = 0%Z). { specialize (Hd id k Hk). by rewrite Hnc in Hd. }
  split_and!; [done|done|done|]. set (kp' := with_waits kp _ _ _). set (L' := <[p := kp']> _).
  assert (Hcases : ∀ i y, L' !! i = Some y → (i = p ∧ y = kp') ∨ (i ≠ p ∧ i ≠ id ∧ L !! i = Some y)).
  { intros i y Hi. unfold L' in Hi. lookups; [by left|right]. split_and!; congruence. }
  assert (Hpp : L' !! p = Some kp') by (unfold L'; by rewrite lookup_insert_eq).
  assert (Hoth : ∀ i y, L !! i = Some y → i ≠ p → i ≠ id → L' !! i = Some y).
  { intros i y Hi ? ?. unfold L'. rewrite lookup_insert_ne by done. by rewrite lookup_delete_ne. }
  clearbody L'. split.
  - intros i y [[-> _]|(_ & _ & Hi)]%Hcases; eauto.
  - intros i y [[-> ->]|(Hne & ? & Hi)]%Hcases; [by rewrite decide_True|]. specialize (Hw i y Hi).
    rewrite decide_False by congruence. by rewrite decide_False in Hw by congruence.
  - intros i y [[-> ->]|(_ & _ & Hi)]%Hcases; [exact (Hs p kp Hkp)|eauto].
  - intros i y [[-> ->]|(_ & _ & Hi)]%Hcases; [exact (Hd p kp Hkp)|exact (Hd i y Hi)].
  - intros x cb Hx. destruct (Ht x cb Hx) as [Hx0 Hcb]. split; [done|].
    destruct cb as [i|i]; destruct Hcb as (y & Hy & <-);
      (destruct (decide (i = id)) as [-> |]; [simplify_eq; congruence|]);
      (destruct (decide (i = p)) as [-> |]; [simplify_eq; by eauto|by eauto]).
  - intros i y [[-> ->]|(_ & _ & Hi)]%Hcases; [exact (Hu p kp Hkp)|eauto].
  - intros q Hq'. destruct (Hq q Hq') as (Hq0 & i & y & Ho & Hi & Ey). split; [done|].
    destruct (decide (i = id)) as [-> |]; [simplify_eq; congruence|].
    destruct (decide (i = p)) as [-> |]; [simplify_eq; congruence|]. exists i, y. eauto.
  - intros i y [[-> ->]|(Hne & Hni & Hi)]%Hcases Hy; [done|]. destruct (Hc i y Hi Hy) as (z & Hz & E1 & E2 & E3).
    destruct (decide (l_child y = id)) as [E|]; [rewrite E in Hz; simplify_eq; congruence|].
    destruct (decide (l_child y = p)) as [E|]; [|by eauto 10]. rewrite E in *. simplify_eq. exists kp'. done.
  - intros c y p' [[-> ->]|(Hne & Hni & Hi)]%Hcases Hdy _.
    + destruct (Hp p kp p' Hkp Hdy) as (z & Hz & Ez); [done|].
      destruct (decide (p' = id)) as [-> |]; [simplify_eq; pose proof (Hr _ _ Hkp); lia|].
      destruct (decide (p' = p)) as [-> |]; [simplify_eq; congruence|]. eauto.
    + destruct (Hp c y p' Hi Hdy) as (z & Hz & Ez); [done|].
      destruct (decide (p' = id)) as [-> |]; [simplify_eq; pose proof (Hr _ _ Hi); lia|].
      destruct (decide (p' = p)) as [-> |]; [simplify_eq; congruence|]. eauto.
  - intros i y [[-> ->]|(_ & _ & Hi)]%Hcases; [exact (Hcl p kp Hkp)|eauto].
  - intros i y [[-> ->]|(_ & _ & Hi)]%Hcases; [exact (Hj p kp Hkp)|exact (Hj i y Hi)].
  - intros i y wt [[-> ->]|(_ & _ & Hi)]%Hcases Hwt; [exact (Hjj p kp wt Hkp Hwt)|eauto].
  - intros i y [[-> ->]|(_ & _ & Hi)]%Hcases Hy; [exact (Hreg p kp Hkp Hy)|eauto].
  - intros qi i (z & Hz & Ez & ?)%Hf. destruct (decide (i = id)) as [-> |]; [simplify_eq; congruence|].
    destruct (decide (i = p)) as [-> |]; [simplify_eq; by eauto|by eauto].
  - intros i y [[-> ->]|(_ & _ & Hi)]%Hcases; [exact (Hdep p kp Hkp)|eauto].
  - done.
Qed.
End links.
