(* ===== verification/ResolverInv.v ===== *)
(** * The invariant of the resolver, and how its operations keep it

    [inv] says what holds of every reachable state: the pointer structure of
    [ResolverLinks], the state of each task (CNAME chain, zone, counters), the
    query budgets against the log of queries sent, what is in the cache and in
    the log, and that no caller is forgotten or called twice.  It is kept by
    every function of [Resolver], which also shows that none of them faults. *)

From stdpp Require Import base tactics numbers list gmap fin_maps.
From Stdlib Require Import ZArith Lia.
From S2P Require Import Prelude Names Types Cache Security ServerSelection Upstream EventLoop RootHints Interfaces Resolver ResolverLinks.

(** ** What a state is to satisfy *)

(** The records of an entry that is not negative are owned by its key's name;
    of answer data, the type is right too.  (Referral data is recognised by
    its content, see [referral_ns].) *)
Definition named (k : key_id) (rr : RR) : Prop := labels (rr_name rr) = k.1.1 ∧ rr_cls rr = k.2.
Definition about (k : key_id) (rr : RR) : Prop := named k rr ∧ rr_type rr = k.1.2.
Definition records_about (k : key_id) (records : list RR) (trust : TrustRank.t) : Prop :=
  Forall (named k) records ∧ (trust = TrustRank.Answer → Forall (about k) records).
Definition entry_about (k : key_id) (e : CacheEntry) : Prop := ce_is_negative e = false → records_about k (ce_records e) (ce_trust e).

Lemma entry_about_property : entry_property entry_about.
Proof.
  split; intros k e e'; unfold entry_about, records_about.
  - intros (-> & -> & ->). done.
  - intros ([ttl ->] & -> & ->) He Hn. destruct (He Hn) as [H1 H2].
    split; [|intros Ht; specialize (H2 Ht)]; apply Forall_fmap; (eapply Forall_impl; [eassumption|done]).
Qed.

(** [chain] is a sequence of CNAMEs that leads from [n] to [m]. *)
Fixpoint leads (n : Name) (chain : list RR) (m : Name) : Prop :=
  match chain with
  | [] => labels n = labels m
  | rr :: rest => labels (rr_name rr) = labels n ∧ match rr_rdata rr with RDataCNAME target => leads target rest m | _ => False end
  end.

Lemma leads_snoc chain rr target : ∀ n m, leads n chain m → labels (rr_name rr) = labels m → rr_rdata rr = RDataCNAME target →
  leads n (chain ++ [rr]) target.
Proof.
  induction chain as [|r chain IH]; intros n m; cbn [leads app]; [intros -> -> ->; done|].
  intros [-> H] Hn Hr. split; [done|]. destruct (rr_rdata r); try done. by eapply IH.
Qed.

Lemma leads_labels chain n n' m : labels n = labels n' → leads n chain m → leads n' chain m.
Proof. destruct chain as [|rr chain]; cbn [leads]; intros <-; done. Qed.

(** What a caller may be told about [q]. *)
Definition answer_ok (cfg : ResolverConfig) (q : Question) (o : Outcome) : Prop :=
  match o with
  | inl _ => True
  | inr r =>
    let m := rs_response r in
    m_questions m = [q] ∧ h_qr (m_header m) = true ∧ q_qclass q = kClassIN ∧
    (0 ≤ rs_upstream_queries_used r ≤ rc_max_upstream_queries cfg)%Z ∧
    ∃ chain rest target, m_answers m = chain ++ rest ∧ leads (q_qname q) chain target ∧
      (zlen chain ≤ rc_max_cname_chain cfg)%Z ∧ Forall (about (labels target, q_qtype q, kClassIN)) rest
  end.

Definition event_ok (cfg : ResolverConfig) (e : Event) : Prop :=
  match e with
  | Called _ q o => answer_ok cfg q o
  | Asked _ _ zone _ query wait _ _ =>
    h_rd (m_header query) = false ∧ (wait ≤ rc_max_query_timeout_ms cfg)%Z ∧
    ∃ q, m_questions query = [q] ∧ is_subdomain_of (q_qname q) zone = true ∧ q_qclass q = kClassIN
  | Stored zone key records trust _ negative =>
    k_qclass key = kClassIN ∧ Forall (λ rr, is_subdomain_of (rr_name rr) zone = true) records ∧
    (if negative then trust = TrustRank.Authority ∧ is_subdomain_of (k_name key) zone = true else records_about (canon key) records trust)
  | Primed _ _ | Alerted _ => True
  end.

Record target_ok (cfg : ResolverConfig) (t : Task) : Prop := {
  tg_hops : (0 ≤ t_cname_hops t ≤ rc_max_cname_chain cfg)%Z;
  tg_length : (zlen (t_chain t) ≤ t_cname_hops t)%Z;
  tg_leads : leads (q_qname (t_question t)) (t_chain t) (t_qname t);
}.

Record counters_ok (cfg : ResolverConfig) (t : Task) : Prop := {
  cn_glueless : (0 ≤ z_glueless_lookups (t_cut t) ≤ rc_max_glueless_ns cfg)%Z;
  cn_rounds : (0 ≤ z_retry_rounds (t_cut t) ≤ kMaxRetryRounds)%Z;
  cn_referrals : (0 ≤ t_referrals t ≤ rc_max_referral_depth cfg)%Z;
}.

Definition placed (t : Task) : Prop :=
  q_qclass (t_question t) = kClassIN ∧ is_subdomain_of (t_qname t) (z_zone (t_cut t)) = true.

Record task_ok (cfg : ResolverConfig) (t : Task) : Prop := {
  tk_target : target_ok cfg t;
  tk_counters : counters_ok cfg t;
  tk_placed : t_start_timer t = 0%Z → placed t;
}.

(** The widths of the configuration's members; a CNAME limit of 255 would
    never be reached by the 8-bit hop counter. *)
Record rconfig_ok (cfg : ResolverConfig) : Prop := {
  ro_cname : (0 ≤ rc_max_cname_chain cfg < 255)%Z;
  ro_glueless : (0 ≤ rc_max_glueless_ns cfg < 256)%Z;
  ro_referrals : (0 ≤ rc_max_referral_depth cfg < 65536)%Z;
  ro_queries : (0 ≤ rc_max_upstream_queries cfg < 4294967296)%Z;
}.

(** Callers: those waiting in a task, those called back. *)
Definition token (cb : Callback) : list Callback := match cb with ChildOf _ => [] | _ => [cb] end.
Definition tokens (k : Link) : list Callback := token (l_done k) ++ mjoin (token ∘ w_done <$> l_joiners k).
Definition waiting (L : gmap Z Link) : list Callback := map_to_list L ≫= λ kv, tokens kv.2.
Definition called (log : list Event) : list Callback :=
  log ≫= λ e, match e with Called k q _ => [ClientDone k q] | Primed k _ => [PrimeDone k] | _ => [] end.

Lemma waiting_insert L id k : L !! id = None → waiting (<[id := k]> L) ≡ₚ tokens k ++ waiting L.
Proof. intros Hn. unfold waiting. by rewrite map_to_list_insert. Qed.

Lemma waiting_delete L id k : L !! id = Some k → waiting L ≡ₚ tokens k ++ waiting (delete id L).
Proof. intros Hk. rewrite <-waiting_insert by apply lookup_delete_eq. by rewrite insert_delete_id. Qed.

Lemma waiting_update L id k k' : L !! id = Some k → tokens k' = tokens k → waiting (<[id := k']> L) ≡ₚ waiting L.
Proof.
  intros Hk E. rewrite (waiting_delete (<[id := k']> L) id k') by apply lookup_insert_eq.
  rewrite delete_insert_eq, E. by rewrite <-waiting_delete.
Qed.

Lemma called_app a b : called (a ++ b) = called a ++ called b.
Proof. unfold called. by rewrite bind_app. Qed.

(** Queries sent on a budget. *)
Definition spends (b : nat) (e : Event) : bool := match e with Asked _ b' _ _ _ _ _ _ => bool_decide (b' = b) | _ => false end.
Definition asked (b : nat) (log : list Event) : Z := zlen (filter (λ e, spends b e = true) log).

Lemma asked_snoc b log e : asked b (log ++ [e]) = (asked b log + if spends b e then 1 else 0)%Z.
Proof.
  unfold asked. rewrite filter_app, zlen_app. f_equal. rewrite filter_cons, filter_nil. destruct (spends b e); [by rewrite decide_True|].
  by rewrite decide_False.
Qed.

(** Queries sent in all: bounded by the budgets. *)
Definition is_asked (e : Event) : bool := match e with Asked _ _ _ _ _ _ _ _ => true | _ => false end.
Definition asked_total (log : list Event) : Z := zlen (filter (λ e, is_asked e = true) log).

Lemma asked_cons b e log : asked b (e :: log) = ((if spends b e then 1 else 0) + asked b log)%Z.
Proof.
  unfold asked. rewrite filter_cons. destruct (spends b e); [rewrite decide_True, zlen_cons by done|rewrite decide_False by done]; lia.
Qed.

Lemma asked_total_cons e log : asked_total (e :: log) = ((if is_asked e then 1 else 0) + asked_total log)%Z.
Proof.
  unfold asked_total. rewrite filter_cons. destruct (is_asked e); [rewrite decide_True, zlen_cons by done|rewrite decide_False by done]; lia.
Qed.

Lemma asked_nonneg b log : (0 ≤ asked b log)%Z.
Proof. unfold asked, zlen. lia. Qed.

(** Taking the queries of one budget out. *)
Lemma asked_without b log : ∃ log', asked_total log = (asked b log + asked_total log')%Z ∧ asked b log' = 0%Z ∧
  ∀ b', b' ≠ b → asked b' log' = asked b' log.
Proof.
  induction log as [|e log (log' & E1 & E2 & E3)]; [by exists []|]. destruct (spends b e) eqn:Es.
  - exists log'. rewrite asked_cons, asked_total_cons, Es. destruct e; try done. cbn in Es |- *. apply bool_decide_eq_true in Es as ->.
    split_and!; [lia|done|]. intros b' Hb. rewrite asked_cons. cbn. rewrite bool_decide_eq_false_2 by done. by apply E3.
  - exists (e :: log'). rewrite !asked_cons, !asked_total_cons, Es. split_and!; [lia|lia|]. intros b' Hb. by rewrite !asked_cons, E3.
Qed.

Lemma asked_total_bound n m : (0 ≤ m)%Z → ∀ log, (∀ b, n ≤ b → asked b log = 0%Z) → (∀ b, b < n → (asked b log ≤ m)%Z) →
  (asked_total log ≤ m * Z.of_nat n)%Z.
Proof.
  intros Hm. induction n as [|n IH]; intros log Hz Hle.
  - assert (asked_total log = 0%Z) as ->; [|lia]. induction log as [|e log IHl]; [done|]. rewrite asked_total_cons.
    assert (Hc : ∀ b, spends b e = false ∧ asked b log = 0%Z).
    { intros b. specialize (Hz b ltac:(lia)). rewrite asked_cons in Hz. pose proof (asked_nonneg b log). destruct (spends b e); [lia|]. split; [done|lia]. }
    rewrite IHl; [|intros b _; apply Hc|intros b Hb; lia]. destruct e; try done. specialize (Hc budget) as [Hc _]. cbn in Hc.
    by rewrite bool_decide_eq_true_2 in Hc.
  - destruct (asked_without n log) as (log' & E1 & E2 & E3). specialize (IH log'). specialize (Hle n ltac:(lia)) as Hn.
    assert (asked_total log' ≤ m * Z.of_nat n)%Z; [apply IH|lia].
    + intros b Hb. destruct (decide (b = n)) as [-> |]; [done|]. rewrite E3 by done. apply Hz. lia.
    + intros b Hb. rewrite E3 by lia. apply Hle. lia.
Qed.

Section inv.
Context {C U : Type} `{AnswerCache C} `{UpstreamService U}.
Context (clock : nat → Z) (random : nat → Z → Z) (case_bits : nat → nat → Z) (calls : nat → SendCalls).
Context (cfg : ResolverConfig) (Hcfg : rconfig_ok cfg).
Abbreviation R := (Resolver C U).
Abbreviation Comp := (M (C:=C) (U:=U)).
Implicit Types (s : R) (id : Z) (t : Task).

Definition links (s : R) : gmap Z Link := link_of <$> r_tasks s.

Record inv (foc orph : option Z) (owed iss : list Callback) (s : R) : Prop := {
  iv_config : r_config s = cfg;
  iv_links : linked_up foc orph (links s) (r_next_task_id s) (r_in_flight s) (armed (r_loop s))
               (us_in_flight (r_upstream s)) (r_owner s);
  iv_next : (1 ≤ r_next_task_id s)%Z;
  iv_loop : loop_inv (r_loop s);
  iv_sane : us_sane (r_upstream s);
  iv_tasks : ∀ id t, r_tasks s !! id = Some t → foc ≠ Some id → task_ok cfg t;
  iv_budget : ∀ id t, r_tasks s !! id = Some t → t_budget t < length (r_budgets s);
  iv_spent : ∀ b n, r_budgets s !! b = Some n → n = asked b (r_log s) ∧ (0 ≤ n ≤ rc_max_upstream_queries cfg)%Z;
  iv_unspent : length (r_budgets s) ≤ length iss ∧ ∀ b, length (r_budgets s) ≤ b → asked b (r_log s) = 0%Z;
  iv_cache : ac_holds entry_about (r_cache s);
  iv_log : Forall (event_ok cfg) (r_log s);
  iv_callers : waiting (links s) ++ called (r_log s) ++ owed ≡ₚ iss;
}.

(** What the next operation may use up: an id for a task, two timers, an
    upstream query. *)
Definition ready (s : R) : Prop :=
  (r_next_task_id s < 18446744073709551615)%Z ∧ room (r_loop s) 2 ∧ us_calls_ok (r_upstream s) (calls (r_sends s)).

(** ** Weakest preconditions *)

Definition wp {A} (m : Comp A) (Q : A → R → Prop) (s : R) : Prop := match m s with Ok (a, s') => Q a s' | _ => False end.

Lemma wp_bind {A B} (m : Comp A) (k : A → Comp B) Q s : wp m (λ a, wp (k a) Q) s → wp (m ≫= k) Q s.
Proof using. unfold wp, mbind, M_bind. destruct (m s) as [[a s']| |]; done. Qed.

Lemma wp_ret {A} (a : A) (Q : A → R → Prop) s : Q a s → wp (mret a) Q s.
Proof using. done. Qed.

Lemma wp_mono {A} (m : Comp A) (P Q : A → R → Prop) s : wp m P s → (∀ a s', P a s' → Q a s') → wp m Q s.
Proof using. unfold wp. destruct (m s) as [[a s']| |]; naive_solver. Qed.

Lemma wp_gets {A} (f : R → A) (Q : A → R → Prop) s : Q (f s) s → wp (gets f) Q s.
Proof using. done. Qed.

Lemma wp_modify f (Q : unit → R → Prop) s : Q tt (f s) → wp (modify f) Q s.
Proof using. done. Qed.

Lemma wp_when (b : bool) (m : Comp unit) (Q : unit → R → Prop) s : (if b then wp m Q s else Q tt s) → wp (when b m) Q s.
Proof using. by destruct b. Qed.

Lemma wp_find id (Q : option Task → R → Prop) s : Q (r_tasks s !! id) s → wp (find id) Q s.
Proof using. done. Qed.

Lemma wp_deref id t (Q : Task → R → Prop) s : r_tasks s !! id = Some t → Q t s → wp (deref id) Q s.
Proof using. intros Ht HQ. apply wp_bind, wp_find. by rewrite Ht. Qed.

Definition with_task (s : R) id t : R := set_tasks s (r_next_task_id s) (<[id := t]> (r_tasks s)).

Lemma wp_put id t t' (Q : unit → R → Prop) s : r_tasks s !! id = Some t → Q tt (with_task s id t') → wp (put id t') Q s.
Proof using. intros Ht HQ. apply wp_bind. by eapply wp_deref. Qed.

(** ** Changes that the invariant does not see *)

Section frame.
Context (foc orph : option Z) (owed iss : list Callback) (s : R) (Hinv : inv foc orph owed iss s).

Lemma inv_ticks n : inv foc orph owed iss (set_ticks s n).
Proof using Hinv. by destruct Hinv. Qed.
Lemma inv_selection x : inv foc orph owed iss (set_selection s x).
Proof using Hinv. by destruct Hinv. Qed.
Lemma inv_no_0x20 x : inv foc orph owed iss (set_no_0x20 s x).
Proof using Hinv. by destruct Hinv. Qed.
Lemma inv_set_cache c : ac_holds entry_about c → inv foc orph owed iss (set_cache s c).
Proof using Hinv. intros Hc. by destruct Hinv. Qed.

(** An event that calls nobody back and spends nothing. *)
Lemma inv_log_event e : event_ok cfg e → called [e] = [] → (∀ b, spends b e = false) → inv foc orph owed iss (add_log s e).
Proof using Hinv.
  intros He Hc Hb. destruct Hinv. split; try done; cbn [add_log r_log r_budgets].
  - intros b n Hn. rewrite asked_snoc, Hb, Z.add_0_r. eauto.
  - destruct iv_unspent0 as [? Hus]. split; [done|]. intros b Hn. rewrite asked_snoc, Hb, Z.add_0_r. eauto.
  - apply Forall_app. by repeat constructor.
  - by rewrite called_app, Hc, app_nil_r.
Qed.

(** A caller's callback. *)
Lemma inv_log_call e k : event_ok cfg e → called [e] = [k] → (∀ b, spends b e = false) →
  ∀ owed', owed = k :: owed' → inv foc orph owed' iss (add_log s e).
Proof using Hinv.
  intros He Hc Hb owed' Ho. destruct Hinv as [???????? iv_unspent0 ?? Htok]. split; try done; cbn [add_log r_log r_budgets].
  - intros b n Hn. rewrite asked_snoc, Hb, Z.add_0_r. eauto.
  - destruct iv_unspent0 as [? Hus]. split; [done|]. intros b Hn. rewrite asked_snoc, Hb, Z.add_0_r. eauto.
  - apply Forall_app. by repeat constructor.
  - rewrite called_app, Hc. rewrite <-Htok, Ho. by rewrite <-app_assoc.
Qed.

(** Writing the members of a task that are not links. *)
Lemma inv_put id t t' : r_tasks s !! id = Some t → link_of t' = link_of t → foc = Some id ∨ task_ok cfg t' →
  inv foc orph owed iss (with_task s id t').
Proof using Hinv.
  intros Ht Hl Hok. assert (El : links (with_task s id t') = links s).
  { unfold links. cbn. rewrite fmap_insert, Hl, insert_id; [done|]. by rewrite lookup_fmap, Ht. }
  destruct Hinv. split; rewrite ?El; try done; cbn [with_task set_tasks r_tasks].
  - intros i x [[<- <-]|[? Hi]]%lookup_insert_Some Hne; [|by eauto]. by destruct Hok.
  - intros i x [[<- <-]|[? Hi]]%lookup_insert_Some; [|by eauto]. injection Hl as _ _ -> _ _ _ _ _ _ _. eauto.
Qed.
End frame.

(** ** Reading the clock, the cache and the log *)

Lemma wp_now (Q : Z → R → Prop) s : (∀ n, Q n (set_ticks s (S (r_ticks s)))) → wp (now clock) Q s.
Proof using. intros HQ. apply HQ. Qed.

Lemma wp_lookup foc orph owed iss name type (Q : option CacheEntry → R → Prop) s :
  inv foc orph owed iss s → ready s →
  (∀ r s', inv foc orph owed iss s' → ready s' → r_tasks s' = r_tasks s →
     (∀ e, r = Some e → entry_about (labels name, type, kClassIN) e) → Q r s') →
  wp (lookup_cache clock name type) Q s.
Proof using.
  intros Hinv Hready HQ. apply wp_bind, wp_now. intros n. unfold wp, action. cbn [set_ticks r_cache].
  destruct (ac_lookup_holds entry_about (r_cache s) (mkKey name type kClassIN) n) as (r & c' & -> & Hc' & Hr);
    [apply entry_about_property|by destruct Hinv|]. cbn. apply HQ; [|done|done|done].
  apply inv_set_cache; [|done]. by apply inv_ticks.
Qed.

Lemma wp_insert foc orph owed iss zone name type records trust ttl negative (Q : unit → R → Prop) s :
  inv foc orph owed iss s → ready s → event_ok cfg (Stored zone (mkKey name type kClassIN) records trust ttl negative) →
  (∀ s', inv foc orph owed iss s' → ready s' → r_tasks s' = r_tasks s → Q tt s') →
  wp (insert_cache clock zone name type records trust ttl negative) Q s.
Proof using.
  intros Hinv Hready He HQ. apply wp_bind, wp_now. intros n. apply wp_bind. unfold wp at 1, action. cbn [set_ticks r_cache].
  destruct (ac_insert_holds entry_about (r_cache s) (mkKey name type kClassIN) records trust ttl negative n) as (c' & -> & Hc');
    [apply entry_about_property|by destruct Hinv| |].
  { intros expires Hn. cbn in Hn |- *. subst negative. by destruct He as (_ & _ & ?). }
  cbn. apply HQ; [|done|done].
  apply inv_log_event; [|done|done|done]. apply inv_set_cache; [|done]. by apply inv_ticks.
Qed.

Definition budgets_ok (s : R) : Prop := ∀ b n, r_budgets s !! b = Some n → (0 ≤ n ≤ rc_max_upstream_queries cfg)%Z.

Lemma inv_budgets_ok foc orph owed iss s : inv foc orph owed iss s → budgets_ok s.
Proof using. intros Hinv b n Hn. by apply (iv_spent _ _ _ _ _ Hinv) in Hn as [_ ?]. Qed.

Lemma wp_queries t (Q : Z → R → Prop) s : budgets_ok s → t_budget t < length (r_budgets s) →
  (∀ n, r_budgets s !! t_budget t = Some n → (0 ≤ n ≤ rc_max_upstream_queries cfg)%Z → Q n s) → wp (queries_of (t_budget t)) Q s.
Proof using.
  intros Hok [n Hn]%lookup_lt_is_Some_2 HQ. apply wp_bind, wp_gets. rewrite Hn. apply wp_ret, HQ; [done|]. by eapply Hok.
Qed.

(** ** Sending a query *)

(** [finish], as far as the functions that call it know: it ends the task
    [id], which runs, has depth [d], and leaves no task running. *)
Definition ends (iss : list Callback) (fin : Z → Outcome → Comp unit) id (d : nat) : Prop :=
  ∀ s t o, inv (Some id) None [] iss s → ready s → r_tasks s !! id = Some t → length (t_ancestry t) = d →
    answer_ok cfg (t_question t) o → wp (fin id o) (λ _, inv None None [] iss) s.

Lemma lookup_links s id t : r_tasks s !! id = Some t → links s !! id = Some (link_of t).
Proof using. intros Ht. unfold links. by rewrite lookup_fmap, Ht. Qed.

Lemma links_with s id t : links (with_task s id t) = <[id := link_of t]> (links s).
Proof using. unfold links. cbn. by rewrite fmap_insert. Qed.

(** A query has been sent for the task at hand, and is in its budget. *)
Lemma sent_inv iss id t t' n sel ticks u q zone address query wait transport mc s :
  inv (Some id) None [] iss s → r_tasks s !! id = Some t → r_budgets s !! t_budget t = Some n → (0 ≤ n < rc_max_upstream_queries cfg)%Z →
  q ≠ 0%Z → q ∉ us_in_flight (r_upstream s) → us_in_flight u = {[q]} ∪ us_in_flight (r_upstream s) → us_sane u →
  link_of t' = with_waits (link_of t) q 0 0 → task_ok cfg t' →
  event_ok cfg (Asked id (t_budget t) zone address query wait transport mc) →
  inv None None [] iss (with_task (add_log (set_service (set_ticks (set_selection
    (set_budgets s (<[t_budget t := u32 (n + 1)]> (r_budgets s))) sel) ticks) u (<[q := id]> (r_owner s)) (S (r_sends s)))
    (Asked id (t_budget t) zone address query wait transport mc)) id t').
Proof using Hcfg.
  intros [Ec Hlu Hnx Hlp Hsn Htk Hbd Hsp Hus Hca Hlog Htok] Ht Hn Hlt Hq0 Hqw Ew Hu El Hok Hev.
  assert (Eu32 : u32 (n + 1) = (n + 1)%Z) by (apply Z.mod_small; destruct Hcfg; lia).
  assert (Ebud : t_budget t' = t_budget t) by (by apply (f_equal l_budget) in El).
  split; try done; cbn [with_task set_tasks add_log set_service set_ticks set_selection set_budgets
    r_tasks r_budgets r_log r_upstream r_owner r_next_task_id r_in_flight r_loop].
  - rewrite Ew. unfold links. cbn. rewrite fmap_insert, El. apply links_send; [done|by apply lookup_links|done|done].
  - intros i x [[<- <-]|[? Hi]]%lookup_insert_Some _; [done|]. eapply Htk; [done|congruence].
  - rewrite length_insert. intros i x [[<- <-]|[? Hi]]%lookup_insert_Some; [rewrite Ebud|]; by eauto.
  - intros b m. rewrite asked_snoc. cbn [spends]. intros [(<- & <- & ?)|[? Hb]]%list_lookup_insert_Some.
    + rewrite bool_decide_eq_true_2 by done. rewrite Eu32. destruct (Hsp _ _ Hn) as [-> _]. lia.
    + rewrite bool_decide_eq_false_2 by done. rewrite Z.add_0_r. eauto.
  - rewrite length_insert. destruct Hus as [? Hus]. split; [done|]. intros b Hb. rewrite asked_snoc. cbn [spends]. rewrite bool_decide_eq_false_2.
    + rewrite Z.add_0_r. eauto.
    + intros <-. pose proof (Hbd _ _ Ht). lia.
  - apply Forall_app. split; [done|]. by constructor.
  - rewrite called_app. cbn. rewrite app_nil_r. unfold links. cbn. rewrite fmap_insert.
    rewrite (waiting_update (link_of <$> r_tasks s) id (link_of t)); [done|by rewrite lookup_fmap, Ht|by rewrite El].
Qed.

Lemma send_query_inv iss fin id t address transport s :
  ends iss fin id (length (t_ancestry t)) → inv (Some id) None [] iss s → ready s → r_tasks s !! id = Some t →
  target_ok cfg t → counters_ok cfg t → placed t →
  wp (send_query clock case_bits calls fin id address transport) (λ _, inv None None [] iss) s.
Proof using Hcfg.
  intros Hfin Hinv Hready Ht Htg Hcn [Hcls Hzone].
  apply wp_bind. eapply wp_deref; [done|]. apply wp_bind, wp_gets. rewrite (iv_config _ _ _ _ _ Hinv).
  apply wp_bind. eapply wp_queries; [by eapply inv_budgets_ok|by eapply iv_budget|]. intros n Hn Hrange.
  destruct (Z.leb_spec (rc_max_upstream_queries cfg) n) as [?|Hlt]; [by eapply Hfin|].
  apply wp_bind, wp_modify. do 2 (apply wp_bind, wp_gets). cbn [set_budgets r_sends r_no_0x20].
  set (over_tcp := match transport with OverTcp => true | OverUdp => false end).
  set (mc := rc_use_0x20 cfg && negb over_tcp && negb (bool_decide (address ∈ r_no_0x20 s))). clearbody mc.
  set (t1 := if over_tcp then t else _).
  assert (Ht1 : t_qname t1 = t_qname t ∧ t_question t1 = t_question t ∧ link_of t1 = link_of t ∧ target_ok cfg t1 ∧
    counters_ok cfg t1 ∧ z_zone (t_cut t1) = z_zone (t_cut t)).
  { subst t1. destruct over_tcp; [done|]. destruct Htg, Hcn. split_and!; done. }
  destruct Ht1 as (Eq1 & Eq2 & El1 & Htg1 & Hcn1 & Ez1). clearbody t1.
  set (query := mkMessage _ _ _ _ _ _). set (zone := z_zone (t_cut t)).
  assert (Hquery : h_rd (m_header query) = false ∧ ∃ q, m_questions query = [q] ∧ is_subdomain_of (q_qname q) zone = true ∧ q_qclass q = kClassIN).
  { split; [done|]. eexists. split; [done|]. cbn. rewrite Eq1. split; [|done]. destruct mc; [|done].
    rewrite is_subdomain_of_suffix in *. done. }
  clearbody query. apply wp_bind. unfold wp at 1, action. cbn [set_budgets r_selection].
  destruct (timeout clock (r_selection s) address (rc_query_timeout_ms cfg)) as [wait0 sel].
  set (wait := Z.min (doubled _ wait0 _) _). assert (Hwait : (wait ≤ rc_max_query_timeout_ms cfg)%Z) by lia. clearbody wait.
  apply wp_bind, wp_now. intros sent_at. apply wp_bind. unfold wp at 1, action. cbn [set_selection set_ticks r_upstream set_budgets r_owner].
  destruct Hready as (_ & _ & Hcalls). pose proof (iv_links _ _ _ _ _ Hinv) as Hlu.
  pose proof (us_send_law (r_upstream s) query transport mc (calls (r_sends s)) (iv_sane _ _ _ _ _ Hinv) Hcalls) as Hsend.
  destruct (us_send _ _ _ _ _) as [q u']. destruct Hsend as (Hq0 & Hqw & Ew & Hsn').
  apply wp_bind, wp_modify. eapply wp_put; [exact Ht|].
  set (t' := set_upstream _ q).
  assert (El : link_of t' = with_waits (link_of t) q 0 0).
  { pose proof (lu_wait _ _ _ _ _ _ _ _ Hlu id _ (lookup_links _ _ _ Ht)) as Hidle. rewrite decide_True in Hidle by done.
    destruct Hidle as (_ & Ech & Est). subst t'. unfold link_of in *. cbn in *. injection El1 as E1 E2 E3 E4 E5 E6 E7 E8 E9 E10.
    unfold with_waits. cbn. by rewrite E1, E2, E3, E5, E6, E7, E8, E9, E10, Ech, Est. }
  assert (Hok : task_ok cfg t').
  { split; [by destruct Htg1|by destruct Hcn1|]. intros _. unfold placed. subst t'. cbn. by rewrite Eq1, Eq2, Ez1. }
  assert (t_budget t1 = t_budget t) as -> by (by injection El1).
  apply (sent_inv iss id t t' n sel); try done; [lia|]. cbn. destruct Hquery as [? ?]. by split_and!.
Qed.

(** ** New tasks *)

Lemma wp_add_timer delay cb (Q : Z → R → Prop) s : loop_inv (r_loop s) → room (r_loop s) 1 →
  (∀ n x l, loop_inv l → x ≠ 0%Z → x = el_next_timer_id (r_loop s) → armed (r_loop s) !! x = None → armed l = <[x := cb]> (armed (r_loop s)) →
     el_next_timer_id l = (x + 1)%Z → el_next_token l = el_next_token (r_loop s) →
     el_timer_deadlines l = <[x := (clock n + delay * 1000000)%Z]> (el_timer_deadlines (r_loop s)) →
     Q x (set_loop (set_ticks s (S (r_ticks s))) l)) →
  wp (add_timer clock delay cb) Q s.
Proof using.
  intros Hl Hr HQ. apply wp_bind. unfold wp at 1, now. unfold wp, action. cbn [set_ticks r_loop].
  destruct (armed_add (r_loop s) (clock (r_ticks s)) (delay * 1000000) cb Hl Hr) as (l' & -> & ? & ? & ? & ? & ? & ? & ?). by eapply HQ.
Qed.

Definition new_task (q : Question) (b : nat) (ancestry : list Question) (started x : Z) (done : Callback) : Task :=
  mkTask q (q_qname q) [] 0 ancestry no_cut not_sent 0 b started 0 0 x 0 done false [].

Lemma wp_spawn q b ancestry done (Q : Z → R → Prop) s :
  loop_inv (r_loop s) → room (r_loop s) 1 → (1 ≤ r_next_task_id s < 18446744073709551615)%Z →
  r_tasks s !! r_next_task_id s = None →
  (∀ started x l tk, loop_inv l → x ≠ 0%Z → armed (r_loop s) !! x = None → x = el_next_timer_id (r_loop s) →
     armed l = <[x := StartOf (r_next_task_id s)]> (armed (r_loop s)) →
     el_next_timer_id l = (x + 1)%Z → el_next_token l = el_next_token (r_loop s) →
     Q (r_next_task_id s) (set_tasks (set_loop (set_ticks s tk) l) (r_next_task_id s + 1)
         (<[r_next_task_id s := new_task q b ancestry started x done]> (r_tasks s)))) →
  wp (spawn clock q b ancestry done) Q s.
Proof using.
  intros Hl Hr Hn Hfresh HQ. assert (Eu : u64 (r_next_task_id s + 1) = (r_next_task_id s + 1)%Z) by (apply Z.mod_small; lia).
  apply wp_bind, wp_gets. apply wp_bind, wp_modify. rewrite Eu. apply wp_bind, wp_now. intros started. apply wp_bind.
  apply wp_add_timer; [done|done|]. intros n x l Hl' Hx Ex Ha Ea E1 E2 _. apply wp_bind, wp_modify, wp_ret.
  cbn [set_tasks set_ticks set_loop r_tasks r_next_task_id]. rewrite Hfresh. by eapply (HQ started x l).
Qed.

Lemma new_task_ok q b ancestry started x done : x ≠ 0%Z → task_ok cfg (new_task q b ancestry started x done).
Proof using Hcfg.
  intros Hx. destruct Hcfg. split; [split; unfold zlen; cbn; [lia|lia|done]|split; unfold kMaxRetryRounds; cbn; lia|done].
Qed.

Lemma fresh_task foc orph owed iss s : inv foc orph owed iss s → r_tasks s !! r_next_task_id s = None.
Proof using.
  intros Hinv. destruct (r_tasks s !! r_next_task_id s) eqn:E; [|done]. apply lookup_links in E.
  apply (lu_range _ _ _ _ _ _ _ _ (iv_links _ _ _ _ _ Hinv)) in E. lia.
Qed.

(** A running task starts the lookup of a name server. *)
Lemma spawn_child_inv iss id t t' q ancestry s :
  inv (Some id) None [] iss s → ready s → r_tasks s !! id = Some t → link_of t' = link_of t →
  target_ok cfg t' → counters_ok cfg t' → placed t' → length ancestry = S (length (t_ancestry t)) → length (t_ancestry t) < kMaxSubqueryDepth →
  wp (_ ← put id t'; child ← spawn clock q (t_budget t') ancestry (ChildOf id); put id (set_child t' child))
    (λ _, inv None None [] iss) s.
Proof using Hcfg.
  intros Hinv (Hnext & Hroom & _) Ht Hl Htg Hcn Hpl Hanc Hdep. pose proof (fresh_task _ _ _ _ _ Hinv) as Hfresh.
  apply wp_bind. eapply wp_put; [done|]. apply wp_bind. destruct Hinv as [Ec Hlu Hnx Hlp Hsn Htk Hbd Hsp Hus Hca Hlog Htok].
  pose proof (lookup_links _ _ _ Ht) as Hk. pose proof (lu_range _ _ _ _ _ _ _ _ Hlu id _ Hk) as Hrange.
  apply wp_spawn; [done|by eapply room_le; [exact Hroom|lia]|cbn; lia|cbn; rewrite lookup_insert_ne by lia; done|].
  cbn [with_task set_tasks r_next_task_id r_loop r_tasks]. intros started x l tk Hl' Hx Ha _ Ea _ _.
  set (tc := new_task q _ ancestry started x (ChildOf id)).
  eapply wp_put; [cbn; rewrite lookup_insert_ne by lia; by rewrite lookup_insert_eq|].
  assert (Ebud : t_budget t' = t_budget t) by (by injection Hl).
  assert (Hwait : t_upstream t' = 0%Z ∧ t_start_timer t' = 0%Z).
  { pose proof (lu_wait _ _ _ _ _ _ _ _ Hlu id _ Hk) as Hidle. rewrite decide_True in Hidle by done. rewrite <-Hl in Hidle.
    destruct Hidle as (? & _ & ?). done. }
  set (t2 := set_child t' (r_next_task_id s)).
  assert (El2 : link_of t2 = with_waits (link_of t) 0 (r_next_task_id s) 0).
  { rewrite <-Hl. unfold link_of, with_waits, t2. cbn. destruct Hwait as [-> ->]. done. }
  assert (Elk : link_of <$> <[id := t2]> (<[r_next_task_id s := tc]> (<[id := t']> (r_tasks s))) =
    <[id := with_waits (link_of t) 0 (r_next_task_id s) 0]>
      (<[r_next_task_id s := mkLink q (S (l_depth (link_of t))) (l_budget (link_of t)) 0 0 x 0 (ChildOf id) false []]> (links s))).
  { rewrite !fmap_insert, El2, Hl. apply map_eq. intros i. destruct (decide (i = id)) as [-> |]; [by rewrite !lookup_insert_eq|].
    rewrite !(lookup_insert_ne _ id) by done. destruct (decide (i = r_next_task_id s)) as [-> |].
    - rewrite !lookup_insert_eq. unfold link_of. cbn. by rewrite Hanc, Ebud.
    - by rewrite !lookup_insert_ne by done. }
  split; try done; cbn [with_task set_tasks set_loop set_ticks r_tasks r_next_task_id r_loop r_budgets r_upstream r_owner r_in_flight].
  - unfold links. cbn [with_task set_tasks r_tasks]. rewrite Elk, Ea. apply links_spawn; done || lia.
  - lia.
  - intros i y Hi _. lookups; [split; [by destruct Htg|by destruct Hcn|done]|by apply new_task_ok|done|]. eapply Htk; [done|congruence].
  - intros i y Hi. lookups; [cbn; rewrite Ebud; eauto|cbn; rewrite Ebud; eauto|congruence|]. eauto.
  - unfold links. cbn [with_task set_tasks r_tasks]. rewrite Elk.
    rewrite (waiting_update _ id (link_of t)); [|by rewrite lookup_insert_ne by lia|done].
    rewrite waiting_insert; [done|]. unfold links. by rewrite lookup_fmap, Hfresh.
Qed.

(** ** Choosing the next server *)

Context (Hrandom : uniform random).

Lemma next_glueless_Some t unresolved q rest : next_glueless cfg t unresolved = (Some q, rest) →
  (z_glueless_lookups (t_cut t) < rc_max_glueless_ns cfg)%Z ∧ length (t_ancestry t) < kMaxSubqueryDepth ∧
  would_cycle t q = false.
Proof using.
  induction unresolved as [|name unresolved IH]; cbn [next_glueless]; [done|].
  destruct (Z.ltb_spec (z_glueless_lookups (t_cut t)) (rc_max_glueless_ns cfg)); [|done].
  destruct (would_cycle t (mkQuestion name _ _)) eqn:Ec; [exact IH|]. case_bool_decide; [exact IH|]. intros [= <- <-]. split_and!; [done|lia|done].
Qed.

Lemma next_server_inv iss fin id fuel : ∀ t s,
  ends iss fin id (length (t_ancestry t)) → inv (Some id) None [] iss s → ready s → r_tasks s !! id = Some t →
  target_ok cfg t → counters_ok cfg t → placed t →
  2 ≤ fuel ∨ 1 ≤ fuel ∧ z_timed_out (t_cut t) = [] →
  wp (next_server clock random case_bits calls fin fuel id) (λ _, inv None None [] iss) s.
Proof using Hcfg Hrandom.
  induction fuel as [|fuel IH]; intros t s Hfin Hinv Hready Ht Htg Hcn Hpl Hfuel; [lia|].
  cbn [next_server]. apply wp_bind, wp_find. rewrite Ht.
  destruct (filter _ (z_servers (t_cut t))) as [|a rest] eqn:Ef.
  - apply wp_bind, wp_gets. rewrite (iv_config _ _ _ _ _ Hinv).
    destruct (next_glueless cfg t (z_unresolved (t_cut t))) as [[q|] rest] eqn:Eg.
    + apply next_glueless_Some in Eg as (Hg & Hd & _). destruct Hcn as [Hcn1 Hcn2 Hcn3]. destruct Hcfg as [_ Hgl _ _].
      assert (Eu : u8 (z_glueless_lookups (t_cut t) + 1) = (z_glueless_lookups (t_cut t) + 1)%Z) by (apply Z.mod_small; lia).
      eapply (spawn_child_inv _ _ t); [done|done|done|done|by destruct Htg| |done|by rewrite length_app, Nat.add_comm|done].
      split; cbn [set_unresolved set_cut t_cut z_glueless_lookups z_retry_rounds t_referrals]; [rewrite Eu; lia|done|done].
    + set (t1 := set_unresolved t rest _). apply wp_bind. eapply wp_put; [done|].
      assert (Hinv1 : inv (Some id) None [] iss (with_task s id t1)) by (eapply inv_put; [done|done|done|by left]).
      assert (Ht1 : r_tasks (with_task s id t1) !! id = Some t1) by apply lookup_insert_eq.
      destruct (negb _ && _) eqn:Eb.
      * apply andb_true_iff in Eb as [Eb1 Eb2]. apply negb_true_iff, bool_decide_eq_false in Eb1. apply Z.ltb_lt in Eb2.
        apply wp_bind. eapply wp_put; [done|]. set (t2 := set_tries t1 _ _ _ _).
        assert (Hcn2 : counters_ok cfg t2).
        { destruct Hcn as [Hcn1 Hcn2 Hcn3]. split; cbn; [done| |done]. unfold kMaxRetryRounds in *.
          assert (u8 (z_retry_rounds (t_cut t) + 1) = z_retry_rounds (t_cut t) + 1)%Z as -> by (apply Z.mod_small; lia). lia. }
        eapply (IH t2); [done| |done|apply lookup_insert_eq|by destruct Htg|done|done|].
        { eapply inv_put; [done|done|done|by left]. }
        destruct Hfuel as [?|[_ ?]]; [|done]. right. split; [lia|done].
      * by eapply (Hfin _ t1).
  - apply wp_bind. unfold wp at 1, action.
    destruct (pick_member clock random (r_selection s) (a :: rest) Hrandom) as (x & sel & -> & Hx); [done|]. cbn [mbind outcome_bind].
    eapply (send_query_inv _ _ _ t); [done| |done|done|done|done|done]. by apply inv_selection.
Qed.

Lemma add_servers_cut addresses : ∀ t, let t' := add_servers t addresses in
  link_of t' = link_of t ∧ t_ancestry t' = t_ancestry t ∧ t_question t' = t_question t ∧ t_qname t' = t_qname t ∧
  (target_ok cfg t → target_ok cfg t') ∧ (counters_ok cfg t → counters_ok cfg t') ∧ z_zone (t_cut t') = z_zone (t_cut t) ∧
  t_referrals t' = t_referrals t.
Proof using.
  induction addresses as [|a addresses IH]; intros t; [done|]. cbn [add_servers fold_left].
  assert (Ha : link_of (add_server t a) = link_of t ∧ t_ancestry (add_server t a) = t_ancestry t ∧
    t_question (add_server t a) = t_question t ∧ t_qname (add_server t a) = t_qname t ∧
    (target_ok cfg t → target_ok cfg (add_server t a)) ∧ (counters_ok cfg t → counters_ok cfg (add_server t a)) ∧
    z_zone (t_cut (add_server t a)) = z_zone (t_cut t) ∧ t_referrals (add_server t a) = t_referrals t).
  { unfold add_server. case_decide; [done|]. split_and!; try done; by intros []. }
  destruct Ha as (E1 & E2 & E3 & E4 & E5 & E6 & E7 & E8). destruct (IH (add_server t a)) as (F1 & F2 & F3 & F4 & F5 & F6 & F7 & F8).
  unfold add_servers in *. rewrite F1, F2, F3, F4, F7, F8. split_and!; auto.
Qed.

Lemma on_child_done_inv iss fin p tp o s :
  ends iss fin p (length (t_ancestry tp)) → r_tasks s !! p = Some tp →
  inv (Some p) None [] iss (with_task s p (set_child tp 0)) → ready s → target_ok cfg tp → counters_ok cfg tp → placed tp →
  wp (on_child_done clock random case_bits calls fin p o) (λ _, inv None None [] iss) s.
Proof using Hcfg Hrandom.
  intros Hfin Ht Hinv Hready Htg Hcn Hpl. apply wp_bind, wp_find. rewrite Ht. cbv zeta.
  set (addresses := match o with inr r => ipv4_addresses (m_answers (rs_response r)) | inl _ => [] end).
  assert (match o with inr r => add_servers (set_child tp 0) (ipv4_addresses (m_answers (rs_response r))) | inl _ => set_child tp 0 end =
    add_servers (set_child tp 0) addresses) as -> by (subst addresses; by destruct o).
  destruct (add_servers_cut addresses (set_child tp 0)) as (E1 & E2 & E3 & E4 & E5 & E6 & E7 & _).
  set (t' := add_servers _ addresses) in *. clearbody t'. apply wp_bind. eapply wp_put; [done|].
  eapply (next_server_inv _ _ _ _ t'); [by rewrite E2| |done|apply lookup_insert_eq|apply E5; by destruct Htg|apply E6; by destruct Hcn| |].
  - assert (with_task s p t' = with_task (with_task s p (set_child tp 0)) p t') as ->.
    { unfold with_task, set_tasks. cbn. by rewrite insert_insert_eq. }
    eapply inv_put; [done|apply lookup_insert_eq|done|by left].
  - unfold placed. by rewrite E3, E4, E7.
  - unfold kServerFuel. lia.
Qed.

(** ** Removing a task *)

Lemma drop_inv foc orph owed iss id t s s' :
  inv foc orph owed iss s → r_tasks s !! id = Some t → foc = None ∨ foc = Some id →
  orph = Some id ∨ orph = None ∧ is_child (t_done t) = false →
  r_config s' = r_config s → r_tasks s' = delete id (r_tasks s) → r_next_task_id s' = r_next_task_id s →
  r_in_flight s' = (if t_client t then delete (question_id (t_question t)) (r_in_flight s) else r_in_flight s) →
  loop_inv (r_loop s') → (∀ x cb, armed (r_loop s') !! x = Some cb ↔
    armed (r_loop s) !! x = Some cb ∧ x ≠ t_start_timer t ∧ x ≠ t_deadline t) →
  us_sane (r_upstream s') → (∀ q, q ∈ us_in_flight (r_upstream s') ↔ q ∈ us_in_flight (r_upstream s) ∧ q ≠ t_upstream t) →
  r_owner s' = r_owner s → r_budgets s' = r_budgets s → r_cache s' = r_cache s → r_log s' = r_log s →
  inv None (if decide (t_child t = 0%Z) then None else Some (t_child t)) (tokens (link_of t) ++ owed) iss s'.
Proof using.
  intros Hinv Ht Hfoc Horph E1 E2 E3 E4 Hl Htm Hs Hw E5 E6 E7 E8.
  pose proof (lookup_links _ _ _ Ht) as Hk. assert (Elk : links s' = delete id (links s)) by (unfold links; by rewrite E2, fmap_delete).
  destruct Hinv as [Ec Hlu Hnx Hlp Hsn Htk Hbd Hsp Hus Hca Hlog Htok].
  split; rewrite ?E1, ?E2, ?E3, ?E5, ?E6, ?E7, ?E8; try done.
  - rewrite Elk. by eapply (links_drop _ _ _ _ _ _ foc orph id (link_of t)).
  - intros i x [? Hi]%lookup_delete_Some _. eapply Htk; [done|]. destruct Hfoc as [-> | ->]; congruence.
  - intros i x [? Hi]%lookup_delete_Some. eauto.
  - rewrite Elk, <-Htok. rewrite (waiting_delete (links s) id _ Hk). rewrite <-!app_assoc. rewrite (Permutation_app_comm (tokens (link_of t)) (waiting _ ++ _)). by rewrite <-!app_assoc, (Permutation_app_comm owed).
Qed.

(** [cancel], as [release] uses it on a sub-query of depth [d]. *)
Definition cancels_child (iss : list Callback) (cnl : Z → Comp unit) (d : nat) : Prop :=
  ∀ s c t owed, inv None (Some c) owed iss s → r_tasks s !! c = Some t → is_child (t_done t) = true →
    length (t_ancestry t) = d → wp (cnl c) (λ _, inv None None owed iss) s.

(** What [release] does to the tables, for a task without a sub-query and for
    one with (which has no timers left). *)
Definition unregistered (t : Task) (s : R) : gmap key_id Z :=
  if t_client t then delete (question_id (t_question t)) (r_in_flight s) else r_in_flight s.

Lemma wp_release_front {A} id t (m : Comp A) (Q : A → R → Prop) s :
  us_sane (r_upstream s) → 0%Z ∉ us_in_flight (r_upstream s) →
  (t_client t = true → r_in_flight s !! question_id (t_question t) = Some id) →
  (∀ u, us_sane u → us_in_flight u = us_in_flight (r_upstream s) ∖ {[t_upstream t]} → (t_upstream t = 0%Z → u = r_upstream s) →
     wp m Q (set_service (set_in_flight s (unregistered t s)) u (r_owner s) (r_sends s))) →
  wp (_ ← when (t_client t) (modify (λ s,
        if decide (r_in_flight s !! question_id (t_question t) = Some id)
        then set_in_flight s (delete (question_id (t_question t)) (r_in_flight s)) else s));
      _ ← when (negb (t_upstream t =? 0)%Z) (modify (λ s, set_service s (us_cancel (r_upstream s) (t_upstream t)) (r_owner s) (r_sends s)));
      m) Q s.
Proof using.
  clear Hcfg Hrandom. intros Hs Hz0 Hreg HQ. apply wp_bind, wp_when. set (s1 := set_in_flight s (unregistered t s)).
  assert (Hgo : ∀ Q' : unit → R → Prop, Q' tt s1 → if t_client t then wp (modify (λ s, if decide (r_in_flight s !! question_id (t_question t) = Some id)
      then set_in_flight s (delete (question_id (t_question t)) (r_in_flight s)) else s)) Q' s else Q' tt s).
  { intros Q' HQ'. unfold s1, unregistered in HQ'. destruct (t_client t); [|by destruct s]. apply wp_modify. by rewrite decide_True by auto. }
  apply Hgo. clear Hgo. apply wp_bind, wp_when. destruct (Z.eqb_spec (t_upstream t) 0) as [E|E]; cbn [negb].
  - assert (s1 = set_service s1 (r_upstream s) (r_owner s) (r_sends s)) as -> by (by destruct s). apply HQ; [done| |done]. rewrite E. set_solver.
  - apply wp_modify. destruct (us_cancel_law (r_upstream s) (t_upstream t)) as (Ew & Hs' & _); [done|]. by apply HQ.
Qed.

Lemma wp_cancel_timer x (Q : unit → R → Prop) s : loop_inv (r_loop s) → armed (r_loop s) !! 0%Z = None →
  (∀ l, loop_inv l → armed l = delete x (armed (r_loop s)) → (x = 0%Z → l = r_loop s) → Q tt (set_loop s l)) →
  wp (when (negb (x =? 0)%Z) (cancel_timer x)) Q s.
Proof using.
  intros Hl Hz0 HQ. apply wp_when. destruct (Z.eqb_spec x 0) as [->|E]; cbn [negb].
  - assert (s = set_loop s (r_loop s)) as -> by (by destruct s). apply HQ; [done| |done]. by rewrite delete_id.
  - apply wp_modify. destruct (armed_cancel (r_loop s) x Hl) as (? & ? & _). by apply HQ.
Qed.

Lemma wp_release_leaf cnl id t (Q : unit → R → Prop) s :
  us_sane (r_upstream s) → 0%Z ∉ us_in_flight (r_upstream s) → loop_inv (r_loop s) → armed (r_loop s) !! 0%Z = None →
  (t_client t = true → r_in_flight s !! question_id (t_question t) = Some id) → t_child t = 0%Z →
  (∀ u l, us_sane u → us_in_flight u = us_in_flight (r_upstream s) ∖ {[t_upstream t]} →
     loop_inv l → armed l = delete (t_deadline t) (delete (t_start_timer t) (armed (r_loop s))) →
     (t_upstream t = 0%Z → u = r_upstream s) → (t_start_timer t = 0%Z → t_deadline t = 0%Z → l = r_loop s) →
     Q tt (set_loop (set_service (set_in_flight s (unregistered t s)) u (r_owner s) (r_sends s)) l)) →
  wp (release cnl id t) Q s.
Proof using.
  intros Hs Hz0 Hl Ha Hreg Hc HQ. apply wp_release_front; [done..|]. intros u Hu Eu Eu0. rewrite Hc. apply wp_bind, wp_when. cbn [negb Z.eqb].
  apply wp_bind, wp_cancel_timer; [done|done|]. intros l1 Hl1 E1 Hsame1. apply wp_cancel_timer; [done|cbn; by rewrite E1, lookup_delete_None; right|].
  intros l2 Hl2 E2 Hsame2. cbn [set_loop r_loop] in E2, Hsame2. rewrite E1 in E2. apply (HQ u l2); try done.
  intros Es Ed. rewrite (Hsame2 Ed). by apply Hsame1.
Qed.

Lemma wp_release_parent cnl id t (Q : unit → R → Prop) s :
  us_sane (r_upstream s) → 0%Z ∉ us_in_flight (r_upstream s) →
  (t_client t = true → r_in_flight s !! question_id (t_question t) = Some id) → t_child t ≠ 0%Z → t_start_timer t = 0%Z → t_deadline t = 0%Z →
  (∀ u, us_sane u → us_in_flight u = us_in_flight (r_upstream s) ∖ {[t_upstream t]} →
     wp (cnl (t_child t)) Q (set_service (set_in_flight s (unregistered t s)) u (r_owner s) (r_sends s))) →
  wp (release cnl id t) Q s.
Proof using.
  intros Hs Hz0 Hreg Hc Est Ed HQ. apply wp_release_front; [done..|]. intros u Hu Eu _. rewrite Est, Ed. apply wp_bind, wp_when.
  rewrite (proj2 (Z.eqb_neq _ _)) by done. cbn [negb]. eapply wp_mono; [by apply HQ|]. by intros [] s' ?.
Qed.

Lemma no_zero foc orph owed iss s : inv foc orph owed iss s →
  (0%Z ∉ us_in_flight (r_upstream s)) ∧ armed (r_loop s) !! 0%Z = None.
Proof using.
  intros [_ Hlu _ _ _ _ _ _ _ _ _ _]. split.
  - intros ?%(lu_queries _ _ _ _ _ _ _ _ Hlu). naive_solver.
  - destruct (armed (r_loop s) !! 0%Z) eqn:E; [|done]. apply (lu_timers _ _ _ _ _ _ _ _ Hlu) in E. naive_solver.
Qed.

Lemma cancel_inv iss fuel : ∀ d, 4 < d + fuel → cancels_child iss (cancel fuel) d.
Proof using.
  clear Hcfg Hrandom random clock case_bits calls. induction fuel as [|fuel IH]; intros d Hfuel s c t owed Hinv Ht Hchild Hd.
  { pose proof (lu_depth _ _ _ _ _ _ _ _ (iv_links _ _ _ _ _ Hinv) c _ (lookup_links _ _ _ Ht)) as Hb. cbn in Hb. unfold kMaxSubqueryDepth in Hb. lia. }
  cbn [cancel]. apply wp_bind, wp_find. rewrite Ht. apply wp_bind, wp_modify.
  destruct (no_zero _ _ _ _ _ Hinv) as [Hq0 Ht0]. pose proof (iv_links _ _ _ _ _ Hinv) as Hlu. pose proof (lookup_links _ _ _ Ht) as Hk.
  pose proof (lu_client _ _ _ _ _ _ _ _ Hlu c _ Hk) as Hcl. cbn in Hcl. rewrite Hchild in Hcl. cbn in Hcl.
  pose proof (lu_deadline _ _ _ _ _ _ _ _ Hlu c _ Hk) as Hdl. cbn in Hdl. rewrite Hcl in Hdl.
  pose proof (lu_joiners _ _ _ _ _ _ _ _ Hlu c _ Hk) as Hj. cbn in Hj. rewrite Hcl in Hj.
  assert (Htok : tokens (link_of t) = []) by (unfold tokens; cbn; rewrite Hj; by destruct (t_done t)).
  pose proof (lu_wait _ _ _ _ _ _ _ _ Hlu c _ Hk) as Hw. rewrite decide_False in Hw by done.
  assert (Hdrop : ∀ u l, us_sane u → us_in_flight u = us_in_flight (r_upstream s) ∖ {[t_upstream t]} → loop_inv l →
    armed l = delete (t_deadline t) (delete (t_start_timer t) (armed (r_loop s))) →
    inv None (if decide (t_child t = 0%Z) then None else Some (t_child t)) owed iss
      (set_loop (set_service (set_in_flight (set_tasks s (r_next_task_id s) (delete c (r_tasks s))) (unregistered t s)) u (r_owner s) (r_sends s)) l)).
  { intros u l Hu Eu Hl Ea. rewrite <-(app_nil_l owed), <-Htok. eapply (drop_inv None (Some c) owed iss c t s); try done; [by left|by left| |].
    - intros x cb. cbn. rewrite Ea, !lookup_delete_Some. naive_solver.
    - intros q. cbn. rewrite Eu. set_solver. }
  destruct (decide (t_child t = 0%Z)) as [Ec|Ec].
  - apply wp_release_leaf; [by destruct Hinv|done|by destruct Hinv|done|congruence|done|]. intros u l Hu Eu Hl Ea _ _. by apply Hdrop.
  - assert (Hst : t_start_timer t = 0%Z) by (destruct Hw as [(_ & ? & _)|[(_ & _ & ?)|(_ & ? & _)]]; [done|done|done]).
    apply wp_release_parent; [by destruct Hinv|done|congruence|done|done|done|]. intros u Hu Eu.
    destruct (lu_child _ _ _ _ _ _ _ _ Hlu c _ Hk Ec) as (kc & Hkc & Hdc & Hdep & _). cbn in Hkc.
    unfold links in Hkc. rewrite lookup_fmap in Hkc. destruct (r_tasks s !! t_child t) as [tc|] eqn:Etc; [|done]. cbn in Hkc.
    assert (link_of tc = kc) as <- by congruence. cbn in Hdc, Hdep. rewrite Hd in Hdep.
    assert (Hne : t_child t ≠ c). { intros E. rewrite E in Etc. assert (tc = t) as -> by congruence. lia. }
    set (s' := set_service _ _ _ _).
    apply (IH (S d) ltac:(lia) s' (t_child t) tc owed); [|cbn; by rewrite lookup_delete_ne|by rewrite Hdc|done].
    assert (s' = set_loop s' (r_loop s)) as -> by done. apply Hdrop; [done|done|by destruct Hinv|].
    by rewrite Hst, Hdl, delete_delete_eq, delete_id.
Qed.

(** ** Calling back *)

Definition tells (cb : Callback) (o : Outcome) : Prop :=
  match cb with ClientDone _ q => answer_ok cfg q o | PrimeDone _ => True | ChildOf _ => False end.

Lemma call_client_inv iss fin cb o owed s : inv None None (token cb ++ owed) iss s → tells cb o →
  wp (call_back clock random case_bits calls fin cb o) (λ _, inv None None owed iss) s.
Proof using.
  intros Hinv Ho. destruct cb as [k q|k|p]; [| |done]; cbn [call_back token app] in *; apply wp_modify;
    by eapply (inv_log_call _ _ _ _ _ Hinv).
Qed.

Lemma call_joiners_inv iss fin js owed : ∀ s, inv None None (mjoin (token ∘ fst <$> js) ++ owed) iss s → Forall (λ j, tells j.1 j.2) js →
  wp (call_joiners clock random case_bits calls fin js) (λ _, inv None None owed iss) s.
Proof using.
  induction js as [|[cb o] js IH]; intros s Hinv Hjs; cbn [call_joiners]; [done|]. inv Hjs. cbn in Hinv. rewrite <-app_assoc in Hinv.
  apply wp_bind. eapply wp_mono; [by apply call_client_inv|]. intros [] s' Hs'. by apply IH.
Qed.

Lemma join_ok q o wt n : answer_ok cfg q o → question_id (w_question wt) = question_id q → answer_ok cfg (w_question wt) (join_outcome o wt n).
Proof using Hcfg.
  destruct o as [e|r]; [done|]. intros (_ & Hqr & Hc & _ & chain & rest & target & Ha & Hl & Hlen & Hr) [= El Et Ecl].
  split_and!; [done|done|congruence|cbn; destruct Hcfg; lia|cbn; destruct Hcfg; lia|].
  exists chain, rest, target. split_and!; [done|by eapply leads_labels|done|by rewrite Et].
Qed.

(** What is told about the queries used and the time taken. *)
Definition timed (t : Task) (o : Outcome) (used n : Z) : Outcome :=
  match o with inl e => inl e | inr r => inr (mkResult (rs_response r) used (elapsed_us (t_started t) n) (rs_coalesced r)) end.

Lemma wp_timed {A} t o n (k : Outcome → Comp A) (Q : A → R → Prop) s : budgets_ok s → t_budget t < length (r_budgets s) → answer_ok cfg (t_question t) o →
  (∀ used, answer_ok cfg (t_question t) (timed t o used n) → wp (k (timed t o used n)) Q s) →
  wp (result ← match o with
               | inl e => mret (inl e)
               | inr r =>
                 used ← queries_of (t_budget t);
                 mret (inr (mkResult (rs_response r) used (elapsed_us (t_started t) n) (rs_coalesced r)))
               end : Comp Outcome; k result) Q s.
Proof using.
  intros Hinv Hb Ho Hk. destruct o as [e|r]; [exact (Hk 0%Z I)|]. apply wp_bind, wp_bind.
  eapply wp_queries; [done|done|]. intros used _ Hused. apply wp_ret. apply (Hk used).
  destruct Ho as (? & ? & ? & _ & ?). cbn. split_and!; try done; lia.
Qed.

Definition joined (t : Task) (o : Outcome) (n : Z) : list (Callback * Outcome) := map (λ w, (w_done w, join_outcome o w n)) (t_joiners t).

Lemma finish_client_inv iss fin t o n s :
  inv None None (tokens (link_of t)) iss s → asks (t_done t) (t_question t) →
  (∀ wt, wt ∈ t_joiners t → asks (w_done wt) (w_question wt) ∧ question_id (w_question wt) = question_id (t_question t)) →
  answer_ok cfg (t_question t) o →
  wp (_ ← call_back clock random case_bits calls fin (t_done t) o; call_joiners clock random case_bits calls fin (joined t o n))
    (λ _, inv None None [] iss) s.
Proof using Hcfg.
  intros Hinv Hdone Hjs Ho.
  assert (Htell : ∀ cb q o, asks cb q → answer_ok cfg q o → tells cb o) by (intros [k q'|k|p] q o'; cbn; [by intros ->|done|done]).
  apply wp_bind. eapply wp_mono.
  - apply (call_client_inv iss _ _ _ (mjoin (token ∘ fst <$> joined t o n))); [|by eapply Htell].
    unfold tokens in Hinv. cbn in Hinv. unfold joined. by rewrite <-list_fmap_compose in *.
  - intros [] s' Hs'. rewrite <-(app_nil_r (mjoin _)) in Hs'. eapply call_joiners_inv; [done|].
    apply Forall_forall. intros j (wt & -> & Hwt)%list_elem_of_fmap. cbn. destruct (Hjs wt Hwt). eapply Htell; [done|]. by eapply join_ok.
Qed.

(** A sub-query that is over hands back to its parent. *)
Lemma return_inv iss id t p s : inv (Some id) None [] iss s → r_tasks s !! id = Some t → t_done t = ChildOf p → t_joiners t = [] →
  ∃ tp, r_tasks s !! p = Some tp ∧ p ≠ id ∧ length (t_ancestry t) = S (length (t_ancestry tp)) ∧ task_ok cfg tp ∧ placed tp ∧
    ∀ n, inv (Some p) None [] iss (with_task (set_ticks (set_tasks s (r_next_task_id s) (delete id (r_tasks s))) n) p (set_child tp 0)).
Proof using Hcfg.
  intros Hinv Ht Edone Hj. pose proof (iv_links _ _ _ _ _ Hinv) as Hlu. pose proof (lookup_links _ _ _ Ht) as Hk.
  assert (Htok : tokens (link_of t) = []) by (unfold tokens; cbn; by rewrite Hj, Edone).
  destruct (links_return _ _ _ _ _ _ id _ p Hlu Hk Edone) as (kp & Hkp & Hdp & Hpne & Hlu'). cbn in Hdp.
  unfold links in Hkp. rewrite lookup_fmap in Hkp. destruct (r_tasks s !! p) as [tp|] eqn:Etp; [|done]. cbn in Hkp.
  assert (link_of tp = kp) as <- by congruence. cbn in Hdp. exists tp.
  assert (Htp : task_ok cfg tp) by (eapply (iv_tasks _ _ _ _ _ Hinv); [done|congruence]).
  assert (Hstart : t_start_timer tp = 0%Z).
  { pose proof (lu_wait _ _ _ _ _ _ _ _ Hlu' p _ (lookup_insert_eq _ _ _)) as Hw. rewrite decide_True in Hw by done. by destruct Hw as (_ & _ & ?). }
  split_and!; [done|done|done|done|by apply (tk_placed _ _ Htp)|]. intros n.
  destruct Hinv as [Ec' _ Hnx Hlp Hsn Htk Hbd Hsp Hus Hca Hlog Htoks].
  split; try done; cbn [with_task set_tasks set_ticks r_tasks r_budgets r_log].
  - unfold links. cbn. by rewrite fmap_insert, fmap_delete.
  - intros i x Hi Hne. lookups; [done|]. eapply Htk; [done|congruence].
  - intros i x Hi. lookups; [cbn; by eauto|]. eauto.
  - rewrite <-Htoks. unfold links. cbn. rewrite fmap_insert, fmap_delete. rewrite (waiting_update _ p (link_of tp)).
    + by rewrite (waiting_delete (link_of <$> r_tasks s) id _ Hk), Htok.
    + rewrite lookup_delete_ne by done. by rewrite lookup_fmap, Etp.
    + done.
Qed.

Lemma finish_inv iss fuel : ∀ id s t o,
  inv (Some id) None [] iss s → ready s → r_tasks s !! id = Some t → length (t_ancestry t) < fuel → answer_ok cfg (t_question t) o →
  wp (finish_from clock random case_bits calls fuel id o) (λ _, inv None None [] iss) s.
Proof using Hcfg Hrandom.
  induction fuel as [|fuel IH]; intros id s t o Hinv Hready Ht Hd Ho; [lia|]. cbn [finish_from].
  apply wp_bind, wp_find. rewrite Ht. apply wp_bind, wp_modify. apply wp_bind.
  destruct (no_zero _ _ _ _ _ Hinv) as [Hq0 Ht0]. pose proof (iv_links _ _ _ _ _ Hinv) as Hlu. pose proof (lookup_links _ _ _ Ht) as Hk.
  pose proof (lu_wait _ _ _ _ _ _ _ _ Hlu id _ Hk) as Hidle. rewrite decide_True in Hidle by done. destruct Hidle as (Eu & Ec & Es). cbn in Eu, Ec, Es.
  pose proof (iv_budget _ _ _ _ _ Hinv id t Ht) as Hb.
  apply wp_release_leaf; [by destruct Hinv|done|by destruct Hinv|done|..].
  { intros Hc. by apply (lu_registered _ _ _ _ _ _ _ _ Hlu id (link_of t)). }
  { done. }
  intros u l Hu Eqf Hl Ea Hsu Hsl. cbn [set_tasks r_upstream r_loop] in Eqf, Ea, Hsu, Hsl. apply wp_bind, wp_now. intros n.
  pose proof (lu_client _ _ _ _ _ _ _ _ Hlu id _ Hk) as Hcl. cbn in Hcl.
  destruct (is_child (t_done t)) eqn:Echild.
  - destruct (t_done t) as [| |p] eqn:Edone; [done|done|]. cbn in Hcl.
    pose proof (lu_deadline _ _ _ _ _ _ _ _ Hlu id _ Hk) as Hdl. cbn in Hdl. rewrite Hcl in Hdl.
    pose proof (lu_joiners _ _ _ _ _ _ _ _ Hlu id _ Hk) as Hj. cbn in Hj. rewrite Hcl in Hj.
    destruct (return_inv iss id t p s Hinv Ht Edone Hj) as (tp & Etp & Hpne & Hdp & [? ? _] & ? & Hret).
    rewrite (Hsu Eu), (Hsl Es Hdl). unfold unregistered. rewrite Hcl. clear u l Hu Eqf Hl Ea Hsu Hsl.
    eapply wp_timed; [exact (inv_budgets_ok _ _ _ _ _ Hinv)|done|done|]. intros used Ho'. rewrite Hj. cbn [map call_back].
    apply wp_bind. apply (wp_mono _ (λ _, inv None None [] iss)); [|by intros [] s' Hs'].
    eapply (on_child_done_inv iss _ p tp); [|cbn; by rewrite lookup_delete_ne|exact (Hret _)|done..].
    intros s' t' o' Hinv' Hready' Ht' Hd' Ho''. eapply IH; [done|done|done|lia|done].
  - set (s' := set_ticks _ _). assert (Hinv' : inv None None (tokens (link_of t)) iss s').
    { rewrite <-(app_nil_r (tokens _)). apply inv_ticks.
      assert (Hd' : inv None (if decide (t_child t = 0%Z) then None else Some (t_child t)) (tokens (link_of t) ++ []) iss
        (set_loop (set_service (set_in_flight (set_tasks s (r_next_task_id s) (delete id (r_tasks s))) (unregistered t s)) u (r_owner s) (r_sends s)) l)).
      { eapply (drop_inv (Some id) None [] iss id t s); try done; [by right|by right| |].
        - intros x cb. cbn. rewrite Ea, !lookup_delete_Some. naive_solver.
        - intros q. cbn. rewrite Eqf. set_solver. }
      rewrite decide_True in Hd' by done. exact Hd'. }
    eapply wp_timed; [by eapply inv_budgets_ok|done|done|]. intros used Ho'.
    pose proof (lu_joiners _ _ _ _ _ _ _ _ Hlu id _ Hk) as Hj. cbn in Hj. rewrite Hcl in Hj. cbn in Hj.
    apply finish_client_inv; [done|done| |done]. intros wt Hwt. exact (lu_joined _ _ _ _ _ _ _ _ Hlu id (link_of t) wt Hk Hwt).
Qed.

Lemma depth_bound foc orph owed iss id t s : inv foc orph owed iss s → r_tasks s !! id = Some t → length (t_ancestry t) ≤ kMaxSubqueryDepth.
Proof using. intros [_ Hlu _ _ _ _ _ _ _ _ _ _] Ht. exact (lu_depth _ _ _ _ _ _ _ _ Hlu id _ (lookup_links _ _ _ Ht)). Qed.

Lemma finish_task_ends iss id d : ends iss (finish clock random case_bits calls) id d.
Proof using Hcfg Hrandom.
  intros s t o Hinv Hready Ht _ Ho. eapply finish_inv; [done|done|done| |done].
  pose proof (depth_bound _ _ _ _ _ _ _ Hinv Ht) as Hd. unfold kTaskFuel, kMaxSubqueryDepth in *. lia.
Qed.

(** The deadline of a client's query: whatever it waits for is given up and
    every caller is told. *)
Lemma deadline_inv iss id x l s :
  inv None None [] iss s → armed (r_loop s) !! x = Some (DeadlineOf id) → loop_inv l → armed l = delete x (armed (r_loop s)) →
  wp (on_timer clock random case_bits calls (DeadlineOf id)) (λ _, inv None None [] iss) (set_loop s l).
Proof using Hcfg.
  clear Hrandom. intros Hinv Hx Hl Ea. pose proof (iv_links _ _ _ _ _ Hinv) as Hlu. destruct (no_zero _ _ _ _ _ Hinv) as [Hq0 Ht0].
  destruct (lu_timers _ _ _ _ _ _ _ _ Hlu x _ Hx) as (Hx0 & k & Hk & Ex). unfold links in Hk. rewrite lookup_fmap in Hk.
  destruct (r_tasks s !! id) as [t|] eqn:Ht; [|done]. cbn in Hk. assert (link_of t = k) as <- by congruence. clear Hk. cbn in Ex.
  pose proof (lookup_links _ _ _ Ht) as Hk.
  assert (Hl0 : armed l !! 0%Z = None) by (by rewrite Ea, lookup_delete_None; right).
  assert (Hcl : t_client t = true).
  { pose proof (lu_deadline _ _ _ _ _ _ _ _ Hlu id _ Hk) as Hd. cbn in Hd. destruct (t_client t); [done|congruence]. }
  pose proof (lu_client _ _ _ _ _ _ _ _ Hlu id _ Hk) as Hch. cbn in Hch. rewrite Hcl in Hch. symmetry in Hch. apply negb_true_iff in Hch.
  pose proof (lu_joiners _ _ _ _ _ _ _ _ Hlu id _ Hk) as Hj. cbn in Hj. rewrite Hcl in Hj.
  pose proof (lu_registered _ _ _ _ _ _ _ _ Hlu id _ Hk Hcl) as Hreg. cbn in Hreg.
  pose proof (lu_wait _ _ _ _ _ _ _ _ Hlu id _ Hk) as Hw. rewrite decide_False in Hw by done.
  cbn [on_timer]. apply wp_bind, wp_find. cbn [set_loop r_tasks]. rewrite Ht. apply wp_bind. eapply wp_put; [done|].
  unfold finish, kTaskFuel. cbn [finish_from]. apply wp_bind, wp_find. cbn [with_task set_tasks set_loop r_tasks]. rewrite lookup_insert_eq.
  set (t2 := set_deadline t 0). apply wp_bind, wp_modify, wp_bind.
  set (s1 := set_tasks (set_loop s l) (r_next_task_id s) (delete id (r_tasks s))).
  match goal with |- wp _ _ ?st => assert (st = s1) as -> by (unfold s1, with_task, set_tasks; cbn; by rewrite delete_insert_eq) end.
  assert (Hdrop : ∀ u l', us_sane u → us_in_flight u = us_in_flight (r_upstream s) ∖ {[t_upstream t]} → loop_inv l' →
    armed l' = delete (t_start_timer t) (armed l) →
    inv None (if decide (t_child t = 0%Z) then None else Some (t_child t)) (tokens (link_of t)) iss
      (set_loop (set_service (set_in_flight s1 (unregistered t2 s1)) u (r_owner s) (r_sends s)) l')).
  { intros u l' Hu Eu Hl' Ea'. rewrite <-(app_nil_r (tokens _)). eapply (drop_inv None None [] iss id t s); try done; [by left|by right| |].
    - intros y cb. cbn. rewrite Ea', Ea, !lookup_delete_Some. rewrite <-Ex. naive_solver.
    - intros q. cbn. rewrite Eu. set_solver. }
  assert (Htail : ∀ s', inv None None (tokens (link_of t)) iss s' →
    wp (n ← now clock;
        result ← (mret (inl ResolveError.Timeout) : Comp Outcome);
        let joiners := map (λ w, (w_done w, join_outcome result w n)) (t_joiners t2) in
        _ ← call_back clock random case_bits calls (finish_from clock random case_bits calls 5) (t_done t2) result;
        call_joiners clock random case_bits calls (finish_from clock random case_bits calls 5) joiners) (λ _, inv None None [] iss) s').
  { intros s' Hs'. apply wp_bind, wp_now. intros n. apply wp_bind, wp_ret.
    apply (finish_client_inv iss (finish_from clock random case_bits calls 5) t); [by apply inv_ticks|done| |done].
    intros wt Hwt. exact (lu_joined _ _ _ _ _ _ _ _ Hlu id (link_of t) wt Hk Hwt). }
  destruct (decide (t_child t = 0%Z)) as [Ec|Ec].
  - apply wp_release_leaf; [by destruct Hinv|done|done|exact Hl0|done|done|].
    intros u l' Hu Eu Hl' Ea' _ _. apply Htail, Hdrop; try done. change (armed l' = delete 0%Z (delete (t_start_timer t) (armed l))) in Ea'.
    rewrite delete_id in Ea'; [done|]. by rewrite lookup_delete_None; right.
  - assert (Hst : t_start_timer t = 0%Z) by (destruct Hw as [(_ & ? & _)|[(_ & _ & ?)|(_ & ? & _)]]; done).
    apply wp_release_parent; [by destruct Hinv|done|done|done|done|done|]. intros u Hu Eu.
    destruct (lu_child _ _ _ _ _ _ _ _ Hlu id _ Hk Ec) as (kc & Hkc & Hdc & Hdep & _). cbn in Hkc.
    unfold links in Hkc. rewrite lookup_fmap in Hkc. destruct (r_tasks s !! t_child t) as [tc|] eqn:Etc; [|done]. cbn in Hkc.
    assert (link_of tc = kc) as <- by congruence. cbn in Hdc, Hdep.
    assert (Hne : t_child t ≠ id). { intros E. rewrite E in Etc. assert (tc = t) as -> by congruence. lia. }
    set (s' := set_service _ _ _ _). apply (wp_mono _ (λ _, inv None None (tokens (link_of t)) iss)); [|intros [] s''; apply Htail].
    apply (cancel_inv iss 6 (length (t_ancestry tc)) ltac:(lia) s' (t_child t) tc); [|cbn; by rewrite lookup_delete_ne|by rewrite Hdc|done].
    assert (s' = set_loop s' l) as -> by done. apply Hdrop; [done|done|done|]. by rewrite Hst, delete_id.
Qed.
End inv.
