(* ===== verification/ResolverSteps.v ===== *)
(** * The steps of a resolution keep the invariant

    What [ResolverInv] shows of a task's lifecycle, extended to the functions
    that resolve: starting a client's query, looking in the cache, entering a
    zone, following CNAMEs and referrals, and handling a response.  With that,
    every operation of the resolver keeps the invariant and none faults. *)

From stdpp Require Import base tactics numbers list gmap fin_maps.
From Stdlib Require Import ZArith Lia.
From S2P Require Import Prelude Names Types Cache Security ServerSelection Upstream EventLoop RootHints Interfaces Resolver ResolverLinks ResolverInv.

(** ** Records picked from a message *)

Lemma collect_about section name type : Forall (about (labels name, type, kClassIN)) (collect section name type).
Proof.
  apply Forall_forall. intros rr [(Hc & Ht & Hn) _]%list_elem_of_filter. apply name_eqb_equiv in Hn. done.
Qed.

Lemma collect_sub section name type P : Forall P section → Forall P (collect section name type).
Proof. intros HP. apply Forall_forall. intros rr [_ Hr]%list_elem_of_filter. by eapply Forall_forall. Qed.

Lemma about_records k records trust : Forall (about k) records → records_about k records trust.
Proof. intros Ha. split; [|done]. by eapply Forall_impl; [exact Ha|intros rr []]. Qed.

(** A referral: name servers of one name, from the authority section. *)
Lemma referral_from_spec P authority : ∀ ns, Forall P authority → Forall P ns →
  match ns with first :: _ => Forall (named (labels (rr_name first), kTypeNS, kClassIN)) ns | [] => True end →
  match referral_from ns authority with
  | first :: rest => Forall P (first :: rest) ∧ Forall (named (labels (rr_name first), kTypeNS, kClassIN)) (first :: rest)
  | [] => True
  end.
Proof.
  induction authority as [|rr authority IH]; intros ns Ha Hns Hnm; cbn [referral_from].
  { by destruct ns. }
  inv Ha. destruct (negb (rr_cls rr =? kClassIN)%Z || negb (is_ns rr)) eqn:Ec; [by apply IH|].
  apply orb_false_iff in Ec as [Ec _]. apply negb_false_iff, Z.eqb_eq in Ec.
  destruct ns as [|first ns]; [apply IH; [done|by constructor|by repeat constructor]|].
  destruct (name_eqb _ _) eqn:En; cbn [negb]; [|by apply IH]. apply name_eqb_equiv in En.
  apply IH; [done|apply (Forall_app_2 _ (first :: ns)); [done|by repeat constructor]|]. apply (Forall_app_2 _ (first :: ns)); [done|]. by repeat constructor.
Qed.

Lemma referral_ns_spec P authority first rest : Forall P authority → referral_ns authority = first :: rest →
  Forall P (first :: rest) ∧ Forall (named (labels (rr_name first), kTypeNS, kClassIN)) (first :: rest).
Proof. intros HP E. pose proof (referral_from_spec P authority [] HP) as Hs. unfold referral_ns in E. rewrite E in Hs. by apply Hs. Qed.

Lemma find_soa_spec P authority qname rr : Forall P authority → find_soa authority qname = Some rr → P rr.
Proof.
  induction authority as [|r authority IH]; cbn [find_soa]; [done|]. intros HP. inv HP.
  destruct (rr_rdata r); try by apply IH. destruct (is_subdomain_of _ _); [congruence|by apply IH].
Qed.

Definition in_zone (zone : Name) (rr : RR) : Prop := is_subdomain_of (rr_name rr) zone = true.

Lemma filtered_in_zone m zone : let m' := (filter_to_bailiwick m zone).2 in
  Forall (in_zone zone) (m_answers m') ∧ Forall (in_zone zone) (m_authority m') ∧ Forall (in_zone zone) (m_additional m').
Proof. cbn. split_and!; apply Forall_forall; by intros rr [? _]%list_elem_of_filter. Qed.

(** ** What a task has in common with a later version of itself *)

Record same_target (t t' : Task) : Prop := {
  sm_link : link_of t' = link_of t;
  sm_ancestry : t_ancestry t' = t_ancestry t;
  sm_qname : t_qname t' = t_qname t;
  sm_chain : t_chain t' = t_chain t;
  sm_hops : t_cname_hops t' = t_cname_hops t;
  sm_referrals : t_referrals t' = t_referrals t;
}.

Lemma same_target_refl t : same_target t t.
Proof. done. Qed.
Lemma same_target_trans t1 t2 t3 : same_target t1 t2 → same_target t2 t3 → same_target t1 t3.
Proof. intros [] []. split; congruence. Qed.
#[export] Hint Resolve same_target_refl : dns.

Lemma same_question t t' : same_target t t' → t_question t' = t_question t.
Proof. intros [Hl _ _ _ _ _]. by injection Hl. Qed.

Lemma same_target_ok cfg t t' : same_target t t' → target_ok cfg t → target_ok cfg t'.
Proof. intros Hs [H1 H2 H3]. pose proof (same_question _ _ Hs) as Eq. destruct Hs as [_ _ En Ec Eh _]. split; congruence. Qed.

(** A task that has just entered [zone]. *)
Record entered (zone : Name) (t t' : Task) : Prop := {
  en_same : same_target t t';
  en_zone : z_zone (t_cut t') = zone;
  en_rounds : z_retry_rounds (t_cut t') = 0%Z;
  en_glueless : z_glueless_lookups (t_cut t') = 0%Z;
}.

Lemma entered_reset zone t : entered zone t (reset_zone t zone).
Proof. done. Qed.

Lemma entered_add_server zone t t' address : entered zone t t' → entered zone t (add_server t' address).
Proof. intros He. unfold add_server. case_decide; [done|]. by destruct He as [[] ? ? ?]. Qed.

Lemma entered_add_servers zone t addresses : ∀ t', entered zone t t' → entered zone t (add_servers t' addresses).
Proof. induction addresses as [|a addresses IH]; [done|]. intros t' He. by apply (IH (add_server t' a)), entered_add_server. Qed.

Lemma entered_unresolved zone t t' names : entered zone t t' → entered zone t (set_unresolved t' names (z_glueless_lookups (t_cut t'))).
Proof. by intros [[] ? ? ?]. Qed.
#[export] Hint Resolve entered_reset entered_add_servers entered_unresolved : dns.

Lemma entered_ok cfg zone t t' : rconfig_ok cfg → entered zone t t' → target_ok cfg t → (0 ≤ t_referrals t ≤ rc_max_referral_depth cfg)%Z →
  q_qclass (t_question t) = kClassIN → is_subdomain_of (t_qname t) zone = true →
  target_ok cfg t' ∧ counters_ok cfg t' ∧ placed t'.
Proof.
  intros Hcfg [Hs Ez Er Eg] Htg Href Hc Hz. pose proof (same_question _ _ Hs) as Eq. split_and!; [by eapply same_target_ok| |].
  - split; [rewrite Eg; destruct Hcfg; lia|rewrite Er; unfold kMaxRetryRounds; lia|]. by rewrite (sm_referrals _ _ Hs).
  - unfold placed. by rewrite Eq, Ez, (sm_qname _ _ Hs).
Qed.

Lemma task_outcome_ok cfg t rcode answers authority : rconfig_ok cfg → target_ok cfg t → q_qclass (t_question t) = kClassIN →
  Forall (about (labels (t_qname t), q_qtype (t_question t), kClassIN)) answers →
  answer_ok cfg (t_question t) (task_outcome t rcode answers authority).
Proof.
  intros [_ _ _ Hq] [Hh Hl Hc] Hcls Ha. cbn. split_and!; try done; [lia|].
  exists (t_chain t), answers, (t_qname t). split_and!; [done|done|lia|done].
Qed.

(** Following a CNAME: the chain grows by one hop, or the limit is reached. *)
Lemma follow_cname_spec cfg t rr : rconfig_ok cfg → target_ok cfg t → labels (rr_name rr) = labels (t_qname t) →
  let '(ok, t') := follow_cname cfg t rr in
  link_of t' = link_of t ∧ t_ancestry t' = t_ancestry t ∧ t_cut t' = t_cut t ∧ t_referrals t' = t_referrals t ∧
  (ok = true → target_ok cfg t' ∧ t_cname_hops t' = (t_cname_hops t + 1)%Z ∧ (t_cname_hops t < rc_max_cname_chain cfg)%Z).
Proof.
  intros [Hm _ _ _] [Hh Hl Hc] Hn. unfold follow_cname. destruct (rr_rdata rr) as [| | |target| | | | |] eqn:Er; try done.
  assert (u8 (t_cname_hops t + 1) = (t_cname_hops t + 1)%Z) as -> by (apply Z.mod_small; lia).
  destruct (Z.ltb_spec (rc_max_cname_chain cfg) (t_cname_hops t + 1)); [done|]. split_and!; try done. intros _. split_and!; [|done|lia].
  split; cbn; [lia| |by eapply leads_snoc]. rewrite zlen_app. unfold zlen at 2. cbn. lia.
Qed.

Section steps.
Context {C U : Type} `{AnswerCache C} `{UpstreamService U}.
Context (clock : nat → Z) (random : nat → Z → Z) (case_bits : nat → nat → Z) (calls : nat → SendCalls).
Context (cfg : ResolverConfig) (Hcfg : rconfig_ok cfg) (Hrandom : uniform random).
Abbreviation R := (Resolver C U).
Abbreviation Comp := (M (C:=C) (U:=U)).
Abbreviation quiet := (inv cfg None None []).
Implicit Types (s : R) (id : Z) (t : Task).

(** The task [id] runs and is [t]. *)
Definition running (iss : list Callback) id t s : Prop :=
  inv cfg (Some id) None [] iss s ∧ ready calls s ∧ r_tasks s !! id = Some t.

Lemma wp_running_put iss id t t' (Q : unit → R → Prop) s : running iss id t s → link_of t' = link_of t →
  (∀ s', running iss id t' s' → Q tt s') → wp (put id t') Q s.
Proof using.
  intros (Hinv & Hready & Ht) Hl HQ. eapply wp_put; [done|]. apply HQ. split_and!; [|done|apply lookup_insert_eq].
  eapply inv_put; [done|done|done|by left].
Qed.

Lemma wp_running_lookup iss id t name type (Q : option CacheEntry → R → Prop) s : running iss id t s →
  (∀ r s', running iss id t s' → (∀ e, r = Some e → entry_about (labels name, type, kClassIN) e) → Q r s') →
  wp (lookup_cache clock name type) Q s.
Proof using.
  intros (Hinv & Hready & Ht) HQ. eapply (wp_lookup clock calls cfg); [done|done|]. intros r s' Hinv' Hready' E He.
  apply HQ; [|done]. split_and!; [done|done|by rewrite E].
Qed.

Lemma wp_running_insert iss id t zone name type records trust ttl (negative : bool) (Q : unit → R → Prop) s : running iss id t s →
  Forall (in_zone zone) records →
  (if negative then trust = TrustRank.Authority ∧ is_subdomain_of name zone = true
   else records_about (labels name, type, kClassIN) records trust) →
  (∀ s', running iss id t s' → Q tt s') → wp (insert_cache clock zone name type records trust ttl negative) Q s.
Proof using.
  intros (Hinv & Hready & Ht) Hz Hr HQ. eapply (wp_insert clock calls cfg); [done|done| |]; [split_and!; [done|done|by destruct negative]|].
  intros s' Hinv' Hready' E. apply HQ. split_and!; [done|done|by rewrite E].
Qed.

Lemma wp_running_finish iss id t o s : running iss id t s → answer_ok cfg (t_question t) o →
  wp (finish clock random case_bits calls id o) (λ _, quiet iss) s.
Proof using Hcfg Hrandom. intros (Hinv & Hready & Ht) Ho. by eapply finish_task_ends. Qed.

Lemma wp_running_next iss id t s : running iss id t s → target_ok cfg t → counters_ok cfg t → placed t →
  wp (next_server clock random case_bits calls (finish clock random case_bits calls) kServerFuel id) (λ _, quiet iss) s.
Proof using Hcfg Hrandom.
  intros (Hinv & Hready & Ht) Htg Hcn Hpl. eapply next_server_inv; [done|done|by apply finish_task_ends|done..|]. unfold kServerFuel. lia.
Qed.

Lemma wp_running_send iss id t address transport s : running iss id t s → target_ok cfg t → counters_ok cfg t → placed t →
  wp (send_query clock case_bits calls (finish clock random case_bits calls) id address transport) (λ _, quiet iss) s.
Proof using Hcfg Hrandom. intros (Hinv & Hready & Ht) Htg Hcn Hpl. eapply send_query_inv; [done|by apply finish_task_ends|done..]. Qed.

(** ** Entering a zone *)

Lemma add_name_servers_inv iss id t0 zone t glue ns (Q : Task → R → Prop) : ∀ t' s, running iss id t0 s → entered zone t t' →
  (∀ t'' s', running iss id t0 s' → entered zone t t'' → Q t'' s') → wp (add_name_servers clock t' ns glue) Q s.
Proof using.
  induction ns as [|rr ns IH]; intros t' s Hr He HQ; cbn [add_name_servers]; [by apply wp_ret, HQ|].
  destruct (rr_rdata rr) as [| |nsdname| | | | | |]; try by apply IH.
  apply wp_bind. destruct (ipv4_addresses _) as [|a fresh].
  - apply wp_bind. eapply wp_running_lookup; [done|]. intros r s' Hr' _. apply wp_ret.
    set (addresses := match r with Some e => _ | None => _ end). apply IH; [done| |done].
    apply entered_add_servers. destruct addresses; auto with dns.
  - apply wp_ret. apply IH; [done| |done]. by apply entered_add_servers.
Qed.

Lemma enter_zone_inv iss id t0 t zone ns glue (Q : Task → R → Prop) s : running iss id t0 s →
  (∀ t' s', running iss id t0 s' → entered zone t t' → Q t' s') → wp (enter_zone clock t zone ns glue) Q s.
Proof using.
  intros Hr HQ. apply wp_bind. eapply add_name_servers_inv; [done|apply entered_reset|]. intros t' s' Hr' He.
  case_decide; [|by apply wp_ret, HQ]. apply wp_bind, wp_gets, wp_ret, HQ; auto with dns.
Qed.

Lemma closest_zone_inv iss id t0 t fuel (Q : Task → R → Prop) : ∀ z s, running iss id t0 s → is_subdomain_of (t_qname t) z = true →
  label_count z < fuel →
  (∀ zone t' s', running iss id t0 s' → entered zone t t' → is_subdomain_of (t_qname t) zone = true → Q t' s') →
  wp (closest_zone clock fuel t z) Q s.
Proof using.
  induction fuel as [|fuel IH]; intros z s Hr Hz Hf HQ; [lia|]. cbn [closest_zone]. apply wp_bind, wp_gets.
  destruct (r_stubs s !! labels z) as [servers|]; [apply wp_ret, (HQ z); auto with dns|].
  apply wp_bind. eapply wp_running_lookup; [done|]. intros r s' Hr' _.
  assert (Hup : wp (if decide (label_count z = 0) then hints ← gets r_hints; enter_zone clock t root_name (rh_ns hints) []
                    else closest_zone clock fuel t (parent z)) Q s').
  { case_decide as Hlc.
    - apply wp_bind, wp_gets. eapply enter_zone_inv; [done|]. intros t' s'' Hr'' He. eapply HQ; [done|done|apply is_subdomain_of_root].
    - apply IH; [done| | |done].
      + eapply is_subdomain_of_trans; [done|apply parent_ancestor].
      + unfold label_count in *. rewrite parent_labels. destruct (labels z); cbn in *; lia. }
  destruct r as [[[|rr rrs] ? ? ? ? []]|]; try done.
  eapply enter_zone_inv; [done|]. intros t' s'' Hr'' He. by eapply HQ.
Qed.

(** ** Steps *)

(** What stays of a task while CNAMEs are followed. *)
Record onward (t t' : Task) : Prop := {
  ow_link : link_of t' = link_of t;
  ow_ancestry : t_ancestry t' = t_ancestry t;
  ow_cut : t_cut t' = t_cut t;
  ow_referrals : t_referrals t' = t_referrals t;
}.

Lemma onward_trans t1 t2 t3 : onward t1 t2 → onward t2 t3 → onward t1 t3.
Proof using. intros [] []. split; congruence. Qed.

Lemma onward_question t t' : onward t t' → t_question t' = t_question t.
Proof using. intros [Hl _ _ _]. by injection Hl. Qed.

Lemma follow_inv {A} iss id t rr (go stop : Comp A) (Q : A → R → Prop) s : running iss id t s → target_ok cfg t →
  labels (rr_name rr) = labels (t_qname t) →
  (∀ t' s', running iss id t' s' → onward t t' → target_ok cfg t' → t_cname_hops t' = (t_cname_hops t + 1)%Z →
     (t_cname_hops t < rc_max_cname_chain cfg)%Z → wp go Q s') →
  (∀ t' s', running iss id t' s' → wp stop Q s') →
  wp (c ← gets r_config; let '(ok, t) := follow_cname c t rr in _ ← put id t; if ok then go else stop) Q s.
Proof using Hcfg.
  intros Hr Htg Hn Htrue Hfalse. apply wp_bind, wp_gets. rewrite (iv_config _ _ _ _ _ _ (proj1 Hr)).
  pose proof (follow_cname_spec cfg t rr Hcfg Htg Hn) as Hf. destruct (follow_cname cfg t rr) as [ok t'].
  destruct Hf as (El & Ea & Ec & Er & Hok). apply wp_bind. eapply wp_running_put; [done|done|]. intros s' Hr'.
  destruct ok; [|by eapply Hfalse]. destruct (Hok eq_refl) as (? & ? & ?). by eapply Htrue.
Qed.

(** Finishing and then stopping. *)
Lemma wp_finished {A} iss id t o (a : A) (Q : A → R → Prop) s : running iss id t s → answer_ok cfg (t_question t) o →
  (∀ s', quiet iss s' → Q a s') → wp (_ ← finish clock random case_bits calls id o; mret a) Q s.
Proof using Hcfg Hrandom.
  intros Hr Ho HQ. apply wp_bind. eapply wp_mono; [by eapply wp_running_finish|]. intros [] s' Hs'. by apply HQ.
Qed.

(** The loop over the cache ends: each turn but the last follows a CNAME. *)
Lemma step_cached_inv iss id fuel (Q : bool → R → Prop) : ∀ t s, running iss id t s → target_ok cfg t →
  q_qclass (t_question t) = kClassIN → (rc_max_cname_chain cfg - t_cname_hops t < Z.of_nat fuel)%Z →
  (∀ s', quiet iss s' → Q false s') →
  (∀ t' s', running iss id t' s' → onward t t' → target_ok cfg t' → Q true s') →
  wp (step_cached clock random case_bits calls fuel id) Q s.
Proof using Hcfg Hrandom.
  induction fuel as [|fuel IH]; intros t s Hr Htg Hcls Hf Hdone Hgo; [destruct (tg_hops _ _ Htg); lia|]. cbn [step_cached].
  apply wp_bind. eapply wp_deref; [by destruct Hr as (_ & _ & ?)|].
  apply wp_bind. eapply wp_running_lookup; [done|]. intros [nx|] s1 Hr1 _.
  { eapply wp_finished; [done|by apply task_outcome_ok|done]. }
  apply wp_bind. eapply wp_running_lookup; [done|]. intros hit s2 Hr2 Hhit.
  set (answer := match hit with Some e => _ | None => _ end).
  assert (Hans : ∀ o, answer = Some o → answer_ok cfg (t_question t) o).
  { intros o. subst answer. destruct hit as [e|]; [|done]. specialize (Hhit e eq_refl). destruct (ce_is_negative e) eqn:En.
    - intros [= <-]. by apply task_outcome_ok.
    - case_decide as Et; [|done]. intros [= <-]. destruct (Hhit En) as [_ Ha]. apply task_outcome_ok; auto. }
  clearbody answer. destruct answer as [o|]; [eapply wp_finished; eauto|].
  destruct (_ =? kTypeCNAME)%Z; [apply wp_ret; by eapply Hgo|].
  apply wp_bind. eapply wp_running_lookup; [done|]. intros cname s3 Hr3 Hcn.
  assert (Hret : wp (mret true) Q s3) by (apply wp_ret; by eapply Hgo).
  destruct cname as [[[|rr rrs] [] ? ? ? []]|]; try exact Hret. clear Hret.
  destruct (Hcn _ eq_refl eq_refl) as [Hnm _]. cbn in Hnm. inv Hnm.
  eapply follow_inv; [done|done|by destruct select (named _ rr)|..].
  - intros t' s' Hr' Ho Htg' Eh Hlt. apply (IH t'); [done|done|by rewrite (onward_question _ _ Ho)|lia|done|].
    intros t'' s'' Hr'' Ho' Htg''. eapply Hgo; [done|by eapply onward_trans|done].
  - intros t' s' Hr'. by eapply wp_finished.
Qed.

Lemma resolve_step_inv iss id t s : running iss id t s → target_ok cfg t → (0 ≤ t_referrals t ≤ rc_max_referral_depth cfg)%Z →
  wp (step clock random case_bits calls id) (λ _, quiet iss) s.
Proof using Hcfg Hrandom.
  intros Hr Htg Href. apply wp_bind, wp_find. rewrite (proj2 (proj2 Hr)).
  destruct (Z.eqb_spec (q_qclass (t_question t)) kClassIN) as [Hcls|]; cbn [negb]; [|by eapply wp_running_finish].
  apply wp_bind. eapply (step_cached_inv _ _ _ _ t); [done|done|done| |done|].
  { destruct Htg as [? _ _], Hcfg as [? _ _ _]. unfold kChainFuel. lia. }
  intros t1 s1 Hr1 Ho Htg1. pose proof (onward_question _ _ Ho) as Eq. apply wp_bind. eapply wp_deref; [by destruct Hr1 as (_ & _ & ?)|].
  apply wp_bind. eapply closest_zone_inv; [done|apply is_subdomain_of_refl|lia|]. intros zone t2 s2 Hr2 He Hz.
  destruct (entered_ok cfg zone t1 t2 Hcfg He Htg1) as (Htg2 & Hcn2 & Hpl2); [by rewrite (ow_referrals _ _ Ho)|by rewrite Eq|done|].
  apply wp_bind. eapply wp_running_put; [done|by destruct He as [[] _ _ _]|]. intros s3 Hr3. by eapply wp_running_next.
Qed.

(** ** Responses *)

Lemma wp_running_rate iss id t t' usable rtt (Q : unit → R → Prop) s : running iss id t s →
  (∀ s', running iss id t s' → Q tt s') → wp (rate clock t' usable rtt) Q s.
Proof using. intros (Hinv & Hready & Ht) HQ. apply wp_modify, HQ. split_and!; [by apply inv_selection|done|done]. Qed.

Lemma cache_glue_inv iss id t zone additional ns (Q : unit → R → Prop) : ∀ s, running iss id t s → Forall (in_zone zone) additional →
  (∀ s', running iss id t s' → Q tt s') → wp (cache_glue clock zone additional ns) Q s.
Proof using.
  induction ns as [|rr ns IH]; intros s Hr Hz HQ; cbn [cache_glue]; [by apply wp_ret, HQ|].
  destruct (rr_rdata rr) as [| |nsdname| | | | | |]; try by apply IH. apply wp_bind, wp_when.
  destruct (negb _); [|by apply IH]. eapply wp_running_insert; [done|by apply collect_sub|apply about_records, collect_about|].
  intros s' Hr'. by apply IH.
Qed.

(** The loop over the answer section ends, like that over the cache. *)
Lemma follow_answers_inv iss id response rank fuel (Q : option bool → R → Prop) : ∀ followed t s, running iss id t s → target_ok cfg t →
  q_qclass (t_question t) = kClassIN → (rc_max_cname_chain cfg - t_cname_hops t < Z.of_nat fuel)%Z →
  Forall (in_zone (z_zone (t_cut t))) (m_answers response) → Forall (in_zone (z_zone (t_cut t))) (m_additional response) →
  (∀ s', quiet iss s' → Q None s') → (∀ s', running iss id t s' → Q (Some followed) s') →
  (∀ t' s', running iss id t' s' → onward t t' → target_ok cfg t' → Q (Some true) s') →
  wp (follow_answers clock random case_bits calls fuel id response rank followed) Q s.
Proof using Hcfg Hrandom.
  induction fuel as [|fuel IH]; intros followed t s Hr Htg Hcls Hf Hza Hzg Hdone Hstay Hgo; [destruct (tg_hops _ _ Htg); lia|].
  cbn [follow_answers]. apply wp_bind. eapply wp_deref; [by destruct Hr as (_ & _ & ?)|].
  pose proof (collect_about (m_answers response) (t_qname t) (q_qtype (t_question t))) as Hab.
  pose proof (collect_sub (m_answers response) (t_qname t) (q_qtype (t_question t)) _ Hza) as Hsub.
  destruct (collect _ _ (q_qtype _)) as [|rr rrs].
  - destruct (_ =? kTypeCNAME)%Z; [by apply wp_ret, Hstay|]. clear Hab Hsub.
    pose proof (collect_about (m_answers response) (t_qname t) kTypeCNAME) as Hab.
    pose proof (collect_sub (m_answers response) (t_qname t) kTypeCNAME _ Hza) as Hsub.
    destruct (collect _ _ kTypeCNAME) as [|cname rest]; [by apply wp_ret, Hstay|]. inv Hab. inv Hsub.
    apply wp_bind. eapply wp_running_insert; [done|by apply Forall_singleton|by apply about_records, Forall_singleton|]. intros s1 Hr1.
    eapply follow_inv; [done|done|by destruct select (about _ cname) as [[] _]|..].
    + intros t' s' Hr' Ho Htg' Eh Hlt. pose proof (ow_cut _ _ Ho) as Ec.
      apply (IH true t'); rewrite ?Ec; [done|done|by rewrite (onward_question _ _ Ho)|lia|done|done|done|..].
      * intros s'' Hr''. by eapply Hgo.
      * intros t'' s'' Hr'' Ho' Htg''. eapply Hgo; [done|by eapply onward_trans|done].
    + intros t' s' Hr'. by eapply wp_finished.
  - apply wp_bind. eapply wp_running_insert; [done|done|by apply about_records|]. intros s1 Hr1.
    apply wp_bind, wp_when. set (Q' := λ (_ : unit), _).
    assert (Hq : ∀ s', running iss id t s' → Q' tt s').
    { intros s' Hr'. subst Q'. eapply wp_finished; [done| |done]. by apply task_outcome_ok. }
    destruct (_ =? kTypeNS)%Z; [by eapply cache_glue_inv|by apply Hq].
Qed.

Lemma without_answer_inv iss id t response soa ns downward s : running iss id t s → target_ok cfg t → counters_ok cfg t → placed t →
  (∀ rr, soa = Some rr → in_zone (z_zone (t_cut t)) rr) → Forall (in_zone (z_zone (t_cut t))) (m_additional response) →
  (∀ first rest, ns = first :: rest → Forall (in_zone (z_zone (t_cut t))) ns ∧
     Forall (named (labels (rr_name first), kTypeNS, kClassIN)) ns ∧ (downward = true → is_subdomain_of (t_qname t) (rr_name first) = true)) →
  wp (without_answer clock random case_bits calls id t response soa ns downward) (λ _, quiet iss) s.
Proof using Hcfg Hrandom.
  intros Hr Htg Hcn [Hcls Hz] Hsoa Hglue Hns. unfold without_answer.
  set (proof := match soa with Some rr => [rr] | None => [] end).
  assert (Hkeep : ∀ type (Q : unit → R → Prop), (∀ s', running iss id t s' → Q tt s') →
    wp match soa with
       | Some rr => insert_cache clock (z_zone (t_cut t)) (t_qname t) type proof TrustRank.Authority (negative_ttl rr) true
       | None => mret tt
       end Q s).
  { intros type Q HQ. subst proof. destruct soa as [rr|]; [|by apply wp_ret, HQ].
    eapply wp_running_insert; [done|constructor; [by apply Hsoa|constructor]|done|done]. }
  destruct (_ =? RCode.NXDomain)%Z.
  { apply wp_bind, Hkeep. intros s' Hr'. eapply wp_running_finish; [done|]. by apply task_outcome_ok. }
  destruct ns as [|first rest].
  - destruct (_ || _); [|by eapply wp_running_next]. apply wp_bind, Hkeep. intros s' Hr'.
    eapply wp_running_finish; [done|]. by apply task_outcome_ok.
  - destruct (Hns first rest eq_refl) as (Hzn & Hnm & Hdown). destruct downward; cbn [negb]; [|by eapply wp_running_next].
    apply wp_bind, wp_gets. rewrite (iv_config _ _ _ _ _ _ (proj1 Hr)). destruct Hcn as [Hcn1 Hcn2 Hcn3].
    assert (Hn0 : (0 ≤ u16 (t_referrals t + 1))%Z) by (by apply Z.mod_pos_bound). set (n := u16 (t_referrals t + 1)) in *. clearbody n.
    apply wp_bind. eapply wp_running_put; [done|done|]. intros s1 Hr1. cbn [set_referrals t_referrals].
    set (t1 := set_referrals t _) in *.
    destruct (Z.ltb_spec (rc_max_referral_depth cfg) n); [by eapply wp_running_finish|].
    apply wp_bind. eapply wp_running_insert; [done|done|by split|]. intros s2 Hr2.
    apply wp_bind. eapply cache_glue_inv; [done|done|]. intros s3 Hr3.
    apply wp_bind. eapply enter_zone_inv; [done|]. intros t2 s4 Hr4 He.
    destruct (entered_ok cfg (rr_name first) t1 t2 Hcfg He) as (Htg2 & Hcn' & Hpl2); [by destruct Htg|cbn; lia|done|by apply Hdown|].
    apply wp_bind. eapply wp_running_put; [done|by destruct He as [[] _ _ _]|]. intros s5 Hr5. by eapply wp_running_next.
Qed.

Lemma handle_response_inv iss id t response rtt s : running iss id t s → target_ok cfg t → counters_ok cfg t → placed t →
  wp (handle_response clock random case_bits calls id response rtt) (λ _, quiet iss) s.
Proof using Hcfg Hrandom.
  intros Hr Htg Hcn Hpl. apply wp_bind. eapply wp_deref; [by destruct Hr as (_ & _ & ?)|].
  cbv zeta. generalize (h_rcode (m_header response)). intros rcode. generalize (if n_sent_0x20 (t_sent t) then restore_case response (t_qname t) else response).
  clear response. intros response. destruct (h_tc _).
  { apply wp_bind. eapply wp_running_rate; [done|]. intros s1 Hr1. destruct (n_over_tcp _); [by eapply wp_running_next|by eapply wp_running_send]. }
  destruct (negb _ && negb _).
  { apply wp_bind. eapply wp_running_rate; [done|]. intros s1 Hr1. by eapply wp_running_next. }
  destruct (filtered_in_zone response (z_zone (t_cut t))) as (Hza & Hzu & Hzg). generalize dependent ((filter_to_bailiwick response (z_zone (t_cut t))).2).
  clear response. intros response Hza Hzu Hzg. set (ns := if h_aa _ then [] else _). set (soa := find_soa _ _). set (downward := match ns with [] => _ | _ :: _ => _ end).
  apply wp_bind. eapply wp_running_rate; [done|]. intros s1 Hr1.
  apply wp_bind. eapply (follow_answers_inv _ _ _ _ _ _ false t); [done|done|by destruct Hpl| |done|done|by intros|..].
  - destruct Htg as [? _ _], Hcfg as [? _ _ _]. unfold kChainFuel. lia.
  - intros s2 Hr2. apply without_answer_inv; [done..| |done|].
    + intros rr. by apply (find_soa_spec (in_zone (z_zone (t_cut t)))).
    + intros first rest E. subst downward. rewrite E.
      assert (Er : referral_ns (m_authority response) = first :: rest) by (subst ns; by destruct (h_aa _)).
      destruct (referral_ns_spec _ _ _ _ Hzu Er) as [? ?]. split_and!; [done|done|]. by intros [_ ?]%andb_true_iff.
  - intros t' s2 Hr2 Ho Htg'. eapply resolve_step_inv; [done|done|]. rewrite (ow_referrals _ _ Ho). by destruct Hcn.
Qed.

(** An upstream query has ended: its task runs again. *)
Lemma on_response_inv iss id t t' result s : running iss id t' (with_task s id t') → r_tasks s !! id = Some t → t' = set_upstream t 0 →
  target_ok cfg t → counters_ok cfg t → placed t →
  wp (on_response clock random case_bits calls id result) (λ _, quiet iss) s.
Proof using Hcfg Hrandom.
  intros Hr Ht -> Htg Hcn Hpl. apply wp_bind, wp_find. rewrite Ht. cbv zeta. set (t' := set_upstream t 0) in *.
  assert (Htg' : target_ok cfg t') by (by destruct Htg). assert (Hcn' : counters_ok cfg t') by (by destruct Hcn).
  assert (Hpl' : placed t') by (by destruct Hpl). clearbody t'. clear Htg Hcn Hpl.
  apply wp_bind. eapply wp_put; [done|]. set (s1 := with_task s id t') in *. clearbody s1. apply wp_bind, wp_now. intros n.
  assert (Hr1 : running iss id t' (set_ticks s1 (S (r_ticks s1)))) by (destruct Hr as (? & ? & ?); split_and!; [by apply inv_ticks|done|done]).
  clear Hr. revert Hr1. generalize (set_ticks s1 (S (r_ticks s1))). clear s1. intros s1 Hr.
  assert (Hsel : ∀ x, running iss id t' (set_selection s1 x)) by (intros x; destruct Hr as (? & ? & ?); split_and!; [by apply inv_selection|done|done]).
  destruct result as [[]|m].
  - apply wp_bind, wp_modify, wp_bind. eapply wp_running_put; [by apply Hsel|done|]. intros s2 Hr2.
    eapply wp_running_next; [done|by destruct Htg'|by destruct Hcn'|done].
  - apply wp_bind, wp_modify, wp_bind, wp_ret. by eapply wp_running_next.
  - apply wp_bind, wp_modify, wp_bind. eapply (wp_running_put iss id t'); [|done|].
    { destruct Hr as (? & ? & ?). split_and!; [by apply inv_no_0x20|done|done]. }
    intros s2 Hr2. eapply wp_running_send; [done|by destruct Htg'|by destruct Hcn'|done].
  - do 2 apply wp_bind, wp_gets. apply wp_bind, wp_when. destruct (r_spoof_alert s1); [|by eapply wp_running_send].
    apply wp_modify. eapply wp_running_send; [|done..]. destruct Hr as (? & ? & ?). split_and!; [by apply inv_log_event|done|done].
  - by eapply handle_response_inv.
Qed.

(** ** The operations *)

Lemma start_inv iss id x l s : quiet iss s → ready calls (set_loop s l) → armed (r_loop s) !! x = Some (StartOf id) → loop_inv l →
  armed l = delete x (armed (r_loop s)) → wp (on_timer clock random case_bits calls (StartOf id)) (λ _, quiet iss) (set_loop s l).
Proof using Hcfg Hrandom.
  intros Hinv Hready Hx Hl Ea. destruct Hinv as [Ec Hlu Hnx Hlp Hsn Htk Hbd Hsp Hus Hca Hlog Htok].
  destruct (links_start _ _ _ _ _ _ id x Hlu Hx) as (k & Hk & Hlu'). unfold links in Hk. rewrite lookup_fmap in Hk.
  destruct (r_tasks s !! id) as [t|] eqn:Ht; [|done]. assert (k = link_of t) as -> by (cbn in Hk; congruence).
  pose proof (Htk id t Ht ltac:(done)) as Hok. apply wp_bind, wp_find. cbn [set_loop r_tasks]. rewrite Ht.
  apply wp_bind. eapply wp_put; [done|]. eapply (resolve_step_inv iss id (set_start_timer t 0)); [|by destruct Hok as [[] _ _]|by destruct Hok as [_ [] _]].
  split_and!; [|done|apply lookup_insert_eq]. split; try done; cbn [with_task set_tasks set_loop r_tasks r_loop r_log r_budgets].
  - rewrite links_with, Ea. exact Hlu'.
  - intros i y [[<- <-]|[? Hi]]%lookup_insert_Some Hne; [done|]. by eapply Htk.
  - intros i y [[<- <-]|[? Hi]]%lookup_insert_Some; cbn; eauto.
  - rewrite links_with. rewrite (waiting_update _ id (link_of t)); [done| |done]. cbn. by apply lookup_links.
Qed.

Lemma reply_inv iss qid u result s : quiet iss s → ready calls (set_service s u (r_owner s) (r_sends s)) →
  qid ∈ us_in_flight (r_upstream s) → us_in_flight u = us_in_flight (r_upstream s) ∖ {[qid]} → us_sane u →
  ∃ id, r_owner s !! qid = Some id ∧
    wp (on_response clock random case_bits calls id result) (λ _, quiet iss) (set_service s u (r_owner s) (r_sends s)).
Proof using Hcfg Hrandom.
  intros Hinv Hready Hq Eu Hsu. pose proof Hinv as [Ec Hlu Hnx Hlp Hsn Htk Hbd Hsp Hus Hca Hlog Htok].
  destruct (links_reply _ _ _ _ _ _ qid Hlu Hq) as (id & k & Ho & Hk & Hlu'). exists id. split; [done|].
  unfold links in Hk. rewrite lookup_fmap in Hk. destruct (r_tasks s !! id) as [t|] eqn:Ht; [|done].
  assert (k = link_of t) as -> by (cbn in Hk; congruence). pose proof (Htk id t Ht ltac:(done)) as Hok.
  assert (Hst : t_start_timer t = 0%Z).
  { pose proof (lu_wait _ _ _ _ _ _ _ _ Hlu' id _ (lookup_insert_eq _ _ _)) as Hw. rewrite decide_True in Hw by done. by destruct Hw as (_ & _ & ?). }
  eapply (on_response_inv iss id t); [|done|done|by destruct Hok..|by apply (tk_placed _ _ Hok)].
  split_and!; [|done|apply lookup_insert_eq]. split; try done; cbn [with_task set_tasks set_service r_tasks r_upstream r_owner r_log r_budgets].
  - rewrite links_with, Eu. exact Hlu'.
  - intros i y [[<- <-]|[? Hi]]%lookup_insert_Some Hne; [done|]. by eapply Htk.
  - intros i y [[<- <-]|[? Hi]]%lookup_insert_Some; cbn; eauto.
  - rewrite links_with. rewrite (waiting_update _ id (link_of t)); [done| |done]. cbn. by apply lookup_links.
Qed.

Lemma no_reply_inv iss u s : quiet iss s → us_in_flight u = us_in_flight (r_upstream s) → us_sane u → quiet iss (set_service s u (r_owner s) (r_sends s)).
Proof using. intros [] Eu Hsu. split; try done. cbn. by rewrite Eu. Qed.

(** A new client query: a task, its budget, its two timers and its entry in
    the in-flight table. *)
Lemma resolve_new_inv iss q done k s : quiet iss s → ready calls s → asks done q → token done = [k] →
  r_in_flight s !! question_id q = None → wp (resolve_client clock q done) (λ _, quiet (k :: iss)) s.
Proof using Hcfg.
  intros Hinv (Hnext & Hroom & _) Hasks Htok Hno. unfold resolve_client. apply wp_bind, wp_gets. rewrite Hno. apply wp_bind, wp_ret.
  apply wp_bind, wp_bind, wp_gets, wp_bind, wp_modify, wp_ret.
  pose proof (fresh_task _ _ _ _ _ _ Hinv) as Hfresh. pose proof (iv_next _ _ _ _ _ _ Hinv) as Hnx. pose proof (iv_loop _ _ _ _ _ _ Hinv) as Hlp.
  apply wp_bind. apply wp_spawn; [done|by eapply room_le; [exact Hroom|lia]|cbn; lia|done|].
  cbn [set_budgets r_next_task_id r_loop r_tasks]. intros started x l tk Hl Hx Hax Ex Ea En Et.
  apply wp_bind, wp_modify, wp_bind. eapply wp_deref; [cbn; apply lookup_insert_eq|]. apply wp_bind. eapply wp_put; [cbn; apply lookup_insert_eq|].
  apply wp_bind, wp_gets, wp_bind. apply wp_add_timer; [done|unfold room in *; cbn [with_task set_tasks set_in_flight set_loop set_ticks r_loop]; lia|].
  intros n y l' Hl' Hy Ey Hay Ea' _ _ _. eapply wp_bind, wp_deref; [cbn; apply lookup_insert_eq|]. eapply wp_put; [cbn; apply lookup_insert_eq|].
  cbn [with_task set_tasks set_in_flight set_loop set_ticks set_budgets r_tasks r_next_task_id r_in_flight r_loop] in *.
  set (t := set_deadline _ y). rewrite Ea in Ea', Hay.
  match goal with |- inv _ _ _ _ _ ?st => assert (Etasks : r_tasks st = <[r_next_task_id s := t]> (r_tasks s)) by (cbn; by rewrite !insert_insert_eq) end.
  assert (Hyx : x ≠ y) by lia.
  assert (Et' : task_ok cfg t).
  { destruct (new_task_ok cfg Hcfg q (length (r_budgets s)) [] started x done Hx) as [[] [] _]. by split; [split|split|]. }
  destruct Hinv as [Ec Hlu _ _ Hsn Htk Hbd Hsp Hus Hca Hlog Hcl].
  split; try done; unfold links; rewrite ?Etasks, ?fmap_insert;
    cbn [with_task set_tasks set_in_flight set_loop set_ticks set_budgets r_next_task_id r_in_flight r_loop r_upstream r_owner r_budgets r_log r_config].
  - rewrite Ea'.
    apply links_client; [done|done|done|done|done|done|done|done|by rewrite lookup_insert_ne in Hay].
  - lia.
  - intros i u [[<- <-]|[? Hi]]%lookup_insert_Some _; [done|by eapply Htk].
  - rewrite length_app. cbn. intros i u [[<- <-]|[? Hi]]%lookup_insert_Some; [cbn; lia|]. specialize (Hbd _ _ Hi). lia.
  - intros b m [Hb|[Hb Hm]]%lookup_app_Some; [by apply Hsp|]. apply list_lookup_singleton_Some in Hm as [Hm <-].
    rewrite (proj2 Hus) by lia. split; [done|]. destruct Hcfg; lia.
  - destruct Hus as [? Hus]. rewrite length_app. cbn. split; [lia|]. intros b Hb. apply Hus. lia.
  - rewrite waiting_insert by (by rewrite lookup_fmap, Hfresh).
    unfold tokens. cbn. rewrite Htok. cbn. constructor. exact Hcl.
Qed.

(** The same question again: the caller joins the task that is resolving it. *)
Lemma resolve_join_inv iss q done k id s : quiet iss s → asks done q → token done = [k] →
  r_in_flight s !! question_id q = Some id → wp (resolve_client clock q done) (λ _, quiet (k :: iss)) s.
Proof using.
  intros Hinv Hasks Htok Hyes. pose proof Hinv as [Ec Hlu Hnx Hlp Hsn Htk Hbd Hsp Hus Hca Hlog Hcl].
  destruct (lu_flight _ _ _ _ _ _ _ _ Hlu _ _ Hyes) as (kt & Hk & Hclient & Hqid). unfold links in Hk. rewrite lookup_fmap in Hk.
  destruct (r_tasks s !! id) as [t|] eqn:Ht; [|done]. assert (kt = link_of t) as -> by (cbn in Hk; congruence). clear Hk.
  unfold resolve_client. apply wp_bind, wp_gets. rewrite Hyes. apply wp_bind, wp_find. rewrite Ht. apply wp_bind, wp_now. intros n.
  eapply wp_put; [done|]. set (t' := set_client t _ _ _). pose proof (lookup_links _ _ _ Ht) as Hk.
  split; try done; cbn [with_task set_tasks set_ticks r_tasks r_budgets].
  - rewrite links_with. apply (links_join (links s) _ _ _ _ _ id (link_of t) (mkWaiter q n done)); done.
  - intros i y [[<- <-]|[? Hi]]%lookup_insert_Some _; [|by eapply Htk]. by destruct (Htk id t Ht) as [[] [] ?].
  - intros i y [[<- <-]|[? Hi]]%lookup_insert_Some; cbn; eauto.
  - destruct Hus. split; [cbn; lia|done].
  - rewrite links_with. cbn [set_ticks r_log]. change (links (set_ticks s _)) with (links s).
    rewrite (waiting_delete (<[id := link_of t']> (links s)) id (link_of t')) by apply lookup_insert_eq.
    rewrite delete_insert_eq. rewrite <-Hcl, (waiting_delete (links s) id _ Hk). unfold tokens. cbn.
    rewrite fmap_app, join_app. cbn. rewrite Htok. cbn. solve_Permutation.
Qed.
End steps.
