(* ===== verification/ResolverProps.v ===== *)
(** * What the resolver guarantees

    The invariant of [ResolverInv], kept by every operation, read as the
    properties of the resolver over any sequence of calls, timer turns and
    upstream events: it never faults, tells every caller exactly once and by
    its deadline, bounds the queries it sends, answers only what was asked,
    stores only what the answering zone may say, and leaves nothing behind. *)

From stdpp Require Import base tactics numbers list gmap fin_maps.
From Stdlib Require Import ZArith Lia.
From S2P Require Import Prelude Names Types Wire Builder Cache Security ServerSelection Upstream EventLoop RootHints Interfaces.
From S2P Require Import Resolver ResolverLinks ResolverInv ResolverSteps.

Section props.
Context {C U : Type} `{AnswerCache C} `{UpstreamService U}.
Context (clock : nat → Z) (random : nat → Z → Z) (case_bits : nat → nat → Z) (calls : nat → SendCalls).
Context (cfg : ResolverConfig).
Abbreviation R := (Resolver C U).
Abbreviation quiet := (inv cfg None None []).
Abbreviation exec := (exec clock random case_bits calls).
Implicit Types (s : R) (op : Op) (ops : list Op).

(** What the environment provides to the next operation: ids that are not
    used up, and system calls for one more upstream query. *)
Definition can_run op s : Prop :=
  match op with
  | UpstreamCalls ev => ready calls (set_service s (us_event (r_upstream s) ev).2 (r_owner s) (r_sends s))
  | _ => ready calls s
  end.

Definition issued op : list Callback := match op with Resolve q k => [ClientDone k q] | PrimeRoot k => [PrimeDone k] | _ => [] end.

Fixpoint run_all ops s : mem R :=
  match ops with [] => Ok s | op :: ops => '(_, s) ← exec op s; run_all ops s end.

Fixpoint all_can_run ops s : Prop :=
  match ops with
  | [] => True
  | op :: ops => can_run op s ∧ match exec op s with Ok (_, s) => all_can_run ops s | _ => True end
  end.

(** A new resolver: its cache obeys the discipline, its client is idle. *)
Record starts (s : R) : Prop := {
  st_config : rconfig_ok cfg;
  st_random : uniform random;
  st_new : ∃ hints cache client alert, s = (if alert : bool then on_spoof_alert else id) (new_resolver cfg hints cache client) ∧
    ac_holds entry_about cache ∧ us_sane client ∧ us_in_flight client = ∅;
}.

Lemma starts_inv s : starts s → quiet [] s.
Proof using.
  intros [Hc _ (hints & cache & client & alert & -> & Hcache & Hsane & Hidle)].
  assert (Hq : quiet [] (new_resolver cfg hints cache client)).
  { split; try done; cbn [new_resolver r_next_task_id r_loop r_tasks r_budgets length].
    - unfold links. cbn [new_resolver r_tasks r_loop r_upstream r_in_flight r_owner]. rewrite fmap_empty, Hidle.
      split; try by (intros; simplify_map_eq).
    - apply new_loop_inv. }
  by destruct alert; destruct Hq.
Qed.

Lemma exec_inv iss op s : rconfig_ok cfg → uniform random → quiet iss s → can_run op s → wp (exec op) (λ _, quiet (issued op ++ iss)) s.
Proof using.
  intros Hcfg Hrandom Hinv Hrun.
  assert (Hres : ∀ q done k, ready calls s → asks done q → token done = [k] → wp (resolve_client clock q done) (λ _, quiet (k :: iss)) s).
  { intros q done k Hready Ha Ht. destruct (r_in_flight s !! question_id q) as [id|] eqn:E;
      [by eapply resolve_join_inv|by eapply resolve_new_inv]. }
  destruct op as [q k|k|at_time newest|ev]; cbn [can_run issued app Resolver.exec] in *; [by apply Hres..| |].
  - apply wp_bind, wp_gets. destruct (pop_due _ _ _) as [[[x cb] l]|] eqn:Ep; [|done].
    pose proof (iv_loop _ _ _ _ _ _ Hinv) as Hlp. destruct (armed_pop _ _ _ _ _ _ Hlp Ep) as (Hl & Hx & Ea & En & Et).
    apply wp_bind, wp_modify. destruct cb as [id|id]; [|by eapply deadline_inv].
    eapply start_inv; [done|done|done| |done|done|done]. destruct Hrun as (? & Hroom & ?). split_and!; [done| |done].
    unfold room in *. cbn [set_loop r_loop]. by rewrite En, Et.
  - apply wp_bind. unfold wp at 1, action. pose proof (us_event_law (r_upstream s) ev (iv_sane _ _ _ _ _ _ Hinv)) as Hev.
    destruct (us_event (r_upstream s) ev) as [[[qid result]|] u].
    + destruct Hev as (Hq & Eu & Hu). destruct (reply_inv clock random case_bits calls cfg Hcfg Hrandom iss qid u result s) as (id & Ho & Hwp); try done.
      apply wp_bind, wp_gets. cbn [set_service r_owner]. by rewrite Ho.
    + destruct Hev as (Eu & Hu). by apply no_reply_inv.
Qed.

Lemma run_inv s0 ops : rconfig_ok cfg → uniform random → ∀ iss, quiet iss s0 → all_can_run ops s0 →
  ∃ s, run_all ops s0 = Ok s ∧ quiet (reverse (ops ≫= issued) ++ iss) s.
Proof using.
  intros Hcfg Hrandom. revert s0. induction ops as [|op ops IH]; intros s0 iss Hinv Hrun; [by exists s0|].
  destruct Hrun as [Hop Hrest]. pose proof (exec_inv iss op s0 Hcfg Hrandom Hinv Hop) as Hwp. unfold wp in Hwp. cbn [run_all].
  destruct (exec op s0) as [[[] s1]| |]; [|done..]. destruct (IH s1 _ Hwp Hrest) as (s & Hs & Hq). exists s. split; [done|].
  assert (reverse ((op :: ops) ≫= issued) ++ iss = reverse (ops ≫= issued) ++ issued op ++ iss) as ->; [|done].
  rewrite bind_cons, reverse_app, <-app_assoc. by destruct op.
Qed.

(** Every run from a new resolver ends in a state that satisfies the
    invariant. *)
Lemma runs_inv s0 ops : starts s0 → all_can_run ops s0 → ∃ s, run_all ops s0 = Ok s ∧ quiet (reverse (ops ≫= issued)) s.
Proof using.
  intros Hs Hrun. pose proof Hs as [Hc Hr _]. destruct (run_inv s0 ops Hc Hr [] (starts_inv s0 Hs) Hrun) as (s & ? & Hq).
  rewrite app_nil_r in Hq. eauto.
Qed.

(** ** What stays when a task ends *)

(** A computation that adds no task. *)
Definition shrinks {A} (m : M (C:=C) (U:=U) A) : Prop :=
  ∀ s, match m s with Ok (_, s') => r_tasks s' ⊆ r_tasks s | _ => True end.

Lemma shrinks_bind {A B} (m : M A) (k : A → M B) : shrinks m → (∀ a, shrinks (k a)) → shrinks (m ≫= k).
Proof using.
  intros Hm Hk s. specialize (Hm s). unfold mbind, M_bind. destruct (m s) as [[a s1]| |]; [|done..].
  specialize (Hk a s1). destruct (k a s1) as [[b s2]| |]; [|done..]. by etrans.
Qed.

Lemma shrinks_modify f : (∀ s, r_tasks (f s) ⊆ r_tasks s) → shrinks (modify f).
Proof using. intros Hf s. apply Hf. Qed.

Lemma shrinks_ret {A} (a : A) : shrinks (mret a).
Proof using. intros s. change (r_tasks s ⊆ r_tasks s). done. Qed.
Lemma shrinks_gets {A} (f : R → A) : shrinks (gets f).
Proof using. intros s. change (r_tasks s ⊆ r_tasks s). done. Qed.
Lemma shrinks_now : shrinks (now clock).
Proof using. intros s. change (r_tasks s ⊆ r_tasks s). done. Qed.

Lemma shrinks_when b m : shrinks m → shrinks (when b m).
Proof using. destruct b; [done|]. intros _. apply shrinks_ret. Qed.

Lemma shrinks_erase id : shrinks (erase_task id).
Proof using. apply shrinks_modify. intros s. apply delete_subseteq. Qed.

Lemma shrinks_release cnl id t : (∀ c, shrinks (cnl c)) → shrinks (release cnl id t).
Proof using.
  intros Hc. unfold release, cancel_timer. repeat (apply shrinks_bind; [|intros []]); apply shrinks_when; try done;
    apply shrinks_modify; intros s; [by case_decide|done..].
Qed.

Lemma shrinks_cancel fuel : ∀ id, shrinks (cancel fuel id).
Proof using.
  induction fuel as [|fuel IH]; intros id; [by intros s|]. cbn [cancel]. apply shrinks_bind; [apply shrinks_gets|]. intros [t|]; [|apply shrinks_ret].
  apply shrinks_bind; [apply shrinks_erase|]. intros []. by apply shrinks_release.
Qed.

Lemma shrinks_call_back fin cb o : is_child cb = false → shrinks (call_back clock random case_bits calls fin cb o).
Proof using. destruct cb; [| |done]; intros _; by apply shrinks_modify. Qed.

Lemma shrinks_call_joiners fin js : Forall (λ j, is_child j.1 = false) js → shrinks (call_joiners clock random case_bits calls fin js).
Proof using.
  induction 1 as [|[cb o] js Hj _ IH]; cbn [call_joiners]; [apply shrinks_ret|].
  apply shrinks_bind; [by apply shrinks_call_back|]. by intros [].
Qed.

Lemma asks_caller cb q : asks cb q → is_child cb = false.
Proof using. by destruct cb. Qed.

(** The deadline removes its task, and perhaps sub-queries of it. *)
Lemma deadline_drops id t s : r_tasks s !! id = Some t → is_child (t_done t) = false →
  Forall (λ w, is_child (w_done w) = false) (t_joiners t) →
  match on_timer clock random case_bits calls (DeadlineOf id) s with Ok (_, s') => r_tasks s' ⊆ delete id (r_tasks s) | _ => True end.
Proof using.
  intros Ht Hd Hj. set (t2 := set_deadline t 0). set (s1 := set_tasks s (r_next_task_id s) (<[id := t2]> (r_tasks s))).
  assert (on_timer clock random case_bits calls (DeadlineOf id) s = finish clock random case_bits calls id (inl ResolveError.Timeout) s1) as ->.
  { cbn [on_timer]. unfold mbind, M_bind, find, gets. rewrite Ht. unfold put, deref, mbind, M_bind, find, gets. by rewrite Ht. }
  unfold finish, kTaskFuel. cbn [finish_from]. unfold mbind at 1, M_bind at 1, find at 1, gets at 1. cbn [s1 set_tasks r_tasks].
  rewrite lookup_insert_eq. unfold mbind at 1, M_bind at 1, erase_task at 1, modify at 1.
  match goal with |- match ?m ?st with _ => _ end =>
    assert (Hm : shrinks m); [|specialize (Hm st); assert (r_tasks st = delete id (r_tasks s)) as Est by (cbn; by rewrite delete_insert_eq); rewrite Est in Hm; exact Hm] end.
  apply shrinks_bind; [apply shrinks_release, shrinks_cancel|intros []]. apply shrinks_bind; [apply shrinks_now|intros n].
  apply shrinks_bind; [apply shrinks_ret|intros result]. apply shrinks_bind; [by apply shrinks_call_back|intros []].
  apply shrinks_call_joiners, Forall_fmap. exact Hj.
Qed.

(** A caller that waits, waits in a task. *)
Lemma elem_of_waiting k L : k ∈ waiting L ↔ ∃ id l, L !! id = Some l ∧ k ∈ tokens l.
Proof using.
  unfold waiting. rewrite list_elem_of_bind. split.
  - intros ([id l] & Hk & Hl). exists id, l. by apply elem_of_map_to_list in Hl.
  - intros (id & l & Hl & Hk). exists (id, l). by rewrite elem_of_map_to_list.
Qed.

Lemma waiting_apart L id k l : NoDup (waiting L) → L !! id = Some l → k ∈ tokens l → k ∉ waiting (delete id L).
Proof using.
  intros Hnd Hl Hk Hin. rewrite (waiting_delete L id l Hl), NoDup_app in Hnd. destruct Hnd as (_ & Hnd & _). by apply (Hnd k).
Qed.

(** ** The properties *)

(** C10: no sequence of calls, timer turns and upstream events makes the
    resolver follow a dangling task pointer, overrun a recursion or loop
    bound, or reach a query or timer whose task is gone: every run returns.
    And whenever it has returned, every task waits for exactly one thing (its
    start timer, an upstream query or a sub-query) that is there and will
    resume it, every client task has its deadline timer armed and is found by
    its question, and no timer or upstream query is left of a task that is
    gone.  (The environment has to provide fresh ids and descriptors; the CNAME
    limit has to be below 255, see [cname_cycle_never_ends].) *)
Theorem resolver_never_stuck s0 ops : starts s0 → all_can_run ops s0 →
  ∃ s, run_all ops s0 = Ok s ∧
    (∀ id t, r_tasks s !! id = Some t → waits_once (link_of t) ∧
       (t_start_timer t ≠ 0%Z → armed (r_loop s) !! t_start_timer t = Some (StartOf id)) ∧
       (t_upstream t ≠ 0%Z → t_upstream t ∈ us_in_flight (r_upstream s) ∧ r_owner s !! t_upstream t = Some id) ∧
       (t_child t ≠ 0%Z → ∃ t', r_tasks s !! t_child t = Some t' ∧ t_done t' = ChildOf id ∧ t_budget t' = t_budget t) ∧
       (t_client t = true → armed (r_loop s) !! t_deadline t = Some (DeadlineOf id) ∧ r_in_flight s !! question_id (t_question t) = Some id)) ∧
    (∀ x cb, armed (r_loop s) !! x = Some cb → ∃ id t, r_tasks s !! id = Some t ∧
       (cb = StartOf id ∧ t_start_timer t = x ∨ cb = DeadlineOf id ∧ t_deadline t = x)) ∧
    (∀ q, q ∈ us_in_flight (r_upstream s) → ∃ id t, r_owner s !! q = Some id ∧ r_tasks s !! id = Some t ∧ t_upstream t = q).
Proof using.
  intros Hs Hrun. destruct (runs_inv s0 ops Hs Hrun) as (s & Hr & Hinv). exists s. split; [done|]. clear Hr Hrun Hs.
  pose proof (iv_links _ _ _ _ _ _ Hinv) as Hlu.
  assert (Hback : ∀ id k, links s !! id = Some k → ∃ t, r_tasks s !! id = Some t ∧ k = link_of t).
  { intros id k Hk. unfold links in Hk. rewrite lookup_fmap in Hk. destruct (r_tasks s !! id) as [t|]; [|done]. exists t. split; [done|].
    by injection Hk. }
  split_and!.
  - intros id t Ht%lookup_links. pose proof (lu_wait _ _ _ _ _ _ _ _ Hlu id _ Ht) as Hw. rewrite decide_False in Hw by done. split_and!.
    + done.
    + exact (lu_start _ _ _ _ _ _ _ _ Hlu id _ Ht).
    + exact (lu_upstream _ _ _ _ _ _ _ _ Hlu id _ Ht).
    + intros Hc. destruct (lu_child _ _ _ _ _ _ _ _ Hlu id _ Ht Hc) as (k' & (t' & Ht' & ->)%Hback & Hd & _ & Hb). by exists t'.
    + intros Hc. pose proof (lu_deadline _ _ _ _ _ _ _ _ Hlu id _ Ht) as Hd. cbn in Hd. rewrite Hc in Hd.
      split; [by destruct Hd|]. exact (lu_registered _ _ _ _ _ _ _ _ Hlu id _ Ht Hc).
  - intros x cb Hx. destruct (lu_timers _ _ _ _ _ _ _ _ Hlu x cb Hx) as [_ Hcb].
    destruct cb as [id|id]; destruct Hcb as (k & (t & Ht & ->)%Hback & <-); exists id, t; naive_solver.
  - intros q Hq. destruct (lu_queries _ _ _ _ _ _ _ _ Hlu q Hq) as (_ & id & k & Ho & (t & Ht & ->)%Hback & <-). by exists id, t.
Qed.

(** C11: every caller is told exactly once: at any point, the calls of
    [resolve] and [prime] made so far are exactly those already called back
    and those still waiting in some task, each in one place.  In particular no
    callback runs twice and none is lost, also when questions are coalesced,
    tasks cancelled or deadlines pass. *)
Theorem callers_told_once s0 ops : starts s0 → all_can_run ops s0 → NoDup (ops ≫= issued) →
  ∃ s, run_all ops s0 = Ok s ∧ NoDup (called (r_log s)) ∧
    ∀ k, k ∈ ops ≫= issued ↔ k ∈ called (r_log s) ∧ k ∉ waiting (links s) ∨ k ∈ waiting (links s) ∧ k ∉ called (r_log s).
Proof using.
  intros Hs Hrun Hnd. destruct (runs_inv s0 ops Hs Hrun) as (s & Hr & Hinv). exists s. split; [done|].
  pose proof (iv_callers _ _ _ _ _ _ Hinv) as Hp. rewrite app_nil_r, (reverse_Permutation (ops ≫= issued)) in Hp.
  rewrite <-Hp in Hnd. apply NoDup_app in Hnd as (_ & Hx & Hnd). split; [done|]. intros k. rewrite <-Hp, elem_of_app.
  specialize (Hx k). naive_solver.
Qed.

(** C12: no caller waits for ever: as long as a caller has not been told, the
    deadline timer of its query is armed, and when that timer comes due the
    caller is told, whatever the query was waiting for. *)
Theorem deadline_tells_callers s0 ops : starts s0 → all_can_run ops s0 → NoDup (ops ≫= issued) →
  ∃ s, run_all ops s0 = Ok s ∧ ∀ k, k ∈ ops ≫= issued → k ∉ called (r_log s) →
    ∃ id x, armed (r_loop s) !! x = Some (DeadlineOf id) ∧
      ∀ at_time newest l, ready calls s → pop_due (r_loop s) at_time newest = Some (x, DeadlineOf id, l) →
        ∃ s', exec (TimersDue at_time newest) s = Ok (tt, s') ∧ k ∈ called (r_log s').
Proof using.
  intros Hs Hrun Hnd. destruct (runs_inv s0 ops Hs Hrun) as (s & Hr & Hinv). exists s. split; [done|]. intros k Hk Hno.
  pose proof (iv_callers _ _ _ _ _ _ Hinv) as Hp. rewrite app_nil_r in Hp.
  assert (Hnd' : NoDup (waiting (links s))).
  { rewrite <-reverse_Permutation, <-Hp in Hnd. by apply NoDup_app in Hnd as (? & _). }
  rewrite <-reverse_Permutation, <-Hp, elem_of_app in Hk. destruct Hk as [Hk|?]; [|done].
  apply elem_of_waiting in Hk as (id & lk & Hlk & Hk). pose proof (iv_links _ _ _ _ _ _ Hinv) as Hlu. pose proof Hlk as Hlk'.
  unfold links in Hlk. rewrite lookup_fmap in Hlk. destruct (r_tasks s !! id) as [t|] eqn:Ht; [|done].
  assert (lk = link_of t) as -> by (by injection Hlk). clear Hlk.
  pose proof (lu_joiners _ _ _ _ _ _ _ _ Hlu id _ Hlk') as Hj. pose proof (lu_client _ _ _ _ _ _ _ _ Hlu id _ Hlk') as Hcl.
  cbn in Hj, Hcl. destruct (t_client t) eqn:Ec.
  2:{ unfold tokens in Hk. cbn in Hk. rewrite Hj in Hk. destruct (t_done t); [done|done|]. by apply elem_of_nil in Hk. }
  pose proof (lu_deadline _ _ _ _ _ _ _ _ Hlu id _ Hlk') as Hd. cbn in Hd. rewrite Ec in Hd. destruct Hd as [Hx0 Hx].
  exists id, (t_deadline t). split; [done|]. intros at_time newest l Hready Hpop. destruct Hs as [Hcfg Hrandom _].
  pose proof (exec_inv _ (TimersDue at_time newest) s Hcfg Hrandom Hinv Hready) as Hwp. unfold wp in Hwp.
  destruct (exec _ s) as [[[] s']| |] eqn:Ex; [|done..]. exists s'. split; [done|].
  assert (Hsub : r_tasks s' ⊆ delete id (r_tasks s)).
  { cbn [Resolver.exec] in Ex. unfold mbind at 1, M_bind, gets in Ex. rewrite Hpop in Ex. unfold mbind, M_bind, modify in Ex.
    pose proof (deadline_drops id t (set_loop s l)) as Hdrop. rewrite Ex in Hdrop. apply Hdrop; [done|by apply negb_true_iff; rewrite <-Hcl|].
    apply Forall_forall. intros wt Hwt. destruct (lu_joined _ _ _ _ _ _ _ _ Hlu id _ wt Hlk' Hwt). by eapply asks_caller. }
  pose proof (iv_callers _ _ _ _ _ _ Hwp) as Hp'. rewrite app_nil_r in Hp'. cbn [issued app] in Hp'.
  assert (Hk' : k ∈ waiting (links s') ++ called (r_log s')).
  { rewrite Hp', <-Hp, elem_of_app. left. rewrite (waiting_delete _ _ _ Hlk'), elem_of_app. by left. }
  apply elem_of_app in Hk' as [Hw|?]; [|done]. exfalso. apply (waiting_apart _ _ _ _ Hnd' Hlk' Hk).
  apply elem_of_waiting in Hw as (i & li & Hi & Hki). apply elem_of_waiting. exists i, li. split; [|done].
  unfold links in *. rewrite lookup_fmap in Hi. destruct (r_tasks s' !! i) as [ti|] eqn:Ei; [|done]. cbn in Hi.
  rewrite <-fmap_delete, lookup_fmap. by rewrite (lookup_weaken _ _ _ _ Ei Hsub).
Qed.

(** C13: queries to the outside are bounded: one client query, with all the
    name-server lookups it causes, sends at most [max_upstream_queries], so in
    all at most that many per call.  Every query is non-recursive, waits no
    longer than the configured maximum, and asks a zone's server only for a
    name inside that zone. *)
Theorem upstream_queries_bounded s0 ops : starts s0 → all_can_run ops s0 →
  ∃ s, run_all ops s0 = Ok s ∧ (∀ b, (asked b (r_log s) ≤ rc_max_upstream_queries cfg)%Z) ∧
    (asked_total (r_log s) ≤ rc_max_upstream_queries cfg * zlen (ops ≫= issued))%Z ∧
    ∀ task b zone server query wait transport mc, Asked task b zone server query wait transport mc ∈ r_log s →
      h_rd (m_header query) = false ∧ (wait ≤ rc_max_query_timeout_ms cfg)%Z ∧
      ∃ q, m_questions query = [q] ∧ is_subdomain_of (q_qname q) zone = true ∧ q_qclass q = kClassIN.
Proof using.
  intros Hs Hrun. destruct (runs_inv s0 ops Hs Hrun) as (s & Hr & Hinv). exists s. split; [done|]. pose proof (ro_queries _ (st_config _ Hs)) as Hm.
  destruct (iv_unspent _ _ _ _ _ _ Hinv) as [Hlen Hus]. rewrite length_reverse in Hlen.
  assert (Hb : ∀ b, (asked b (r_log s) ≤ rc_max_upstream_queries cfg)%Z).
  { intros b. destruct (decide (length (r_budgets s) ≤ b)) as [Hge|Hlt]; [rewrite Hus by done; lia|].
    destruct (lookup_lt_is_Some_2 (r_budgets s) b) as [n Hn]; [lia|]. destruct (iv_spent _ _ _ _ _ _ Hinv b n Hn) as [-> ?]. lia. }
  split_and!; [done| |].
  - pose proof (asked_total_bound (length (r_budgets s)) (rc_max_upstream_queries cfg) ltac:(lia) (r_log s) Hus) as Ht.
    unfold zlen. specialize (Ht ltac:(intros; apply Hb)). nia.
  - intros task b zone server query wait transport mc He. pose proof (iv_log _ _ _ _ _ _ Hinv) as Hlog. rewrite Forall_forall in Hlog.
    exact (Hlog _ He).
Qed.

(** C14: every answer is to the question of a call that was made, and is made
    of at most [max_cname_chain] CNAMEs that lead from the question's name to
    a target, followed only by records of the target's name with the type and
    class asked for; it is marked as a response and reports at most
    [max_upstream_queries] queries. *)
Theorem answers_lead_from_question s0 ops : starts s0 → all_can_run ops s0 →
  ∃ s, run_all ops s0 = Ok s ∧ ∀ k q r, Called k q (inr r) ∈ r_log s →
    let m := rs_response r in
    Resolve q k ∈ ops ∧ m_questions m = [q] ∧ h_qr (m_header m) = true ∧ q_qclass q = kClassIN ∧
    (0 ≤ rs_upstream_queries_used r ≤ rc_max_upstream_queries cfg)%Z ∧
    ∃ chain rest target, m_answers m = chain ++ rest ∧ leads (q_qname q) chain target ∧
      (zlen chain ≤ rc_max_cname_chain cfg)%Z ∧ Forall (about (labels target, q_qtype q, kClassIN)) rest.
Proof using.
  intros Hs Hrun. destruct (runs_inv s0 ops Hs Hrun) as (s & Hr & Hinv). exists s. split; [done|]. intros k q r He. cbv zeta. split.
  - assert (Hk : ClientDone k q ∈ ops ≫= issued).
    { rewrite <-reverse_Permutation, <-(iv_callers _ _ _ _ _ _ Hinv), !elem_of_app. right; left.
      apply list_elem_of_bind. exists (Called k q (inr r)). split; [left|done]. }
    apply list_elem_of_bind in Hk as ([q' k'|k'|? ?|?] & Hk & Hop); cbn in Hk;
      [apply list_elem_of_singleton in Hk|apply list_elem_of_singleton in Hk|by apply elem_of_nil in Hk..]; congruence.
  - pose proof (iv_log _ _ _ _ _ _ Hinv) as Hlog. rewrite Forall_forall in Hlog. exact (Hlog _ He).
Qed.

(** C15: the cache is not poisoned: whatever the resolver stores from a
    response was said by a server of a zone that contains every record's
    owner; positive data is stored under its owner's own name and class, answer
    data under its own type too, and a negative answer only for a name in the
    zone and never with answer trust. *)
Theorem cache_not_poisoned s0 ops : starts s0 → all_can_run ops s0 →
  ∃ s, run_all ops s0 = Ok s ∧ ac_holds entry_about (r_cache s) ∧
    ∀ zone key records trust ttl negative, Stored zone key records trust ttl negative ∈ r_log s →
      k_qclass key = kClassIN ∧ Forall (λ rr, is_subdomain_of (rr_name rr) zone = true) records ∧
      (negative = false → Forall (λ rr, labels (rr_name rr) = labels (k_name key) ∧ rr_cls rr = kClassIN ∧
         (trust = TrustRank.Answer → rr_type rr = k_qtype key)) records) ∧
      (negative = true → trust = TrustRank.Authority ∧ is_subdomain_of (k_name key) zone = true).
Proof using.
  intros Hs Hrun. destruct (runs_inv s0 ops Hs Hrun) as (s & Hr & Hinv). exists s. split_and!; [done|by destruct Hinv|].
  intros zone key records trust ttl negative He. pose proof (iv_log _ _ _ _ _ _ Hinv) as Hlog. rewrite Forall_forall in Hlog.
  destruct (Hlog _ He) as (Hc & Hz & Hr'). split_and!; [done|done| |]; intros ->; [|done]. destruct Hr' as [Hn Ha].
  apply Forall_forall. intros rr Hrr. rewrite Forall_forall in Hn. destruct (Hn rr Hrr) as [En Ec]. cbn in En, Ec. split_and!; [done|congruence|].
  intros Ht. specialize (Ha Ht). rewrite Forall_forall in Ha. by apply Ha.
Qed.

(** Cancelling the timers of some tasks. *)
Lemma cancel_all_armed (kvs : list (Z * Task)) : ∀ (l : EventLoop unit ResolverTimer), loop_inv l →
  let l' := fold_left (λ l kv,
    let l := if (t_start_timer kv.2 =? 0)%Z then l else (EventLoop.cancel_timer l (t_start_timer kv.2)).2 in
    if (t_deadline kv.2 =? 0)%Z then l else (EventLoop.cancel_timer l (t_deadline kv.2)).2) kvs l in
  loop_inv l' ∧ ∀ x cb, x ≠ 0%Z → armed l' !! x = Some cb → armed l !! x = Some cb ∧
    ∀ kv, kv ∈ kvs → x ≠ t_start_timer kv.2 ∧ x ≠ t_deadline kv.2.
Proof using.
  assert (Hone : ∀ (l : EventLoop unit ResolverTimer) y, loop_inv l → let l' := if (y =? 0)%Z then l else (EventLoop.cancel_timer l y).2 in
    loop_inv l' ∧ ∀ x cb, x ≠ 0%Z → armed l' !! x = Some cb → armed l !! x = Some cb ∧ x ≠ y).
  { intros l y Hl. cbv zeta. destruct (Z.eqb_spec y 0) as [-> |Hy]; [done|]. destruct (armed_cancel l y Hl) as (? & -> & _). split; [done|].
    intros x cb _ [? ?]%lookup_delete_Some. done. }
  induction kvs as [|kv kvs IH]; intros l Hl; cbn [fold_left].
  { split; [done|]. intros x cb _ Hx. split; [done|]. by intros kv ?%elem_of_nil. }
  destruct (Hone l (t_start_timer kv.2) Hl) as [Hl1 H1]. destruct (Hone _ (t_deadline kv.2) Hl1) as [Hl2 H2].
  destruct (IH _ Hl2) as [Hl3 H3]. split; [done|]. intros x cb Hx0 Hx. destruct (H3 x cb Hx0 Hx) as [Hx2 Hrest].
  destruct (H2 x cb Hx0 Hx2) as [Hx1 ?]. destruct (H1 x cb Hx0 Hx1) as [? ?]. split; [done|].
  intros kv' [-> |?]%elem_of_cons; [done|]. by apply Hrest.
Qed.

(** Destroying the resolver, in whatever state its run has left it, takes
    every timer it ever armed out of the loop, so that no callback can run on
    a resolver that is gone. *)
Lemma destructor_disarms s0 ops : starts s0 → all_can_run ops s0 → ∃ s, run_all ops s0 = Ok s ∧ el_timers (destroy s) = [].
Proof using.
  intros Hs Hrun. destruct (runs_inv s0 ops Hs Hrun) as (s & Hr & Hinv). exists s. split; [done|].
  pose proof (iv_links _ _ _ _ _ _ Hinv) as Hlu.
  destruct (cancel_all_armed (map_to_list (r_tasks s)) (r_loop s) (iv_loop _ _ _ _ _ _ Hinv)) as [Hl Hx].
  change (fold_left _ _ _) with (destroy s) in Hl, Hx. destruct (el_timers (destroy s)) as [|[[d x] cb] rest] eqn:E; [done|]. exfalso.
  assert (Ha : armed (destroy s) !! x = Some cb) by (apply armed_Some; [done|]; exists d; rewrite E; left).
  assert (Hx0 : x ≠ 0%Z). { pose proof (li_ids _ Hl d x) as Hi. rewrite E in Hi. specialize (Hi ltac:(left)). lia. }
  destruct (Hx x cb Hx0 Ha) as [Hb Hnone]. destruct (lu_timers _ _ _ _ _ _ _ _ Hlu x cb Hb) as [_ Hcb].
  assert (Hgone : ∀ id k, links s !! id = Some k → x ≠ l_start k ∧ x ≠ l_deadline k).
  { intros id k Hk. unfold links in Hk. rewrite lookup_fmap in Hk. destruct (r_tasks s !! id) as [t|] eqn:Ht; [|done].
    assert (k = link_of t) as -> by (by injection Hk). apply (Hnone (id, t)). by apply elem_of_map_to_list. }
  destruct cb as [id|id]; destruct Hcb as (k & Hk & <-); by destruct (Hgone id k Hk).
Qed.

(** C16: equal questions in flight are resolved once: no two client tasks ask
    the same question, and a call for a question that is in flight starts no
    task, no timer and no upstream query, it only joins the task that is
    there. *)
Theorem equal_questions_coalesce s0 ops q k : starts s0 → all_can_run ops s0 →
  ∃ s, run_all ops s0 = Ok s ∧
    (∀ i j t u, r_tasks s !! i = Some t → r_tasks s !! j = Some u → t_client t = true → t_client u = true →
       question_eqb (t_question t) (t_question u) = true → i = j) ∧
    ∀ i t, r_tasks s !! i = Some t → t_client t = true → question_eqb (t_question t) q = true →
      ∃ at_time s', exec (Resolve q k) s = Ok (tt, s') ∧ r_log s' = r_log s ∧ r_loop s' = r_loop s ∧ r_upstream s' = r_upstream s ∧
        r_tasks s' = <[i := set_client t (t_deadline t) true (t_joiners t ++ [mkWaiter q at_time (ClientDone k q)])]> (r_tasks s).
Proof using.
  intros Hs Hrun. destruct (runs_inv s0 ops Hs Hrun) as (s & Hr & Hinv). exists s. split; [done|].
  pose proof (iv_links _ _ _ _ _ _ Hinv) as Hlu.
  assert (Hreg : ∀ i t q', r_tasks s !! i = Some t → t_client t = true → question_eqb (t_question t) q' = true → r_in_flight s !! question_id q' = Some i).
  { intros i t q' Ht Hc Heq. pose proof (lu_registered _ _ _ _ _ _ _ _ Hlu i (link_of t) (lookup_links _ _ _ Ht) Hc) as Hl. cbn in Hl.
    unfold question_eqb in Heq. apply andb_true_iff in Heq as [[Hn Ht']%andb_true_iff Hcl]. apply name_eqb_equiv in Hn.
    apply bool_decide_eq_true in Ht', Hcl. rewrite <-Hl. unfold question_id. unfold equiv, name_equiv in Hn. by rewrite Hn, Ht', Hcl. }
  split.
  - intros i j t u Hi Hj Hci Hcj Heq. pose proof (Hreg i t _ Hi Hci Heq) as H1.
    pose proof (lu_registered _ _ _ _ _ _ _ _ Hlu j (link_of u) (lookup_links _ _ _ Hj) Hcj) as H2. cbn in H2. congruence.
  - intros i t Hi Hc Heq. exists (clock (r_ticks s)). cbn [Resolver.exec]. unfold resolve_client, mbind, M_bind, gets, find.
    rewrite (Hreg i t q Hi Hc Heq). unfold gets; cbv beta iota. rewrite Hi. unfold now, put, deref, find, mbind, M_bind, gets. cbn [set_ticks r_tasks]. rewrite Hi.
    eexists. split; [done|]. cbn. by rewrite Hc.
Qed.

(** ** A limit that is never reached *)

Lemma collect_labels section n n' type : labels n = labels n' → collect section n type = collect section n' type.
Proof using. intros E. unfold collect, name_eqb. by rewrite E. Qed.

Definition any_entry (k : key_id) (e : CacheEntry) : Prop := True.
Lemma any_entry_property : entry_property any_entry.
Proof using. by split. Qed.

Lemma insert_goes_on s zone name type records trust ttl negative : ac_holds any_entry (r_cache s) →
  ∃ s', insert_cache clock zone name type records trust ttl negative s = Ok (tt, s') ∧ ac_holds any_entry (r_cache s') ∧
    r_tasks s' = r_tasks s ∧ r_config s' = r_config s.
Proof using.
  intros Hc. unfold insert_cache, now, action, emit, modify, mbind, M_bind. cbn [set_ticks r_cache].
  destruct (ac_insert_holds any_entry (r_cache s) (mkKey name type kClassIN) records trust ttl negative (clock (r_ticks s)))
    as (c & -> & Hc'); [apply any_entry_property|done|done|]. eexists. by split.
Qed.

(** C30: with [max_cname_chain] at 255, which the configuration accepts, the
    limit is never reached: the 8-bit hop counter wraps before it exceeds the
    limit.  A response in which the name asked for is a CNAME of itself makes
    [handle_response] follow it without end: no number of iterations is
    enough. *)
Theorem cname_cycle_never_ends fuel id response rank : ∀ followed s t cname rest target,
  rc_max_cname_chain (r_config s) = 255%Z → ac_holds any_entry (r_cache s) → r_tasks s !! id = Some t →
  q_qtype (t_question t) ≠ kTypeCNAME → collect (m_answers response) (t_qname t) (q_qtype (t_question t)) = [] →
  collect (m_answers response) (t_qname t) kTypeCNAME = cname :: rest → rr_rdata cname = RDataCNAME target →
  labels target = labels (t_qname t) →
  follow_answers clock random case_bits calls fuel id response rank followed s = Fault OutOfFuel.
Proof using.
  induction fuel as [|fuel IH]; intros followed s t cname rest target Hm Hc Ht Hq Hno Hcn Hr Hl; [done|].
  cbn [follow_answers]. unfold mbind at 1, M_bind at 1, deref at 1, find at 1, mbind at 1, M_bind at 1, gets at 1. rewrite Ht. cbn [mret M_ret].
  cbv zeta. rewrite Hno. rewrite (proj2 (Z.eqb_neq _ _) Hq), Hcn. unfold mbind at 1, M_bind at 1.
  destruct (insert_goes_on s (z_zone (t_cut t)) (t_qname t) kTypeCNAME [cname] rank (rr_ttl cname) false Hc) as (s1 & -> & Hc1 & Et & Ec).
  unfold mbind at 1, M_bind at 1, gets at 1. unfold follow_cname. rewrite Hr, Ec, Hm.
  rewrite (proj2 (Z.ltb_ge 255 (u8 (t_cname_hops t + 1)))) by (pose proof (Z.mod_pos_bound (t_cname_hops t + 1) 256); unfold u8; lia).
  unfold mbind at 1, M_bind at 1, put, deref, find, mbind, M_bind, gets, modify. rewrite Et, Ht. cbn [mret M_ret].
  set (t' := set_target _ _ _ _). apply (IH true _ t' cname rest target); try done.
  - cbn. by rewrite Ec.
  - cbn. apply lookup_insert_eq.
  - by rewrite (collect_labels _ _ (t_qname t)).
  - by rewrite (collect_labels _ _ (t_qname t)).
Qed.
End props.
