(* ===== verification/ResolverLog.v ===== *)
(** * The resolver's log only grows

    What the resolver has done to the outside stays done: every computation
    extends [r_log].  A client of the resolver therefore learns what one
    operation did from the events past the old end of the log ([news]). *)

From stdpp Require Import base tactics numbers list gmap fin_maps.
From Stdlib Require Import ZArith Lia.
From S2P Require Import Prelude Names Types Wire Builder Cache Security ServerSelection Upstream EventLoop RootHints Interfaces Resolver.

Create HintDb grows.

Section log.
Context {C U : Type} `{AnswerCache C} `{UpstreamService U}.
Context (clock : nat → Z) (random : nat → Z → Z) (case_bits : nat → nat → Z) (calls : nat → SendCalls).
Abbreviation R := (Resolver C U).
Abbreviation Comp := (M (C:=C) (U:=U)).

(** The events of a state that are not in an earlier one. *)
Definition news (s s' : R) : list Event := drop (length (r_log s)) (r_log s').

(** [m] adds to the log, and what it adds satisfies [P]. *)
Definition adds (P : list Event → Prop) {A} (m : Comp A) : Prop :=
  ∀ s, match m s with Ok (_, s') => ∃ es, r_log s' = r_log s ++ es ∧ P es | _ => True end.

(** Any events, or none at all. *)
Class LogPredicate (P : list Event → Prop) : Prop := { lp_nil : P []; lp_app : ∀ es es', P es → P es' → P (es ++ es') }.
Definition some_events : list Event → Prop := λ _, True.
Definition no_events : list Event → Prop := λ es, es = [].
Global Instance some_events_log : LogPredicate some_events.
Proof. by split. Qed.
Global Instance no_events_log : LogPredicate no_events.
Proof. split; [done|]. by intros es es' -> ->. Qed.

Section rules.
Context (P : list Event → Prop) `{!LogPredicate P}.

Lemma adds_bind {A B} (m : Comp A) (k : A → Comp B) : adds P m → (∀ a, adds P (k a)) → adds P (m ≫= k).
Proof.
  intros Hm Hk s. specialize (Hm s). unfold mbind, M_bind. destruct (m s) as [[a s1]| |]; [|done..]. destruct Hm as (es1 & E1 & H1).
  specialize (Hk a s1). destruct (k a s1) as [[b s2]| |]; [|done..]. destruct Hk as (es2 & E2 & H2). exists (es1 ++ es2).
  split; [by rewrite E2, E1, app_assoc|by apply lp_app].
Qed.

Lemma adds_same {A} (m : Comp A) : (∀ s a s', m s = Ok (a, s') → r_log s' = r_log s) → adds P m.
Proof.
  intros Hm s. destruct (m s) as [[a s']| |] eqn:E; [|done..]. exists []. rewrite (Hm _ _ _ E), app_nil_r. split; [done|apply lp_nil].
Qed.

Lemma adds_ret {A} (a : A) : adds P (mret a).
Proof. apply adds_same. by intros s ? ? [= _ <-]. Qed.
Lemma adds_gets {A} (f : R → A) : adds P (gets f).
Proof. apply adds_same. by intros s ? ? [= _ <-]. Qed.
Lemma adds_crash {A} f : adds P (crash (A:=A) f).
Proof. by apply adds_same. Qed.
Lemma adds_now : adds P (now clock).
Proof. apply adds_same. by intros s ? ? [= _ <-]. Qed.
Lemma adds_modify f : (∀ s, r_log (f s) = r_log s) → adds P (modify f).
Proof. intros Hf. apply adds_same. by intros s ? ? [= _ <-]. Qed.
Lemma adds_action {A} (f : R → mem (A * R)) : (∀ s a s', f s = Ok (a, s') → r_log s' = r_log s) → adds P (action f).
Proof. apply adds_same. Qed.
Lemma adds_when b m : adds P m → adds P (when b m).
Proof. destruct b; [done|]. intros _. apply adds_ret. Qed.
End rules.
Hint Resolve adds_ret adds_gets adds_crash adds_now adds_when : grows.

(** A computation made of such steps. *)
Ltac grow := repeat first
  [solve [auto 2 with grows typeclass_instances]
  |apply adds_bind; [apply _| |intros ?]
  |apply adds_when; [apply _|]
  |apply adds_modify; [apply _|]; intros ?; (reflexivity || (repeat case_match; reflexivity))
  |match goal with
   | |- adds _ (let _ := _ in _) => cbv zeta
   | |- adds _ (match ?x with _ => _ end) => destruct x
   end].

(** ** Asking is silent *)

Section asking.
Context (P : list Event → Prop) `{!LogPredicate P}.

Lemma adds_add_timer ms cb : adds P (add_timer clock ms cb).
Proof. unfold add_timer. grow. Qed.
Lemma adds_find id : adds P (find id).
Proof. by apply adds_gets. Qed.
Hint Resolve adds_add_timer adds_find : grows.
Lemma adds_deref id : adds P (deref id).
Proof. unfold deref. grow. Qed.
Hint Resolve adds_deref : grows.
Lemma adds_put id t : adds P (put id t).
Proof. unfold put. grow. Qed.
Hint Resolve adds_put : grows.
Lemma adds_spawn q b anc cb : adds P (spawn clock q b anc cb).
Proof. unfold spawn. grow. Qed.
Lemma adds_budget : adds P make_budget.
Proof. unfold make_budget. grow. Qed.
Hint Resolve adds_spawn adds_budget : grows.
Lemma adds_resolve q cb : adds P (resolve_client clock q cb).
Proof. unfold resolve_client. grow. Qed.
End asking.
Hint Resolve adds_add_timer adds_find adds_deref adds_put adds_spawn adds_budget adds_resolve : grows.

(** ** Everything else *)

Abbreviation grows := (adds some_events).

Lemma grows_emit e : grows (emit e).
Proof. intros s. by exists [e]. Qed.
Hint Resolve grows_emit : grows.

Lemma grows_lookup name type : grows (lookup_cache clock name type).
Proof.
  unfold lookup_cache. grow. apply adds_action; [apply _|]. intros s r s'. destruct (ac_lookup _ _ _) as [[e c]| |]; [|done..].
  by intros [= <- <-].
Qed.
Lemma grows_insert zone name type rs tr ttl neg : grows (insert_cache clock zone name type rs tr ttl neg).
Proof.
  unfold insert_cache. grow. apply adds_action; [apply _|]. intros s r s'. destruct (ac_insert _ _ _ _ _ _ _) as [c| |]; [|done..].
  by intros [= <- <-].
Qed.
Lemma grows_cancel_timer id : grows (cancel_timer id).
Proof. by apply adds_modify; [apply _|]. Qed.
Lemma grows_queries b : grows (queries_of b).
Proof. unfold queries_of. grow. Qed.
Hint Resolve grows_lookup grows_insert grows_cancel_timer grows_queries : grows.

Lemma grows_erase id : grows (erase_task id).
Proof. unfold erase_task. grow. Qed.
Hint Resolve grows_erase : grows.

Lemma grows_release cnl id t : (∀ c, grows (cnl c)) → grows (release cnl id t).
Proof. intros Hc. unfold release. grow. Qed.
Lemma grows_cancel fuel : ∀ id, grows (cancel fuel id).
Proof. induction fuel as [|fuel IH]; intros id; cbn [cancel]; grow. Qed.
Hint Resolve grows_release grows_cancel : grows.

(** ** Asking servers, given [finish] *)

Section with_finish.
Context (fin : Z → Outcome → Comp unit) (Hfin : ∀ id o, grows (fin id o)).
Hint Resolve Hfin : grows.

Lemma grows_send_query id address transport : grows (send_query clock case_bits calls fin id address transport).
Proof.
  unfold send_query. grow; (apply adds_action; [apply _|]); intros s r s'.
  - destruct (timeout _ _ _ _). by intros [= <- <-].
  - destruct (us_send _ _ _ _ _). by intros [= <- <-].
Qed.
Hint Resolve grows_send_query : grows.

Lemma grows_next_server fuel : ∀ id, grows (next_server clock random case_bits calls fin fuel id).
Proof.
  induction fuel as [|fuel IH]; intros id; cbn [next_server]; grow. apply adds_action; [apply _|]. intros s r s'.
  destruct (pick _ _ _ _) as [[x y]| |]; [|done..]. by intros [= <- <-].
Qed.
Hint Resolve grows_next_server : grows.

Lemma grows_call_back cb o : grows (call_back clock random case_bits calls fin cb o).
Proof. destruct cb; cbn [call_back]; [grow..|]. unfold on_child_done. grow. Qed.
Hint Resolve grows_call_back : grows.

Lemma grows_call_joiners js : grows (call_joiners clock random case_bits calls fin js).
Proof. induction js as [|[cb o] js IH]; cbn [call_joiners]; grow. Qed.
End with_finish.
Hint Resolve grows_send_query grows_next_server grows_call_back grows_call_joiners : grows.

Lemma grows_finish_from fuel : ∀ id o, grows (finish_from clock random case_bits calls fuel id o).
Proof. induction fuel as [|fuel IH]; intros id o; cbn [finish_from]; grow. Qed.
Lemma grows_finish id o : grows (finish clock random case_bits calls id o).
Proof. apply grows_finish_from. Qed.
Hint Resolve grows_finish : grows.
#[local] Opaque finish kServerFuel kChainFuel.

(** ** Steps and responses *)

Lemma grows_name_servers ns : ∀ t glue, grows (add_name_servers clock t ns glue).
Proof. induction ns as [|rr ns IH]; intros t glue; cbn [add_name_servers]; grow. Qed.
Hint Resolve grows_name_servers : grows.
Lemma grows_enter_zone t zone ns glue : grows (enter_zone clock t zone ns glue).
Proof. unfold enter_zone. grow. Qed.
Hint Resolve grows_enter_zone : grows.
Lemma grows_closest fuel : ∀ t z, grows (closest_zone clock fuel t z).
Proof. induction fuel as [|fuel IH]; intros t z; cbn [closest_zone]; grow. Qed.
Hint Resolve grows_closest : grows.
Lemma grows_step_cached fuel : ∀ id, grows (step_cached clock random case_bits calls fuel id).
Proof. induction fuel as [|fuel IH]; intros id; cbn [step_cached]; grow. Qed.
Hint Resolve grows_step_cached : grows.
Lemma grows_step id : grows (step clock random case_bits calls id).
Proof. unfold step, start_at_closest_zone. grow. Qed.
Hint Resolve grows_step : grows.

Lemma grows_rate t b rtt : grows (rate clock t b rtt).
Proof. unfold rate. grow. Qed.
Lemma grows_glue zone additional ns : grows (cache_glue clock zone additional ns).
Proof. induction ns as [|rr ns IH]; cbn [cache_glue]; grow. Qed.
Hint Resolve grows_rate grows_glue : grows.
Lemma grows_follow fuel : ∀ id m rank b, grows (follow_answers clock random case_bits calls fuel id m rank b).
Proof. induction fuel as [|fuel IH]; intros id m rank b; cbn [follow_answers]; grow. Qed.
Lemma grows_without_answer id t m soa ns down : grows (without_answer clock random case_bits calls id t m soa ns down).
Proof. unfold without_answer. grow. Qed.
Hint Resolve grows_follow grows_without_answer : grows.
Lemma grows_response id m rtt : grows (handle_response clock random case_bits calls id m rtt).
Proof. unfold handle_response. grow. Qed.
Hint Resolve grows_response : grows.
Lemma grows_on_response id r : grows (on_response clock random case_bits calls id r).
Proof. unfold on_response. grow. Qed.
Hint Resolve grows_on_response : grows.

Lemma grows_exec op : grows (exec clock random case_bits calls op).
Proof.
  destruct op as [q k|k|at_time newest|ev]; cbn [exec]; unfold prime, on_timer; grow.
  apply adds_action; [apply _|]. intros s r s'. destruct (us_event _ _). by intros [= <- <-].
Qed.

(** What an operation did is what it added. *)
Lemma exec_news op s s' : exec clock random case_bits calls op s = Ok (tt, s') → r_log s' = r_log s ++ news s s'.
Proof.
  intros E. pose proof (grows_exec op s) as Hg. rewrite E in Hg. destruct Hg as (es & Hes & _). unfold news. by rewrite Hes, drop_app_length.
Qed.

(** Nobody is called back while asking. *)
Lemma resolve_silent q k s s' : exec clock random case_bits calls (Resolve q k) s = Ok (tt, s') → r_log s' = r_log s.
Proof.
  intros E. pose proof (adds_resolve no_events q (ClientDone k q) s) as Ha. cbn [exec] in E. rewrite E in Ha.
  destruct Ha as (es & -> & ->). apply app_nil_r.
Qed.
End log.
