(* ===== verification/ResolverRuns.v ===== *)
(** * Runs of the resolver

    The resolver over the real cache and the real upstream client, on small
    concrete inputs: the situations in which the properties of
    [ResolverProps] apply, and a run in which a query of type 0 spoils the
    cache. *)

From stdpp Require Import base tactics numbers list gmap fin_maps strings.
From Stdlib Require Import ZArith Lia.
From S2P Require Import Prelude Names Types Wire Builder Cache Security ServerSelection Upstream EventLoop RootHints Interfaces.
From S2P Require Import Resolver ResolverLinks ResolverInv ResolverSteps ResolverProps.

(** ** A concrete environment *)

Definition ex_cache_instance : AnswerCache Cache := cache_answer_cache ex_sizes ex_config ex_config_ok.
#[local] Existing Instance ex_cache_instance.
Abbreviation Full := (Resolver Cache UpstreamClient).

Definition ex_clock (n : nat) : Z := Z.of_nat n * 1000000.
Definition ex_random (_ : nat) (_ : Z) : Z := 0.
Definition ex_case_bits (_ _ : nat) : Z := 0.
Definition ex_sends (n : nat) : SendCalls := mkCalls 4660 (7 + Z.of_nat n) Connected true true (1 + Z.of_nat n).

Definition ex_root_server : Name := mkName [str "a"; str "root"] [str "a"; str "root"].
Definition ex_hints : RootHints :=
  mkHints [mkRR root_name RRType.NS 1 3600 (RDataNS ex_root_server) TrustRank.Glue]
    [mkRR ex_root_server RRType.A 1 3600 (RDataA [198; 41; 0; 4]%Z) TrustRank.Glue].
Definition ex_limits (max_cname : Z) : ResolverConfig :=
  mkResolverConfig [] false false 1232 30 16 max_cname 5 800 3000 5000 20 5 53 [].
Definition ex_start (max_cname : Z) : Full := new_resolver (ex_limits max_cname) ex_hints (new_cache ex_config) (new_client 5).

Abbreviation run := (run_all ex_clock ex_random ex_case_bits ex_sends).

(** ** Checking that a run can be made *)

Definition ready_b (s : Full) : bool :=
  let u := r_upstream s in
  let c := ex_sends (r_sends s) in
  ((r_next_task_id s <? 18446744073709551615) && (el_next_token (r_loop s) + 2 <? 18446744073709551616) &&
   (el_next_timer_id (r_loop s) + 2 <? 18446744073709551616) && (0 <? uc_next_id u) && (uc_next_id u <? 18446744073709551615))%Z &&
  bool_decide (lo_timers (uc_loop u) !! sc_timer c = None) &&
  forallb (λ kv, negb (up_fd kv.2 =? sc_socket c)%Z) (map_to_list (uc_pending u)).

Lemma ready_b_sound s : ready_b s = true → ready ex_sends s.
Proof.
  unfold ready_b. rewrite !andb_true_iff, !Z.ltb_lt. intros [[((((H1 & H2) & H3) & H4) & H5) Ht%bool_decide_eq_true] Hf].
  split_and!; [done|unfold room; lia|]. split_and!; [cbn; lia|done| |done|done].
  intros id p Hp _. rewrite forallb_forall in Hf. specialize (Hf (id, p)). intros E.
  assert (Hin : In (id, p) (map_to_list (uc_pending (r_upstream s)))) by (apply list_elem_of_In; by apply elem_of_map_to_list).
  specialize (Hf Hin). cbn in Hf. rewrite E, Z.eqb_refl in Hf. done.
Qed.

Fixpoint runs_b (ops : list Op) (s : Full) : bool :=
  match ops with
  | [] => true
  | op :: ops =>
    match op with
    | UpstreamCalls ev => ready_b (set_service s (us_event (r_upstream s) ev).2 (r_owner s) (r_sends s))
    | _ => ready_b s
    end && match exec ex_clock ex_random ex_case_bits ex_sends op s with Ok (_, s) => runs_b ops s | _ => true end
  end.

Lemma runs_b_sound ops : ∀ s, runs_b ops s = true → all_can_run ex_clock ex_random ex_case_bits ex_sends ops s.
Proof.
  induction ops as [|op ops IH]; intros s Hb; [done|]. cbn [runs_b all_can_run] in *. apply andb_true_iff in Hb as [Hop Hrest]. split.
  - destruct op; by apply ready_b_sound.
  - destruct (exec _ _ _ _ op s) as [[[] s']| |]; [|done..]. by apply IH.
Qed.

Lemma ex_starts max_cname : (0 ≤ max_cname < 255)%Z → starts ex_random (ex_limits max_cname) (ex_start max_cname).
Proof.
  intros Hm. split; [split; cbn; lia|intros i n; unfold ex_random; lia|].
  exists ex_hints, (new_cache ex_config), (new_client 5), false. split_and!; [done|apply new_cache_holds; apply ex_config_ok| |done].
  exists []. apply new_client_inv.
Qed.

(** ** One question, asked twice, answered by the root server *)

Definition ex_a : Question := mkQuestion ex_name RRType.A 1.
Definition ex_answered : list Op :=
  [Resolve ex_a 0; Resolve ex_a 1; TimersDue 1000000000 1000; UpstreamCalls (FdEvent 7 false true [] [Received (ex_bytes 4660)])].

Definition summary (s : Full) : list (nat * (ResolveError.t + (Z * list RR))) :=
  omap (λ e, match e with
             | Called k _ (inl e) => Some (k, inl e)
             | Called k _ (inr r) => Some (k, inr (h_rcode (m_header (rs_response r)), m_answers (rs_response r)))
             | _ => None
             end) (r_log s).

Lemma ex_answered_runs : all_can_run ex_clock ex_random ex_case_bits ex_sends ex_answered (ex_start 8).
Proof. apply runs_b_sound. vm_compute. reflexivity. Qed.
Lemma ex_asked_runs : all_can_run ex_clock ex_random ex_case_bits ex_sends (take 3 ex_answered) (ex_start 8).
Proof. apply runs_b_sound. vm_compute. reflexivity. Qed.
Lemma ex_issued_once : NoDup [ClientDone 0 ex_a; ClientDone 1 ex_a].
Proof. apply NoDup_cons. split; [|apply NoDup_singleton]. by intros ?%list_elem_of_singleton. Qed.

(** Both callers get the root server's answer. *)
Lemma ex_answered_summary : match run ex_answered (ex_start 8) with
  | Ok s => summary s = [(0, inr (0%Z, m_answers (ex_reply 0))); (1, inr (0%Z, m_answers (ex_reply 0)))]
  | _ => False
  end.
Proof. vm_compute. reflexivity. Qed.

Lemma resolver_never_stuck_witness : ∃ s id t, run (take 3 ex_answered) (ex_start 8) = Ok s ∧ r_tasks s !! id = Some t ∧ waits_once (link_of t).
Proof.
  destruct (resolver_never_stuck ex_clock ex_random ex_case_bits ex_sends (ex_limits 8) (ex_start 8) (take 3 ex_answered)
    (ex_starts 8 ltac:(lia)) ex_asked_runs) as (s & Hs & Htasks & _).
  exists s, 1%Z. destruct (r_tasks s !! 1%Z) as [t|] eqn:Et.
  - exists t. split_and!; [exact Hs|reflexivity|]. by apply (Htasks 1%Z t Et).
  - exfalso. assert (Hex : match run (take 3 ex_answered) (ex_start 8) with Ok s => bool_decide (is_Some (r_tasks s !! 1%Z)) | _ => false end = true)
      by (vm_compute; reflexivity). rewrite Hs, Et in Hex. done.
Defined.

Lemma callers_told_once_witness : ∃ s, run ex_answered (ex_start 8) = Ok s ∧ NoDup (called (r_log s)) ∧
  (ClientDone 1 ex_a ∈ called (r_log s) ∨ ClientDone 1 ex_a ∈ waiting (links s)).
Proof.
  destruct (callers_told_once ex_clock ex_random ex_case_bits ex_sends (ex_limits 8) (ex_start 8) ex_answered
    (ex_starts 8 ltac:(lia)) ex_answered_runs ex_issued_once) as (s & Hs & Hnd & Hk).
  exists s. split_and!; [exact Hs|exact Hnd|]. destruct (proj1 (Hk (ClientDone 1 ex_a))) as [[Hc _]|[Hw _]]; [apply list_elem_of_further, list_elem_of_here|left; exact Hc|right; exact Hw].
Defined.

Lemma deadline_tells_callers_witness : ∃ s id x, run (take 3 ex_answered) (ex_start 8) = Ok s ∧ armed (r_loop s) !! x = Some (DeadlineOf id).
Proof.
  destruct (deadline_tells_callers ex_clock ex_random ex_case_bits ex_sends (ex_limits 8) (ex_start 8) (take 3 ex_answered)
    (ex_starts 8 ltac:(lia)) ex_asked_runs ex_issued_once) as (s & Hs & Hk).
  destruct (Hk (ClientDone 0 ex_a)) as (id & x & Hx & _); [apply list_elem_of_here| |exists s, id, x; split; [exact Hs|exact Hx]].
  assert (Hno : match run (take 3 ex_answered) (ex_start 8) with Ok s => called (r_log s) = [] | _ => False end) by (vm_compute; reflexivity).
  rewrite Hs in Hno. rewrite Hno. by intros ?%elem_of_nil.
Defined.

Lemma upstream_queries_bounded_witness : ∃ s, run ex_answered (ex_start 8) = Ok s ∧ (asked_total (r_log s) ≤ 60)%Z.
Proof.
  destruct (upstream_queries_bounded ex_clock ex_random ex_case_bits ex_sends (ex_limits 8) (ex_start 8) ex_answered
    (ex_starts 8 ltac:(lia)) ex_answered_runs) as (s & Hs & _ & Ht & _). exists s. split; [exact Hs|exact Ht].
Defined.

Lemma answers_lead_from_question_witness : ∃ s, run ex_answered (ex_start 8) = Ok s ∧
  ∀ k q r, Called k q (inr r) ∈ r_log s → m_questions (rs_response r) = [q] ∧ Resolve q k ∈ ex_answered.
Proof.
  destruct (answers_lead_from_question ex_clock ex_random ex_case_bits ex_sends (ex_limits 8) (ex_start 8) ex_answered
    (ex_starts 8 ltac:(lia)) ex_answered_runs) as (s & Hs & Ha).
  exists s. split; [exact Hs|]. intros k q r He. destruct (Ha k q r He) as (Hop & Hq & _). exact (conj Hq Hop).
Defined.

Lemma cache_not_poisoned_witness : ∃ s, run ex_answered (ex_start 8) = Ok s ∧
  ∀ zone key records ttl, Stored zone key records TrustRank.Answer ttl false ∈ r_log s → Forall (λ rr, rr_type rr = k_qtype key) records.
Proof.
  destruct (cache_not_poisoned ex_clock ex_random ex_case_bits ex_sends (ex_limits 8) (ex_start 8) ex_answered
    (ex_starts 8 ltac:(lia)) ex_answered_runs) as (s & Hs & _ & Ha).
  exists s. split; [exact Hs|]. intros zone key records ttl He. destruct (Ha _ _ _ _ _ _ He) as (_ & _ & Hr & _).
  specialize (Hr eq_refl). eapply Forall_impl; [exact Hr|]. intros rr (_ & _ & Ht). by apply Ht.
Defined.

Lemma destructor_disarms_witness : ∃ s, run (take 3 ex_answered) (ex_start 8) = Ok s ∧ el_timers (destroy s) = [].
Proof.
  exact (destructor_disarms ex_clock ex_random ex_case_bits ex_sends (ex_limits 8) (ex_start 8) (take 3 ex_answered)
    (ex_starts 8 ltac:(lia)) ex_asked_runs).
Defined.

Lemma equal_questions_coalesce_witness : ∃ s, run (take 3 ex_answered) (ex_start 8) = Ok s ∧
  ∀ t, r_tasks s !! 1%Z = Some t → t_client t = true → question_eqb (t_question t) ex_a = true →
    ∃ s', exec ex_clock ex_random ex_case_bits ex_sends (Resolve ex_a 7) s = Ok (tt, s') ∧ r_log s' = r_log s.
Proof.
  destruct (equal_questions_coalesce ex_clock ex_random ex_case_bits ex_sends (ex_limits 8) (ex_start 8) (take 3 ex_answered) ex_a 7
    (ex_starts 8 ltac:(lia)) ex_asked_runs) as (s & Hs & _ & Hj).
  exists s. split; [exact Hs|]. intros t Ht Hc Hq. destruct (Hj 1%Z t Ht Hc Hq) as (at_time & s' & He & Hl & _). exists s'. split; [exact He|exact Hl].
Defined.

(** ** A CNAME of itself, with the limit at 255 *)

Definition ex_loop_record : RR := mkRR ex_name RRType.CNAME 1 60 (RDataCNAME ex_name) TrustRank.Answer.
Definition ex_loop_reply : Message := mkMessage default_header [ex_a] [ex_loop_record] [] [] None.
Definition ex_loop_state : Full :=
  set_tasks (ex_start 255) 2 {[1%Z := new_task ex_a 0 [] 0 0 (ClientDone 0 ex_a)]}.

Lemma cname_cycle_never_ends_witness :
  follow_answers ex_clock ex_random ex_case_bits ex_sends 1000 1 ex_loop_reply TrustRank.Answer false ex_loop_state = Fault OutOfFuel.
Proof.
  apply (cname_cycle_never_ends ex_clock ex_random ex_case_bits ex_sends 1000 1 ex_loop_reply TrustRank.Answer false ex_loop_state
    (new_task ex_a 0 [] 0 0 (ClientDone 0 ex_a)) ex_loop_record [] ex_name); try done; [apply new_cache_holds, ex_config_ok|vm_compute; reflexivity..].
Defined.

(** ** Type 0 *)

Definition ex_zero : Question := mkQuestion ex_name 0 1.
Definition ex_soa : RR := mkRR ex_name RRType.SOA 1 3600 (RDataSOA ex_name ex_name 1 2 3 4 300) TrustRank.Authority.
Definition ex_nodata : list Z := Eval vm_compute in
  build (mkMessage (mkHeader 4660 true 0 true false false false false false 0 1 0 1 0) [ex_zero] [] [ex_soa] [] None) (mkOptions 512 true).
Definition ex_type_zero : list Op :=
  [Resolve ex_zero 0; TimersDue 1000000000 1000; UpstreamCalls (FdEvent 7 false true [] [Received ex_nodata]);
   Resolve ex_a 1; TimersDue 1000000000 1000].

(** A name that exists is said not to exist: a client asks for type 0 of it; the
    server's answer that there is no such data is cached in the slot that
    [step] reads as NXDOMAIN; the next client, asking for the name's address,
    is told NXDOMAIN without any server having said so. *)
Example type_zero_becomes_nxdomain : match run ex_type_zero (ex_start 8) with
  | Ok s => summary s = [(0, inr (RCode.NoError, [])); (1, inr (RCode.NXDomain, []))] ∧ asked_total (r_log s) = 1%Z
  | _ => False
  end.
Proof. vm_compute. done. Qed.
