(* ===== verification/Service.v ===== *)
(** * The service: the query pipeline over the resolver

    The handler [main.cpp] gives to both listeners is the query pipeline, whose
    questions go to the resolver, whose callbacks come back into the pipeline.
    Here they are put together.

    - A query is known by its number, the order in which it came.  The number
      is also what the pipeline's callback to the resolver is known by, and
      [sv_pending] holds what that callback captured: the pipeline's
      continuation and the responder of the listener (of any type [R]).
    - The effects of the pipeline are performed in order ([perform]); the
      resolver's events are delivered in order once an operation of the resolver
      has returned ([deliver]).  In the source they run from inside the operation,
      as the last thing it does: [finish] calls its callbacks last, and so do its
      callers.  [Server] delivers them one at a time, since a reply over TCP may
      bring new queries before the next one.
    - [sv_log] records, in order, the queries, the replies and what is reported
      to the daemon's log.  [times] are the clock readings of the pipeline. *)

From stdpp Require Import base tactics numbers list gmap fin_maps.
From Stdlib Require Import ZArith Lia.
From S2P Require Import Prelude Names Types Builder Acl Rrl Rebinding Blocklist CnameCheck Blocklists Interfaces.
From S2P Require Import Resolver ResolverLog QueryProcessor.

Inductive ServiceEvent (R : Type) :=
| QueryIn (i : nat) (query : Message) (client : ClientInfo) (r : R)
| ReplyOut (i : nat) (r : R) (m : Message)
| SawBlock (e : BlockEvent)
| SawRebinding (e : RebindingEvent)
| SawSpoof (alert : SpoofAlert)
| SawPrimed (result : option ResolveError.t).
Arguments QueryIn {R} i query client r.
Arguments ReplyOut {R} i r m.
Arguments SawBlock {R} e.
Arguments SawRebinding {R} e.
Arguments SawSpoof {R} alert.
Arguments SawPrimed {R} result.

(** The replies given, in order. *)
Definition replied {R} (log : list (ServiceEvent R)) : list (nat * R * Message) :=
  omap (λ e, match e with ReplyOut i r m => Some (i, r, m) | _ => None end) log.

Section service.
Context `{InetPton} {L T : Type} `{RateLimit L} `{Blocklist T} {C U : Type} `{AnswerCache C} `{Interfaces.UpstreamService U} {R : Type}.
Context (clock : nat → Z) (random : nat → Z → Z) (case_bits : nat → nat → Z) (calls : nat → Upstream.SendCalls) (times : nat → Z).

Record Service := mkService {
  sv_processor : QueryProcessor (L:=L); sv_resolver : Resolver C U; sv_pending : gmap nat (Pending * R);
  sv_next : nat; sv_ticks : nat; sv_log : list (ServiceEvent R);
}.

Definition with_processor (s : Service) (p : QueryProcessor) : Service :=
  mkService p (sv_resolver s) (sv_pending s) (sv_next s) (sv_ticks s) (sv_log s).
Definition with_resolver (s : Service) (r : Resolver C U) : Service :=
  mkService (sv_processor s) r (sv_pending s) (sv_next s) (sv_ticks s) (sv_log s).
Definition with_pending (s : Service) (m : gmap nat (Pending * R)) : Service :=
  mkService (sv_processor s) (sv_resolver s) m (sv_next s) (sv_ticks s) (sv_log s).
Definition with_ticks (s : Service) (n : nat) : Service :=
  mkService (sv_processor s) (sv_resolver s) (sv_pending s) (sv_next s) n (sv_log s).
Definition saw (s : Service) (e : ServiceEvent R) : Service :=
  mkService (sv_processor s) (sv_resolver s) (sv_pending s) (sv_next s) (sv_ticks s) (sv_log s ++ [e]).

Definition new_service (p : QueryProcessor) (r : Resolver C U) : Service := mkService p r ∅ 0 0 [].

(** The effects of query [i], whose responder is [r]. *)
Fixpoint perform (i : nat) (r : R) (effects : list QueryProcessor.Effect) (s : Service) : outcome SubnetError Service :=
  match effects with
  | [] => Ok s
  | Sent m :: effects => perform i r effects (saw s (ReplyOut i r m))
  | ReportedBlock e :: effects => perform i r effects (saw s (SawBlock e))
  | ReportedRebinding e :: effects => perform i r effects (saw s (SawRebinding e))
  | AskedResolver q k :: effects =>
    '(_, rs) ← lift (exec clock random case_bits calls (Resolve q i) (sv_resolver s));
    perform i r effects (with_pending (with_resolver s rs) (<[i := (k, r)]> (sv_pending s)))
  end.

(** [processor.handle(std::move(query), client, std::move(respond))]. *)
Definition handle_query (lists : Lists (T:=T)) (query : Message) (client : ClientInfo) (r : R) (s : Service) : outcome SubnetError Service :=
  let i := sv_next s in
  let s := saw s (QueryIn i query client r) in
  let n := sv_ticks s in
  '(effects, p) ← handle (sv_processor s) lists query client (times n) (times (S n));
  perform i r effects (mkService p (sv_resolver s) (sv_pending s) (S i) (S (S n)) (sv_log s)).

(** The resolver's callbacks: the pipeline's own, the one of [prime_root] and
    the one for alerts. *)
Definition deliver_event (lists : Lists (T:=T)) (e : Event) (s : Service) : outcome SubnetError Service :=
  match e with
  | Called i _ result =>
    match sv_pending s !! i with
    | None => Fault Dangling
    | Some (k, r) =>
      let n := sv_ticks s in
      '(effects, p) ← on_resolved (sv_processor s) lists k
        (match result with inl e => inl e | inr res => inr (rs_response res) end) (times n);
      perform i r effects (with_pending (with_processor (with_ticks s (S n)) p) (delete i (sv_pending s)))
    end
  | Primed _ result => Ok (saw s (SawPrimed result))
  | Alerted alert => Ok (saw s (SawSpoof alert))
  | Asked _ _ _ _ _ _ _ _ | Stored _ _ _ _ _ _ => Ok s
  end.

Fixpoint deliver (lists : Lists (T:=T)) (events : list Event) (s : Service) : outcome SubnetError Service :=
  match events with [] => Ok s | e :: events => s ← deliver_event lists e s; deliver lists events s end.

(** What the loop and [main] make the resolver do. *)
Inductive ServiceOp :=
| HandleQuery (query : Message) (client : ClientInfo) (r : R)
| Prime
| ResolverTimers (at_time newest : Z)
| ResolverEvent (ev : Interfaces.UpstreamEvent).

Definition run_resolver (lists : Lists (T:=T)) (op : Op) (s : Service) : outcome SubnetError Service :=
  '(_, rs) ← lift (exec clock random case_bits calls op (sv_resolver s));
  deliver lists (news (sv_resolver s) rs) (with_resolver s rs).

Definition service_exec (lists : Lists (T:=T)) (op : ServiceOp) (s : Service) : outcome SubnetError Service :=
  match op with
  | HandleQuery query client r => handle_query lists query client r s
  | Prime => run_resolver lists (PrimeRoot 0) s
  | ResolverTimers at_time newest => run_resolver lists (TimersDue at_time newest) s
  | ResolverEvent ev => run_resolver lists (UpstreamCalls ev) s
  end.

(** The replies of one operation. *)
Definition new_replies (s s' : Service) : list (nat * R * Message) := drop (length (replied (sv_log s))) (replied (sv_log s')).

(** The lists in use may be other ones at each operation. *)
Fixpoint service_run (ops : list (Lists (T:=T) * ServiceOp)) (s : Service) : outcome SubnetError Service :=
  match ops with [] => Ok s | (lists, op) :: ops => s ← service_exec lists op s; service_run ops s end.
End service.
Arguments Service L C U R : clear implicits.
