(* ===== verification/ServiceProps.v ===== *)
(** * What the service guarantees

    The pipeline and the resolver together, over any sequence of queries and
    resolver operations and with any lists in use at each: nothing faults, every
    query is accounted for (answered once, dropped by a limit, or still waited
    for by the resolver), and every reply is one the policy allows. *)

From stdpp Require Import base tactics numbers list gmap fin_maps.
From Stdlib Require Import ZArith Lia.
From S2P Require Import EventLoop Prelude Names Types Builder Acl Rrl Rebinding Blocklist CnameCheck Blocklists RateLimiter Interfaces.
From S2P Require Import ServerSelection Resolver ResolverLinks ResolverInv ResolverSteps ResolverProps ResolverLog ResolverRuns QueryProcessor Service.

(** ** The pipeline's settings stay as they are *)

(** A limiter whose action is a setting. *)
Class SteadyAction (L : Type) `{RateLimit L} : Prop :=
  rate_action_kept : ∀ l addr now, rate_action (rate_allow l addr now).2 = rate_action l.

Lemma allow_config l client now : rt_config (allow l client now).2 = rt_config l.
Proof.
  unfold allow. destruct (limiter_enabled l); [|done]. destruct (ip_address client) as [ip|]; [|done]. cbn [negb].
  destruct (any_contains _ _); [done|]. destruct (rt_buckets l !! ip_key ip) as [b|].
  { destruct (take_token l b now) as [[ok b'] l'] eqn:E. apply take_token_frame in E as [E _]. exact E. }
  set (l1 := if _ && _ then forget_idle l now else l). assert (rt_config l1 = rt_config l) as <- by (unfold l1; by destruct (_ && _)).
  clearbody l1. destruct (table_full l1); destruct (take_token l1 _ now) as [[ok b'] l'] eqn:E; apply take_token_frame in E as [E _]; exact E.
Qed.

Global Instance rate_limiter_steady : SteadyAction RateLimiter.
Proof. intros l client now. change (rlc_action (rt_config (allow l client now).2) = rlc_action (rt_config l)). by rewrite allow_config. Qed.

Lemma check_key_config rl k now : rl_config (check_key rl k now).2 = rl_config rl.
Proof.
  unfold check_key. destruct (rl_entries rl !! k) as [e|].
  { destruct (count rl e now) as [[v e'] rl'] eqn:E. apply count_setup in E as [[E _] _]. exact E. }
  set (rl1 := if _ && _ then forget_expired rl now else rl). assert (rl_config rl1 = rl_config rl) as <- by (unfold rl1; by destruct (_ && _)).
  clearbody rl1. destruct (_ <=? _)%Z; destruct (count rl1 _ now) as [[v e'] rl'] eqn:E; apply count_setup in E as [[E _] _]; exact E.
Qed.

Lemma rrl_check_config rl client m now : rl_config (rrl_check rl client m now).2 = rl_config rl.
Proof. rewrite rrl_check_key. destruct (request_key rl client m); [apply check_key_config|done]. Qed.

Section pipeline.
Context `{InetPton} {L T : Type} `{SteadyAction L} `{Blocklist T}.
Abbreviation Processor := (QueryProcessor (L:=L)).
Implicit Types (p : Processor) (lists : Lists (T:=T)) (query m : Message) (client : ClientInfo).

Record same_checks p p' : Prop := {
  sc_access : ck_access (qp_checks p') = ck_access (qp_checks p);
  sc_rebinding : ck_rebinding (qp_checks p') = ck_rebinding (qp_checks p);
  sc_rrl : rl_config (ck_rrl (qp_checks p')) = rl_config (ck_rrl (qp_checks p));
  sc_action : rate_action (ck_rate_limit (qp_checks p')) = rate_action (ck_rate_limit (qp_checks p));
}.

Global Instance same_checks_refl : Reflexive same_checks.
Proof. by split. Qed.
Global Instance same_checks_trans : Transitive same_checks.
Proof. intros p1 p2 p3 [] []. split; congruence. Qed.

Lemma same_rate_limit p addr now : same_checks p (set_rate_limit p (rate_allow (ck_rate_limit (qp_checks p)) addr now).2).
Proof. split; [done..|]. apply rate_action_kept. Qed.

(** Names protected against answers with private addresses. *)
Definition protected p (q : Question) : bool :=
  rb_enabled (ck_rebinding (qp_checks p)) && negb (exempt (ck_rebinding (qp_checks p)) (q_qname q)).

(** An address the pipeline makes up, or one that is not private. *)
Definition harmless (rr : RR) : Prop :=
  rr_rdata rr = RDataA (replicate 4 0%Z) ∨ rr_rdata rr = RDataAAAA (replicate 16 0%Z) ∨ is_private_address (rr_rdata rr) = Ok false.

(** What a client may be told. *)
Record reply_ok p query client m : Prop := {
  ro_echoes : echoes query m;
  ro_denied : allows (ck_access (qp_checks p)) (ci_addr client) = false → h_rcode (m_header m) = RCode.Refused ∧ m_answers m = [];
  ro_harmless : Forall (λ q, protected p q = true → Forall harmless (m_answers m)) (m_questions query);
}.

Lemma reply_ok_same p p' query client m : same_checks p p' → reply_ok p query client m → reply_ok p' query client m.
Proof. intros [Ea Er _ _] [He Hd Hh]. split; [done|by rewrite Ea|]. unfold protected in *. by rewrite Er. Qed.

Lemma reply_ok_truncated p query client m : reply_ok p query client m → reply_ok p query client (truncated m).
Proof.
  intros [He Hd Hh]. split; [by apply echoes_truncated|..].
  - intros Hn. split; [by apply Hd|done].
  - apply Forall_true. intros q. constructor.
Qed.

Lemma reply_ok_empty p query client m : echoes query m → m_answers m = [] → h_rcode (m_header m) = RCode.Refused ∨ allows (ck_access (qp_checks p)) (ci_addr client) = true →
  reply_ok p query client m.
Proof.
  intros He Ha Hr. split; [done| |].
  - intros Hd. split; [|done]. destruct Hr; [done|congruence].
  - apply Forall_true. intros q. rewrite Ha. constructor.
Qed.

(** Replies to a query: none but to this one, at most one, each allowed; none
    only if the response rate limit took it. *)
Definition replies_ok p query client (limited : bool) (effects : list QueryProcessor.Effect) : Prop :=
  QueryProcessor.asks effects = [] ∧ length (sent effects) ≤ 1 ∧ Forall (reply_ok p query client) (sent effects) ∧ (sent effects = [] → limited = true).

Lemma respond_replies p query client addr limited m now : reply_ok p query client m →
  let '(effects, p') := respond p addr limited m now in replies_ok p query client limited effects ∧ same_checks p p'.
Proof.
  intros Hm. pose proof (respond_sent p addr limited m now) as [Ha Hs]. pose proof (reply_ok_truncated _ _ _ _ Hm) as Ht.
  assert (Hsame : same_checks p (respond p addr limited m now).2).
  { unfold respond. destruct limited; [|done]. pose proof (rrl_check_config (ck_rrl (qp_checks p)) addr m now) as E.
    destruct (rrl_check _ _ _ _) as [v rl]. by split. }
  destruct (respond p addr limited m now) as [effects p']. cbn [fst snd] in *. split; [|done]. unfold replies_ok. rewrite Ha.
  destruct Hs as [-> |[-> [-> | ->]]]; (split_and!; [done|cbn; lia| |done]); rewrite ?Forall_singleton; done.
Qed.

Lemma report_replies p query client limited q chain match_ effects :
  replies_ok p query client limited effects → replies_ok p query client limited (report p q chain match_ ++ effects).
Proof. unfold report. by destruct (qp_on_block p). Qed.
Lemma rebinding_replies p query client limited e effects :
  replies_ok p query client limited effects → replies_ok p query client limited (report_rebinding p e ++ effects).
Proof. unfold report_rebinding. by destruct (qp_on_rebinding p). Qed.

(** Why a query may stay without a reply. *)
Definition excused p client : Prop :=
  (allows (ck_access (qp_checks p)) (ci_addr client) = false ∧ ac_deny (ck_access (qp_checks p)) = DropQuery) ∨
  rate_action (ck_rate_limit (qp_checks p)) = DropQuery ∨ limits p client = true.

Lemma excused_same p p' client : same_checks p p' → excused p client → excused p' client.
Proof. intros [Ea _ Er Et]. unfold excused, limits, enabled. by rewrite Ea, Er, Et. Qed.

Lemma blocked_reply {E} p query client (config : ListsConfig) q rest : allows (ck_access (qp_checks p)) (ci_addr client) = true → m_questions query = q :: rest →
  ∃ m, blocked_response (E:=E) (make_response query RCode.NoError) config = Ok m ∧ reply_ok p query client m.
Proof.
  intros Ha Hq. destruct (blocked_response_ok (E:=E) query config q rest Hq) as (m & Hm & He & _ & Hn). exists m. split; [done|].
  split; [done|congruence|]. apply Forall_true. intros q' _. eapply Forall_impl; [exact Hn|]. intros rr [? | ?]; unfold harmless; auto.
Qed.

(** Dealt with at once: replied to, or excused. *)
Definition settled p query client (effects : list QueryProcessor.Effect) : Prop :=
  QueryProcessor.asks effects = [] ∧ length (sent effects) ≤ 1 ∧ Forall (reply_ok p query client) (sent effects) ∧ (sent effects = [] → excused p client).

Lemma same_checks_sym p p' : same_checks p p' → same_checks p' p.
Proof. intros []. by split. Qed.

Lemma replies_settled p p1 query client effects : same_checks p p1 → replies_ok p1 query client (limits p client) effects → settled p query client effects.
Proof.
  intros Hs (Ha & Hl & Hr & Hn). split_and!; [done|done| |].
  - eapply Forall_impl; [exact Hr|]. intros m. apply reply_ok_same. by apply same_checks_sym.
  - intros E. right. right. by apply Hn.
Qed.

Lemma respond_settled p p1 query client m now : same_checks p p1 → reply_ok p query client m →
  ∃ effects p', respond p1 (ci_addr client) (limits p client) m now = (effects, p') ∧ same_checks p p' ∧ settled p query client effects.
Proof.
  intros Hs Hm. pose proof (respond_replies p1 query client (ci_addr client) (limits p client) m now (reply_ok_same _ _ _ _ _ Hs Hm)) as Hr.
  destruct (respond _ _ _ _ _) as [effects p']. destruct Hr as [Hr Hs']. exists effects, p'. split_and!; [done|by etrans|by eapply replies_settled].
Qed.

Lemma refused_ok p query client : reply_ok p query client (make_response query RCode.Refused).
Proof. apply reply_ok_empty; [apply echoes_response|done|by left]. Qed.

(** Handling a query: it is asked of the resolver, or dealt with at once. *)
Lemma handle_replies p lists query client limit_now now :
  ∃ effects p', handle p lists query client limit_now now = Ok (effects, p') ∧ same_checks p p' ∧
    ((∃ q check_chain, m_questions query = [q] ∧ allows (ck_access (qp_checks p)) (ci_addr client) = true ∧
        effects = [AskedResolver q (continuation query p client check_chain)]) ∨ settled p query client effects).
Proof.
  unfold handle. destruct (allows (ck_access (qp_checks p)) (ci_addr client)) eqn:Ea; cbn [negb].
  2:{ destruct (ac_deny _) eqn:Ed.
      - destruct (respond_settled p p query client _ now ltac:(done) (refused_ok p query client)) as (es & p' & -> & ? & ?). eauto 10.
      - exists [], p. split_and!; [done|done|]. right. split_and!; [done|cbn; lia|constructor|]. intros _. by left. }
  pose proof (same_rate_limit p (ci_addr client) limit_now) as Hs. destruct (rate_allow _ _ _) as [ok l]. cbn [snd] in Hs. destruct ok; cbn [negb].
  2:{ destruct (rate_action _) eqn:Ed.
      - destruct (respond_settled p _ query client _ now Hs (refused_ok p query client)) as (es & p' & -> & ? & ?). eauto 10.
      - do 2 eexists. split_and!; [done|done|]. right. split_and!; [done|cbn; lia|constructor|]. intros _. right. left.
        rewrite <-(sc_action _ _ Hs). done. }
  assert (Hempty : ∀ rcode, reply_ok p query client (make_response query rcode)).
  { intros rcode. apply reply_ok_empty; [apply echoes_response|done|by right]. }
  destruct (reject_reason query) as [rcode|] eqn:Er.
  { destruct (respond_settled p _ query client _ now Hs (Hempty rcode)) as (es & p' & -> & ? & ?). eauto 10. }
  destruct (reject_reason_None query Er) as (q & Hq & _). rewrite Hq. destruct (tr_matched _ && bool_decide _).
  - destruct (blocked_reply (E:=SubnetError) p query client (ls_config lists) q [] Ea Hq) as (m & -> & Hm). rewrite bind_Ok.
    destruct (respond_settled p _ query client m now Hs Hm) as (es & p' & -> & ? & Hset). do 2 eexists. split_and!; [done|done|].
    right. unfold report. by destruct (qp_on_block _).
  - do 2 eexists. split_and!; [done|done|]. left. eauto 10.
Qed.

(** ** Answers of the resolver *)

Lemma is_private_total `{!InetPtonLiterals} d : ∃ b, is_private_address d = Ok b.
Proof.
  destruct d; cbn [is_private_address]; eauto; unfold in_private_range; rewrite private_ranges_value; rewrite bind_Ok; eauto.
Qed.

Lemma partition_private_total `{!InetPtonLiterals} answers : ∃ kept removed, partition_private answers = Ok (kept, removed) ∧
  Forall (λ rr, is_private_address (rr_rdata rr) = Ok false) kept.
Proof.
  induction answers as [|rr answers (kept & removed & E & Hk)]; [by exists [], []|]. cbn [partition_private].
  destruct (is_private_total (rr_rdata rr)) as [b Eb]. rewrite Eb, bind_Ok, E, bind_Ok. destruct b; [by eauto|].
  exists (rr :: kept), removed. split; [done|]. by constructor.
Qed.

Lemma strip_total `{!InetPtonLiterals} p q answers : ∃ removed kept, strip (ck_rebinding (qp_checks p)) (q_qname q) answers = Ok (removed, kept) ∧
  (protected p q = true → Forall harmless kept).
Proof.
  unfold strip, protected. destruct (rb_enabled _), (exempt _ _); cbn [negb orb andb]; [by exists [], answers| |by exists [], answers..].
  destruct (partition_private_total answers) as (kept & removed & -> & Hk). rewrite bind_Ok. exists removed, kept. split; [done|].
  intros _. eapply Forall_impl; [exact Hk|]. intros rr Hrr. right. by right.
Qed.

(** What the pipeline's callback captured for a query of an allowed client. *)
Record captured p query client (k : Pending) : Prop := {
  cp_response : pd_response k = make_response query RCode.NoError;
  cp_addr : pd_addr k = ci_addr client;
  cp_limited : pd_limited k = limits p client;
  cp_allowed : allows (ck_access (qp_checks p)) (ci_addr client) = true;
  cp_question : ∃ q, m_questions query = [q];
}.

Lemma captured_same p p' query client k : same_checks p p' → captured p query client k → captured p' query client k.
Proof. intros [Ea _ Er _] [? ? Hl ? ?]. split; try done; [|by rewrite Ea]. rewrite Hl. unfold limits, enabled. by rewrite Er. Qed.

(** Whatever the resolver says, the query is dealt with. *)
Lemma on_resolved_replies `{!InetPtonLiterals} p lists query client k (result : ResolveError.t + Message) now : captured p query client k →
  ∃ effects p', on_resolved p lists k result now = Ok (effects, p') ∧ same_checks p p' ∧ settled p query client effects.
Proof.
  intros [Hk Haddr Hlim Hall [q Hq]]. unfold on_resolved.
  assert (Hresp : ∀ m, reply_ok p query client m → ∃ effects p', respond p (pd_addr k) (pd_limited k) m now = (effects, p') ∧ same_checks p p' ∧ settled p query client effects).
  { intros m Hm. rewrite Haddr, Hlim. by apply respond_settled. }
  destruct result as [e|res].
  { destruct (Hresp (set_rcode (pd_response k) RCode.ServFail)) as (es & p' & -> & ? & ?); [|by eauto 10].
    apply reply_ok_empty; [rewrite Hk; apply echoes_rcode, echoes_response|by rewrite Hk|by right]. }
  assert (m_questions (pd_response k) = [q]) as -> by (by rewrite Hk).
  assert (Hcl : ∃ c, (if pd_check_chain k then lift (find_cloaked (q_qname q) (m_answers res) (ls_trie lists)) else Ok (E:=SubnetError) None) = Ok c).
  { destruct (pd_check_chain k); [|by eauto]. destruct (find_cloaked_value (q_qname q) (m_answers res) (ls_trie lists)) as (chain & c & _ & -> & _). by exists c. }
  destruct Hcl as [c ->]. rewrite bind_Ok. destruct c as [c|].
  - rewrite Hk. destruct (blocked_reply (E:=SubnetError) p query client (ls_config lists) q [] Hall Hq) as (m & -> & Hm). rewrite bind_Ok.
    destruct (Hresp m Hm) as (es & p' & -> & ? & ?). do 2 eexists. split_and!; [done|done|]. unfold report. by destruct (qp_on_block p).
  - unfold finish. destruct (strip_total p q (m_answers res)) as (removed & kept & -> & Hkept). rewrite bind_Ok. cbv beta iota zeta.
    set (m := if _ && _ then _ else _). assert (Hm : reply_ok p query client m).
    { assert (Hec : echoes query (pd_response k)) by (rewrite Hk; apply echoes_response). unfold m. destruct (_ && _).
      - apply reply_ok_empty; [by apply echoes_rcode|by rewrite Hk|by right].
      - split; [by apply echoes_authority, echoes_answers, echoes_rcode|congruence|]. rewrite Hq. by apply Forall_singleton. }
    clearbody m. destruct (Hresp m Hm) as (es & p' & -> & ? & ?). do 2 eexists. split_and!; [done|done|].
    destruct removed; [done|]. unfold report_rebinding. by destruct (qp_on_rebinding p).
Qed.
End pipeline.

(** ** What the service's log says *)

Section events.
Context {R : Type}.
Implicit Types (log : list (ServiceEvent R)).

Definition queries log : list nat := omap (λ e, match e with QueryIn i _ _ _ => Some i | _ => None end) log.
Definition replies log : list nat := omap (λ e, match e with ReplyOut i _ _ => Some i | _ => None end) log.

Lemma queries_app log log' : queries (log ++ log') = queries log ++ queries log'.
Proof. apply omap_app. Qed.
Lemma replies_app log log' : replies (log ++ log') = replies log ++ replies log'.
Proof. apply omap_app. Qed.

Lemma replied_app log log' : replied (log ++ log') = replied log ++ replied log'.
Proof. apply omap_app. Qed.

Lemma elem_of_replies i log : i ∈ replies log ↔ ∃ r m, ReplyOut i r m ∈ log.
Proof.
  unfold replies. rewrite list_elem_of_omap. split.
  - intros ([] & He & [= ->]). eauto.
  - intros (r & m & He). by eexists.
Qed.
Lemma elem_of_queries i log : i ∈ queries log ↔ ∃ query client r, QueryIn i query client r ∈ log.
Proof.
  unfold queries. rewrite list_elem_of_omap. split.
  - intros ([] & He & [= ->]). eauto.
  - intros (query & client & r & He). by eexists.
Qed.

(** The queries themselves, in order. *)
Definition queried log : list (Message * ClientInfo * R) := omap (λ e, match e with QueryIn _ query client r => Some (query, client, r) | _ => None end) log.
Lemma queried_app log log' : queried (log ++ log') = queried log ++ queried log'.
Proof. apply omap_app. Qed.

(** The event of an effect on query [i]. *)
Definition told (i : nat) (r : R) (e : QueryProcessor.Effect) : option (ServiceEvent R) :=
  match e with
  | Sent m => Some (ReplyOut i r m)
  | ReportedBlock e => Some (SawBlock e)
  | ReportedRebinding e => Some (SawRebinding e)
  | AskedResolver _ _ => None
  end.

Lemma queries_told i r effects : queries (omap (told i r) effects) = [].
Proof. unfold queries. induction effects as [|[] effects IH]; done. Qed.
Lemma queried_told i r effects : queried (omap (told i r) effects) = [].
Proof. unfold queried. induction effects as [|[] effects IH]; done. Qed.
Lemma elem_of_told i r effects i' r' m : ReplyOut i' r' m ∈ omap (told i r) effects ↔ i' = i ∧ r' = r ∧ m ∈ sent effects.
Proof.
  unfold sent. rewrite !list_elem_of_omap. split.
  - intros ([] & He & [= -> -> ->]). split_and!; [done..|]. by eexists.
  - intros (-> & -> & [] & He & [= ->]). by eexists.
Qed.
Lemma replied_told i r effects : replied (omap (told i r) effects) = (λ m, (i, r, m)) <$> sent effects.
Proof. unfold replied, sent. induction effects as [|[] effects IH]; cbn; [done|by f_equal|done..]. Qed.
Lemma replies_told i r effects : replies (omap (told i r) effects) = replicate (length (sent effects)) i.
Proof. unfold replies, sent. induction effects as [|[] effects IH]; cbn; [done|by f_equal|done..]. Qed.
End events.

(** The callbacks that are the pipeline's, by query. *)
Definition pipeline_callbacks (cbs : list Callback) : list nat :=
  omap (λ cb, match cb with ClientDone k _ => Some k | _ => None end) cbs.

Lemma elem_of_callbacks i cbs : i ∈ pipeline_callbacks cbs ↔ ∃ q, ClientDone i q ∈ cbs.
Proof.
  unfold pipeline_callbacks. rewrite list_elem_of_omap. split.
  - intros ([] & He & [= ->]). eauto.
  - intros (q & He). by eexists.
Qed.

Lemma callbacks_app cbs cbs' : pipeline_callbacks (cbs ++ cbs') = pipeline_callbacks cbs ++ pipeline_callbacks cbs'.
Proof. apply omap_app. Qed.

Global Instance callbacks_perm : Proper ((≡ₚ) ==> (≡ₚ)) pipeline_callbacks.
Proof. intros xs ys E. unfold pipeline_callbacks. by rewrite E. Qed.

(** ** The log only grows *)

Section growth.
Context `{InetPton} {L T : Type} `{RateLimit L} `{Blocklist T} {C U : Type} `{AnswerCache C} `{Interfaces.UpstreamService U} {R : Type}.
Context (clock : nat → Z) (random : nat → Z → Z) (case_bits : nat → nat → Z) (calls : nat → Upstream.SendCalls) (times : nat → Z).
Implicit Types (s : Service L C U R) (lists : Lists (T:=T)).

Lemma perform_grows i r effects : ∀ s s', perform clock random case_bits calls i r effects s = Ok s' → sv_log s `prefix_of` sv_log s'.
Proof.
  induction effects as [|e effects IH]; intros s s'; cbn [perform]; [by intros [= <-]|].
  destruct e; try (intros E%IH; etrans; [|exact E]; by eexists). destruct (lift _) as [[? rs]| |]; [|done..]. rewrite bind_Ok.
  intros E%IH. exact E.
Qed.

Lemma deliver_event_grows lists e s s' : deliver_event clock random case_bits calls times lists e s = Ok s' → sv_log s `prefix_of` sv_log s'.
Proof.
  destruct e; cbn [deliver_event]; try (by intros [= <-]; try by eexists). destruct (sv_pending s !! _) as [[k0 r]|]; [|done].
  destruct (on_resolved _ _ _ _ _) as [[effects p]| |]; [|done..]. rewrite bind_Ok. apply perform_grows.
Qed.

Lemma deliver_grows lists events : ∀ s s', deliver clock random case_bits calls times lists events s = Ok s' → sv_log s `prefix_of` sv_log s'.
Proof.
  induction events as [|e events IH]; intros s s'; cbn [deliver]; [by intros [= <-]|].
  destruct (deliver_event _ _ _ _ _ _ _ _) as [s1| |] eqn:E1; [|done..]. rewrite bind_Ok. intros E%IH. apply deliver_event_grows in E1. by etrans.
Qed.

Lemma service_exec_grows lists op s s' : service_exec clock random case_bits calls times lists op s = Ok s' → sv_log s `prefix_of` sv_log s'.
Proof.
  assert (Hr : ∀ rop, run_resolver clock random case_bits calls times lists rop s = Ok s' → sv_log s `prefix_of` sv_log s').
  { intros rop. unfold run_resolver. destruct (lift _) as [[? rs]| |]; [|done..]. rewrite bind_Ok. apply deliver_grows. }
  destruct op; cbn [service_exec]; [|by apply Hr..]. unfold handle_query. destruct (handle _ _ _ _ _ _) as [[effects p]| |]; [|done..]. rewrite bind_Ok.
  intros E%perform_grows. cbn [saw sv_log] in E. etrans; [|exact E]. by eexists.
Qed.

Lemma replied_prefix s s' : sv_log s `prefix_of` sv_log s' → replied (sv_log s') = replied (sv_log s) ++ new_replies s s'.
Proof. intros [es E]. unfold new_replies, replied. by rewrite E, omap_app, drop_app_length. Qed.

Lemma replied_grows lists op s s' : service_exec clock random case_bits calls times lists op s = Ok s' →
  replied (sv_log s') = replied (sv_log s) ++ new_replies s s'.
Proof. intros E%service_exec_grows. by apply replied_prefix. Qed.
End growth.

(** ** The invariant *)

Section service_inv.
Context `{InetPton} `{!InetPtonLiterals} {L T : Type} `{SteadyAction L} `{Blocklist T} {C U : Type} `{AnswerCache C} `{Interfaces.UpstreamService U} {R : Type}.
Context (clock : nat → Z) (random : nat → Z → Z) (case_bits : nat → nat → Z) (calls : nat → Upstream.SendCalls) (times : nat → Z).
Context (cfg : ResolverConfig) (p0 : QueryProcessor (L:=L)).
Abbreviation S' := (Service L C U R).
Implicit Types (s : S') (iss : list Callback) (lists : Lists (T:=T)).

(** [iss]: the callbacks given to the resolver so far; [open]: a query that is
    being dealt with; [owed]: queries whose callback has been called but not
    delivered yet. *)
Record service_inv iss (open : option nat) (owed : list nat) s : Prop := {
  si_settings : same_checks p0 (sv_processor s);
  si_resolver : inv cfg None None [] iss (sv_resolver s);
  si_issued : NoDup (pipeline_callbacks iss) ∧ ∀ i, i ∈ pipeline_callbacks iss → i < sv_next s;
  si_asked : ∀ i q, ClientDone i q ∈ iss → ∃ query client r, QueryIn i query client r ∈ sv_log s ∧ m_questions query = [q];
  si_pending : ∀ i, is_Some (sv_pending s !! i) ↔ i ∈ owed ++ pipeline_callbacks (waiting (links (sv_resolver s)));
  si_owed : NoDup (owed ++ pipeline_callbacks (waiting (links (sv_resolver s))));
  si_captured : ∀ i k r, sv_pending s !! i = Some (k, r) → ∃ query client, QueryIn i query client r ∈ sv_log s ∧ captured p0 query client k;
  si_queries : queries (sv_log s) = seq 0 (sv_next s);
  si_replies : NoDup (replies (sv_log s));
  si_replied : ∀ i r m, ReplyOut i r m ∈ sv_log s → open ≠ Some i ∧ sv_pending s !! i = None ∧
    ∃ query client, QueryIn i query client r ∈ sv_log s ∧ reply_ok p0 query client m;
  si_open : ∀ i, open = Some i → sv_pending s !! i = None;
  si_accounted : ∀ i query client r, QueryIn i query client r ∈ sv_log s →
    open = Some i ∨ i ∈ replies (sv_log s) ∨ is_Some (sv_pending s !! i) ∨ excused p0 client;
}.

(** What is only reported changes nothing. *)
Lemma saw_inv iss open owed s e : service_inv iss open owed s → queries [e] = [] → replies [e] = [] → service_inv iss open owed (saw s e).
Proof.
  intros [Hset Hres Hiss Hask Hpen Howe Hcap Hq Hr Hrep Hopen Hacc] Eq Er.
  assert (Hin : ∀ x, x ∈ sv_log s → x ∈ sv_log s ++ [e]) by set_solver.
  split; cbn [saw sv_processor sv_resolver sv_pending sv_next sv_ticks sv_log]; try done.
  - intros i q Hi. destruct (Hask i q Hi) as (query & client & r & ? & ?). eauto 10.
  - intros i k r Hi. destruct (Hcap i k r Hi) as (query & client & ? & ?). eauto 10.
  - by rewrite queries_app, Eq, app_nil_r.
  - by rewrite replies_app, Er, app_nil_r.
  - intros i r m [Hx|Hx]%elem_of_app.
    + destruct (Hrep i r m Hx) as (? & ? & query & client & ? & ?). eauto 10.
    + apply list_elem_of_singleton in Hx as <-. done.
  - intros i query client r [Hx|Hx]%elem_of_app.
    + rewrite replies_app, Er, app_nil_r. eauto.
    + apply list_elem_of_singleton in Hx as <-. done.
Qed.

Lemma perform_told i r effects : QueryProcessor.asks effects = [] → ∀ s,
  perform clock random case_bits calls i r effects s =
    Ok (mkService (sv_processor s) (sv_resolver s) (sv_pending s) (sv_next s) (sv_ticks s) (sv_log s ++ omap (told i r) effects)).
Proof.
  induction effects as [|e effects IH]; intros Ha s; [cbn [perform]; by rewrite app_nil_r; destruct s|].
  destruct e; cbn [perform]; try done; rewrite IH by done; cbn [saw sv_processor sv_resolver sv_pending sv_next sv_ticks sv_log];
    by rewrite <-app_assoc.
Qed.

(** Two queries never share a number. *)
Lemma query_unique iss open owed s i q1 c1 r1 q2 c2 r2 : service_inv iss open owed s →
  QueryIn i q1 c1 r1 ∈ sv_log s → QueryIn i q2 c2 r2 ∈ sv_log s → q1 = q2 ∧ c1 = c2 ∧ r1 = r2.
Proof.
  intros Hinv Hj1 Hj2. assert (Hnd : NoDup (queries (sv_log s))) by (rewrite (si_queries _ _ _ _ Hinv); apply NoDup_seq).
  apply list_elem_of_lookup in Hj1 as [j1 Hj1]. apply list_elem_of_lookup in Hj2 as [j2 Hj2]. clear Hinv. revert j1 j2 Hj1 Hj2 Hnd.
  induction (sv_log s) as [|e log IH]; intros j1 j2 Hj1 Hj2 Hnd; [done|]. unfold queries in Hnd. cbn [omap list_omap] in Hnd.
  assert (Hin : ∀ j q c r, log !! j = Some (QueryIn i q c r) → i ∈ queries log).
  { intros j q c r Hj. apply elem_of_queries. exists q, c, r. by eapply list_elem_of_lookup_2. }
  destruct j1 as [|j1], j2 as [|j2]; cbn in Hj1, Hj2; simplify_eq.
  - done.
  - apply NoDup_cons in Hnd as [Hn _]. by apply Hin in Hj2.
  - apply NoDup_cons in Hnd as [Hn _]. by apply Hin in Hj1.
  - eapply IH; [done..|]. destruct e; [by apply NoDup_cons in Hnd as [_ ?]|done..].
Qed.

(** The open query is dealt with. *)
Lemma settle_inv iss owed s i query client r effects : service_inv iss (Some i) owed s → QueryIn i query client r ∈ sv_log s →
  settled p0 query client effects →
  ∃ s', perform clock random case_bits calls i r effects s = Ok s' ∧ service_inv iss None owed s' ∧ queried (sv_log s') = queried (sv_log s).
Proof.
  intros Hinv Hi (Ha & Hlen & Hok & Hex). rewrite perform_told by done. eexists. split; [done|].
  split; [|cbn [sv_log]; by rewrite queried_app, queried_told, app_nil_r].
  assert (Huniq : ∀ q c r', QueryIn i q c r' ∈ sv_log s → query = q ∧ client = c ∧ r = r') by (intros q c r'; by eapply query_unique).
  destruct Hinv as [Hset Hres Hiss Hask Hpen Howe Hcap Hq Hr Hrep Hopen Hacc].
  set (es := omap (told i r) effects). assert (Hin : ∀ x, x ∈ sv_log s → x ∈ sv_log s ++ es) by set_solver.
  assert (Hnq : ∀ j q c r', QueryIn j q c r' ∉ es).
  { intros j q c r' Hx. assert (Hj : j ∈ queries es) by (apply elem_of_queries; eauto). unfold es in Hj. rewrite queries_told in Hj. by apply elem_of_nil in Hj. }
  split; cbn [sv_processor sv_resolver sv_pending sv_next sv_ticks sv_log]; try done.
  - intros j q Hj. destruct (Hask j q Hj) as (query' & client' & r' & ? & ?). eauto 10.
  - intros j k r' Hj. destruct (Hcap j k r' Hj) as (query' & client' & ? & ?). eauto 10.
  - rewrite queries_app. unfold es. by rewrite queries_told, app_nil_r.
  - rewrite replies_app. apply NoDup_app. split_and!; [done| |].
    + intros j Hj Hj'. unfold es in Hj'. rewrite replies_told in Hj'. apply elem_of_replicate in Hj' as [-> _].
      apply elem_of_replies in Hj as (r' & m & Hm). by destruct (Hrep i r' m Hm) as (? & _).
    + unfold es. rewrite replies_told. destruct (sent effects) as [|m [|]]; cbn in *; [constructor|apply NoDup_singleton|lia].
  - intros j r' m [Hx|Hx]%elem_of_app.
    + destruct (Hrep j r' m Hx) as (? & ? & query' & client' & ? & ?). split_and!; [done|done|]. eauto.
    + apply elem_of_told in Hx as (-> & -> & Hm). split_and!; [done|by apply Hopen|]. exists query, client. split; [by apply Hin|].
      by apply (proj1 (Forall_forall _ _) Hok).
  - intros j q c r' [Hx|Hx]%elem_of_app; [|by apply Hnq in Hx]. rewrite replies_app, elem_of_app. right.
    destruct (Hacc j q c r' Hx) as [[= <-]|[? |?]]; [|tauto..].
    destruct (Huniq q c r' Hx) as (<- & <- & <-). destruct (sent effects) as [|m ms] eqn:Es; [right; right; by apply Hex|].
    left. right. apply elem_of_replies. exists r, m. apply elem_of_told. rewrite Es. split_and!; [done..|left].
Qed.

Lemma waiting_none iss (rs : Resolver C U) : inv cfg None None [] iss rs → pipeline_callbacks (waiting (links rs)) ++ pipeline_callbacks (called (r_log rs)) ≡ₚ pipeline_callbacks iss.
Proof. intros Hinv. pose proof (iv_callers _ _ _ _ _ _ Hinv) as Hp. rewrite app_nil_r in Hp. by rewrite <-callbacks_app, Hp. Qed.

(** The open query goes to the resolver. *)
Lemma ask_inv iss owed s i query client r q k : rconfig_ok cfg → uniform random → service_inv iss (Some i) owed s → QueryIn i query client r ∈ sv_log s →
  m_questions query = [q] → captured p0 query client k → i ∉ pipeline_callbacks iss → i < sv_next s → ready calls (sv_resolver s) →
  ∃ s', perform clock random case_bits calls i r [AskedResolver q k] s = Ok s' ∧ service_inv (ClientDone i q :: iss) None owed s' ∧ queried (sv_log s') = queried (sv_log s).
Proof.
  intros Hcfg Hrandom Hinv Hi Hquery Hk Hfresh Hnext Hready. cbn [perform].
  pose proof (exec_inv clock random case_bits calls cfg iss (Resolve q i) (sv_resolver s) Hcfg Hrandom (si_resolver _ _ _ _ Hinv) Hready) as Hwp.
  unfold wp in Hwp. destruct (exec _ _ _ _ _ _) as [[[] rs]| |] eqn:Ex; [|done..]. cbn [issued app lift] in *. rewrite bind_Ok. eexists. split; [done|]. split; [|done].
  apply resolve_silent in Ex as Elog. pose proof (waiting_none _ _ Hwp) as Hw'. pose proof (waiting_none _ _ (si_resolver _ _ _ _ Hinv)) as Hw.
  rewrite Elog in Hw'. assert (Hperm : pipeline_callbacks (waiting (links rs)) ≡ₚ i :: pipeline_callbacks (waiting (links (sv_resolver s)))).
  { cbn [pipeline_callbacks omap list_omap] in Hw'. fold (pipeline_callbacks iss) in Hw'. rewrite <-Hw in Hw'.
    change (i :: ?a ++ ?b) with ((i :: a) ++ b) in Hw'. by apply Permutation_app_inv_r in Hw'. }
  destruct Hinv as [Hset Hres [Hnd Hlt] Hask Hpen Howe Hcap Hq Hr Hrep Hopen Hacc].
  assert (Hnw : i ∉ owed ++ pipeline_callbacks (waiting (links (sv_resolver s)))) by (rewrite <-Hpen, (Hopen i eq_refl); by intros []).
  split; cbn [with_pending with_resolver sv_processor sv_resolver sv_pending sv_next sv_ticks sv_log]; try done.
  - split; [by constructor|]. intros j [-> |Hj]%elem_of_cons; [done|by apply Hlt].
  - intros j q' [[= -> ->]|Hj]%elem_of_cons; [by eauto|by apply Hask].
  - intros j. rewrite Hperm, <-Permutation_middle, elem_of_cons, lookup_insert_is_Some, Hpen. destruct (decide (i = j)); naive_solver.
  - rewrite Hperm, <-Permutation_middle. by constructor.
  - intros j k' r' [[<- [= <- <-]]|[_ Hj]]%lookup_insert_Some; [by eauto|by apply Hcap].
  - intros j r' m Hm. destruct (Hrep j r' m Hm) as (Hne & Hj & Hx). split_and!; [done| |done]. rewrite lookup_insert_ne; [done|congruence].
  - intros j query' client' r' Hj. rewrite lookup_insert_is_Some. destruct (Hacc j query' client' r' Hj) as [[= <-]|[? |[? |?]]]; [tauto|tauto| |tauto].
    destruct (decide (i = j)); tauto.
Qed.

(** A query arrives. *)
Lemma open_inv iss owed s query client r p' n : service_inv iss None owed s → same_checks p0 p' →
  service_inv iss (Some (sv_next s)) owed (mkService p' (sv_resolver s) (sv_pending s) (S (sv_next s)) n (sv_log s ++ [QueryIn (sv_next s) query client r])).
Proof.
  intros [Hset Hres [Hnd Hlt] Hask Hpen Howe Hcap Hq Hr Hrep Hopen Hacc] Hs.
  assert (Hin : ∀ x, x ∈ sv_log s → x ∈ sv_log s ++ [QueryIn (sv_next s) query client r]) by set_solver.
  assert (Hold : ∀ q c r', QueryIn (sv_next s) q c r' ∉ sv_log s).
  { intros q c r' Hx. assert (Hj : sv_next s ∈ queries (sv_log s)) by (apply elem_of_queries; eauto). rewrite Hq in Hj.
    apply elem_of_seq in Hj. lia. }
  split; cbn [sv_processor sv_resolver sv_pending sv_next sv_ticks sv_log]; try done.
  - split; [done|]. intros i Hi. specialize (Hlt i Hi). lia.
  - intros i q Hi. destruct (Hask i q Hi) as (query' & client' & r' & ? & ?). eauto 10.
  - intros i k r' Hi. destruct (Hcap i k r' Hi) as (query' & client' & ? & ?). eauto 10.
  - by rewrite queries_app, Hq, seq_S.
  - by rewrite replies_app, app_nil_r.
  - intros i r' m [Hx|Hx%list_elem_of_singleton]%elem_of_app; [|done]. destruct (Hrep i r' m Hx) as (_ & ? & query' & client' & Hy & ?). split_and!; [|done|by eauto].
    intros [= <-]. by apply Hold in Hy.
  - intros i [= <-]. apply eq_None_not_Some. intros [[k r'] Hx]. destruct (Hcap _ _ _ Hx) as (q & c & Hy & _). by apply Hold in Hy.
  - intros i q c r' [Hx|Hx%list_elem_of_singleton]%elem_of_app.
    + rewrite replies_app, app_nil_r. destruct (Hacc _ _ _ _ Hx) as [|]; [done|]. tauto.
    + simplify_eq. by left.
Qed.

(** Room for [n] more queries. *)
Definition can_take (n : nat) (rs : Resolver C U) : Prop :=
  (r_next_task_id rs + Z.of_nat n < 18446744073709551616)%Z ∧ room (r_loop rs) (2 * n) ∧ us_calls_ok (r_upstream rs) (calls (r_sends rs)).

Lemma can_take_ready n rs : can_take (S n) rs → ready calls rs.
Proof. intros (? & ? & ?). split_and!; [lia|unfold room in *; lia|done]. Qed.
Lemma ready_can_take rs : ready calls rs → can_take 1 rs.
Proof. intros (? & ? & ?). split_and!; [lia|done|done]. Qed.
Lemma can_take_less n n' rs : n' ≤ n → can_take n rs → can_take n' rs.
Proof. intros Hle (? & ? & ?). split_and!; [lia|unfold room in *; lia|done]. Qed.

Lemma resolve_takes n iss q k rs rs' : inv cfg None None [] iss rs → can_take (S n) rs → exec clock random case_bits calls (Resolve q k) rs = Ok (tt, rs') → can_take n rs'.
Proof.
  intros Hinv (Hn & Hr & Hu) E. assert (Hw : wp (resolve_client clock q (ClientDone k q)) (λ _, can_take n) rs); [|unfold wp in Hw; cbn [exec] in E; by rewrite E in Hw].
  clear E. pose proof (iv_next _ _ _ _ _ _ Hinv) as Hnx. pose proof (iv_loop _ _ _ _ _ _ Hinv) as Hlp. pose proof (fresh_task _ _ _ _ _ _ Hinv) as Hfresh.
  unfold resolve_client. apply wp_bind, wp_gets. destruct (r_in_flight rs !! question_id q) as [id|] eqn:Hf.
  - destruct (lu_flight _ _ _ _ _ _ _ _ (iv_links _ _ _ _ _ _ Hinv) _ _ Hf) as (kt & Hk & _). unfold links in Hk. rewrite lookup_fmap in Hk.
    destruct (r_tasks rs !! id) as [t|] eqn:Ht; [|done]. apply wp_bind, wp_find. rewrite Ht. apply wp_bind, wp_now. intros x. eapply wp_put; [done|].
    split_and!; [cbn [with_task set_tasks set_ticks r_next_task_id]; lia|unfold room in *; cbn [with_task set_tasks set_ticks r_loop]; lia|done].
  - apply wp_bind, wp_ret. apply wp_bind, wp_bind, wp_gets, wp_bind, wp_modify, wp_ret.
    apply wp_bind. apply wp_spawn; [done|by unfold room in *; cbn [set_budgets r_loop]; lia|cbn [set_budgets r_next_task_id]; lia|done|].
    cbn [set_budgets r_next_task_id r_loop r_tasks]. intros started x l tk Hl Hx Hax Ex Ea En Et.
    apply wp_bind, wp_modify, wp_bind. eapply wp_deref; [cbn; apply lookup_insert_eq|]. apply wp_bind. eapply wp_put; [cbn; apply lookup_insert_eq|].
    apply wp_bind, wp_gets, wp_bind. apply wp_add_timer; [done|unfold room in *; cbn [with_task set_tasks set_in_flight set_loop set_ticks r_loop]; lia|].
    intros m y l' Hl' Hy Ey Hay Ea' En' Et' _. eapply wp_bind, wp_deref; [cbn; apply lookup_insert_eq|]. eapply wp_put; [cbn; apply lookup_insert_eq|].
    cbn [with_task set_tasks set_in_flight set_loop set_ticks set_budgets r_tasks r_next_task_id r_in_flight r_loop] in *.
    split_and!; [cbn [with_task set_tasks set_in_flight set_loop set_ticks set_budgets r_next_task_id]; lia|
      unfold room in *; cbn [with_task set_tasks set_in_flight set_loop set_ticks set_budgets r_loop]; lia|done].
Qed.

Lemma handle_query_inv n iss owed s lists query client r : rconfig_ok cfg → uniform random → service_inv iss None owed s → can_take (S n) (sv_resolver s) →
  ∃ s' iss', handle_query clock random case_bits calls times lists query client r s = Ok s' ∧ service_inv iss' None owed s' ∧ can_take n (sv_resolver s') ∧
    queried (sv_log s') = queried (sv_log s) ++ [(query, client, r)] ∧ ∃ reply, new_replies s s' = option_list ((λ m, (sv_next s, r, m)) <$> reply).
Proof.
  intros Hcfg Hrandom Hinv Htake. unfold handle_query. cbn [saw sv_processor sv_resolver sv_pending sv_next sv_ticks sv_log].
  destruct (handle_replies (sv_processor s) lists query client (times (sv_ticks s)) (times (S (sv_ticks s)))) as (effects & p' & -> & Hs & Hcase).
  rewrite bind_Ok. pose proof (si_settings _ _ _ _ Hinv) as Hset.
  pose proof (open_inv iss owed s query client r p' (S (S (sv_ticks s))) Hinv ltac:(by etrans)) as Ho. set (s1 := mkService _ _ _ _ _ _) in *.
  assert (Hi : QueryIn (sv_next s) query client r ∈ sv_log s1) by (cbn; apply elem_of_app; right; by apply list_elem_of_singleton).
  assert (Eq : queried (sv_log s1) = queried (sv_log s) ++ [(query, client, r)]) by (cbn [s1 sv_log]; by rewrite queried_app).
  assert (Er : replied (sv_log s1) = replied (sv_log s)) by (cbn [s1 sv_log]; unfold replied; by rewrite omap_app, app_nil_r).
  rewrite <-Eq. unfold new_replies. rewrite <-Er. destruct Hcase as [(q & cc & Hq & Hall & ->)|Hset'].
  - destruct (ask_inv iss owed s1 (sv_next s) query client r q (continuation query (sv_processor s) client cc)) as (s' & Hp & Hinv' & Hlog); try done.
    + apply (captured_same (sv_processor s)); [by apply same_checks_sym|]. split; [done..|]. eauto.
    + intros Hx%(proj2 (si_issued _ _ _ _ Hinv)). lia.
    + cbn. lia.
    + by eapply can_take_ready.
    + exists s', (ClientDone (sv_next s) q :: iss). split_and!; [exact Hp|exact Hinv'| |exact Hlog|];
        cbn [perform] in Hp; destruct (exec _ _ _ _ _ _) as [[[] rs]| |] eqn:Ex; try done; cbn [lift] in Hp; rewrite bind_Ok in Hp; injection Hp as <-.
      * eapply resolve_takes; [exact (si_resolver _ _ _ _ Hinv)|exact Htake|exact Ex].
      * exists None. cbn [with_pending with_resolver sv_log]. by rewrite drop_all.
  - pose proof Hset' as (Ha & Hlen & Hr & Hx). destruct (settle_inv iss owed s1 (sv_next s) query client r effects) as (s' & Hp & Hinv' & Hlog); [done|done| |].
    { split_and!; [done|done| |].
      - eapply Forall_impl; [exact Hr|]. intros m. apply reply_ok_same. by apply same_checks_sym.
      - intros E. eapply excused_same; [by apply same_checks_sym|]. by apply Hx. }
    exists s', iss. split_and!; [exact Hp|exact Hinv'| |exact Hlog|]; rewrite perform_told in Hp by done; injection Hp as <-;
      [eapply can_take_less; [|exact Htake]; lia|]. exists (head (sent effects)). cbn [sv_log].
    rewrite replied_app, drop_app_length, replied_told. destruct (sent effects) as [|m [|]]; [done|done|cbn in Hlen; lia].
Qed.

(** What handling a query adds to the log, whatever the state. *)
Lemma handle_query_log lists query client r s s' : handle_query clock random case_bits calls times lists query client r s = Ok s' →
  queried (sv_log s') = queried (sv_log s) ++ [(query, client, r)] ∧ ∃ reply, new_replies s s' = option_list ((λ m, (sv_next s, r, m)) <$> reply).
Proof.
  unfold handle_query. cbn [saw sv_processor sv_resolver sv_pending sv_next sv_ticks sv_log].
  destruct (handle_replies (sv_processor s) lists query client (times (sv_ticks s)) (times (S (sv_ticks s)))) as (effects & p' & -> & _ & Hcase). rewrite bind_Ok.
  assert (Er : replied (sv_log s ++ [QueryIn (sv_next s) query client r]) = replied (sv_log s)) by (unfold replied; by rewrite omap_app, app_nil_r).
  destruct Hcase as [(q & cc & _ & _ & ->)|(Ha & Hl & _)].
  - cbn [perform]. destruct (lift _) as [[? rs]| |]; [|done..]. rewrite bind_Ok. intros [= <-]. cbn [with_pending with_resolver sv_log].
    split; [by rewrite queried_app|]. exists None. unfold new_replies. cbn [with_pending with_resolver sv_log]. by rewrite Er, drop_all.
  - rewrite perform_told by done. intros [= <-]. cbn [sv_log]. rewrite !queried_app, queried_told, app_nil_r. split; [done|]. exists (head (sent effects)).
    unfold new_replies. cbn [sv_log]. rewrite replied_app, Er, drop_app_length, replied_told. destruct (sent effects) as [|m [|]]; [done|done|cbn in Hl; lia].
Qed.

(** A callback's query is being dealt with. *)
Lemma called_back_inv iss i owed s p' n : service_inv iss None (i :: owed) s → same_checks p0 p' →
  service_inv iss (Some i) owed (with_pending (with_processor (with_ticks s n) p') (delete i (sv_pending s))).
Proof.
  intros [Hset Hres Hiss Hask Hpen Howe Hcap Hq Hr Hrep Hopen Hacc] Hs. cbn [app] in Howe. apply NoDup_cons in Howe as [Hni Hnd].
  assert (Hi : is_Some (sv_pending s !! i)) by (apply Hpen; left).
  split; cbn [with_pending with_processor with_ticks sv_processor sv_resolver sv_pending sv_next sv_ticks sv_log]; try done.
  - intros j. specialize (Hpen j). cbn [app] in Hpen. rewrite elem_of_cons in Hpen. destruct (decide (i = j)) as [<-|Hne].
    + rewrite lookup_delete_eq. split; [by intros []|done].
    + rewrite lookup_delete_ne by done. rewrite Hpen. split; [intros [? | ?]; [congruence|done]|by right].
  - intros j k r [_ Hj]%lookup_delete_Some. by apply Hcap.
  - intros j r m Hm. destruct (Hrep j r m Hm) as (_ & Hj & Hx). split_and!; [| |done].
    + intros [= <-]. rewrite Hj in Hi. by destruct Hi.
    + apply lookup_delete_None. by right.
  - intros j [= <-]. apply lookup_delete_eq.
  - intros j query client r Hj. destruct (Hacc j query client r Hj) as [? |[? |[Hx|?]]]; [done|tauto| |tauto].
    destruct (decide (i = j)) as [<-|Hne]; [by left|]. right. right. left. by rewrite lookup_delete_ne.
Qed.

(** One event: the query it answers, if any, is dealt with. *)
Lemma deliver_event_inv iss owed lists e s : service_inv iss None (pipeline_callbacks (called [e]) ++ owed) s →
  ∃ s', deliver_event clock random case_bits calls times lists e s = Ok s' ∧ service_inv iss None owed s' ∧ queried (sv_log s') = queried (sv_log s) ∧
    sv_resolver s' = sv_resolver s ∧ length (new_replies s s') ≤ length (pipeline_callbacks (called [e])).
Proof.
  intros Hinv.
  assert (Hskip : ∀ e', queries [e'] = [] → replied [e'] = [] → queried [e'] = [] → service_inv iss None owed s →
    ∃ s', Ok (E:=SubnetError) (saw s e') = Ok s' ∧ service_inv iss None owed s' ∧ queried (sv_log s') = queried (sv_log s) ∧ sv_resolver s' = sv_resolver s ∧ length (new_replies s s') ≤ length (pipeline_callbacks (called [e]))).
  { intros e' E1 E2 E3 Hs. exists (saw s e'). split_and!; [done|apply saw_inv; [done..|]|cbn [saw sv_log]; by rewrite queried_app, E3, app_nil_r|done|].
    - destruct e'; done.
    - unfold new_replies. cbn [saw sv_log]. rewrite replied_app, E2, app_nil_r, drop_all. cbn. lia. }
  assert (Hsame : service_inv iss None owed s → ∃ s', Ok (E:=SubnetError) s = Ok s' ∧ service_inv iss None owed s' ∧ queried (sv_log s') = queried (sv_log s) ∧
    sv_resolver s' = sv_resolver s ∧ length (new_replies s s') ≤ length (pipeline_callbacks (called [e]))).
  { intros Hs. exists s. split_and!; [done..|]. unfold new_replies. rewrite drop_all. cbn. lia. }
  destruct e as [i q result|k result| | |alert]; cbn [deliver_event]; [|by apply Hskip|by apply Hsame|by apply Hsame|by apply Hskip]. clear Hskip Hsame.
  change (pipeline_callbacks (called [Called i q result]) ++ owed) with (i :: owed) in Hinv.
  destruct (proj2 (si_pending _ _ _ _ Hinv i) ltac:(left)) as [[k r] Hp]. rewrite Hp.
  destruct (si_captured _ _ _ _ Hinv i k r Hp) as (query & client & Hin & Hk). pose proof (si_settings _ _ _ _ Hinv) as Hset.
  destruct (on_resolved_replies (sv_processor s) lists query client k (match result with inl e => inl e | inr res => inr (rs_response res) end)
    (times (sv_ticks s)) (captured_same _ _ _ _ _ Hset Hk)) as (effects & p' & Eo & Hs & Hsettled). rewrite Eo. rewrite bind_Ok.
  pose proof (called_back_inv iss i _ s p' (S (sv_ticks s)) Hinv ltac:(by etrans)) as Ho. set (s1 := with_pending _ _) in *.
  pose proof Hsettled as (Ha & Hl & _). destruct (settle_inv iss _ s1 i query client r effects Ho Hin) as (s2 & E2 & Hi2 & El).
  { destruct Hsettled as (? & ? & Hr & Hx). split_and!; [done|done| |].
    - eapply Forall_impl; [exact Hr|]. intros m. apply reply_ok_same. by apply same_checks_sym.
    - intros E. eapply excused_same; [by apply same_checks_sym|]. by apply Hx. }
  exists s2. split_and!; [exact E2|exact Hi2|by rewrite El|..]; rewrite perform_told in E2 by done; injection E2 as <-; [done|].
  unfold new_replies. cbn [sv_log s1 with_pending with_processor with_ticks]. by rewrite replied_app, drop_app_length, replied_told, length_fmap.
Qed.

Lemma deliver_inv iss lists events : ∀ s, service_inv iss None (pipeline_callbacks (called events)) s →
  ∃ s', deliver clock random case_bits calls times lists events s = Ok s' ∧ service_inv iss None [] s' ∧ queried (sv_log s') = queried (sv_log s).
Proof.
  induction events as [|e events IH]; intros s Hinv; [by exists s|]. change (e :: events) with ([e] ++ events) in Hinv. unfold called in Hinv.
  rewrite bind_app, callbacks_app in Hinv. destruct (deliver_event_inv iss _ lists e s Hinv) as (s1 & E1 & Hi1 & El1 & _). cbn [deliver]. rewrite E1, bind_Ok.
  destruct (IH s1 Hi1) as (s' & E & Hi & El). exists s'. split_and!; [done|done|congruence].
Qed.

(** The resolver has run: the callbacks it called are owed. *)
Lemma resolver_ran_inv iss op s : rconfig_ok cfg → uniform random → service_inv iss None [] s → pipeline_callbacks (issued op) = [] →
  can_run calls op (sv_resolver s) →
  ∃ rs, exec clock random case_bits calls op (sv_resolver s) = Ok (tt, rs) ∧
    service_inv (issued op ++ iss) None (pipeline_callbacks (called (news (sv_resolver s) rs))) (with_resolver s rs).
Proof.
  intros Hcfg Hrandom Hinv Hop Hrun.
  pose proof (exec_inv clock random case_bits calls cfg iss op (sv_resolver s) Hcfg Hrandom (si_resolver _ _ _ _ Hinv) Hrun) as Hwp.
  unfold wp in Hwp. destruct (exec _ _ _ _ _ _) as [[[] rs]| |] eqn:Ex; [|done..]. exists rs. split; [done|].
  apply exec_news in Ex as Elog. set (es := news _ _) in *. pose proof (waiting_none _ _ Hwp) as Hw'. pose proof (waiting_none _ _ (si_resolver _ _ _ _ Hinv)) as Hw.
  rewrite callbacks_app, Hop, <-Hw, Elog in Hw'. cbn [app] in Hw'.
  assert (Hperm : pipeline_callbacks (called es) ++ pipeline_callbacks (waiting (links rs)) ≡ₚ pipeline_callbacks (waiting (links (sv_resolver s)))).
  { unfold called in Hw'. rewrite bind_app in Hw'. fold (called (r_log (sv_resolver s))) in Hw'. fold (called es) in Hw'. rewrite callbacks_app in Hw'.
    rewrite (Permutation_app_comm (pipeline_callbacks (called (r_log _)))), app_assoc in Hw'. apply Permutation_app_inv_r in Hw'.
    by rewrite Permutation_app_comm. }
  destruct Hinv as [Hset Hres [Hnd Hlt] Hask Hpen Howe Hcap Hq Hr Hrep Hopen Hacc].
  split; cbn [with_resolver sv_processor sv_resolver sv_pending sv_next sv_ticks sv_log]; try done.
  - by rewrite callbacks_app, Hop.
  - intros i q [Hi|Hi]%elem_of_app; [|by apply Hask]. assert (Hx : i ∈ pipeline_callbacks (issued op)) by (apply elem_of_callbacks; eauto).
    rewrite Hop in Hx. by apply elem_of_nil in Hx.
  - intros i. rewrite Hpen. cbn [app]. by rewrite Hperm.
  - by rewrite Hperm.
Qed.

Lemma run_resolver_inv iss lists op s : rconfig_ok cfg → uniform random → service_inv iss None [] s → pipeline_callbacks (issued op) = [] →
  can_run calls op (sv_resolver s) →
  ∃ s' iss', run_resolver clock random case_bits calls times lists op s = Ok s' ∧ service_inv iss' None [] s' ∧ queried (sv_log s') = queried (sv_log s).
Proof.
  intros Hcfg Hrandom Hinv Hop Hrun. unfold run_resolver. destruct (resolver_ran_inv iss op s Hcfg Hrandom Hinv Hop Hrun) as (rs & -> & Hi). cbn [lift]. rewrite bind_Ok.
  destruct (deliver_inv (issued op ++ iss) lists _ _ Hi) as (s' & Hd & Hi' & El). by eauto.
Qed.

(** ** Runs *)

(** What the environment provides to the next operation. *)
Definition service_can_run (op : ServiceOp (R:=R)) s : Prop :=
  match op with
  | HandleQuery _ _ _ => ready calls (sv_resolver s)
  | Prime => can_run calls (PrimeRoot 0) (sv_resolver s)
  | ResolverTimers at_time newest => can_run calls (TimersDue at_time newest) (sv_resolver s)
  | ResolverEvent ev => can_run calls (UpstreamCalls ev) (sv_resolver s)
  end.

Definition handed_in (op : ServiceOp (R:=R)) : list (Message * ClientInfo * R) :=
  match op with HandleQuery query client r => [(query, client, r)] | _ => [] end.

Fixpoint service_all_can_run (ops : list (Lists (T:=T) * ServiceOp (R:=R))) s : Prop :=
  match ops with
  | [] => True
  | (lists, op) :: ops => service_can_run op s ∧
    match service_exec clock random case_bits calls times lists op s with Ok s => service_all_can_run ops s | _ => True end
  end.

Lemma service_exec_inv iss lists op s : rconfig_ok cfg → uniform random → service_inv iss None [] s → service_can_run op s →
  ∃ s' iss', service_exec clock random case_bits calls times lists op s = Ok s' ∧ service_inv iss' None [] s' ∧
    queried (sv_log s') = queried (sv_log s) ++ handed_in op.
Proof.
  intros Hcfg Hrandom Hinv Hrun. destruct op as [query client r| |at_time newest|ev]; cbn [service_exec handed_in];
    [destruct (handle_query_inv 0 iss [] s lists query client r) as (s' & iss' & ? & ? & _ & ? & _); [..|by apply ready_can_take|]; by eauto|rewrite app_nil_r; by apply (run_resolver_inv iss)..].
Qed.

Lemma service_run_inv ops : rconfig_ok cfg → uniform random → ∀ iss s, service_inv iss None [] s → service_all_can_run ops s →
  ∃ s' iss', service_run clock random case_bits calls times ops s = Ok s' ∧ service_inv iss' None [] s' ∧
    queried (sv_log s') = queried (sv_log s) ++ (ops.*2 ≫= handed_in).
Proof.
  intros Hcfg Hrandom. induction ops as [|[lists op] ops IH]; intros iss s Hinv Hrun.
  { exists s, iss. rewrite app_nil_r. done. }
  destruct Hrun as [Hop Hrest]. destruct (service_exec_inv iss lists op s Hcfg Hrandom Hinv Hop) as (s1 & iss1 & E1 & Hi1 & El1).
  cbn [service_run]. rewrite E1 in *. rewrite bind_Ok. destruct (IH iss1 s1 Hi1 Hrest) as (s' & iss' & E & Hi & El). exists s', iss'.
  split_and!; [done|done|]. by rewrite El, El1, <-app_assoc.
Qed.

Lemma new_service_inv rs : starts random cfg rs → service_inv [] None [] (new_service p0 rs).
Proof.
  intros Hs. pose proof (starts_inv random cfg rs Hs) as Hq. pose proof (waiting_none _ _ Hq) as Hw.
  apply symmetry, Permutation_nil in Hw. apply app_eq_nil in Hw as [Hw _].
  split; cbn [new_service sv_processor sv_resolver sv_pending sv_next sv_ticks sv_log]; try done.
  - split; [constructor|]. by intros i ?%elem_of_nil.
  - by intros i q ?%elem_of_nil.
  - intros i. rewrite lookup_empty, Hw. split; [by intros []|by intros ?%elem_of_nil].
  - rewrite Hw. constructor.
  - constructor.
  - by intros i r m ?%elem_of_nil.
  - by intros i query client r ?%elem_of_nil.
Qed.

(** A query that the resolver works on. *)
Definition waited_for s (i : nat) (query : Message) : Prop :=
  ∃ q, m_questions query = [q] ∧ ClientDone i q ∈ waiting (links (sv_resolver s)).

(** C6: every query is accounted for.  Whatever queries arrive and whatever the
    upstream servers and timers do, with the lists reloaded at any time, the
    pipeline and the resolver together never fault; the queries are numbered as
    they came; each gets at most one reply, through its own responder, and at
    any time each has been replied to, or the resolver is working on its
    question, or a limit whose action is to drop (access, queries per client,
    responses over UDP) may have taken it. *)
Theorem queries_accounted rs ops : starts random cfg rs → service_all_can_run ops (new_service p0 rs) →
  ∃ s, service_run clock random case_bits calls times ops (new_service p0 rs) = Ok s ∧
    queried (sv_log s) = ops.*2 ≫= handed_in ∧ queries (sv_log s) = seq 0 (length (ops.*2 ≫= handed_in)) ∧
    NoDup (replies (sv_log s)) ∧
    (∀ i r m, ReplyOut i r m ∈ sv_log s → ∃ query client, QueryIn i query client r ∈ sv_log s ∧ echoes query m) ∧
    (∀ i query client r, QueryIn i query client r ∈ sv_log s →
       i ∈ replies (sv_log s) ∨ waited_for s i query ∧ i ∉ replies (sv_log s) ∨ excused p0 client).
Proof.
  intros Hs Hrun. destruct (service_run_inv ops (st_config _ _ _ Hs) (st_random _ _ _ Hs) [] _ (new_service_inv rs Hs) Hrun) as (s & iss & E & Hinv & Eq).
  exists s. cbn [new_service sv_log queried omap list_omap app] in Eq.
  pose proof (query_unique iss None [] s) as Huniq.
  pose proof Hinv as [Hset Hres Hiss Hask Hpen Howe Hcap Hq Hr Hrep Hopen Hacc]. split_and!; [done|done| |done| |].
  - rewrite <-Eq, Hq. f_equal. apply (f_equal length) in Hq. rewrite length_seq in Hq. rewrite <-Hq. clear.
    unfold queries, queried. induction (sv_log s) as [|[] log IH]; cbn; by rewrite ?IH.
  - intros i r m Hm. destruct (Hrep i r m Hm) as (_ & _ & query & client & ? & [? _ _]). eauto.
  - intros i query client r Hi. destruct (Hacc i query client r Hi) as [? |[? |[Hp|?]]]; [done|by left| |by right; right].
    right. left. split.
    + apply Hpen in Hp as Hw. cbn [app] in Hw. apply elem_of_callbacks in Hw as [q Hw]. exists q. split; [|done].
      assert (Hq' : ClientDone i q ∈ iss).
      { pose proof (iv_callers _ _ _ _ _ _ Hres) as Hc. rewrite <-Hc. apply elem_of_app. by left. }
      destruct (Hask i q Hq') as (query' & client' & r' & Hi' & Hq2). by destruct (Huniq i _ _ _ _ _ _ Hinv Hi Hi') as (-> & _).
    + intros (r' & m & Hm)%elem_of_replies. destruct (Hrep i r' m Hm) as (_ & Hn & _). rewrite Hn in Hp. by destruct Hp.
Qed.

(** The service never says what the policy forbids.  In any run, with any
    lists, the reply to a client outside the access list is REFUSED with an
    empty answer section, and no reply to a question that rebinding protection
    covers carries a private address, other than the null address of a blocked
    name. *)
Lemma replies_follow_policy rs ops s : starts random cfg rs → service_all_can_run ops (new_service p0 rs) →
  service_run clock random case_bits calls times ops (new_service p0 rs) = Ok s →
  ∀ i r m query client, ReplyOut i r m ∈ sv_log s → QueryIn i query client r ∈ sv_log s →
    (allows (ck_access (qp_checks p0)) (ci_addr client) = false → h_rcode (m_header m) = RCode.Refused ∧ m_answers m = []) ∧
    (∀ q, q ∈ m_questions query → protected p0 q = true → Forall harmless (m_answers m)).
Proof.
  intros Hs Hrun E. destruct (service_run_inv ops (st_config _ _ _ Hs) (st_random _ _ _ Hs) [] _ (new_service_inv rs Hs) Hrun) as (s' & iss & E' & Hinv & _).
  rewrite E in E'. injection E' as <-. intros i r m query client Hm Hi. destruct (si_replied _ _ _ _ Hinv i r m Hm) as (_ & _ & query' & client' & Hi' & Hok).
  destruct (query_unique _ _ _ _ _ _ _ _ _ _ _ Hinv Hi Hi') as (<- & <- & _). destruct Hok as [_ Hd Hh]. split; [done|].
  intros q Hq. by apply (proj1 (Forall_forall _ _) Hh).
Qed.
End service_inv.

(** ** A run: a client asks, an outsider is refused, the root server answers *)

#[local] Existing Instance ex_pton.
#[local] Existing Instance ex_cache_instance.
Global Instance no_limit_steady : SteadyAction unit.
Proof. by intros []. Qed.

Definition ex_times (n : nat) : Z := Z.of_nat n.
Definition ex_service_ops : list (Lists (T:=Trie.BlocklistTrie) * ServiceOp (R:=nat)) := (λ op, (ex_in_use, op)) <$>
  [HandleQuery ex_query ex_inside 70; HandleQuery ex_query ex_outside 71; ResolverTimers 1000000000 1000;
   ResolverEvent (FdEvent 7 false true [] [Upstream.Received (Upstream.ex_bytes 4660)])].
Definition ex_service : Service unit Cache.Cache Upstream.UpstreamClient nat := new_service ex_processor (ex_start 8).
Abbreviation ex_service_run := (service_run ex_clock ex_random ex_case_bits ex_sends ex_times).

Definition service_ready_b (op : ServiceOp (R:=nat)) (s : Service unit Cache.Cache Upstream.UpstreamClient nat) : bool :=
  match op with
  | ResolverEvent ev => ready_b (set_service (sv_resolver s) (us_event (r_upstream (sv_resolver s)) ev).2 (r_owner (sv_resolver s)) (r_sends (sv_resolver s)))
  | _ => ready_b (sv_resolver s)
  end.
Fixpoint service_runs_b (ops : list (Lists (T:=Trie.BlocklistTrie) * ServiceOp (R:=nat))) s : bool :=
  match ops with
  | [] => true
  | (lists, op) :: ops => service_ready_b op s &&
    match service_exec ex_clock ex_random ex_case_bits ex_sends ex_times lists op s with Ok s => service_runs_b ops s | _ => true end
  end.

Lemma service_runs_b_sound ops : ∀ s, service_runs_b ops s = true → service_all_can_run ex_clock ex_random ex_case_bits ex_sends ex_times ops s.
Proof.
  induction ops as [|[lists op] ops IH]; intros s Hb; [done|]. cbn [service_runs_b service_all_can_run] in *. apply andb_true_iff in Hb as [Hop Hrest]. split.
  - destruct op; by apply ready_b_sound.
  - destruct (service_exec _ _ _ _ _ lists op s) as [s'| |]; [|done..]. by apply IH.
Qed.

Lemma ex_service_runs : service_all_can_run ex_clock ex_random ex_case_bits ex_sends ex_times ex_service_ops ex_service.
Proof. apply service_runs_b_sound. vm_compute. reflexivity. Qed.

(** The outsider is refused at once, the client gets the server's answer. *)
Example ex_service_summary : match ex_service_run ex_service_ops ex_service with
  | Ok s => omap (λ e, match e with ReplyOut i r m => Some (i, r, h_rcode (m_header m), m_answers m) | _ => None end) (sv_log s) =
      [(1, 71, RCode.Refused, []); (0, 70, RCode.NoError, m_answers (Upstream.ex_reply 0))]
  | _ => False
  end.
Proof. vm_compute. reflexivity. Qed.

Lemma queries_accounted_witness : ∃ s, ex_service_run ex_service_ops ex_service = Ok s ∧ NoDup (replies (sv_log s)) ∧ queries (sv_log s) = [0; 1].
Proof.
  destruct (queries_accounted (H0:=ex_pton_literals) ex_clock ex_random ex_case_bits ex_sends ex_times (ex_limits 8) ex_processor (ex_start 8) ex_service_ops
    (ex_starts 8 ltac:(lia)) ex_service_runs) as (s & Hs & _ & Hq & Hnd & _). exists s. split; [exact Hs|]. split; [exact Hnd|exact Hq].
Defined.

Lemma replies_follow_policy_witness : match ex_service_run ex_service_ops ex_service with
  | Ok s => ∀ r m query, ReplyOut 1 r m ∈ sv_log s → QueryIn 1 query ex_outside r ∈ sv_log s → h_rcode (m_header m) = RCode.Refused
  | _ => False
  end.
Proof.
  pose proof ex_service_summary as Hok. destruct (ex_service_run ex_service_ops ex_service) as [s| |] eqn:E; [|contradiction Hok..]. clear Hok.
  intros r m query Hm Hq. destruct (replies_follow_policy (H0:=ex_pton_literals) ex_clock ex_random ex_case_bits ex_sends ex_times (ex_limits 8) ex_processor (ex_start 8)
    ex_service_ops s (ex_starts 8 ltac:(lia)) ex_service_runs E 1 r m query ex_outside Hm Hq) as [Hd _].
  apply Hd. vm_compute. reflexivity.
Defined.
