(* ===== verification/SocketAddress.v ===== *)
(** * Socket addresses: [net/socket_address.h]

    What both listeners do with addresses.  A [sockaddr] is the model of
    [sockaddr_storage] of [Acl]; ports are kept in host order, so [htons] and
    [ntohs] are the identity here. *)

From stdpp Require Import base tactics numbers list strings.
From Stdlib Require Import ZArith Lia.
From S2P Require Import Prelude Types Wire Acl.

Definition family_of (a : sockaddr) : Z :=
  match a with SockV4 _ _ => AF_INET | SockV6 _ _ => AF_INET6 | SockOther => AF_UNSPEC end.

Definition make_address `{InetPton} (ip : list Z) (port : Z) : option sockaddr :=
  match inet_pton AF_INET (c_str ip) with
  | Some addr => Some (SockV4 addr port)
  | None => match inet_pton AF_INET6 (c_str ip) with Some addr => Some (SockV6 addr port) | None => None end
  end.

(** [sizeof(sockaddr_in6)] and [sizeof(sockaddr_in)]. *)
Definition address_length (a : sockaddr) : Z := if (family_of a =? AF_INET6)%Z then 28 else 16.

Definition port_of (a : sockaddr) : Z := match a with SockV4 _ port | SockV6 _ port => port | SockOther => 0 end.

(** The address alone; of an address of another family, the bytes at the place
    of an IPv4 address, which are zero. *)
Definition ip_key (a : sockaddr) : list Z :=
  match a with SockV4 addr _ | SockV6 addr _ => addr | SockOther => replicate 4 0%Z end.

(** Equal keys mean the same address of the same family: the limits count IPv4
    and IPv6 clients apart. *)
Lemma ip_key_family a b : client_wf a → client_wf b → a ≠ SockOther → b ≠ SockOther → ip_key a = ip_key b → family_of a = family_of b.
Proof. destruct a, b; cbn; try done; intros [? _] [? _] _ _ ->; lia. Qed.
