(* ===== verification/TcpListener.v ===== *)
(** * The TCP listener: [net/tcp_listener.cpp]

    Accepting connections, reading length-prefixed queries, handing them to
    the query handler and writing the responses back, each connection a small
    state machine driven by the event loop.

    - A connection that is closed is one that is no longer in
      [tl_connections]: [c->fd >= 0] is membership, and a responder whose weak
      reference is gone finds nothing there.
    - The handler has a state of its own, of any type [X]: given the connection
      that is to be answered, the query and the client, it may fail, or give a
      response at once.  Giving one re-enters [respond], and through it
      [process_messages], which the flag [processing] turns away; [depth]
      bounds that recursion.  A response given later comes in as [respond],
      which may hand over queries that were waiting.
    - The results of the system calls are inputs: [sends n] are those of the
      n-th [flush] (when they run out, the socket buffer is full), [ctl n] the
      result of the n-th [epoll_ctl], [clock n] the n-th reading of the clock.
    - [tl_log] records what the listener reads, hands over, answers, writes and
      closes, in order. *)

From stdpp Require Import base tactics numbers list gmap fin_maps.
From Stdlib Require Import ZArith Lia.
From S2P Require Import Prelude Names Types Wire Builder Acl Cache QueryProcessor Upstream EventLoop SocketAddress.

(** ** Data *)

Definition kMaxAcceptsPerWakeup : nat := 64.
Definition kMaxPipelined : Z := 32.
Definition kMaxUnsent : Z := 262144.
Definition kAcceptRetryMs : Z := 100.
Definition kReadable : Z := 1.
Definition kWritable : Z := 4.
Definition EPOLLERR : Z := 8.
Definition EPOLLHUP : Z := 16.

Record TcpListenerConfig := mkTcpConfig {
  tc_address : list Z; tc_port : Z; tc_idle_timeout_ms : Z; tc_max_connections : Z; tc_max_per_client : Z;
}.

Record TcpListenerStats := mkTcpStats {
  ts_accepted : Z; ts_rejected : Z; ts_queries : Z; ts_dropped_malformed : Z; ts_responses_sent : Z; ts_idle_closed : Z;
}.
Inductive TcpCounter := TAccepted | TRejected | TQueries | TMalformed | TResponses | TIdleClosed.
Definition tcp_count (x : TcpCounter) (s : TcpListenerStats) : TcpListenerStats :=
  let up n (b : bool) := if b then u64 (n + 1) else n in
  mkTcpStats (up (ts_accepted s) match x with TAccepted => true | _ => false end)
    (up (ts_rejected s) match x with TRejected => true | _ => false end)
    (up (ts_queries s) match x with TQueries => true | _ => false end)
    (up (ts_dropped_malformed s) match x with TMalformed => true | _ => false end)
    (up (ts_responses_sent s) match x with TResponses => true | _ => false end)
    (up (ts_idle_closed s) match x with TIdleClosed => true | _ => false end).

(** An open connection. *)
Record Connection := mkConnection {
  c_fd : Z; c_peer : sockaddr; c_client : list Z; c_in : list Z; c_out : list Z; c_pending : Z; c_peer_done : bool;
  c_processing : bool; c_interest : Z; c_idle_timer : Z;
}.

Inductive TcpIo := Acceptable | ConnectionEvent (id : Z).
Inductive TcpTimer := AcceptRetry | IdleTimer (id : Z).

Inductive TcpEvent :=
| Arrived (id : Z) (bytes : list Z)
| Handed (id : Z) (body : list Z) (query : Message) (client : ClientInfo)
| Answered (id : Z) (response : Message)
| Written (id : Z) (bytes : list Z)
| ClosedFd (fd : Z).

Record TcpListener := mkTcpListener {
  tl_loop : EventLoop TcpIo TcpTimer; tl_fd : Z; tl_config : TcpListenerConfig; tl_accept_retry : Z; tl_next_id : Z;
  tl_connections : gmap Z Connection; tl_per_client : gmap (list Z) Z; tl_stats : TcpListenerStats;
  tl_ticks : nat; tl_log : list TcpEvent;
}.

(** ** Assigning to members *)

Definition set_in (c : Connection) (bytes : list Z) : Connection :=
  mkConnection (c_fd c) (c_peer c) (c_client c) bytes (c_out c) (c_pending c) (c_peer_done c) (c_processing c) (c_interest c) (c_idle_timer c).
Definition set_out (c : Connection) (bytes : list Z) : Connection :=
  mkConnection (c_fd c) (c_peer c) (c_client c) (c_in c) bytes (c_pending c) (c_peer_done c) (c_processing c) (c_interest c) (c_idle_timer c).
Definition set_pending (c : Connection) (n : Z) : Connection :=
  mkConnection (c_fd c) (c_peer c) (c_client c) (c_in c) (c_out c) n (c_peer_done c) (c_processing c) (c_interest c) (c_idle_timer c).
Definition set_peer_done (c : Connection) : Connection :=
  mkConnection (c_fd c) (c_peer c) (c_client c) (c_in c) (c_out c) (c_pending c) true (c_processing c) (c_interest c) (c_idle_timer c).
Definition set_processing (c : Connection) (b : bool) : Connection :=
  mkConnection (c_fd c) (c_peer c) (c_client c) (c_in c) (c_out c) (c_pending c) (c_peer_done c) b (c_interest c) (c_idle_timer c).
Definition set_interest (c : Connection) (want : Z) : Connection :=
  mkConnection (c_fd c) (c_peer c) (c_client c) (c_in c) (c_out c) (c_pending c) (c_peer_done c) (c_processing c) want (c_idle_timer c).
Definition set_idle_timer (c : Connection) (x : Z) : Connection :=
  mkConnection (c_fd c) (c_peer c) (c_client c) (c_in c) (c_out c) (c_pending c) (c_peer_done c) (c_processing c) (c_interest c) x.

Definition with_loop (s : TcpListener) (l : EventLoop TcpIo TcpTimer) : TcpListener :=
  mkTcpListener l (tl_fd s) (tl_config s) (tl_accept_retry s) (tl_next_id s) (tl_connections s) (tl_per_client s) (tl_stats s) (tl_ticks s) (tl_log s).
Definition with_retry (s : TcpListener) (x : Z) : TcpListener :=
  mkTcpListener (tl_loop s) (tl_fd s) (tl_config s) x (tl_next_id s) (tl_connections s) (tl_per_client s) (tl_stats s) (tl_ticks s) (tl_log s).
Definition with_next (s : TcpListener) (x : Z) : TcpListener :=
  mkTcpListener (tl_loop s) (tl_fd s) (tl_config s) (tl_accept_retry s) x (tl_connections s) (tl_per_client s) (tl_stats s) (tl_ticks s) (tl_log s).
Definition with_table (s : TcpListener) (cs : gmap Z Connection) (pc : gmap (list Z) Z) : TcpListener :=
  mkTcpListener (tl_loop s) (tl_fd s) (tl_config s) (tl_accept_retry s) (tl_next_id s) cs pc (tl_stats s) (tl_ticks s) (tl_log s).
Definition counted (s : TcpListener) (x : TcpCounter) : TcpListener :=
  mkTcpListener (tl_loop s) (tl_fd s) (tl_config s) (tl_accept_retry s) (tl_next_id s) (tl_connections s) (tl_per_client s)
    (tcp_count x (tl_stats s)) (tl_ticks s) (tl_log s).
Definition tick (s : TcpListener) : TcpListener :=
  mkTcpListener (tl_loop s) (tl_fd s) (tl_config s) (tl_accept_retry s) (tl_next_id s) (tl_connections s) (tl_per_client s)
    (tl_stats s) (S (tl_ticks s)) (tl_log s).
Definition logged (s : TcpListener) (e : TcpEvent) : TcpListener :=
  mkTcpListener (tl_loop s) (tl_fd s) (tl_config s) (tl_accept_retry s) (tl_next_id s) (tl_connections s) (tl_per_client s)
    (tl_stats s) (tl_ticks s) (tl_log s ++ [e]).

Definition put_conn (s : TcpListener) (id : Z) (c : Connection) : TcpListener :=
  with_table s (<[id := c]> (tl_connections s)) (tl_per_client s).

Section listener.
Context {E X : Type} (clock : nat → Z) (handler : Z → Message → ClientInfo → X → outcome E (option Message * X)).
Context (sends : nat → list SendResult) (ctl : nat → bool).

(** ** Closing *)

(** [--it->second == 0]: the last connection of a client takes its entry away. *)
Definition leave_client (client : list Z) (m : gmap (list Z) Z) : gmap (list Z) Z :=
  match m !! client with
  | None => m
  | Some n => let n := u64 (n - 1) in if (n =? 0)%Z then delete client m else <[client := n]> m
  end.

Definition disarm (l : EventLoop TcpIo TcpTimer) (x : Z) : EventLoop TcpIo TcpTimer :=
  if (x =? 0)%Z then l else (cancel_timer l x).2.

Definition close (id : Z) (s : TcpListener) : TcpListener :=
  match tl_connections s !! id with
  | None => s
  | Some c =>
    let s := with_loop s (disarm (remove_fd (tl_loop s) (c_fd c)) (c_idle_timer c)) in
    let s := logged s (ClosedFd (c_fd c)) in
    with_table s (delete id (tl_connections s)) (leave_client (c_client c) (tl_per_client s))
  end.

Definition arm_idle_timer (id : Z) (s : TcpListener) : TcpListener :=
  match tl_connections s !! id with
  | None => s
  | Some c =>
    let '(x, l) := add_timer (disarm (tl_loop s) (c_idle_timer c)) (clock (tl_ticks s))
                     (tc_idle_timeout_ms (tl_config s) * 1000000) (IdleTimer id) in
    put_conn (with_loop (tick s) l) id (set_idle_timer c x)
  end.

(** ** Writing *)

(** The loop of [flush]: how much was sent, and whether the client is gone.
    The kernel takes no more than it is given. *)
Fixpoint flush_loop (out : list Z) (sent : nat) (results : list SendResult) : nat * bool :=
  if decide (sent < length out) then
    match results with
    | [] | SendAgain :: _ => (sent, false)
    | SendInterrupted :: results => flush_loop out sent results
    | SendFailed :: _ => (sent, true)
    | SendAccepted n :: results => flush_loop out (sent + Nat.min n (length out - sent)) results
    end
  else (sent, false).

Definition flush (id : Z) (s : TcpListener) : TcpListener :=
  match tl_connections s !! id with
  | None => s
  | Some c =>
    let '(sent, gone) := flush_loop (c_out c) 0 (sends (tl_ticks s)) in
    let s := logged (tick s) (Written id (take sent (c_out c))) in
    if gone : bool then close id s
    else if decide (0 < sent) then arm_idle_timer id (put_conn s id (set_out c (drop sent (c_out c)))) else s
  end.

Definition update (id : Z) (s : TcpListener) : TcpListener :=
  match tl_connections s !! id with
  | None => s
  | Some c =>
    if c_peer_done c && (c_pending c =? 0)%Z && bool_decide (c_out c = []) then close id s else
    let readable := negb (c_peer_done c) && (c_pending c <? kMaxPipelined)%Z && (zlen (c_out c) <? kMaxUnsent)%Z in
    let want := Z.lor (if readable then kReadable else 0) (if bool_decide (c_out c = []) then 0 else kWritable) in
    if (want =? c_interest c)%Z then s else
    match modify_fd (tl_loop s) (c_fd c) (ctl (tl_ticks s)) with
    | None => put_conn (tick s) id (set_interest c want)
    | Some _ => tick s
    end
  end.

(** ** Queries and responses *)

(** [respond], given [process_messages]. *)
Definition respond_with (process : Z → TcpListener → X → outcome E (TcpListener * X)) (id : Z) (response : Message) (s : TcpListener) (x : X) :
    outcome E (TcpListener * X) :=
  match tl_connections s !! id with
  | None => Ok (s, x)
  | Some c =>
    let c := set_pending c (u64 (c_pending c - 1)) in
    let s := put_conn s id (set_out c (c_out c ++ build_tcp response (mkOptions 512 true))) in
    let s := flush id (logged (counted s TResponses) (Answered id response)) in
    match tl_connections s !! id with
    | None => Ok (s, x)
    | Some _ => '(s, x) ← process id s x; Ok (update id s, x)
    end
  end.

(** The [while] of [process_messages], given [respond]: the bytes used. *)
Fixpoint process_loop (respond : Z → Message → TcpListener → X → outcome E (TcpListener * X)) (fuel : nat) (id : Z) (used : nat) (s : TcpListener) (x : X) :
    outcome E (nat * TcpListener * X) :=
  match fuel with
  | 0 => Fault OutOfFuel
  | S fuel =>
    match tl_connections s !! id with
    | None => Ok (used, s, x)
    | Some c =>
      match drop used (c_in c) with
      | hi :: lo :: rest =>
        if negb (c_pending c <? kMaxPipelined)%Z then Ok (used, s, x) else
        let length' := Z.to_nat (Z.lor (Z.shiftl hi 8) lo) in
        if decide (length rest < length') then Ok (used, s, x) else
        let body := take length' rest in
        let used := used + (2 + length') in
        match parse body with
        | Ok query =>
          if h_qr (m_header query) then Ok (used, close id (counted s TMalformed), x) else
          let client := mkClient (c_peer c) TcpTransport in
          let s := put_conn (counted s TQueries) id (set_pending c (u64 (c_pending c + 1))) in
          let s := arm_idle_timer id (logged s (Handed id body query client)) in
          '(reply, x) ← handler id query client x;
          '(s, x) ← match reply with Some response => respond id response s x | None => Ok (s, x) end;
          process_loop respond fuel id used s x
        | _ => Ok (used, close id (counted s TMalformed), x)
        end
      | _ => Ok (used, s, x)
      end
    end
  end.

Fixpoint process_messages (depth : nat) (id : Z) (s : TcpListener) (x : X) : outcome E (TcpListener * X) :=
  match depth with
  | 0 => Fault OutOfFuel
  | S depth =>
    match tl_connections s !! id with
    | None => Ok (s, x)
    | Some c =>
      if c_processing c then Ok (s, x) else
      let s := put_conn s id (set_processing c true) in
      '(used, s, x) ← process_loop (respond_with (process_messages depth)) (S (length (c_in c))) id 0 s x;
      match tl_connections s !! id with
      | None => Ok (s, x)
      | Some c => Ok (put_conn s id (set_processing (set_in c (drop used (c_in c))) false), x)
      end
    end
  end.

(** A turn of [process_messages] re-enters it once. *)
Definition kDepth : nat := 2.

Definition respond : Z → Message → TcpListener → X → outcome E (TcpListener * X) := respond_with (process_messages kDepth).

(** ** Reading *)

(** The [do ... while] around [recv]: nothing if it would block. *)
Fixpoint recv_retry (results : list Recv) : Recv :=
  match results with [] => RecvAgain | RecvInterrupted :: results => recv_retry results | r :: _ => r end.

Definition read_from (id : Z) (results : list Recv) (s : TcpListener) (x : X) : outcome E (TcpListener * X) :=
  match tl_connections s !! id with
  | None => Ok (s, x)
  | Some c =>
    match recv_retry results with
    | RecvAgain | RecvInterrupted => Ok (s, x)
    | RecvFailed => Ok (close id s, x)
    | Received [] => Ok (put_conn s id (set_peer_done c), x)
    | Received bytes => process_messages kDepth id (logged (put_conn s id (set_in c (c_in c ++ bytes))) (Arrived id bytes)) x
    end
  end.

(** ** Events *)

Definition has_events (events mask : Z) : bool := negb (Z.land events mask =? 0)%Z.

Definition on_event (id events : Z) (recvs : list Recv) (s : TcpListener) (x : X) : outcome E (TcpListener * X) :=
  match tl_connections s !! id with
  | None => Ok (s, x)
  | Some _ =>
    if has_events events (Z.lor EPOLLERR EPOLLHUP) then Ok (close id s, x) else
    '(s, x) ← (if has_events events kReadable then read_from id recvs s x else Ok (s, x));
    let s := if has_events events kWritable then flush id s else s in
    Ok (update id s, x)
  end.

Definition on_idle (id : Z) (s : TcpListener) : TcpListener :=
  match tl_connections s !! id with
  | None => s
  | Some c =>
    let s := put_conn s id (set_idle_timer c 0) in
    if (0 <? c_pending c)%Z then arm_idle_timer id s else close id (counted s TIdleClosed)
  end.

(** ** Accepting *)

Inductive Accept := AcceptAgain | AcceptExhausted | AcceptAborted | Accepted (fd : Z) (peer : sockaddr).

Definition accept_one (fd : Z) (peer : sockaddr) (s : TcpListener) : TcpListener :=
  let client := ip_key peer in
  let from_client := tl_per_client s !! client in
  if (tc_max_connections (tl_config s) <=? Z.of_nat (size (tl_connections s)))%Z ||
     match from_client with Some n => (tc_max_per_client (tl_config s) <=? n)%Z | None => false end
  then logged (counted s TRejected) (ClosedFd fd) else
  let id := tl_next_id s in
  let s := with_next s (u64 (id + 1)) in
  let '(err, l) := add_fd (tl_loop s) fd (ConnectionEvent id) (ctl (tl_ticks s)) in
  let s := tick (with_loop s l) in
  match err with
  | Some _ => logged s (ClosedFd fd)
  | None =>
    let c := mkConnection fd peer client [] [] 0 false false kReadable 0 in
    let s := with_table s match tl_connections s !! id with Some _ => tl_connections s | None => <[id := c]> (tl_connections s) end
               (<[client := u64 (default 0%Z from_client + 1)]> (tl_per_client s)) in
    arm_idle_timer id (counted s TAccepted)
  end.

Fixpoint accept_loop (fuel : nat) (accepts : list Accept) (s : TcpListener) : TcpListener :=
  match fuel, accepts with
  | 0, _ | _, [] | _, AcceptAgain :: _ => s
  | S _, AcceptExhausted :: _ =>
    let '(x, l) := add_timer (tl_loop s) (clock (tl_ticks s)) (kAcceptRetryMs * 1000000) AcceptRetry in
    with_retry (with_loop (tick s) l) x
  | S fuel, AcceptAborted :: accepts => accept_loop fuel accepts s
  | S fuel, Accepted fd peer :: accepts => accept_loop fuel accepts (accept_one fd peer s)
  end.
Definition on_acceptable : list Accept → TcpListener → TcpListener := accept_loop kMaxAcceptsPerWakeup.

(** ** Setup and teardown *)

Definition new_listener (l : EventLoop TcpIo TcpTimer) (fd : Z) (cfg : TcpListenerConfig) : TcpListener :=
  mkTcpListener l fd cfg 0 1 ∅ ∅ (mkTcpStats 0 0 0 0 0 0) 0 [].

(** What the system calls of [create] return. *)
Record ListenCalls := mkListenCalls {
  lc_socket : Z; lc_options_ok : bool; lc_bind_ok : bool; lc_listen_ok : bool; lc_bound : option sockaddr; lc_add_fd_ok : bool;
}.

(** The descriptors closed, and the listener and its port, if all went well. *)
Definition create_tcp `{InetPton} (l : EventLoop TcpIo TcpTimer) (cfg : TcpListenerConfig) (calls : ListenCalls) :
    list Z * option (TcpListener * Z) :=
  match make_address (tc_address cfg) (tc_port cfg) with
  | None => ([], None)
  | Some _ =>
    let fd := lc_socket calls in
    if (fd <? 0)%Z then ([], None) else
    if negb (lc_options_ok calls && lc_bind_ok calls && lc_listen_ok calls) then ([fd], None) else
    match lc_bound calls with
    | None => ([fd], None)
    | Some bound =>
      match add_fd l fd Acceptable (lc_add_fd_ok calls) with
      | (Some _, _) => ([fd], None)
      | (None, l) => ([], Some (new_listener l fd cfg, port_of bound))
      end
    end
  end.

Definition destroy_tcp (s : TcpListener) : list Z * EventLoop TcpIo TcpTimer :=
  let l := disarm (remove_fd (tl_loop s) (tl_fd s)) (tl_accept_retry s) in
  fold_left (λ acc kv, let '(fds, l) := acc in (fds ++ [c_fd kv.2], disarm (remove_fd l (c_fd kv.2)) (c_idle_timer kv.2)))
    (map_to_list (tl_connections s)) ([tl_fd s], l).

(** ** Operations, as the event loop and the handler cause them *)

Inductive TcpOp :=
| AcceptReady (accepts : list Accept)
| Ready (id events : Z) (recvs : list Recv)
| Respond (id : Z) (response : Message)
| TcpTimersDue (at_time newest : Z).

Definition tcp_exec (op : TcpOp) (s : TcpListener) (x : X) : outcome E (TcpListener * X) :=
  match op with
  | AcceptReady accepts => Ok (on_acceptable accepts s, x)
  | Ready id events recvs => on_event id events recvs s x
  | Respond id response => respond id response s x
  | TcpTimersDue at_time newest =>
    match pop_due (tl_loop s) at_time newest with
    | None => Ok (s, x)
    | Some (_, IdleTimer id, l) => Ok (on_idle id (with_loop s l), x)
    | Some (_, AcceptRetry, l) => Ok (with_retry (with_loop s l) 0, x)
    end
  end.
End listener.
