(* ===== verification/TcpProofs.v ===== *)
(** * The TCP listener's invariant

    [wires] is the part about the tables and the loop: every connection is
    watched and has its idle timer, nothing else is, and the per-client counts
    are exact and within the limits.  [streams] is the part about the bytes:
    what arrived is the queries handed over, framed, in order, then what is
    still buffered; what was written, with what is queued, is the responses in
    order.  Every operation keeps both. *)

From stdpp Require Import base tactics numbers list gmap fin_maps fin_sets.
From Stdlib Require Import ZArith Lia.
From S2P Require Import Prelude Names Types Wire Builder Acl Cache QueryProcessor Upstream EventLoop SocketAddress TcpListener.

(** ** Histories of a connection *)

Definition arrived (id : Z) (log : list TcpEvent) : list Z :=
  log ≫= λ e, match e with Arrived i bytes => if decide (i = id) then bytes else [] | _ => [] end.
Definition handed (id : Z) (log : list TcpEvent) : list (list Z) :=
  log ≫= λ e, match e with Handed i body _ _ => if decide (i = id) then [body] else [] | _ => [] end.
Definition answered (id : Z) (log : list TcpEvent) : list Message :=
  log ≫= λ e, match e with Answered i m => if decide (i = id) then [m] else [] | _ => [] end.
Definition written (id : Z) (log : list TcpEvent) : list Z :=
  log ≫= λ e, match e with Written i bytes => if decide (i = id) then bytes else [] | _ => [] end.

(** [bytes] is the messages [bodies], each with its two-byte length, and then
    [rest]. *)
Fixpoint framed_as (bodies : list (list Z)) (bytes rest : list Z) : Prop :=
  match bodies with
  | [] => bytes = rest
  | body :: bodies =>
    ∃ hi lo bytes', bytes = hi :: lo :: body ++ bytes' ∧ Z.to_nat (Z.lor (Z.shiftl hi 8) lo) = length body ∧ framed_as bodies bytes' rest
  end.

Lemma framed_as_snoc bodies hi lo body rest : Z.to_nat (Z.lor (Z.shiftl hi 8) lo) = length body → ∀ bytes,
  framed_as bodies bytes (hi :: lo :: body ++ rest) → framed_as (bodies ++ [body]) bytes rest.
Proof.
  intros Hl. induction bodies as [|b bodies IH]; intros bytes; cbn [framed_as app].
  - intros ->. by exists hi, lo, rest.
  - intros (h & l & bs & -> & Hb & Hf). exists h, l, bs. auto.
Qed.

Lemma framed_as_app bodies rest more : ∀ bytes, framed_as bodies bytes rest → framed_as bodies (bytes ++ more) (rest ++ more).
Proof.
  induction bodies as [|b bodies IH]; intros bytes; cbn [framed_as]; [by intros ->|].
  intros (h & l & bs & -> & Hb & Hf). exists h, l, (bs ++ more). split_and!; [cbn; by rewrite <-app_assoc|done|auto].
Qed.

Definition tcp_bytes (m : Message) : list Z := build_tcp m (mkOptions 512 true).

(** ** The invariant *)

(** Connections for which an operation is under way: [Some (Some used)] while
    [process_messages] is on the stack with [used] bytes consumed, [Some None]
    when whole queries may be waiting. *)
Definition Mode : Type := Z → option (option nat).
Definition calm : Mode := λ _, None.
Definition only (id : Z) (x : option nat) : Mode := λ i, if decide (i = id) then Some x else None.

Lemma only_eq id x : only id x id = Some x.
Proof. unfold only. by rewrite decide_True. Qed.
Lemma only_ne id x i : i ≠ id → only id x i = None.
Proof. intros. unfold only. by rewrite decide_False. Qed.

Record stream_ok (m : Mode) (log : list TcpEvent) (id : Z) (c : Connection) : Prop := {
  so_pending : c_pending c = (zlen (handed id log) - zlen (answered id log))%Z;
  so_range : (0 ≤ c_pending c ≤ kMaxPipelined)%Z;
  so_in : match m id with
          | Some (Some used) => c_processing c = true ∧ framed_as (handed id log) (arrived id log) (drop used (c_in c))
          | _ => c_processing c = false ∧ framed_as (handed id log) (arrived id log) (c_in c)
          end;
  so_out : written id log ++ c_out c = mjoin (tcp_bytes <$> answered id log);
  so_next : m id = None → (c_pending c < kMaxPipelined)%Z → framed (c_in c) = None;
}.

Record streams (m : Mode) (next : Z) (cs : gmap Z Connection) (log : list TcpEvent) : Prop := {
  sr_ok : ∀ id c, cs !! id = Some c → stream_ok m log id c;
  sr_fresh : ∀ id, (next ≤ id)%Z → arrived id log = [] ∧ handed id log = [] ∧ answered id log = [] ∧ written id log = [];
}.

Definition of_client (k : list Z) (cs : gmap Z Connection) : gmap Z Connection := filter (λ kv, c_client kv.2 = k) cs.

Definition watched (l : EventLoop TcpIo TcpTimer) (fd : Z) (cb : TcpIo) : Prop :=
  ∃ token, el_tokens l !! fd = Some token ∧ el_watches l !! token = Some (mkWatch fd cb).

Record wires (b : nat) (l : EventLoop TcpIo TcpTimer) (fd : Z) (cfg : TcpListenerConfig) (retry next : Z) (cs : gmap Z Connection)
    (pc : gmap (list Z) Z) : Prop := {
  wi_loop : loop_inv l;
  wi_room : room l b;
  wi_id : ∀ id c, cs !! id = Some c → (1 ≤ id < next)%Z;
  wi_next : (1 ≤ next)%Z;
  wi_listen : watched l fd Acceptable;
  wi_watch : ∀ id c, cs !! id = Some c → watched l (c_fd c) (ConnectionEvent id);
  wi_watches : ∀ token w, el_watches l !! token = Some w → w = mkWatch fd Acceptable ∨
    ∃ id c, cs !! id = Some c ∧ w = mkWatch (c_fd c) (ConnectionEvent id);
  wi_idle : ∀ id c, cs !! id = Some c → c_idle_timer c ≠ 0%Z ∧ armed l !! c_idle_timer c = Some (IdleTimer id);
  wi_timers : ∀ x cb, armed l !! x = Some cb → x ≠ 0%Z ∧
    match cb with AcceptRetry => retry = x | IdleTimer id => ∃ c, cs !! id = Some c ∧ c_idle_timer c = x end;
  wi_retry : retry ≠ 0%Z → armed l !! retry = Some AcceptRetry;
  wi_client : ∀ id c, cs !! id = Some c → c_client c = ip_key (c_peer c);
  wi_counts : ∀ k, match pc !! k with
    | Some n => n = Z.of_nat (size (of_client k cs)) ∧ (1 ≤ n ≤ tc_max_per_client cfg)%Z
    | None => of_client k cs = ∅
    end;
  wi_limit : (Z.of_nat (size cs) ≤ tc_max_connections cfg)%Z;
  wi_width : (tc_max_per_client cfg < 18446744073709551616)%Z;
}.

Record tcp_inv (m : Mode) (b : nat) (s : TcpListener) : Prop := {
  tv_wires : wires b (tl_loop s) (tl_fd s) (tl_config s) (tl_accept_retry s) (tl_next_id s) (tl_connections s) (tl_per_client s);
  tv_streams : streams m (tl_next_id s) (tl_connections s) (tl_log s);
}.

(** ** Counting connections per client *)

Lemma of_client_insert k cs id c : cs !! id = None → of_client k (<[id := c]> cs) = if decide (c_client c = k) then <[id := c]> (of_client k cs) else of_client k cs.
Proof.
  intros Hn. unfold of_client. case_decide.
  - by apply map_filter_insert_True.
  - rewrite map_filter_insert_False by done. by rewrite delete_id.
Qed.

Lemma of_client_None k cs id : cs !! id = None → of_client k cs !! id = None.
Proof. intros Hn. unfold of_client. by rewrite map_lookup_filter, Hn. Qed.

Lemma of_client_update k cs id c c' : cs !! id = Some c → c_client c' = c_client c → size (of_client k (<[id := c']> cs)) = size (of_client k cs) ∧
  (of_client k (<[id := c']> cs) = ∅ ↔ of_client k cs = ∅).
Proof.
  intros Hc E. rewrite <-(insert_delete_id cs id c Hc). rewrite insert_insert_eq. set (cs0 := delete id cs).
  assert (Hn : cs0 !! id = None) by apply lookup_delete_eq. rewrite !of_client_insert by done. rewrite E. case_decide; [|done].
  rewrite !map_size_insert_None by (by apply of_client_None). split; [done|]. split; intros He; by apply insert_non_empty in He.
Qed.

Lemma of_client_delete k cs id c : cs !! id = Some c →
  of_client k (delete id cs) = if decide (c_client c = k) then delete id (of_client k cs) else of_client k cs.
Proof.
  intros Hc. unfold of_client. rewrite map_filter_delete. case_decide as E; [done|]. apply delete_id. rewrite map_lookup_filter, Hc. cbn.
  by rewrite option_guard_False.
Qed.

Lemma of_client_elem k cs id c : cs !! id = Some c → c_client c = k → of_client k cs !! id = Some c.
Proof. intros Hc E. unfold of_client. by apply map_lookup_filter_Some. Qed.

(** ** What each part of the loop leaves alone *)

Lemma disarm_spec (l : EventLoop TcpIo TcpTimer) x : loop_inv l → armed l !! 0%Z = None →
  loop_inv (disarm l x) ∧ armed (disarm l x) = delete x (armed l) ∧ el_watches (disarm l x) = el_watches l ∧
  el_tokens (disarm l x) = el_tokens l ∧ el_next_timer_id (disarm l x) = el_next_timer_id l ∧ el_next_token (disarm l x) = el_next_token l.
Proof.
  intros Hl H0. unfold disarm. destruct (Z.eqb_spec x 0) as [-> |Hx]; [by rewrite delete_id|].
  destruct (armed_cancel l x Hl) as (? & ? & ? & ?). split_and!; try done; unfold cancel_timer; by destruct (_ !! x).
Qed.

Lemma pop_tables (l l' : EventLoop TcpIo TcpTimer) at_time newest x cb : pop_due l at_time newest = Some (x, cb, l') →
  el_watches l' = el_watches l ∧ el_tokens l' = el_tokens l.
Proof. unfold pop_due. destruct (el_timers l) as [|[[d i] c] rest]; [done|]. destruct (_ || _); [done|]. by intros [= <- <- <-]. Qed.

Lemma armed_remove_fd (l : EventLoop TcpIo TcpTimer) fd : armed (remove_fd l fd) = armed l ∧
  el_next_timer_id (remove_fd l fd) = el_next_timer_id l ∧ el_next_token (remove_fd l fd) = el_next_token l.
Proof. unfold remove_fd. by destruct (_ !! fd). Qed.

(** A descriptor is registered once. *)
Lemma watched_inj l fd cb cb' : loop_inv l → watched l fd cb → watched l fd cb' → cb = cb'.
Proof. intros Hl (t & Ht & Hw) (t' & Ht' & Hw'). congruence. Qed.

Lemma watched_remove l fd fd' cb : loop_inv l → fd ≠ fd' → watched l fd' cb → watched (remove_fd l fd) fd' cb.
Proof.
  intros Hl Hne (t & Ht & Hw). exists t. unfold remove_fd. destruct (el_tokens l !! fd) as [t0|] eqn:E; [|done]. cbn.
  rewrite !lookup_delete_ne; [done| |done]. intros ->.
  apply (li_watches _ Hl) in E as (w & Hw' & Efd). rewrite Hw in Hw'. injection Hw' as <-. by cbn in Efd.
Qed.

Section wires.
Context (b : nat) (l : EventLoop TcpIo TcpTimer) (fd : Z) (cfg : TcpListenerConfig) (retry next : Z) (cs : gmap Z Connection) (pc : gmap (list Z) Z).
Context (Hw : wires b l fd cfg retry next cs pc).

Lemma wires_no_zero : armed l !! 0%Z = None.
Proof. destruct (armed l !! 0%Z) eqn:E; [|done]. by destruct (wi_timers _ _ _ _ _ _ _ _ Hw 0%Z _ E). Qed.

Lemma wires_less b' : b' ≤ b → wires b' l fd cfg retry next cs pc.
Proof. intros Hle. destruct Hw. split; try done. by eapply room_le. Qed.

(** Descriptors of different connections differ, and from the listener's. *)
Lemma wires_fd_listen id c : cs !! id = Some c → c_fd c ≠ fd.
Proof.
  intros Hc E. pose proof (wi_watch _ _ _ _ _ _ _ _ Hw id c Hc) as H1. rewrite E in H1.
  pose proof (watched_inj _ _ _ _ (wi_loop _ _ _ _ _ _ _ _ Hw) H1 (wi_listen _ _ _ _ _ _ _ _ Hw)). done.
Qed.

Lemma wires_fd_inj i j ci cj : cs !! i = Some ci → cs !! j = Some cj → c_fd ci = c_fd cj → i = j.
Proof.
  intros Hi Hj E. pose proof (wi_watch _ _ _ _ _ _ _ _ Hw i ci Hi) as H1. pose proof (wi_watch _ _ _ _ _ _ _ _ Hw j cj Hj) as H2.
  rewrite E in H1. pose proof (watched_inj _ _ _ _ (wi_loop _ _ _ _ _ _ _ _ Hw) H1 H2). congruence.
Qed.

(** Changing the parts of a connection that are not wires, its idle timer
    included if the loop follows. *)
Lemma wires_replace b' l' id c c' : cs !! id = Some c → c_fd c' = c_fd c → c_client c' = c_client c → c_peer c' = c_peer c →
  loop_inv l' → room l' b' → el_watches l' = el_watches l → el_tokens l' = el_tokens l →
  c_idle_timer c' ≠ 0%Z → armed l' = <[c_idle_timer c' := IdleTimer id]> (delete (c_idle_timer c) (armed l)) →
  (c_idle_timer c' = c_idle_timer c ∨ armed l !! c_idle_timer c' = None) →
  wires b' l' fd cfg retry next (<[id := c']> cs) pc.
Proof.
  intros Hc Ef Ecl Ep Hl' Hr' Ew Et Hx Ea Hfresh.
  pose proof Hw as [Hl Hr Hid Hnx Hlis Hwa Hws Hidle Htim Hret Hcli Hcnt Hlim Hwid]. destruct (Hidle id c Hc) as [Hx0 Hxa].
  assert (Hwt : ∀ f cb, watched l f cb → watched l' f cb) by (intros f cb (t & ? & ?); exists t; by rewrite Ew, Et).
  split; try done.
  - intros i ci [[<- _]|[_ Hi]]%lookup_insert_Some; eauto.
  - by apply Hwt.
  - intros i ci [[<- <-]|[_ Hi]]%lookup_insert_Some; apply Hwt; [rewrite Ef|]; eauto.
  - rewrite Ew. intros t w Hwt'. destruct (Hws t w Hwt') as [?|(i & ci & Hi & ->)]; [by left|right]. destruct (decide (i = id)) as [-> |].
    + exists id, c'. rewrite lookup_insert_eq. split; [done|]. rewrite Ef. congruence.
    + exists i, ci. by rewrite lookup_insert_ne.
  - intros i ci [[<- <-]|[Hne Hi]]%lookup_insert_Some; rewrite Ea; [split; [done|]; apply lookup_insert_eq|].
    destruct (Hidle i ci Hi) as [? Hai]. split; [done|]. rewrite lookup_insert_ne, lookup_delete_ne; [done|congruence|].
    intros E. destruct Hfresh as [E'|E']; congruence.
  - rewrite Ea. intros x cb [[<- <-]|[Hne [Hne' Hxc]%lookup_delete_Some]]%lookup_insert_Some.
    + split; [done|]. exists c'. by rewrite lookup_insert_eq.
    + destruct (Htim x cb Hxc) as [? Hcb]. split; [done|]. destruct cb as [|i]; [done|]. destruct Hcb as (ci & Hi & Ei). exists ci.
      rewrite lookup_insert_ne; [done|]. intros <-. congruence.
  - intros Hr0. specialize (Hret Hr0). rewrite Ea, lookup_insert_ne, lookup_delete_ne; [done|congruence|]. intros E. destruct Hfresh as [E'|E']; congruence.
  - intros i ci [[<- <-]|[_ Hi]]%lookup_insert_Some; [rewrite Ecl, Ep|]; eauto.
  - intros k. specialize (Hcnt k). destruct (of_client_update k cs id c c' Hc Ecl) as [-> He]. destruct (pc !! k); [done|]. by apply He.
  - by rewrite map_size_insert_Some.
Qed.

Lemma wires_put id c c' : cs !! id = Some c → c_fd c' = c_fd c → c_client c' = c_client c → c_peer c' = c_peer c →
  c_idle_timer c' = c_idle_timer c → wires b l fd cfg retry next (<[id := c']> cs) pc.
Proof.
  intros Hc Ef Ecl Ep Ei. destruct (wi_idle _ _ _ _ _ _ _ _ Hw id c Hc) as [Hx Ha].
  apply (wires_replace b l id c c'); try done; [by destruct Hw..|congruence| |by left].
  by rewrite Ei, insert_delete_id.
Qed.

(** Removing a connection from the tables, given a loop without its timer. *)
Lemma wires_drop l' id c : cs !! id = Some c → loop_inv l' → armed l' = delete (c_idle_timer c) (armed l) →
  el_watches l' = el_watches (remove_fd l (c_fd c)) → el_tokens l' = el_tokens (remove_fd l (c_fd c)) →
  el_next_timer_id l' = el_next_timer_id l → el_next_token l' = el_next_token l →
  wires b l' fd cfg retry next (delete id cs) (leave_client (c_client c) pc).
Proof.
  intros Hc Hl' Ea Ew Et En Ek. pose proof Hw as [Hl Hr Hid Hnx Hlis Hwa Hws Hidle Htim Hret Hcli Hcnt Hlim Hwid].
  assert (Hwt : ∀ f cb, watched l f cb → f ≠ c_fd c → watched l' f cb).
  { intros f cb Hf Hne. destruct (watched_remove l (c_fd c) f cb Hl ltac:(congruence) Hf) as (t & ? & ?). exists t. by rewrite Et, Ew. }
  destruct (Hidle id c Hc) as [Hx0 Hxa]. split; try done.
  - unfold room in *. by rewrite En, Ek.
  - intros i ci [_ Hi]%lookup_delete_Some. eauto.
  - apply Hwt; [done|]. intros E. symmetry in E. by apply (wires_fd_listen id c Hc).
  - intros i ci [Hne Hi]%lookup_delete_Some. apply Hwt; [by eauto|]. intros E. apply Hne. symmetry. by apply (wires_fd_inj i id ci c).
  - intros t w. destruct (Hwa id c Hc) as (t0 & Ht0 & Hw0). rewrite Ew. unfold remove_fd. rewrite Ht0. cbn.
    intros [Hnt Hwt']%lookup_delete_Some. destruct (Hws t w Hwt') as [?|(i & ci & Hi & ->)]; [by left|right]. exists i, ci.
    rewrite lookup_delete_ne; [done|]. intros <-. assert (ci = c) as -> by congruence. apply Hnt.
    assert (el_tokens l !! c_fd c = Some t) by (apply (li_watches _ Hl); eexists; by split). congruence.
  - rewrite Ea. intros i ci [Hne Hi]%lookup_delete_Some. destruct (Hidle i ci Hi) as [? Hai]. split; [done|].
    rewrite lookup_delete_ne; [done|]. congruence.
  - rewrite Ea. intros x cb [Hne Hxc]%lookup_delete_Some. destruct (Htim x cb Hxc) as [? Hcb]. split; [done|].
    destruct cb as [|i]; [done|]. destruct Hcb as (ci & Hi & Ei). exists ci. rewrite lookup_delete_ne; [done|]. intros <-. congruence.
  - intros Hr0. specialize (Hret Hr0). rewrite Ea, lookup_delete_ne; [done|]. congruence.
  - intros i ci [_ Hi]%lookup_delete_Some. eauto.
  - intros k. rewrite (of_client_delete k cs id c Hc). pose proof (Hcnt k) as Hk. pose proof (Hcnt (c_client c)) as Hk'. unfold leave_client.
    assert (Hel : of_client (c_client c) cs !! id = Some c) by (by apply of_client_elem).
    destruct (pc !! c_client c) as [n|] eqn:En0; [|by rewrite Hk' in Hel]. destruct Hk' as [Hn Hr0].
    case_decide as E; [subst k; rewrite En0 in Hk|].
    + assert (Hsz : size (delete id (of_client (c_client c) cs)) = pred (size (of_client (c_client c) cs))) by (by apply map_size_delete_Some). assert (Hu : u64 (n - 1) = (n - 1)%Z).
      { apply Z.mod_small. lia. }
      rewrite Hu. destruct (Z.eqb_spec (n - 1) 0) as [E1|E1].
      * rewrite lookup_delete_eq. apply map_size_empty_inv. lia.
      * rewrite lookup_insert_eq. rewrite Hsz. split; lia.
    + destruct (_ =? 0)%Z; [rewrite lookup_delete_ne by done|rewrite lookup_insert_ne by done]; exact Hk.
  - rewrite map_size_delete_Some by done. lia.
Qed.
End wires.

(** ** Histories *)

Definition about_conn (e : TcpEvent) : option Z :=
  match e with Arrived i _ | Handed i _ _ _ | Answered i _ | Written i _ => Some i | ClosedFd _ => None end.

Definition same_history (i : Z) (log log' : list TcpEvent) : Prop :=
  arrived i log' = arrived i log ∧ handed i log' = handed i log ∧ answered i log' = answered i log ∧ written i log' = written i log.

Lemma history_app i log es :
  arrived i (log ++ es) = arrived i log ++ arrived i es ∧ handed i (log ++ es) = handed i log ++ handed i es ∧
  answered i (log ++ es) = answered i log ++ answered i es ∧ written i (log ++ es) = written i log ++ written i es.
Proof. unfold arrived, handed, answered, written. by rewrite !bind_app. Qed.

Lemma history_other i log es : Forall (λ e, about_conn e ≠ Some i) es → same_history i log (log ++ es).
Proof.
  intros Hes. unfold same_history. destruct (history_app i log es) as (-> & -> & -> & ->).
  assert (arrived i es = [] ∧ handed i es = [] ∧ answered i es = [] ∧ written i es = []) as (-> & -> & -> & ->); [|by rewrite !app_nil_r].
  induction Hes as [|e es He _ (IH1 & IH2 & IH3 & IH4)]; [done|]. unfold arrived, handed, answered, written in *. cbn.
  rewrite IH1, IH2, IH3, IH4. destruct e; cbn in He |- *; rewrite ?decide_False by congruence; done.
Qed.

Lemma stream_ok_same m m' log log' i c : m' i = m i → same_history i log log' → stream_ok m log i c → stream_ok m' log' i c.
Proof. intros Em (E1 & E2 & E3 & E4) []. split; rewrite ?Em, ?E1, ?E2, ?E3, ?E4; done. Qed.

Definition at_conn (id : Z) (e : TcpEvent) : Prop := about_conn e = Some id ∨ about_conn e = None.

Lemma at_conn_other id i es : i ≠ id → Forall (at_conn id) es → Forall (λ e, about_conn e ≠ Some i) es.
Proof. intros Hne Hes. eapply Forall_impl; [exact Hes|]. intros e [E|E]; congruence. Qed.

Section streams.
Context (m : Mode) (next : Z) (cs : gmap Z Connection) (log : list TcpEvent) (Hs : streams m next cs log).

Lemma streams_others m' id es : (id < next)%Z → Forall (at_conn id) es → (∀ i, i ≠ id → m' i = m i) → streams m' next (delete id cs) (log ++ es).
Proof.
  intros Hid Hes Hm. split.
  - intros i c [Hne Hi]%lookup_delete_Some. eapply stream_ok_same; [by apply Hm|apply history_other, (at_conn_other id); done|].
    by apply (sr_ok _ _ _ _ Hs).
  - intros i Hi. destruct (history_other i log es) as (-> & -> & -> & ->); [|by apply (sr_fresh _ _ _ _ Hs)].
    apply (at_conn_other id); [lia|done].
Qed.

Lemma streams_put m' id c c' es : cs !! id = Some c → (id < next)%Z → Forall (at_conn id) es → (∀ i, i ≠ id → m' i = m i) →
  stream_ok m' (log ++ es) id c' → streams m' next (<[id := c']> cs) (log ++ es).
Proof.
  intros Hc Hid Hes Hm Hok. destruct (streams_others m' id es Hid Hes Hm) as [H1 H2]. split; [|done].
  intros i ci [[<- <-]|[Hne Hi]]%lookup_insert_Some; [done|]. apply H1. by rewrite lookup_delete_ne.
Qed.
End streams.

(** ** Operations on one connection *)

(** What the listener relies on: a handler with room for a query takes it, and
    has then room for one less. *)
Class TakesQueries {E X : Type} (handler : Z → Message → ClientInfo → X → outcome E (option Message * X)) := {
  spare : nat → X → Prop;
  spare_less : ∀ n n' x, n' ≤ n → spare n x → spare n' x;
  spare_takes : ∀ n id query client x, spare (S n) x → ∃ reply x', handler id query client x = Ok (reply, x') ∧ spare n x';
}.

Section ops.
Context {Err X : Type} (clock : nat → Z) (handler : Z → Message → ClientInfo → X → outcome Err (option Message * X)) `{!TakesQueries handler}.
Context (sends : nat → list SendResult) (ctl : nat → bool).
Implicit Types (s : TcpListener) (m : Mode).

Lemma tcp_inv_counted m b s x : tcp_inv m b s → tcp_inv m b (counted s x).
Proof. by intros [? ?]. Qed.
Lemma tcp_inv_tick m b s : tcp_inv m b s → tcp_inv m b (tick s).
Proof. by intros [? ?]. Qed.
Lemma tcp_inv_less m b b' s : b' ≤ b → tcp_inv m b s → tcp_inv m b' s.
Proof. intros Hle [Hw Hs]. split; [by eapply wires_less|done]. Qed.
Lemma tcp_inv_mode m m' b s : (∀ i, m' i = m i) → tcp_inv m b s → tcp_inv m' b s.
Proof. intros Hm [Hw [Hs Hf]]. split; [done|]. split; [|done]. intros i c Hi. apply (stream_ok_same m m' (tl_log s)); [done|done|by apply Hs]. Qed.

(** The connection [id], as far as reading goes, stays or closes. *)
Definition keeps_conn id s s' : Prop := ∀ c', tl_connections s' !! id = Some c' → ∃ c, tl_connections s !! id = Some c ∧
  c_in c' = c_in c ∧ c_processing c' = c_processing c ∧ c_pending c' = c_pending c ∧ c_peer c' = c_peer c.

Lemma keeps_conn_refl id s : keeps_conn id s s.
Proof. intros c Hc. eauto 10. Qed.
Lemma keeps_conn_trans id s1 s2 s3 : keeps_conn id s1 s2 → keeps_conn id s2 s3 → keeps_conn id s1 s3.
Proof. intros H1 H2 c (c2 & Hc2 & E1 & E2 & E3 & E4)%H2. destruct (H1 c2 Hc2) as (c1 & Hc1 & ? & ? & ? & ?). exists c1. split_and!; congruence. Qed.

Lemma close_core m b id s : wires b (tl_loop s) (tl_fd s) (tl_config s) (tl_accept_retry s) (tl_next_id s) (tl_connections s) (tl_per_client s) →
  streams m (tl_next_id s) (delete id (tl_connections s)) (tl_log s) → tcp_inv m b (close id s) ∧ tl_connections (close id s) !! id = None.
Proof.
  intros Hw Hs. unfold close. destruct (tl_connections s !! id) as [c|] eqn:Hc; [|split; [split; [done|]; by rewrite delete_id in Hs|done]].
  split; [|cbn; apply lookup_delete_eq]. pose proof (wires_no_zero _ _ _ _ _ _ _ _ Hw) as H0. pose proof (wi_loop _ _ _ _ _ _ _ _ Hw) as Hl.
  destruct (armed_remove_fd (tl_loop s) (c_fd c)) as (Ea & En & Ek).
  destruct (disarm_spec (remove_fd (tl_loop s) (c_fd c)) (c_idle_timer c)) as (Hl' & Ea' & Ew & Et & En' & Ek'); [by apply remove_fd_inv|by rewrite Ea|].
  split; cbn [logged with_loop with_table tl_loop tl_fd tl_config tl_accept_retry tl_next_id tl_connections tl_per_client tl_log].
  - apply (wires_drop b (tl_loop s)); try done; congruence.
  - destruct (wi_id _ _ _ _ _ _ _ _ Hw id c Hc) as [_ Hid].
    pose proof (streams_others _ _ _ _ Hs m id [ClosedFd (c_fd c)] Hid) as Hd. rewrite delete_delete_eq in Hd.
    apply Hd; [by constructor; [right|]|done].
Qed.

Lemma close_inv m m' b id s : tcp_inv m b s → (∀ i, i ≠ id → m' i = m i) → tcp_inv m' b (close id s) ∧ tl_connections (close id s) !! id = None.
Proof.
  intros [Hw Hs] Hm. apply close_core; [done|]. destruct (tl_connections s !! id) as [c|] eqn:Hc.
  - destruct (wi_id _ _ _ _ _ _ _ _ Hw id c Hc) as [_ Hid]. rewrite <-(app_nil_r (tl_log s)). by apply (streams_others _ _ _ _ Hs).
  - destruct Hs as [Hok Hf]. split; [|done]. intros i c [Hne Hi]%lookup_delete_Some. apply (stream_ok_same m m' (tl_log s)); [by apply Hm|done|by apply Hok].
Qed.

Lemma arm_inv m b id s : tcp_inv m (S b) s → tcp_inv m b (arm_idle_timer clock id s) ∧ keeps_conn id s (arm_idle_timer clock id s).
Proof.
  intros [Hw Hs]. unfold arm_idle_timer. destruct (tl_connections s !! id) as [c|] eqn:Hc.
  2:{ split; [|apply keeps_conn_refl]. split; [eapply wires_less; [exact Hw|lia]|done]. }
  pose proof (wires_no_zero _ _ _ _ _ _ _ _ Hw) as H0. pose proof (wi_loop _ _ _ _ _ _ _ _ Hw) as Hl. pose proof (wi_room _ _ _ _ _ _ _ _ Hw) as Hr.
  destruct (disarm_spec (tl_loop s) (c_idle_timer c) Hl H0) as (Hl' & Ea & Ew & Et & En & Ek).
  destruct (armed_add (disarm (tl_loop s) (c_idle_timer c)) (clock (tl_ticks s)) (tc_idle_timeout_ms (tl_config s) * 1000000) (IdleTimer id) Hl')
    as (l' & Eadd & Hl2 & Hx & Hfr & Ea2 & En2 & Ek2 & _); [unfold room in *; lia|].
  assert (Etab : el_watches l' = el_watches (tl_loop s) ∧ el_tokens l' = el_tokens (tl_loop s)) by (unfold add_timer in Eadd; injection Eadd as <-; by rewrite <-Ew, <-Et).
  rewrite Eadd. set (x := el_next_timer_id _) in *. split.
  - split; cbn [put_conn with_table with_loop tick tl_loop tl_fd tl_config tl_accept_retry tl_next_id tl_connections tl_per_client tl_log].
    + apply (wires_replace _ _ _ _ _ _ _ _ Hw b l' id c); cbn [set_idle_timer c_fd c_client c_peer c_idle_timer]; try done.
      * unfold room in *. lia.
      * by destruct Etab.
      * by destruct Etab.
      * by rewrite Ea2, Ea.
      * right. destruct (armed (tl_loop s) !! x) as [cb|] eqn:E; [|done]. apply armed_Some in E as [d Hd]; [|done].
        assert (Hin : (d, x) ∈ (el_timers (tl_loop s)).*1) by (apply list_elem_of_fmap; by eexists (_, _)).
        apply (li_ids _ Hl) in Hin. unfold x in Hin. lia.
    + destruct (wi_id _ _ _ _ _ _ _ _ Hw id c Hc) as [_ Hid]. rewrite <-(app_nil_r (tl_log s)). eapply streams_put; [done|done|done|done|done|].
      rewrite app_nil_r. destruct (sr_ok _ _ _ _ Hs id c Hc) as [? ? ? ? ?]. by split.
  - intros c' Hc'. cbn in Hc'. rewrite lookup_insert_eq in Hc'. injection Hc' as <-. by exists c.
Qed.

Lemma flush_loop_le out results : ∀ sent, sent ≤ length out → (flush_loop out sent results).1 ≤ length out.
Proof. induction results as [|[| | |n] results IH]; intros sent Hs; cbn [flush_loop]; case_decide; cbn; try lia; apply IH; lia. Qed.

Lemma flush_inv m b id s : tcp_inv m (S b) s → tcp_inv m b (flush clock sends id s) ∧ keeps_conn id s (flush clock sends id s).
Proof.
  intros Hinv. unfold flush. destruct (tl_connections s !! id) as [c|] eqn:Hc.
  2:{ split; [eapply tcp_inv_less; [|done]; lia|apply keeps_conn_refl]. }
  pose proof (flush_loop_le (c_out c) (sends (tl_ticks s)) 0 ltac:(lia)) as Hle.
  destruct (flush_loop (c_out c) 0 (sends (tl_ticks s))) as [sent gone]. cbn in Hle. destruct Hinv as [Hw Hs].
  destruct (wi_id _ _ _ _ _ _ _ _ Hw id c Hc) as [_ Hid]. set (e := Written id (take sent (c_out c))).
  assert (He : Forall (at_conn id) [e]) by (by repeat constructor).
  destruct gone.
  - set (s1 := logged (tick s) e). destruct (close_core m b id s1) as [Hi Hn]; [by eapply wires_less; [exact Hw|lia]|by apply (streams_others _ _ _ _ Hs)|].
    split; [done|]. intros c' Hc'. by rewrite Hn in Hc'.
  - assert (Hput : tcp_inv m (S b) (put_conn (logged (tick s) e) id (set_out c (drop sent (c_out c))))).
    { split; cbn [put_conn with_table logged tick tl_loop tl_fd tl_config tl_accept_retry tl_next_id tl_connections tl_per_client tl_log].
      - by eapply wires_put.
      - eapply streams_put; [done|done|done|done|done|]. destruct (sr_ok _ _ _ _ Hs id c Hc) as [Hp Hrg Hin Hout Hnx].
        destruct (history_app id (tl_log s) [e]) as (E1 & E2 & E3 & E4).
        assert (Ee : arrived id [e] = [] ∧ handed id [e] = [] ∧ answered id [e] = [] ∧ written id [e] = take sent (c_out c)).
        { unfold e, arrived, handed, answered, written. cbn. rewrite decide_True by done. by rewrite app_nil_r. }
        destruct Ee as (F1 & F2 & F3 & F4). split; cbn [set_out c_pending c_processing c_in c_out]; rewrite ?E1, ?E2, ?E3, ?E4, ?F1, ?F2, ?F3, ?F4, ?app_nil_r; try done.
        rewrite <-app_assoc, take_drop. done. }
    case_decide as Hsent.
    + destruct (arm_inv m b id _ Hput) as [Hi Hk]. split; [done|]. eapply keeps_conn_trans; [|exact Hk].
      intros c' Hc'. cbn in Hc'. rewrite lookup_insert_eq in Hc'. injection Hc' as <-. by exists c.
    + assert (sent = 0) as -> by lia. assert (Ec : set_out c (drop 0 (c_out c)) = c) by (by destruct c). rewrite Ec in Hput.
      split; [|exact (keeps_conn_refl id s)]. eapply (tcp_inv_less m (S b)); [lia|]. destruct Hput as [Hw' Hs']. cbn in Hw', Hs'. rewrite insert_id in Hw', Hs' by done.
      by split.
Qed.

Lemma update_inv m b id s : tcp_inv m b s → tcp_inv m b (update ctl id s) ∧ keeps_conn id s (update ctl id s).
Proof.
  intros Hinv. unfold update. destruct (tl_connections s !! id) as [c|] eqn:Hc; [|split; [done|apply keeps_conn_refl]].
  destruct (_ && _).
  { destruct (close_inv m m b id s Hinv) as [Hi Hn]; [done|]. split; [done|]. intros c' Hc'. by rewrite Hn in Hc'. }
  destruct (_ =? _)%Z; [split; [done|apply keeps_conn_refl]|].
  destruct (modify_fd _ _ _); [split; [by apply tcp_inv_tick|exact (keeps_conn_refl id s)]|]. destruct Hinv as [Hw Hs]. split.
  - split; cbn [put_conn with_table tick tl_loop tl_fd tl_config tl_accept_retry tl_next_id tl_connections tl_per_client tl_log].
    + by eapply wires_put.
    + destruct (wi_id _ _ _ _ _ _ _ _ Hw id c Hc) as [_ Hid]. rewrite <-(app_nil_r (tl_log s)). eapply streams_put; [done|done|done|done|done|].
      rewrite app_nil_r. destruct (sr_ok _ _ _ _ Hs id c Hc). by split.
  - intros c' Hc'. cbn in Hc'. rewrite lookup_insert_eq in Hc'. injection Hc' as <-. by exists c.
Qed.

(** ** Answering and processing *)

(** What [respond] does before it goes on processing. *)
Lemma answer_inv m m' b id c response s : tcp_inv m (S b) s → tl_connections s !! id = Some c → (0 < c_pending c)%Z →
  (∀ i, i ≠ id → m' i = m i) → m' id ≠ None →
  match m' id, m id with Some (Some u'), Some (Some u) => u' = u | Some None, (Some None | None) => True | _, _ => False end →
  let s1 := flush clock sends id (logged (counted (put_conn s id (set_out (set_pending c (u64 (c_pending c - 1)))
              (c_out c ++ build_tcp response (mkOptions 512 true)))) TResponses) (Answered id response)) in
  tcp_inv m' b s1 ∧ ∀ c', tl_connections s1 !! id = Some c' → c_in c' = c_in c ∧ c_processing c' = c_processing c ∧ c_pending c' = (c_pending c - 1)%Z ∧ c_peer c' = c_peer c.
Proof.
  intros [Hw Hs] Hc Hp Hm Hne Hmode. cbv zeta. destruct (wi_id _ _ _ _ _ _ _ _ Hw id c Hc) as [_ Hid].
  destruct (sr_ok _ _ _ _ Hs id c Hc) as [Hpe Hrg Hin Hout Hnx].
  assert (Eu : u64 (c_pending c - 1) = (c_pending c - 1)%Z) by (apply Z.mod_small; unfold kMaxPipelined in *; lia). rewrite Eu.
  set (c1 := set_out _ _). set (e := Answered id response). set (s1 := logged _ e).
  assert (Hinv1 : tcp_inv m' (S b) s1).
  { split; cbn [s1 logged counted put_conn with_table tl_loop tl_fd tl_config tl_accept_retry tl_next_id tl_connections tl_per_client tl_log].
    - by eapply wires_put.
    - eapply streams_put; [done|done|done|by repeat constructor|done|]. destruct (history_app id (tl_log s) [e]) as (E1 & E2 & E3 & E4).
      assert (Ee : arrived id [e] = [] ∧ handed id [e] = [] ∧ answered id [e] = [response] ∧ written id [e] = []).
      { unfold e, arrived, handed, answered, written. cbn. by rewrite decide_True. }
      destruct Ee as (F1 & F2 & F3 & F4). split; cbn [c1 set_out set_pending c_pending c_processing c_in c_out];
        rewrite ?E1, ?E2, ?E3, ?E4, ?F1, ?F2, ?F3, ?F4, ?app_nil_r.
      + unfold zlen in *. rewrite length_app. cbn. lia.
      + lia.
      + destruct (m' id) as [[u'|]|], (m id) as [[u|]|]; try done. by subst.
      + rewrite fmap_app, join_app, app_assoc, Hout. cbn. by rewrite app_nil_r.
      + done. }
  destruct (flush_inv m' b id s1 Hinv1) as [Hi Hk]. split; [done|]. intros c' Hc'. destruct (Hk c' Hc') as (c2 & Hc2 & F1 & F2 & F3 & F4).
  cbn in Hc2. rewrite lookup_insert_eq in Hc2. injection Hc2 as <-. done.
Qed.

(** A handler that answers at once: [process_messages] turns the re-entrant
    call away. *)
Lemma respond_nested_inv b id used d c response s (x : X) : tcp_inv (only id (Some used)) (S b) s → tl_connections s !! id = Some c → (0 < c_pending c)%Z →
  ∃ s', respond_with clock sends ctl (process_messages clock handler sends ctl (S d)) id response s x = Ok (s', x) ∧ tcp_inv (only id (Some used)) b s' ∧
    ∀ c', tl_connections s' !! id = Some c' → c_in c' = c_in c.
Proof.
  intros Hinv Hc Hp. unfold respond_with. rewrite Hc. cbv zeta.
  destruct (answer_inv (only id (Some used)) (only id (Some used)) b id c response s Hinv Hc Hp) as [Hi Hk]; [done|by rewrite only_eq|by rewrite only_eq|].
  cbn zeta in Hi, Hk. set (s1 := flush _ _ _ _) in *. cbn [set_pending c_out] in *. fold s1.
  destruct (tl_connections s1 !! id) as [c1|] eqn:Hc1; [|exists s1; split_and!; [done|done|by rewrite Hc1]].
  destruct (Hk c1 eq_refl) as (E1 & E2 & _). pose proof (so_in _ _ _ _ (sr_ok _ _ _ _ (tv_streams _ _ _ Hi) id c1 Hc1)) as Hin.
  rewrite only_eq in Hin. destruct Hin as [Hproc _]. cbn [process_messages]. rewrite Hc1, Hproc. rewrite bind_Ok.
  destruct (update_inv (only id (Some used)) b id s1 Hi) as [Hi' Hk']. eexists. split_and!; [done|done|].
  intros c' Hc'. destruct (Hk' c' Hc') as (c2 & Hc2 & F1 & _). congruence.
Qed.

(** One query is handed over. *)
Lemma hand_inv b id used c hi lo rest query client s : let n := Z.to_nat (Z.lor (Z.shiftl hi 8) lo) in
  tcp_inv (only id (Some used)) (S b) s → tl_connections s !! id = Some c → (c_pending c < kMaxPipelined)%Z →
  drop used (c_in c) = hi :: lo :: rest → n ≤ length rest →
  let s1 := arm_idle_timer clock id
    (logged (put_conn (counted s TQueries) id (set_pending c (u64 (c_pending c + 1)))) (Handed id (take n rest) query client)) in
  tcp_inv (only id (Some (used + (2 + n)))) b s1 ∧
  ∀ c', tl_connections s1 !! id = Some c' → c_in c' = c_in c ∧ (0 < c_pending c')%Z.
Proof.
  intros n [Hw Hs] Hc Hp Hd Hn. cbv zeta. destruct (wi_id _ _ _ _ _ _ _ _ Hw id c Hc) as [_ Hid].
  destruct (sr_ok _ _ _ _ Hs id c Hc) as [Hpe Hrg Hin Hout Hnx].
  assert (Eu : u64 (c_pending c + 1) = (c_pending c + 1)%Z) by (apply Z.mod_small; unfold kMaxPipelined in *; lia). rewrite Eu.
  set (c1 := set_pending c _). set (e := Handed id _ query client). set (s1 := logged _ e). set (m' := only id (Some (used + (2 + n)))).
  assert (Hinv1 : tcp_inv m' (S b) s1).
  { split; cbn [s1 logged counted put_conn with_table tl_loop tl_fd tl_config tl_accept_retry tl_next_id tl_connections tl_per_client tl_log].
    - by eapply wires_put.
    - eapply (streams_put (only id (Some used))); [done|done|done|by repeat constructor|intros i Hi; unfold m'; by rewrite !only_ne|].
      destruct (history_app id (tl_log s) [e]) as (E1 & E2 & E3 & E4).
      assert (Ee : arrived id [e] = [] ∧ handed id [e] = [take n rest] ∧ answered id [e] = [] ∧ written id [e] = []).
      { unfold e, arrived, handed, answered, written. cbn. by rewrite decide_True. }
      destruct Ee as (F1 & F2 & F3 & F4). split; cbn [c1 set_pending c_pending c_processing c_in c_out];
        rewrite ?E1, ?E2, ?E3, ?E4, ?F1, ?F2, ?F3, ?F4, ?app_nil_r.
      + unfold zlen in *. rewrite length_app. cbn. lia.
      + lia.
      + unfold m'. rewrite only_eq in Hin |- *. destruct Hin as [Hpr Hf]. split; [done|].
        apply (framed_as_snoc _ hi lo); [rewrite length_take; fold n; lia|].
        rewrite <-drop_drop, Hd. cbn [drop Nat.add]. by rewrite take_drop, <-Hd.
      + done.
      + unfold m'. by rewrite only_eq. }
  destruct (arm_inv m' b id s1 Hinv1) as [Hi Hk]. split; [done|]. intros c' Hc'. destruct (Hk c' Hc') as (c2 & Hc2 & F1 & F2 & F3 & _).
  cbn in Hc2. rewrite lookup_insert_eq in Hc2. injection Hc2 as <-. cbn in F1, F3. split; [done|lia].
Qed.

Lemma process_loop_inv id d n fuel : ∀ b used s x, tcp_inv (only id (Some used)) (2 * fuel + b) s → spare (fuel + n) x →
  (∀ c, tl_connections s !! id = Some c → length (drop used (c_in c)) < fuel) → 0 < fuel →
  ∃ used' s' x', process_loop clock handler (respond_with clock sends ctl (process_messages clock handler sends ctl (S d))) fuel id used s x = Ok (used', s', x') ∧
    tcp_inv (only id (Some used')) b s' ∧ spare n x' ∧
    ∀ c, tl_connections s' !! id = Some c → (c_pending c < kMaxPipelined)%Z → framed (drop used' (c_in c)) = None.
Proof.
  induction fuel as [|fuel IH]; intros b used s x Hinv Hx Hlen Hf; [lia|]. cbn [process_loop].
  assert (Hstop : (∀ c, tl_connections s !! id = Some c → (c_pending c < kMaxPipelined)%Z → framed (drop used (c_in c)) = None) →
    ∃ used' s' x', Ok (used, s, x) = Ok (E:=Err) (used', s', x') ∧ tcp_inv (only id (Some used')) b s' ∧ spare n x' ∧
      ∀ c, tl_connections s' !! id = Some c → (c_pending c < kMaxPipelined)%Z → framed (drop used' (c_in c)) = None).
  { intros Hn. exists used, s, x. split_and!; [done|eapply tcp_inv_less; [|exact Hinv]; lia|eapply spare_less; [|exact Hx]; lia|done]. }
  destruct (tl_connections s !! id) as [c|] eqn:Hc; [|by apply Hstop]. specialize (Hlen c eq_refl).
  destruct (drop used (c_in c)) as [|hi [|lo rest]] eqn:Hd; [by apply Hstop; intros c' [= <-]; rewrite Hd..|].
  destruct (Z.ltb_spec (c_pending c) kMaxPipelined) as [Hp|Hp]; cbn [negb]; [|apply Hstop; intros c' [= <-]; lia].
  case_decide as Hshort.
  { apply Hstop. intros c' [= <-] _. rewrite Hd. cbn [framed]. by rewrite decide_True. }
  set (len := Z.to_nat _) in *. clear Hstop.
  assert (Hbad : ∃ used' s' x', Ok (used + (2 + len), close id (counted s TMalformed), x) = Ok (E:=Err) (used', s', x') ∧ tcp_inv (only id (Some used')) b s' ∧ spare n x' ∧
    ∀ c, tl_connections s' !! id = Some c → (c_pending c < kMaxPipelined)%Z → framed (drop used' (c_in c)) = None).
  { eexists _, _, _. split; [done|]. destruct (close_inv (only id (Some used)) (only id (Some (used + (2 + len)))) b id (counted s TMalformed)) as [Hi Hno].
    - eapply tcp_inv_less; [|by apply tcp_inv_counted]. lia.
    - intros i Hi. by rewrite !only_ne.
    - split_and!; [done|eapply spare_less; [|exact Hx]; lia|]. intros c' Hc'. by rewrite Hno in Hc'. }
  destruct (parse (take len rest)) as [query| |] eqn:Eq; [|exact Hbad..]. destruct (h_qr _); [exact Hbad|]. clear Hbad.
  set (client := mkClient _ _).
  destruct (hand_inv (S (2 * fuel + b)) id used c hi lo rest query client s) as [Hi Hk]; [|done|done|done|fold len; lia|].
  { eapply tcp_inv_less; [|exact Hinv]. lia. }
  fold len in Hi, Hk. cbv zeta in Hi, Hk. set (s1 := arm_idle_timer _ _ _) in *.
  set (used' := used + (2 + len)) in *.
  assert (Hgo : ∀ s2 x2, tcp_inv (only id (Some used')) (2 * fuel + b) s2 → spare (fuel + n) x2 → (∀ c', tl_connections s2 !! id = Some c' → c_in c' = c_in c) →
    ∃ used'' s' x', process_loop clock handler (respond_with clock sends ctl (process_messages clock handler sends ctl (S d))) fuel id used' s2 x2 = Ok (used'', s', x') ∧
      tcp_inv (only id (Some used'')) b s' ∧ spare n x' ∧
      ∀ c, tl_connections s' !! id = Some c → (c_pending c < kMaxPipelined)%Z → framed (drop used'' (c_in c)) = None).
  { intros s2 x2 Hi2 Hx2 Hk2. cbn [length] in Hlen. apply IH; [done|done| |lia]. intros c' Hc'. rewrite (Hk2 c' Hc'). unfold used'.
    rewrite <-drop_drop, Hd. cbn [drop Nat.add]. rewrite length_drop. lia. }
  destruct (spare_takes (fuel + n) id query client x Hx) as (reply & x1 & -> & Hx1). rewrite bind_Ok.
  destruct reply as [response|]; [|rewrite bind_Ok; apply Hgo; [eapply tcp_inv_less; [|exact Hi]; lia|done|]; intros c' Hc'; by apply Hk].
  destruct (tl_connections s1 !! id) as [c1|] eqn:Hc1.
  - destruct (Hk c1 eq_refl) as [Ein Hpos]. destruct (respond_nested_inv (2 * fuel + b) id used' d c1 response s1 x1) as (s2 & -> & Hi2 & Hk2); [done..|].
    rewrite bind_Ok. apply Hgo; [done|done|]. intros c' Hc'. by rewrite (Hk2 c' Hc').
  - assert (Hskip : ∀ process, respond_with clock sends ctl process id response s1 x1 = Ok (E:=Err) (s1, x1)) by (intros process; unfold respond_with; by rewrite Hc1).
    rewrite Hskip, bind_Ok. apply Hgo; [eapply tcp_inv_less; [|exact Hi]; lia|done|intros c' Hc'; congruence].
Qed.

Lemma process_messages_inv id d n b c s x : tcp_inv (only id None) (2 * S (length (c_in c)) + b) s → spare (S (length (c_in c)) + n) x → tl_connections s !! id = Some c →
  ∃ s' x', process_messages clock handler sends ctl (S (S d)) id s x = Ok (s', x') ∧ tcp_inv calm b s' ∧ spare n x'.
Proof.
  intros Hinv Hx Hc. pose proof (sr_ok _ _ _ _ (tv_streams _ _ _ Hinv) id c Hc) as [Hpe Hrg Hin Hout Hnx]. rewrite only_eq in Hin.
  destruct Hin as [Hpr Hfr]. cbn [process_messages]. rewrite Hc, Hpr. set (s0 := put_conn s id (set_processing c true)).
  assert (Hinv0 : tcp_inv (only id (Some 0)) (2 * S (length (c_in c)) + b) s0).
  { destruct Hinv as [Hw Hs]. destruct (wi_id _ _ _ _ _ _ _ _ Hw id c Hc) as [_ Hid].
    split; cbn [s0 put_conn with_table tl_loop tl_fd tl_config tl_accept_retry tl_next_id tl_connections tl_per_client tl_log]; [by eapply wires_put|].
    rewrite <-(app_nil_r (tl_log s)). eapply (streams_put (only id None)); [done|done|done|done|intros i Hi; by rewrite !only_ne|].
    rewrite app_nil_r. split; cbn [set_processing c_pending c_processing c_in c_out]; try done; [|by rewrite only_eq].
    rewrite only_eq. done. }
  destruct (process_loop_inv id d n (S (length (c_in c))) b 0 s0 x Hinv0 Hx) as (used & s1 & x1 & Hl & Hi1 & Hx1 & Hn1).
  { intros c' Hc'. cbn in Hc'. rewrite lookup_insert_eq in Hc'. injection Hc' as <-. rewrite drop_0. cbn [set_processing c_in]. lia. }
  { lia. }
  change (process_loop _ _ _ _ _ _ _ _) with (process_loop clock handler (respond_with clock sends ctl (process_messages clock handler sends ctl (S d))) (S (length (c_in c))) id 0 s0 x).
  rewrite Hl, bind_Ok. destruct (tl_connections s1 !! id) as [c1|] eqn:Hc1.
  - do 2 eexists. split; [done|]. split; [|done]. destruct Hi1 as [Hw Hs]. destruct (wi_id _ _ _ _ _ _ _ _ Hw id c1 Hc1) as [_ Hid].
    split; cbn [put_conn with_table tl_loop tl_fd tl_config tl_accept_retry tl_next_id tl_connections tl_per_client tl_log]; [by eapply wires_put|].
    rewrite <-(app_nil_r (tl_log s1)). eapply (streams_put (only id (Some used))); [done|done|done|done|intros i Hi; by rewrite only_ne|].
    rewrite app_nil_r. destruct (sr_ok _ _ _ _ Hs id c1 Hc1) as [Hpe1 Hrg1 Hin1 Hout1 _]. rewrite only_eq in Hin1. destruct Hin1 as [_ Hfr1].
    split; cbn [set_processing set_in c_pending c_processing c_in c_out]; try done. intros _ Hlt. by apply Hn1.
  - exists s1, x1. split; [done|]. split; [|done]. destruct Hi1 as [Hw [Hs Hfsh]]. split; [done|]. split; [|done]. intros i ci Hi.
    apply (stream_ok_same (only id (Some used)) calm (tl_log s1)); [rewrite only_ne; [done|congruence]|done|by apply Hs].
Qed.

Lemma respond_inv n b id response s x : (∀ c, tl_connections s !! id = Some c → (0 < c_pending c)%Z ∧ tcp_inv calm (1 + (2 * S (length (c_in c)) + b)) s ∧ spare (S (length (c_in c)) + n) x) →
  tcp_inv calm b s → spare n x → ∃ s' x', respond clock handler sends ctl id response s x = Ok (s', x') ∧ tcp_inv calm b s' ∧ spare n x'.
Proof.
  intros Hopen Hinv Hn. unfold respond, respond_with. destruct (tl_connections s !! id) as [c|] eqn:Hc; [|by exists s, x]. cbv zeta.
  destruct (Hopen c eq_refl) as (Hp & Hroom & Hx). clear Hopen Hinv.
  destruct (answer_inv calm (only id None) (2 * S (length (c_in c)) + b) id c response s Hroom Hc Hp) as [Hi Hk].
  { intros i Hi. by rewrite only_ne. }
  { by rewrite only_eq. }
  { by rewrite only_eq. }
  cbv zeta in Hi, Hk. cbn [set_pending c_out] in *. set (s1 := flush _ _ _ _) in *.
  destruct (tl_connections s1 !! id) as [c1|] eqn:Hc1.
  - destruct (Hk c1 eq_refl) as (E & _). rewrite <-E in Hi.
    rewrite <-E in Hx. destruct (process_messages_inv id 0 n b c1 s1 x Hi Hx Hc1) as (s2 & x2 & Hpm & Hi2 & Hx2). unfold kDepth. rewrite Hpm, bind_Ok.
    do 2 eexists. split; [done|]. split; [by apply update_inv|done].
  - exists s1, x. split; [done|]. split; [|done]. eapply (tcp_inv_less calm (2 * S (length (c_in c)) + b)); [lia|].
    destruct Hi as [Hw [Hs Hf]]. split; [done|]. split; [|done]. intros i ci Hi.
    apply (stream_ok_same (only id None) calm (tl_log s1)); [rewrite only_ne; [done|congruence]|done|by apply Hs].
Qed.

Definition incoming (results : list Recv) : nat := match recv_retry results with Received bytes => length bytes | _ => 0 end.

Lemma read_from_inv n b id results s x :
  (∀ c, tl_connections s !! id = Some c → tcp_inv calm (2 * S (length (c_in c) + incoming results) + b) s ∧ spare (S (length (c_in c) + incoming results) + n) x) →
  tcp_inv calm b s → spare n x → ∃ s' x', read_from clock handler sends ctl id results s x = Ok (s', x') ∧ tcp_inv calm b s' ∧ spare n x'.
Proof.
  intros Hopen Hinv Hn. unfold read_from, incoming in *. destruct (tl_connections s !! id) as [c|] eqn:Hc; [|by exists s, x]. destruct (Hopen c eq_refl) as [Hroom Hx]. clear Hopen.
  destruct (recv_retry results) as [| | |[|byte bytes]].
  - by exists s, x.
  - by exists s, x.
  - do 2 eexists. split; [done|]. split; [by apply close_inv with calm|done].
  - do 2 eexists. split; [done|]. split; [|done]. destruct Hinv as [Hw Hs]. destruct (wi_id _ _ _ _ _ _ _ _ Hw id c Hc) as [_ Hid].
    split; cbn [put_conn with_table tl_loop tl_fd tl_config tl_accept_retry tl_next_id tl_connections tl_per_client tl_log]; [by eapply wires_put|].
    rewrite <-(app_nil_r (tl_log s)). eapply streams_put; [done|done|done|done|done|].
    rewrite app_nil_r. destruct (sr_ok _ _ _ _ Hs id c Hc). by split.
  - clear Hinv. set (bs := byte :: bytes) in *. set (e := Arrived id bs). set (c1 := set_in c (c_in c ++ bs)). set (s1 := logged _ e).
    assert (Hinv1 : tcp_inv (only id None) (2 * S (length (c_in c1)) + b) s1).
    { assert (El : length (c_in c1) = length (c_in c) + length bs) by (cbn; by rewrite length_app). rewrite El. destruct Hroom as [Hw Hs].
      destruct (wi_id _ _ _ _ _ _ _ _ Hw id c Hc) as [_ Hid].
      split; cbn [s1 logged put_conn with_table tl_loop tl_fd tl_config tl_accept_retry tl_next_id tl_connections tl_per_client tl_log]; [by eapply wires_put|].
      eapply (streams_put calm); [done|done|done|by repeat constructor|intros i Hi; by rewrite only_ne|].
      destruct (history_app id (tl_log s) [e]) as (E1 & E2 & E3 & E4).
      assert (Ee : arrived id [e] = bs ∧ handed id [e] = [] ∧ answered id [e] = [] ∧ written id [e] = []).
      { unfold e, arrived, handed, answered, written. cbn. rewrite decide_True by done. by rewrite app_nil_r. }
      destruct Ee as (F1 & F2 & F3 & F4). destruct (sr_ok _ _ _ _ Hs id c Hc) as [Hpe Hrg Hin Hout Hnx].
      split; cbn [c1 set_in c_pending c_processing c_in c_out]; rewrite ?E1, ?E2, ?E3, ?E4, ?F1, ?F2, ?F3, ?F4, ?app_nil_r, ?only_eq; try done.
      destruct Hin as [? Hf]. split; [done|]. by apply framed_as_app. }
    apply (process_messages_inv id 0 n b c1 s1 x Hinv1); [|cbn; apply lookup_insert_eq]. cbn [c1 set_in c_in]. by rewrite length_app.
Qed.

Lemma on_event_inv n b id events recvs s x :
  (∀ c, tl_connections s !! id = Some c → tcp_inv calm (2 * S (length (c_in c) + incoming recvs) + S b) s ∧ spare (S (length (c_in c) + incoming recvs) + n) x) →
  tcp_inv calm (S b) s → spare n x → ∃ s' x', on_event clock handler sends ctl id events recvs s x = Ok (s', x') ∧ tcp_inv calm b s' ∧ spare n x'.
Proof.
  intros Hopen Hinv Hn. unfold on_event. destruct (tl_connections s !! id) as [c|] eqn:Hc.
  2:{ exists s, x. split; [done|]. split; [|done]. eapply tcp_inv_less; [|done]. lia. }
  destruct (has_events events _).
  { do 2 eexists. split; [done|]. split; [|done]. eapply tcp_inv_less; [|by apply close_inv with calm]. lia. }
  assert (Hread : ∃ s1 x1, (if has_events events kReadable then read_from clock handler sends ctl id recvs s x else Ok (s, x)) = Ok (s1, x1) ∧
    tcp_inv calm (S b) s1 ∧ spare n x1).
  { destruct (has_events events kReadable); [|by exists s, x]. apply read_from_inv; [|done..]. intros c' Hc'. apply Hopen. congruence. }
  destruct Hread as (s1 & x1 & -> & Hi1 & Hx1). rewrite bind_Ok. do 2 eexists. split; [done|]. split; [|done]. apply update_inv.
  destruct (has_events events kWritable); [by apply flush_inv|]. eapply tcp_inv_less; [|done]. lia.
Qed.

(** ** Timers *)

Lemma on_idle_inv b id x l s : tcp_inv calm (S b) s → armed (tl_loop s) !! x = Some (IdleTimer id) → loop_inv l →
  armed l = delete x (armed (tl_loop s)) → el_watches l = el_watches (tl_loop s) → el_tokens l = el_tokens (tl_loop s) →
  el_next_timer_id l = el_next_timer_id (tl_loop s) → el_next_token l = el_next_token (tl_loop s) →
  tcp_inv calm b (on_idle clock id (with_loop s l)).
Proof.
  intros [Hw Hs] Hx Hl Ea Ew Et En Ek. destruct (wi_timers _ _ _ _ _ _ _ _ Hw x _ Hx) as (Hx0 & c & Hc & Ex).
  destruct (wi_id _ _ _ _ _ _ _ _ Hw id c Hc) as [_ Hid]. pose proof (wires_no_zero _ _ _ _ _ _ _ _ Hw) as H0.
  pose proof (wi_room _ _ _ _ _ _ _ _ Hw) as Hr. unfold on_idle. cbn [with_loop tl_connections]. rewrite Hc. destruct (0 <? c_pending c)%Z.
  - unfold arm_idle_timer. cbn [put_conn with_table with_loop tl_connections tl_loop tl_ticks tl_config]. rewrite lookup_insert_eq.
    cbn [set_idle_timer c_idle_timer]. change (disarm l 0) with l.
    destruct (armed_add l (clock (tl_ticks s)) (tc_idle_timeout_ms (tl_config s) * 1000000) (IdleTimer id) Hl) as (l' & Eadd & Hl2 & Hy & Hfr & Ea2 & En2 & Ek2 & _);
      [unfold room in *; lia|].
    assert (Etab : el_watches l' = el_watches l ∧ el_tokens l' = el_tokens l) by (unfold add_timer in Eadd; by injection Eadd as <-).
    rewrite Eadd. set (y := el_next_timer_id l) in *.
    split; cbn [put_conn with_table with_loop tick tl_loop tl_fd tl_config tl_accept_retry tl_next_id tl_connections tl_per_client tl_log]; rewrite insert_insert_eq.
    + apply (wires_replace _ _ _ _ _ _ _ _ Hw b l' id c); cbn [set_idle_timer c_fd c_client c_peer c_idle_timer]; try done.
      * unfold room in *. lia.
      * destruct Etab. congruence.
      * destruct Etab. congruence.
      * by rewrite Ea2, Ea, Ex.
      * right. rewrite Ea in Hfr. apply lookup_delete_None in Hfr as [E|?]; [|done]. exfalso.
        apply armed_Some in Hx as [d Hd]; [|by destruct Hw].
        assert (Hin : (d, x) ∈ (el_timers (tl_loop s)).*1) by (apply list_elem_of_fmap; by eexists (_, _)).
        apply (li_ids _ (wi_loop _ _ _ _ _ _ _ _ Hw)) in Hin. unfold y in E. lia.
    + rewrite <-(app_nil_r (tl_log s)). eapply streams_put; [done|done|done|done|done|]. rewrite app_nil_r. destruct (sr_ok _ _ _ _ Hs id c Hc). by split.
  - unfold close. cbn [put_conn with_table with_loop counted tl_connections tl_loop]. rewrite lookup_insert_eq. cbn [set_idle_timer c_idle_timer c_fd c_client].
    change (disarm ?l 0) with l. destruct (armed_remove_fd l (c_fd c)) as (Er & Enr & Ekr).
    split; cbn [logged with_table with_loop counted put_conn tl_loop tl_fd tl_config tl_accept_retry tl_next_id tl_connections tl_per_client tl_log]; rewrite delete_insert_eq.
    + eapply (wires_less (S b)); [|lia]. apply (wires_drop _ _ _ _ _ _ _ _ Hw); [done|by apply remove_fd_inv|congruence|..|congruence|congruence];
        unfold remove_fd; rewrite Et; destruct (el_tokens (tl_loop s) !! c_fd c); cbn; congruence.
    + by apply (streams_others _ _ _ _ Hs calm id [ClosedFd (c_fd c)]); [done|constructor; [right|]|].
Qed.

Lemma on_retry_inv b x l s : tcp_inv calm b s → armed (tl_loop s) !! x = Some AcceptRetry → loop_inv l →
  armed l = delete x (armed (tl_loop s)) → el_watches l = el_watches (tl_loop s) → el_tokens l = el_tokens (tl_loop s) →
  el_next_timer_id l = el_next_timer_id (tl_loop s) → el_next_token l = el_next_token (tl_loop s) →
  tcp_inv calm b (with_retry (with_loop s l) 0).
Proof.
  intros [Hw Hs] Hx Hl Ea Ew Et En Ek. split; [|done]. cbn [with_retry with_loop tl_loop tl_fd tl_config tl_accept_retry tl_next_id tl_connections tl_per_client].
  pose proof Hw as [_ Hr Hid Hnx Hlis Hwa Hws Hidle Htim Hret Hcli Hcnt Hlim Hwid]. destruct (Htim x _ Hx) as [Hx0 Ex].
  assert (Hwt : ∀ f cb, watched (tl_loop s) f cb → watched l f cb) by (intros f cb (t & ? & ?); exists t; by rewrite Ew, Et).
  split; try done.
  - unfold room in *. by rewrite En, Ek.
  - by apply Hwt.
  - intros i c Hi. apply Hwt. eauto.
  - rewrite Ew. exact Hws.
  - intros i c Hi. destruct (Hidle i c Hi) as [? Hai]. split; [done|]. rewrite Ea, lookup_delete_ne; [done|]. congruence.
  - rewrite Ea. intros y cb [Hne Hy]%lookup_delete_Some. destruct (Htim y cb Hy) as [? Hcb]. split; [done|]. destruct cb; [|done]. congruence.
Qed.

(** ** Accepting *)

Lemma streams_new m next cs log c : streams m next cs log → m next = None → c_in c = [] → c_out c = [] → c_pending c = 0%Z → c_processing c = false →
  cs !! next = None → streams m (next + 1) (<[next := c]> cs) log.
Proof.
  intros [Hs Hf] Hm Ei Eo Ep Epr Hn. split.
  - intros i ci [[<- <-]|[Hne Hi]]%lookup_insert_Some; [|by apply Hs]. destruct (Hf next ltac:(lia)) as (E1 & E2 & E3 & E4).
    split; rewrite ?E1, ?E2, ?E3, ?E4, ?Ei, ?Eo, ?Ep, ?Epr, ?Hm; unfold kMaxPipelined; try done; lia.
  - intros i Hi. apply Hf. lia.
Qed.

Lemma streams_closed m next cs log fd : streams m next cs log → streams m next cs (log ++ [ClosedFd fd]).
Proof.
  intros [Hs Hf]. assert (Hh : ∀ i, same_history i log (log ++ [ClosedFd fd])) by (intros i; apply history_other; by repeat constructor).
  split; [intros i c Hi; eapply stream_ok_same; [done|apply Hh|by apply Hs]|]. intros i Hi. destruct (Hh i) as (-> & -> & -> & ->). by apply Hf.
Qed.

Lemma tcp_inv_closed_fd b s fd : tcp_inv calm b s → tcp_inv calm b (logged s (ClosedFd fd)).
Proof. intros [Hw Hs]. split; [done|]. by apply streams_closed. Qed.

(** The tables after a connection has been accepted. *)
Lemma wires_accept b l fd cfg retry next cs pc fd' peer l' x :
  wires (S b) l fd cfg retry next cs pc → el_tokens l !! fd' = None →
  (Z.of_nat (size cs) < tc_max_connections cfg)%Z → (default 0%Z (pc !! ip_key peer) < tc_max_per_client cfg)%Z → (0 < tc_max_per_client cfg)%Z →
  let c := mkConnection fd' peer (ip_key peer) [] [] 0 false false kReadable x in
  loop_inv l' → x ≠ 0%Z → armed l !! x = None → armed l' = <[x := IdleTimer next]> (armed l) → el_next_token l' = (el_next_token l + 1)%Z →
  el_next_timer_id l' = (el_next_timer_id l + 1)%Z → el_tokens l' = <[fd' := el_next_token l]> (el_tokens l) →
  el_watches l' = <[el_next_token l := mkWatch fd' (ConnectionEvent next)]> (el_watches l) →
  wires b l' fd cfg retry (next + 1) (<[next := c]> cs) (<[ip_key peer := u64 (default 0%Z (pc !! ip_key peer) + 1)]> pc).
Proof.
  intros Hw Hfd Hsz Hpc Hpos c Hl' Hx Hxn Ea Ek En Et Ew. pose proof Hw as [Hl Hr Hid Hnx Hlis Hwa Hws Hidle Htim Hret Hcli Hcnt Hlim Hwid].
  assert (Hfresh : cs !! next = None). { destruct (cs !! next) eqn:E; [|done]. apply Hid in E. lia. }
  assert (Htok : el_watches l !! el_next_token l = None). { destruct (el_watches l !! el_next_token l) eqn:E; [|done]. apply (li_tokens _ Hl) in E. lia. }
  assert (Hwt : ∀ f cb, watched l f cb → watched l' f cb).
  { intros f cb (t & Ht & Hwt). exists t. rewrite Et, Ew, !lookup_insert_ne; [done| |]; intros <-; congruence. }
  split; try done.
  - unfold room in *. lia.
  - intros i ci [[<- _]|[_ Hi]]%lookup_insert_Some; [lia|]. apply Hid in Hi. lia.
  - lia.
  - by apply Hwt.
  - intros i ci [[<- <-]|[_ Hi]]%lookup_insert_Some; [|apply Hwt; eauto]. exists (el_next_token l). by rewrite Et, Ew, !lookup_insert_eq.
  - rewrite Ew. intros t w [[<- <-]|[Hne Hwt']]%lookup_insert_Some; [right; exists next, c; by rewrite lookup_insert_eq|].
    destruct (Hws t w Hwt') as [?|(i & ci & Hi & ->)]; [by left|right]. exists i, ci. rewrite lookup_insert_ne; [done|]. intros <-. congruence.
  - intros i ci [[<- <-]|[Hne Hi]]%lookup_insert_Some; rewrite Ea; [split; [done|]; apply lookup_insert_eq|].
    destruct (Hidle i ci Hi) as [? Hai]. split; [done|]. rewrite lookup_insert_ne; [done|]. congruence.
  - rewrite Ea. intros y cb [[<- <-]|[Hne Hy]]%lookup_insert_Some; [split; [done|]; exists c; by rewrite lookup_insert_eq|].
    destruct (Htim y cb Hy) as [? Hcb]. split; [done|]. destruct cb as [|i]; [done|]. destruct Hcb as (ci & Hi & Ei). exists ci.
    rewrite lookup_insert_ne; [done|]. intros <-. congruence.
  - intros Hr0. rewrite Ea, lookup_insert_ne; [by apply Hret|]. intros <-. rewrite Hret in Hxn; done.
  - intros i ci [[<- <-]|[_ Hi]]%lookup_insert_Some; [done|]. eauto.
  - intros k. rewrite of_client_insert by done. cbn [c c_client]. pose proof (Hcnt k) as Hk. case_decide as E.
    + subst k. rewrite lookup_insert_eq. rewrite map_size_insert_None by (by apply of_client_None).
      assert (Hval : default 0%Z (pc !! ip_key peer) = Z.of_nat (size (of_client (ip_key peer) cs))).
      { destruct (pc !! ip_key peer); cbn; [by destruct Hk|]. by rewrite Hk, map_size_empty. }
      rewrite Hval in *. assert (u64 (Z.of_nat (size (of_client (ip_key peer) cs)) + 1) = (Z.of_nat (size (of_client (ip_key peer) cs)) + 1)%Z) as -> by (apply Z.mod_small; lia).
      lia.
    + rewrite lookup_insert_ne by done. exact Hk.
  - rewrite map_size_insert_None by done. lia.
Qed.

Lemma accept_one_inv b fd peer s : tcp_inv calm (S (S b)) s → (0 < tc_max_per_client (tl_config s))%Z → (tl_next_id s < 18446744073709551615)%Z →
  let s' := accept_one clock ctl fd peer s in
  tcp_inv calm b s' ∧ tl_config s' = tl_config s ∧ (tl_next_id s' ≤ tl_next_id s + 1)%Z ∧ tl_accept_retry s' = tl_accept_retry s.
Proof.
  intros Hinv Hpos Hnext. cbv zeta. unfold accept_one. destruct (_ || _) eqn:Erej.
  { split_and!; try done; [|cbn; lia]. apply (tcp_inv_less calm (S (S b))); [lia|]. by apply tcp_inv_closed_fd, tcp_inv_counted. }
  apply orb_false_iff in Erej as [Erej1 Erej2]. destruct Hinv as [Hw Hs]. pose proof Hw as [Hl Hr Hid Hnx _ _ _ _ _ _ _ Hcnt _ _].
  assert (Eu : u64 (tl_next_id s + 1) = (tl_next_id s + 1)%Z) by (apply Z.mod_small; lia). cbn [with_next tl_loop tl_ticks]. rewrite Eu.
  set (id := tl_next_id s) in *. unfold add_fd. case_decide as Hreg.
  { split_and!; try done. apply tcp_inv_closed_fd. split; cbn [tick with_loop with_next tl_loop tl_fd tl_config tl_accept_retry tl_next_id tl_connections tl_per_client tl_log].
    - destruct Hw. split; try done; [by eapply room_le; [eassumption|lia]| |lia]. intros i c Hi. specialize (wi_id0 i c Hi). lia.
    - destruct Hs as [Hs Hf]. split; [done|]. intros i Hi. apply Hf. lia. }
  assert (Etok : u64 (el_next_token (tl_loop s) + 1) = (el_next_token (tl_loop s) + 1)%Z).
  { apply Z.mod_small. pose proof (li_next _ Hl). unfold room in Hr. lia. }
  rewrite <-eq_None_not_Some in Hreg. pose proof (add_fd_inv (tl_loop s) fd (ConnectionEvent id) (ctl (tl_ticks s)) Hl) as Hladd.
  unfold add_fd in Hladd. rewrite decide_False in Hladd by (by rewrite Hreg; intros [? ?]). rewrite Etok in *.
  destruct (ctl (tl_ticks s)).
  - set (l1 := set_fds _ _ _ _) in *. cbn [snd] in Hladd.
    assert (Hl1 : loop_inv l1) by (apply Hladd; eapply room_le; [exact Hr|lia]).
    assert (Hfr : tl_connections s !! id = None). { destruct (tl_connections s !! id) eqn:E; [|done]. apply Hid in E. lia. }
    cbn [tick with_loop with_next with_table counted tl_connections tl_per_client]. rewrite Hfr.
    unfold arm_idle_timer. cbn [tick with_loop with_next with_table counted tl_connections tl_loop tl_ticks tl_config]. rewrite lookup_insert_eq.
    cbn [c_idle_timer]. change (disarm l1 0) with l1.
    destruct (armed_add l1 (clock (S (tl_ticks s))) (tc_idle_timeout_ms (tl_config s) * 1000000) (IdleTimer id) Hl1) as (l2 & Eadd & Hl2 & Hy & Hxn & Ea2 & En2 & Ek2 & _);
      [unfold room in *; cbn; lia|].
    assert (Etab : el_watches l2 = el_watches l1 ∧ el_tokens l2 = el_tokens l1) by (unfold add_timer in Eadd; by injection Eadd as <-).
    rewrite Eadd. destruct Etab as [Ew2 Et2]. split_and!; try done.
    split; cbn [put_conn tick with_loop with_next with_table counted tl_loop tl_fd tl_config tl_accept_retry tl_next_id tl_connections tl_per_client tl_log]; rewrite insert_insert_eq; cbn [set_idle_timer c_fd c_peer c_client c_in c_out c_pending c_peer_done c_processing c_interest].
    + apply (wires_accept b (tl_loop s)); try done; [by eapply wires_less; [exact Hw|lia]|by apply Z.leb_gt in Erej1|].
      destruct (tl_per_client s !! ip_key peer) as [n|]; cbn; [by apply Z.leb_gt in Erej2|done].
    + by apply streams_new.
  - cbn [snd] in Hladd. split_and!; try done. apply tcp_inv_closed_fd.
    split; cbn [tick with_loop with_next tl_loop tl_fd tl_config tl_accept_retry tl_next_id tl_connections tl_per_client tl_log].
    + destruct Hw. split; try done; [apply Hladd; eapply room_le; [exact Hr|lia]|unfold room in *; cbn; lia| |lia]. intros i c Hi. specialize (wi_id0 i c Hi). lia.
    + destruct Hs as [Hs Hf]. split; [done|]. intros i Hi. apply Hf. lia.
Qed.

Lemma accept_loop_inv fuel accepts : ∀ b s, tcp_inv calm (2 * fuel + b) s → (0 < tc_max_per_client (tl_config s))%Z →
  (tl_next_id s + Z.of_nat fuel < 18446744073709551616)%Z → tl_accept_retry s = 0%Z → tcp_inv calm b (accept_loop clock ctl fuel accepts s).
Proof.
  revert accepts. induction fuel as [|fuel IH]; intros accepts b s Hinv Hpos Hnext Hret; [exact Hinv|].
  assert (Hless : tcp_inv calm b s) by (eapply tcp_inv_less; [|exact Hinv]; lia).
  destruct accepts as [|[| | |fd peer] accepts]; cbn [accept_loop]; [done|done| |apply IH; [eapply tcp_inv_less; [|exact Hinv]; lia|done|lia|done]|].
  - destruct Hinv as [Hw Hs]. pose proof (wi_loop _ _ _ _ _ _ _ _ Hw) as Hl. pose proof (wi_room _ _ _ _ _ _ _ _ Hw) as Hr.
    destruct (armed_add (tl_loop s) (clock (tl_ticks s)) (kAcceptRetryMs * 1000000) AcceptRetry Hl) as (l & Eadd & Hl2 & Hx & Hxn & Ea & En & Ek & _);
      [unfold room in *; lia|].
    assert (Etab : el_watches l = el_watches (tl_loop s) ∧ el_tokens l = el_tokens (tl_loop s)) by (unfold add_timer in Eadd; by injection Eadd as <-).
    destruct Etab as [Ew Et]. rewrite Eadd. split; [|done].
    cbn [with_retry with_loop tick tl_loop tl_fd tl_config tl_accept_retry tl_next_id tl_connections tl_per_client].
    destruct Hw as [_ _ Hid Hnx Hlis Hwa Hws Hidle Htim _ Hcli Hcnt Hlim Hwid].
    assert (Hwt : ∀ f cb, watched (tl_loop s) f cb → watched l f cb) by (intros f cb (t & ? & ?); exists t; by rewrite Ew, Et).
    split; try done.
    + unfold room in *. lia.
    + by apply Hwt.
    + intros i c Hi. apply Hwt. eauto.
    + rewrite Ew. exact Hws.
    + intros i c Hi. destruct (Hidle i c Hi) as [? Hai]. split; [done|]. rewrite Ea, lookup_insert_ne; [done|]. congruence.
    + rewrite Ea. intros y cb [[<- <-]|[Hne Hy]]%lookup_insert_Some; [done|]. destruct (Htim y cb Hy) as [? Hcb]. split; [done|].
      destruct cb; [|done]. congruence.
    + intros _. rewrite Ea. apply lookup_insert_eq.
  - destruct (accept_one_inv (2 * fuel + b) fd peer s) as (Hi & Ec & En & Er); [eapply tcp_inv_less; [|exact Hinv]; lia|done|lia|].
    apply IH; [done|by rewrite Ec|lia|congruence].
Qed.

(** ** Any operation *)

(** What an operation may use up, and what its caller has to respect: the
    handler answers a query at most once, and the paused listening socket
    reports nothing. *)
Definition cost (op : TcpOp) s : nat :=
  match op with
  | AcceptReady _ => 2 * kMaxAcceptsPerWakeup
  | Ready id _ recvs => 2 * S (default 0 (length ∘ c_in <$> tl_connections s !! id) + incoming recvs) + 1
  | Respond id _ => 1 + 2 * S (default 0 (length ∘ c_in <$> tl_connections s !! id))
  | TcpTimersDue _ _ => 1
  end.

(** The queries it may hand over. *)
Definition intake (op : TcpOp) s : nat :=
  match op with
  | Ready id _ recvs => S (default 0 (length ∘ c_in <$> tl_connections s !! id) + incoming recvs)
  | Respond id _ => S (default 0 (length ∘ c_in <$> tl_connections s !! id))
  | AcceptReady _ | TcpTimersDue _ _ => 0
  end.

Definition tcp_can_run (op : TcpOp) s (x : X) : Prop :=
  room (tl_loop s) (cost op s) ∧ spare (intake op s) x ∧
  match op with
  | AcceptReady _ => tl_accept_retry s = 0%Z ∧ (tl_next_id s + Z.of_nat kMaxAcceptsPerWakeup < 18446744073709551616)%Z
  | Respond id _ => ∀ c, tl_connections s !! id = Some c → (0 < c_pending c)%Z
  | _ => True
  end.

Lemma tcp_inv_room m b b' s : tcp_inv m b s → room (tl_loop s) b' → tcp_inv m b' s.
Proof. intros [[] Hs] Hr. by split; [split|]. Qed.

Lemma tcp_exec_spare n op s x : tcp_inv calm 0 s → (0 < tc_max_per_client (tl_config s))%Z → tcp_can_run op s x → spare (intake op s + n) x →
  ∃ s' x', tcp_exec clock handler sends ctl op s x = Ok (s', x') ∧ tcp_inv calm 0 s' ∧ spare n x'.
Proof.
  intros Hinv Hpos (Hroom & _ & Hop) Hx. pose proof (tcp_inv_room _ _ _ _ Hinv Hroom) as Hi. assert (Hn : spare n x) by (eapply spare_less; [|exact Hx]; lia).
  destruct op as [accepts|id events recvs|id response|at_time newest]; cbn [tcp_exec].
  - do 2 eexists. split; [done|]. split; [|done]. destruct Hop as [Hret Hnext]. apply accept_loop_inv; [|done|done|done]. eapply tcp_inv_less; [|exact Hi]. cbn [cost]. lia.
  - apply on_event_inv; [|by eapply tcp_inv_less; [|exact Hi]; cbn [cost]; lia|done].
    intros c Hc. cbn [cost intake] in *. rewrite Hc in *. cbn in Hi, Hx. split; [eapply tcp_inv_less; [|exact Hi]; lia|done].
  - apply respond_inv; [|done..]. intros c Hc. cbn [cost intake] in *. rewrite Hc in *. cbn in Hi, Hx. split_and!; [by apply Hop|eapply tcp_inv_less; [|exact Hi]; lia|done].
  - destruct (pop_due _ _ _) as [[[y cb] l]|] eqn:Ep; [|by exists s, x]. destruct (pop_tables _ _ _ _ _ _ Ep) as [Ew Et].
    destruct (armed_pop _ _ _ _ _ _ (wi_loop _ _ _ _ _ _ _ _ (tv_wires _ _ _ Hi)) Ep) as (Hl & Hy & Ea & En & Ek).
    destruct cb as [|id]; do 2 eexists; (split; [done|]); (split; [|done]); [by eapply on_retry_inv|]. by eapply on_idle_inv.
Qed.

Lemma tcp_exec_inv op s x : tcp_inv calm 0 s → (0 < tc_max_per_client (tl_config s))%Z → tcp_can_run op s x →
  ∃ s' x', tcp_exec clock handler sends ctl op s x = Ok (s', x') ∧ tcp_inv calm 0 s'.
Proof.
  intros Hinv Hpos Hrun. destruct (tcp_exec_spare 0 op s x Hinv Hpos Hrun) as (s' & x' & ? & ? & _); [|by eauto].
  rewrite Nat.add_0_r. apply Hrun.
Qed.

(** ** What never changes *)

(** What is handed over is a whole, well-formed query. *)
Definition event_parsed (e : TcpEvent) : Prop :=
  match e with Handed _ body query client => parse body = Ok query ∧ h_qr (m_header query) = false ∧ ci_transport client = TcpTransport | _ => True end.

Definition kept s s' : Prop :=
  tl_config s' = tl_config s ∧ tl_fd s' = tl_fd s ∧ ∃ es, tl_log s' = tl_log s ++ es ∧ Forall event_parsed es.

Lemma kept_trans s1 s2 s3 : kept s1 s2 → kept s2 s3 → kept s1 s3.
Proof.
  intros (? & ? & es & E1 & H1) (? & ? & es' & E2 & H2). split_and!; [congruence..|]. exists (es ++ es'). rewrite E2, E1, app_assoc.
  split; [done|]. by apply Forall_app.
Qed.

Lemma kept_same s s' : tl_config s' = tl_config s → tl_fd s' = tl_fd s → tl_log s' = tl_log s → kept s s'.
Proof. intros E1 E2 E3. split_and!; [done|done|]. exists []. by rewrite app_nil_r. Qed.

Lemma kept_log s s' e : tl_config s' = tl_config s → tl_fd s' = tl_fd s → tl_log s' = tl_log s ++ [e] → event_parsed e → kept s s'.
Proof. intros E1 E2 E3 He. split_and!; [done|done|]. exists [e]. split; [done|by constructor]. Qed.

(** [s] to [s'] by assignments, with at most one event. *)
Ltac kept_here := first [by apply kept_same | by eapply kept_log].

Lemma close_kept id s : kept s (close id s).
Proof. unfold close. destruct (_ !! id); kept_here. Qed.
Lemma arm_kept id s : kept s (arm_idle_timer clock id s).
Proof. unfold arm_idle_timer. destruct (_ !! id); [|kept_here]. destruct (add_timer _ _ _ _); kept_here. Qed.
Lemma flush_kept id s : kept s (flush clock sends id s).
Proof.
  unfold flush. destruct (_ !! id); [|kept_here]. destruct (flush_loop _ _ _) as [sent []].
  - eapply kept_trans; [|apply close_kept]. kept_here.
  - case_decide; [|kept_here]. eapply kept_trans; [|apply arm_kept]. kept_here.
Qed.
Lemma update_kept id s : kept s (update ctl id s).
Proof.
  unfold update. destruct (_ !! id); [|kept_here]. destruct (_ && _); [apply close_kept|]. destruct (_ =? _)%Z; [kept_here|].
  destruct (modify_fd _ _ _); kept_here.
Qed.

Lemma respond_kept process id response s s' (x x' : X) : (∀ s s' x x', process id s x = Ok (E:=Err) (s', x') → kept s s') →
  respond_with clock sends ctl process id response s x = Ok (s', x') → kept s s'.
Proof.
  intros Hp. unfold respond_with. destruct (_ !! id) as [c|]; [|intros [= <- _]; kept_here]. cbv zeta. set (s1 := flush _ _ _ _).
  assert (H1 : kept s s1) by (unfold s1; eapply kept_trans; [|apply flush_kept]; kept_here).
  destruct (tl_connections s1 !! id); [|by intros [= <- _]]. destruct (process id s1 x) as [[s2 x2]| |] eqn:E; [|done..]. rewrite bind_Ok. intros [= <- _].
  eapply kept_trans; [exact H1|]. eapply kept_trans; [by eapply Hp|apply update_kept].
Qed.

Lemma process_loop_kept resp id fuel : (∀ response s s' x x', resp id response s x = Ok (s', x') → kept s s') → ∀ used s x used' s' x',
  process_loop clock handler resp fuel id used s x = Ok (used', s', x') → kept s s'.
Proof.
  intros Hr. induction fuel as [|fuel IH]; intros used s x used' s' x'; cbn [process_loop]; [done|].
  assert (Hstop : Ok (used, s, x) = Ok (E:=Err) (used', s', x') → kept s s') by (intros [= <- <- _]; kept_here).
  destruct (_ !! id) as [c|]; [|exact Hstop]. destruct (drop used (c_in c)) as [|hi [|lo rest]]; [exact Hstop..|].
  destruct (negb _); [exact Hstop|]. case_decide; [exact Hstop|]. clear Hstop.
  assert (Hbad : ∀ u, Ok (u, close id (counted s TMalformed), x) = Ok (E:=Err) (used', s', x') → kept s s').
  { intros u [= _ <- _]. eapply kept_trans; [|apply close_kept]. kept_here. }
  destruct (parse _) as [query| |] eqn:Eq; [|by apply Hbad..]. destruct (h_qr _) eqn:Eqr; [by apply Hbad|].
  set (s0 := logged _ _). set (s1 := arm_idle_timer _ _ _). assert (H1 : kept s s1).
  { unfold s1. eapply kept_trans; [|apply arm_kept]. by eapply kept_log. }
  destruct (handler _ _ _ _) as [[reply x1]| |]; [|done..]. rewrite bind_Ok.
  destruct (match reply with Some response => _ | None => _ end) as [[s2 x2]| |] eqn:E; [|done..]. rewrite bind_Ok. intros Hl.
  eapply kept_trans; [exact H1|]. eapply (kept_trans _ s2); [|by eapply IH]. destruct reply; [by eapply Hr|]. injection E as <- _. kept_here.
Qed.

Lemma process_messages_kept depth id : ∀ s s' x x', process_messages clock handler sends ctl depth id s x = Ok (s', x') → kept s s'.
Proof.
  induction depth as [|depth IH]; intros s s' x x'; cbn [process_messages]; [done|]. destruct (tl_connections s !! id) as [c|]; [|intros [= <- _]; kept_here].
  destruct (c_processing c); [intros [= <- _]; kept_here|]. set (s0 := put_conn s id _).
  destruct (process_loop _ _ _ _ _ _ s0 x) as [[[used s1] x1]| |] eqn:E; [|done..]. rewrite bind_Ok.
  apply process_loop_kept in E; [|intros response s2 s3 x2 x3; by apply respond_kept].
  assert (H0 : kept s s1) by (eapply kept_trans; [|exact E]; kept_here).
  destruct (tl_connections s1 !! id); intros [= <- _]; [|exact H0]. eapply kept_trans; [exact H0|kept_here].
Qed.

Lemma accept_loop_kept fuel : ∀ accepts s, kept s (accept_loop clock ctl fuel accepts s).
Proof.
  assert (Hone : ∀ fd peer s, kept s (accept_one clock ctl fd peer s)).
  { intros fd peer s. unfold accept_one. destruct (_ || _); [kept_here|]. destruct (add_fd _ _ _ _) as [[|] l]; [kept_here|].
    eapply kept_trans; [|apply arm_kept]. kept_here. }
  induction fuel as [|fuel IH]; intros accepts s; [kept_here|]. destruct accepts as [|[| | |fd peer] accepts]; cbn [accept_loop]; [kept_here|kept_here| |apply IH|].
  - destruct (add_timer _ _ _ _); kept_here.
  - eapply kept_trans; [apply Hone|apply IH].
Qed.

Lemma read_from_kept id recvs s s' x x' : read_from clock handler sends ctl id recvs s x = Ok (s', x') → kept s s'.
Proof.
  unfold read_from. destruct (_ !! id) as [c|]; [|intros [= <- _]; kept_here]. destruct (recv_retry recvs) as [| | |[|byte bytes]];
    [intros [= <- _]; kept_here|intros [= <- _]; kept_here|intros [= <- _]; apply close_kept|intros [= <- _]; kept_here|].
  intros E%process_messages_kept. eapply kept_trans; [|exact E]. kept_here.
Qed.

Lemma tcp_exec_kept op s s' x x' : tcp_exec clock handler sends ctl op s x = Ok (s', x') → kept s s'.
Proof.
  destruct op as [accepts|id events recvs|id response|at_time newest]; cbn [tcp_exec].
  - intros [= <- _]. apply accept_loop_kept.
  - unfold on_event. destruct (_ !! id) as [c|] eqn:Hc; [|intros [= <- _]; kept_here]. destruct (has_events _ _); [intros [= <- _]; apply close_kept|].
    assert (Hread : ∀ s1 x1, (if has_events events kReadable then read_from clock handler sends ctl id recvs s x else Ok (s, x)) = Ok (s1, x1) → kept s s1).
    { intros s1 x1. destruct (has_events _ _); [apply read_from_kept|]. intros [= <- _]. kept_here. }
    destruct (if has_events _ _ then _ else _) as [[s1 x1]| |]; [|done..]. rewrite bind_Ok. intros [= <- _]. eapply kept_trans; [by eapply Hread|].
    destruct (has_events _ _); [eapply kept_trans; [apply flush_kept|]|]; apply update_kept.
  - apply respond_kept. apply process_messages_kept.
  - destruct (pop_due _ _ _) as [[[y []] l]|]; [intros [= <- _]; kept_here| |intros [= <- _]; kept_here]. intros [= <- _]. unfold on_idle. cbn [with_loop tl_connections].
    destruct (_ !! id) as [c|]; [|kept_here]. destruct (_ <? _)%Z; (eapply kept_trans; [|apply arm_kept || apply close_kept]); kept_here.
Qed.

(** ** Sequences of operations *)

Fixpoint tcp_run (ops : list TcpOp) s (x : X) : outcome Err (TcpListener * X) :=
  match ops with [] => Ok (s, x) | op :: ops => '(s, x) ← tcp_exec clock handler sends ctl op s x; tcp_run ops s x end.

Fixpoint tcp_all_can_run (ops : list TcpOp) s (x : X) : Prop :=
  match ops with
  | [] => True
  | op :: ops => tcp_can_run op s x ∧ match tcp_exec clock handler sends ctl op s x with Ok (s, x) => tcp_all_can_run ops s x | _ => True end
  end.

(** A listener whose socket is watched, and nothing else, in a loop that is
    fresh otherwise. *)
Definition tcp_start (fd : Z) (cfg : TcpListenerConfig) : TcpListener :=
  new_listener (add_fd new_loop fd Acceptable true).2 fd cfg.

Definition limits_ok (cfg : TcpListenerConfig) : Prop :=
  (0 ≤ tc_max_connections cfg ∧ 0 < tc_max_per_client cfg < 18446744073709551616)%Z.

Lemma tcp_start_inv fd cfg : limits_ok cfg → tcp_inv calm 0 (tcp_start fd cfg).
Proof.
  intros [Hmc Hpc]. unfold tcp_start. set (l := (add_fd new_loop fd Acceptable true).2).
  assert (Hl : loop_inv l) by (apply (add_fd_inv (Tm:=TcpTimer)); [apply new_loop_inv|unfold room; cbn; lia]).
  assert (El : l = set_fds new_loop 2 (<[1%Z := mkWatch fd Acceptable]> ∅) (<[fd := 1%Z]> ∅)).
  { unfold l, add_fd. rewrite decide_False; [done|]. cbn. rewrite lookup_empty. by intros [? ?]. }
  assert (Ha : armed l = ∅) by (by rewrite El).
  split; [|by split; intros id; cbn; [intros c ?%lookup_empty_Some|]].
  cbn [new_listener tl_loop tl_fd tl_config tl_accept_retry tl_next_id tl_connections tl_per_client].
  split; rewrite ?Ha; try done; try (by intros ? ? ?%lookup_empty_Some); try lia.
  - rewrite El. exists 1%Z. cbn. by rewrite !lookup_insert_eq.
  - rewrite El. intros token w. cbn. intros [[<- <-]|[_ ?%lookup_empty_Some]]%lookup_insert_Some; [by left|done].
Qed.

Lemma tcp_run_inv ops : ∀ s x, tcp_inv calm 0 s → (0 < tc_max_per_client (tl_config s))%Z → tcp_all_can_run ops s x →
  ∃ s' x', tcp_run ops s x = Ok (s', x') ∧ tcp_inv calm 0 s' ∧ kept s s'.
Proof.
  induction ops as [|op ops IH]; intros s x Hinv Hpos Hrun; [exists s, x; split_and!; [done|done|kept_here]|]. destruct Hrun as [Hop Hrest].
  destruct (tcp_exec_inv op s x Hinv Hpos Hop) as (s1 & x1 & He & Hi1). cbn [tcp_run]. rewrite He in Hrest |- *. rewrite bind_Ok.
  pose proof (tcp_exec_kept op s s1 x x1 He) as Hk. destruct (IH s1 x1 Hi1) as (s' & x' & Hs' & Hi' & Hk'); [by rewrite (proj1 Hk)|done|]. exists s', x'. split_and!; [done|done|].
  by eapply kept_trans.
Qed.
End ops.
