(* ===== verification/TcpProps.v ===== *)
(** * What the TCP listener guarantees

    From [create] on, whatever connects, arrives, is answered or falls due, and
    whatever the system calls return: the tables and the event loop agree and
    stay within the configured limits, the bytes of every connection are
    accounted for, and the destructor leaves nothing behind. *)

From stdpp Require Import base tactics numbers list gmap fin_maps fin_sets strings.
From Stdlib Require Import ZArith Lia.
From S2P Require Import Prelude Names Types Wire Builder Acl Cache QueryProcessor Upstream EventLoop SocketAddress TcpListener TcpProofs.

(** ** Creating and destroying *)

Lemma create_tcp_start `{InetPton} cfg calls closed s port :
  create_tcp new_loop cfg calls = (closed, Some (s, port)) → closed = [] ∧ s = tcp_start (lc_socket calls) cfg ∧ ∃ a, lc_bound calls = Some a ∧ port = port_of a.
Proof.
  unfold create_tcp, tcp_start. destruct (make_address _ _); [|done]. destruct (_ <? _)%Z; [done|]. destruct (negb _); [done|].
  destruct (lc_bound calls) as [a|]; [|done]. destruct (lc_add_fd_ok calls); [|unfold add_fd; by case_decide].
  destruct (add_fd new_loop _ _ _) as [[|] l]; intros [= <- <- <-]. eauto.
Qed.

(** Any run of a listener that [create] gave. *)
Lemma created_run `{InetPton} {E X : Type} clock handler `{!TakesQueries (E:=E) (X:=X) handler} sends ctl cfg calls closed s0 port ops x0 : limits_ok cfg →
  create_tcp new_loop cfg calls = (closed, Some (s0, port)) → tcp_all_can_run clock handler sends ctl ops s0 x0 →
  ∃ s x, tcp_run clock handler sends ctl ops s0 x0 = Ok (s, x) ∧ tcp_inv calm 0 s ∧ tl_config s = cfg ∧ tl_fd s = lc_socket calls ∧ Forall event_parsed (tl_log s).
Proof.
  intros Hcfg (_ & -> & _)%create_tcp_start Hrun. destruct (tcp_run_inv clock handler sends ctl ops (tcp_start (lc_socket calls) cfg) x0) as (s & x & Hs & Hinv & Hk & Hf & es & El & He);
    [by apply tcp_start_inv|by destruct Hcfg as [_ []]|done|]. exists s, x. split_and!; [done..|]. by rewrite El.
Qed.

Definition unwired (cs : list (Z * Connection)) (acc : list Z * EventLoop TcpIo TcpTimer) : list Z * EventLoop TcpIo TcpTimer :=
  fold_left (λ acc kv, let '(fds, l) := acc in (fds ++ [c_fd kv.2], disarm (remove_fd l (c_fd kv.2)) (c_idle_timer kv.2))) cs acc.

(** Taking connections away one by one leaves the loop with what was never
    theirs. *)
Lemma unwired_loop cs : ∀ fds l, loop_inv l → armed l !! 0%Z = None →
  (unwired cs (fds, l)).1 = fds ++ (c_fd ∘ snd <$> cs) ∧ loop_inv (unwired cs (fds, l)).2 ∧
  (∀ x, armed (unwired cs (fds, l)).2 !! x = if decide (x ∈ (c_idle_timer ∘ snd <$> cs)) then None else armed l !! x) ∧
  (∀ fd, el_tokens (unwired cs (fds, l)).2 !! fd = if decide (fd ∈ (c_fd ∘ snd <$> cs)) then None else el_tokens l !! fd).
Proof.
  induction cs as [|[id c] cs IH]; intros fds l Hl H0; [cbn; split_and!; [by rewrite app_nil_r|done|done|done]|].
  pose proof (remove_fd_inv l (c_fd c) Hl) as Hl1. destruct (armed_remove_fd l (c_fd c)) as [Ea1 _].
  destruct (disarm_spec (remove_fd l (c_fd c)) (c_idle_timer c) Hl1) as (Hl2 & Ea2 & _ & Et & _); [by rewrite Ea1|].
  cbn [unwired fold_left fst snd]. fold (unwired cs (fds ++ [c_fd c], disarm (remove_fd l (c_fd c)) (c_idle_timer c))).
  destruct (IH (fds ++ [c_fd c]) _ Hl2) as (E1 & Hi & E2 & E3); [rewrite Ea2, Ea1; apply lookup_delete_None; auto|].
  split_and!; [by rewrite E1, <-app_assoc|done| |].
  - intros x. rewrite E2, Ea2, Ea1. cbn [fmap list_fmap compose snd]. destruct (decide (x = c_idle_timer c)) as [-> |Hne].
    + rewrite lookup_delete_eq. rewrite (decide_True (P := _ ∈ _ :: _)) by left. by case_decide.
    + rewrite lookup_delete_ne by done. destruct (decide (x ∈ c_idle_timer ∘ snd <$> cs)).
      * by rewrite decide_True by by right.
      * rewrite decide_False; [done|]. by intros [?|?]%elem_of_cons.
  - intros f. rewrite E3, Et. cbn [fmap list_fmap compose snd]. assert (Er : el_tokens (remove_fd l (c_fd c)) !! f = if decide (f = c_fd c) then None else el_tokens l !! f).
    { unfold remove_fd. case_decide as E; subst; (destruct (el_tokens l !! c_fd c) eqn:El; [|done]); cbn; [apply lookup_delete_eq|]. by rewrite lookup_delete_ne. }
    rewrite Er. destruct (decide (f ∈ c_fd ∘ snd <$> cs)).
    + by rewrite decide_True by by right.
    + case_decide; [by rewrite decide_True by (subst; left)|]. rewrite decide_False; [done|]. by intros [?|?]%elem_of_cons.
Qed.

Lemma destroy_wires b s : tcp_inv calm b s → loop_inv (destroy_tcp s).2 ∧ armed (destroy_tcp s).2 = ∅ ∧ el_tokens (destroy_tcp s).2 = ∅ ∧
  (destroy_tcp s).1 = tl_fd s :: (c_fd ∘ snd <$> map_to_list (tl_connections s)).
Proof.
  intros [Hw _]. pose proof (wires_no_zero _ _ _ _ _ _ _ _ Hw) as H0. destruct Hw as [Hl _ _ _ _ _ Hws Hidle Htim Hret _ _ _ _].
  unfold destroy_tcp. set (l := remove_fd (tl_loop s) (tl_fd s)). pose proof (remove_fd_inv _ (tl_fd s) Hl : loop_inv l) as Hl1.
  destruct (armed_remove_fd (tl_loop s) (tl_fd s)) as [Ea1 _]. destruct (disarm_spec l (tl_accept_retry s) Hl1) as (Hl2 & Ea2 & _ & Et2 & _); [by unfold l; rewrite Ea1|].
  destruct (unwired_loop (map_to_list (tl_connections s)) [tl_fd s] _ Hl2) as (E1 & Hi & E2 & E3);
    [rewrite Ea2; unfold l; rewrite Ea1; apply lookup_delete_None; auto|]. unfold unwired in *. split_and!; [done| | |done].
  - apply map_eq. intros x. rewrite lookup_empty. rewrite E2. case_decide as Hn; [done|]. rewrite Ea2. unfold l. rewrite Ea1.
    apply lookup_delete_None. destruct (armed (tl_loop s) !! x) as [cb|] eqn:E; [|by right]. left. destruct (Htim x cb E) as [_ Hcb].
    destruct cb as [|id]; [done|]. destruct Hcb as (c & Hc & Ec). exfalso. apply Hn. apply list_elem_of_fmap. exists (id, c).
    by rewrite elem_of_map_to_list.
  - apply map_eq. intros f. rewrite lookup_empty. rewrite E3. case_decide as Hn; [done|]. rewrite Et2. unfold l, remove_fd.
    assert (Hkeep : ∀ t, el_tokens (tl_loop s) !! f = Some t → f = tl_fd s).
    { intros t Ht. apply (li_watches _ Hl) in Ht as (w & Hwt & Ewf). destruct (Hws t w Hwt) as [-> |(id & c & Hc & ->)]; [done|].
      exfalso. apply Hn. apply list_elem_of_fmap. exists (id, c). by rewrite elem_of_map_to_list. }
    destruct (el_tokens (tl_loop s) !! tl_fd s) as [t0|] eqn:E0; cbn [set_fds el_tokens].
    + apply lookup_delete_None. destruct (el_tokens (tl_loop s) !! f) as [t|] eqn:E; [left; symmetry; by eapply Hkeep|by right].
    + destruct (el_tokens (tl_loop s) !! f) as [t|] eqn:E; [|done]. specialize (Hkeep t eq_refl). congruence.
Qed.

Lemma loop_empty (l : EventLoop TcpIo TcpTimer) : loop_inv l → armed l = ∅ → el_tokens l = ∅ → el_timers l = [] ∧ el_watches l = ∅.
Proof.
  intros Hl Ha Et. split.
  - destruct (el_timers l) as [|[[d x] cb] ts] eqn:E; [done|]. assert (Hx : armed l !! x = Some cb) by (apply (armed_Some _ _ _ Hl); exists d; rewrite E; left).
    rewrite Ha in Hx. by apply lookup_empty_Some in Hx.
  - apply map_eq. intros t. rewrite lookup_empty. destruct (el_watches l !! t) as [w|] eqn:E; [|done].
    assert (Hf : el_tokens l !! w_fd w = Some t) by (apply (li_watches _ Hl); eauto). rewrite Et in Hf. by apply lookup_empty_Some in Hf.
Qed.

(** ** The properties *)

Section props.
Context `{InetPton} {Err X : Type} (clock : nat → Z) (handler : Z → Message → ClientInfo → X → outcome Err (option Message * X)) `{!TakesQueries handler}.
Context (sends : nat → list SendResult) (ctl : nat → bool) (x0 : X).
Context (cfg : TcpListenerConfig) (calls : ListenCalls) (closed : list Z) (s0 : TcpListener) (port : Z).
Context (Hlimits : limits_ok cfg) (Hcreated : create_tcp new_loop cfg calls = (closed, Some (s0, port))).

(** C35: a listener that [create] gave, run through any sequence of events,
    never faults and never has more than [max_connections] connections, nor
    more than [max_per_client] of one client; [per_client_] counts exactly the
    open connections of each client.  The loop watches the listening socket
    and every open connection's, each under its own callback, and nothing
    else; every connection has its own idle timer armed, and no other timer is
    armed but the retry of a paused accept. *)
Theorem tcp_connections_bounded ops : tcp_all_can_run clock handler sends ctl ops s0 x0 →
  ∃ s x, tcp_run clock handler sends ctl ops s0 x0 = Ok (s, x) ∧
    (Z.of_nat (size (tl_connections s)) ≤ tc_max_connections cfg)%Z ∧
    (∀ k, tl_per_client s !! k = if decide (of_client k (tl_connections s) = ∅) then None else Some (Z.of_nat (size (of_client k (tl_connections s))))) ∧
    (∀ k, (Z.of_nat (size (of_client k (tl_connections s))) ≤ tc_max_per_client cfg)%Z) ∧
    (∀ id c, tl_connections s !! id = Some c → c_client c = ip_key (c_peer c)) ∧
    (∀ fd cb, watched (tl_loop s) fd cb ↔ fd = lc_socket calls ∧ cb = Acceptable ∨
       ∃ id c, tl_connections s !! id = Some c ∧ fd = c_fd c ∧ cb = ConnectionEvent id) ∧
    (∀ x cb, armed (tl_loop s) !! x = Some cb ↔ x ≠ 0%Z ∧
       match cb with AcceptRetry => tl_accept_retry s = x | IdleTimer id => ∃ c, tl_connections s !! id = Some c ∧ c_idle_timer c = x end) ∧
    (∀ id c, tl_connections s !! id = Some c → c_idle_timer c ≠ 0%Z).
Proof using Hlimits Hcreated.
  intros Hrun. destruct (created_run _ _ _ _ _ _ _ _ _ _ _ Hlimits Hcreated Hrun) as (s & x' & Hs & [Hw _] & Ecfg & Efd & _). exists s, x'.
  rewrite Ecfg, Efd in Hw. destruct Hw as [Hl _ _ _ Hlis Hwa Hws Hidle Htim Hret Hcli Hcnt Hlim _]. split_and!; [done|done| | |done| | |].
  - intros k. specialize (Hcnt k). destruct (tl_per_client s !! k) as [n|]; [|by rewrite decide_True]. destruct Hcnt as [-> Hr].
    rewrite decide_False; [done|]. intros E. rewrite E, map_size_empty in Hr. lia.
  - intros k. specialize (Hcnt k). destruct (tl_per_client s !! k) as [n|]; [lia|]. rewrite Hcnt, map_size_empty. destruct Hlimits. lia.
  - intros fd cb. split.
    + intros (t & Ht & Hwt). destruct (Hws t _ Hwt) as [[= -> ->]|(id & c & Hc & [= -> ->])]; eauto 10.
    + intros [[-> ->]|(id & c & Hc & -> & ->)]; auto.
  - intros x cb. split; [apply Htim|]. intros [Hx Hcb]. destruct cb as [|id]; [subst; auto|]. destruct Hcb as (c & Hc & <-). by apply Hidle.
  - intros id c Hc. by apply (Hidle id c Hc).
Qed.

(** C34: the bytes of every open connection are accounted for.  What arrived is
    the queries handed over so far, in order and each with its length, and then
    what is buffered; no whole query is left waiting while fewer than 32 are
    unanswered; what was written, followed by what is queued, is the responses
    in the order they were given, each with its length; and the number of
    unanswered queries is exact and at most 32.  Everything handed over is a
    well-formed query, never a response. *)
Theorem tcp_streams_exact ops : tcp_all_can_run clock handler sends ctl ops s0 x0 →
  ∃ s x, tcp_run clock handler sends ctl ops s0 x0 = Ok (s, x) ∧
    (∀ id c, tl_connections s !! id = Some c →
       framed_as (handed id (tl_log s)) (arrived id (tl_log s)) (c_in c) ∧
       ((c_pending c < kMaxPipelined)%Z → framed (c_in c) = None) ∧
       written id (tl_log s) ++ c_out c = mjoin ((λ m, build_tcp m (mkOptions 512 true)) <$> answered id (tl_log s)) ∧
       c_pending c = (zlen (handed id (tl_log s)) - zlen (answered id (tl_log s)))%Z ∧ (0 ≤ c_pending c ≤ kMaxPipelined)%Z) ∧
    (∀ id body query client, Handed id body query client ∈ tl_log s →
       parse body = Ok query ∧ h_qr (m_header query) = false ∧ ci_transport client = TcpTransport).
Proof using Hlimits Hcreated.
  intros Hrun. destruct (created_run _ _ _ _ _ _ _ _ _ _ _ Hlimits Hcreated Hrun) as (s & x' & Hs & [_ [Hok _]] & _ & _ & Hp). exists s, x'. split_and!; [done| |].
  - intros id c Hc. destruct (Hok id c Hc) as [H1 H2 [_ H3] H4 H5]. split_and!; [done|by apply H5|done|done|apply H2..].
  - intros id body query client Hin. by apply (proj1 (Forall_forall _ _) Hp) in Hin.
Qed.

(** Destroying the listener, at any time, closes the listening socket and
    the socket of every open connection, once each, and leaves the event loop
    with no watch and no timer that could call back into it. *)
Lemma tcp_destructor_clears ops : tcp_all_can_run clock handler sends ctl ops s0 x0 →
  ∃ s x, tcp_run clock handler sends ctl ops s0 x0 = Ok (s, x) ∧
    (destroy_tcp s).1 = lc_socket calls :: (c_fd ∘ snd <$> map_to_list (tl_connections s)) ∧ NoDup (destroy_tcp s).1 ∧
    el_timers (destroy_tcp s).2 = [] ∧ el_watches (destroy_tcp s).2 = ∅ ∧ el_tokens (destroy_tcp s).2 = ∅.
Proof using Hlimits Hcreated.
  intros Hrun. destruct (created_run _ _ _ _ _ _ _ _ _ _ _ Hlimits Hcreated Hrun) as (s & x' & Hs & Hinv & _ & Efd & _). exists s, x'.
  destruct (destroy_wires _ _ Hinv) as (Hl & Ha & Et & Efds). destruct (loop_empty _ Hl Ha Et). rewrite Efds, <-Efd. split_and!; [done|done| |done..].
  destruct Hinv as [Hw _]. apply NoDup_cons. split.
  - intros ([id c] & E & Hc%elem_of_map_to_list)%list_elem_of_fmap. by apply (wires_fd_listen _ _ _ _ _ _ _ _ Hw id c).
  - apply NoDup_fmap_2_strong; [|apply NoDup_map_to_list]. intros [i ci] [j cj] Hi%elem_of_map_to_list Hj%elem_of_map_to_list E.
    assert (i = j) as <- by (by eapply (wires_fd_inj _ _ _ _ _ _ _ _ Hw)). congruence.
Qed.
End props.

(** ** A run *)

(** Two clients connect and a third connection is turned away; one sends two
    queries in three pieces, the first of which is answered at once, in two
    writes, and the second later; the other sends a response and is dropped. *)

Definition ex_tcp_config : TcpListenerConfig := mkTcpConfig (str "192.168.0.0") 53 10000 2 1.
Definition ex_tcp_calls : ListenCalls := mkListenCalls 3 true true true (Some (SockV4 [192; 168; 0; 0]%Z 5353)) true.
Definition ex_tcp_ask : Message := mkMessage default_header [mkQuestion ex_name RRType.A 1] [] [] [] None.
Definition ex_tcp_answer : Message :=
  mkMessage (mkHeader 0 true 0 false false false false false false RCode.NoError 0 0 0 0) [mkQuestion ex_name RRType.A 1] [] [] [] None.
Definition ex_tcp_query : list Z := Eval vm_compute in build_tcp ex_tcp_ask (mkOptions 512 true).
Definition ex_tcp_reply : list Z := Eval vm_compute in build_tcp ex_tcp_answer (mkOptions 512 true).

Definition ex_tcp_clock (n : nat) : Z := Z.of_nat n * 1000000.
(** Answers the first query at once. *)
Definition ex_tcp_handler (_ : Z) (_ : Message) (_ : ClientInfo) (n : nat) : outcome Empty_set (option Message * nat) :=
  Ok (if decide (n = 0) then Some ex_tcp_answer else None, S n).
Global Instance ex_tcp_takes : TakesQueries ex_tcp_handler.
Proof. refine {| spare _ _ := True |}; [done|]. intros. by do 2 eexists. Defined.
Definition ex_tcp_sends (n : nat) : list SendResult := if decide (n = 5) then [SendInterrupted; SendAccepted 7; SendAgain] else [SendAccepted 1000].
Definition ex_tcp_ctl (_ : nat) : bool := true.

Definition ex_tcp_ops : list TcpOp :=
  [ AcceptReady [Accepted 7 (SockV4 [192; 168; 7; 9]%Z 4000); AcceptAborted; Accepted 8 (SockV4 [192; 168; 7; 9]%Z 4001);
                 Accepted 9 (SockV4 [10; 0; 0; 1]%Z 4000)];
    Ready 1 kReadable [RecvInterrupted; Received (take 5 ex_tcp_query)];
    Ready 1 kReadable [Received (drop 5 ex_tcp_query ++ take 1 ex_tcp_query)];
    Ready 1 (Z.lor kReadable kWritable) [Received (drop 1 ex_tcp_query)];
    Ready 2 kReadable [Received ex_tcp_reply];
    Respond 1 ex_tcp_answer;
    AcceptReady [AcceptExhausted];
    TcpTimersDue 200000000 100 ].

Definition ex_tcp_start : TcpListener := tcp_start 3 ex_tcp_config.

Definition tcp_ready_b (op : TcpOp) (s : TcpListener) : bool :=
  let n := Z.of_nat (cost op s) in
  ((el_next_token (tl_loop s) + n <? 18446744073709551616) && (el_next_timer_id (tl_loop s) + n <? 18446744073709551616))%Z &&
  match op with
  | AcceptReady _ => (tl_accept_retry s =? 0) && (tl_next_id s + Z.of_nat kMaxAcceptsPerWakeup <? 18446744073709551616)
  | Respond id _ => match tl_connections s !! id with Some c => 0 <? c_pending c | None => true end
  | _ => true
  end%Z.

Lemma tcp_ready_b_sound op s x : tcp_ready_b op s = true → tcp_can_run ex_tcp_handler op s x.
Proof.
  unfold tcp_ready_b. rewrite !andb_true_iff, !Z.ltb_lt. intros [Hroom Hop]. split; [exact Hroom|]. split; [done|].
  destruct op as [| |id|]; [|done| |done].
  - rewrite andb_true_iff, Z.eqb_eq, Z.ltb_lt in Hop. exact Hop.
  - intros c Hc. rewrite Hc in Hop. by apply Z.ltb_lt.
Qed.

Fixpoint tcp_runs_b (ops : list TcpOp) (s : TcpListener) (x : nat) : bool :=
  match ops with
  | [] => true
  | op :: ops =>
    tcp_ready_b op s && match tcp_exec ex_tcp_clock ex_tcp_handler ex_tcp_sends ex_tcp_ctl op s x with Ok (s, x) => tcp_runs_b ops s x | _ => true end
  end.

Lemma tcp_runs_b_sound ops : ∀ s x, tcp_runs_b ops s x = true → tcp_all_can_run ex_tcp_clock ex_tcp_handler ex_tcp_sends ex_tcp_ctl ops s x.
Proof.
  induction ops as [|op ops IH]; intros s x Hb; [done|]. cbn [tcp_runs_b tcp_all_can_run] in *. apply andb_true_iff in Hb as [Hop Hrest].
  split; [by apply tcp_ready_b_sound|]. destruct (tcp_exec _ _ _ _ op s x) as [[]| |]; auto.
Qed.

Lemma ex_tcp_runs : tcp_all_can_run ex_tcp_clock ex_tcp_handler ex_tcp_sends ex_tcp_ctl ex_tcp_ops ex_tcp_start 0.
Proof. apply tcp_runs_b_sound. vm_compute. reflexivity. Qed.
Lemma ex_tcp_created : create_tcp (H:=ex_pton) new_loop ex_tcp_config ex_tcp_calls = ([], Some (ex_tcp_start, 5353%Z)).
Proof. vm_compute. reflexivity. Qed.
Lemma ex_tcp_limits : limits_ok ex_tcp_config.
Proof. by_compute. Qed.

Abbreviation ex_tcp_run := (tcp_run ex_tcp_clock ex_tcp_handler ex_tcp_sends ex_tcp_ctl ex_tcp_ops ex_tcp_start 0).

Lemma tcp_connections_bounded_witness : ∃ s x, ex_tcp_run = Ok (s, x) ∧ (Z.of_nat (size (tl_connections s)) ≤ 2)%Z.
Proof.
  destruct (tcp_connections_bounded (H:=ex_pton) _ _ _ _ _ _ _ _ _ _ ex_tcp_limits ex_tcp_created _ ex_tcp_runs) as (s & x & Hs & Hn & _).
  exists s, x. exact (conj Hs Hn).
Defined.

Lemma tcp_streams_exact_witness : ∃ s x, ex_tcp_run = Ok (s, x) ∧ ∀ id c, tl_connections s !! id = Some c →
  framed_as (handed id (tl_log s)) (arrived id (tl_log s)) (c_in c).
Proof.
  destruct (tcp_streams_exact (H:=ex_pton) _ _ _ _ _ _ _ _ _ _ ex_tcp_limits ex_tcp_created _ ex_tcp_runs) as (s & x & Hs & Hok & _).
  exists s, x. split; [exact Hs|]. intros id c Hc. exact (proj1 (Hok id c Hc)).
Defined.

Lemma tcp_destructor_clears_witness : ∃ s x, ex_tcp_run = Ok (s, x) ∧ el_timers (destroy_tcp s).2 = [].
Proof.
  destruct (tcp_destructor_clears (H:=ex_pton) _ _ _ _ _ _ _ _ _ _ ex_tcp_limits ex_tcp_created _ ex_tcp_runs) as (s & x & Hs & _ & _ & Ht & _).
  exists s, x. exact (conj Hs Ht).
Defined.
