(* ===== verification/TcpLinks.v ===== *)
(** * The TCP listener and its handler

    What the listener hands over and writes back is what its handler was asked
    and said, connection by connection: the queries in the order they arrived,
    the responses in the order they were given.  A response that is given once
    its connection is gone reaches nobody, and is not recorded.

    The handler is any that keeps a record ([KeepsRecord]).  The theorem about
    one operation is [tcp_exec_linked]. *)

From stdpp Require Import base tactics numbers list gmap fin_maps option.
From Stdlib Require Import ZArith Lia.
From S2P Require Import Prelude Names Types Wire Builder Acl Cache QueryProcessor Upstream EventLoop SocketAddress TcpListener TcpProofs.

(** What the handler was asked and has said, by connection. *)
Class Recorder (X : Type) := { asked_by : Z → X → list (Message * ClientInfo); told_to : Z → X → list Message }.
Class KeepsRecord {E X : Type} `{Recorder X} (handler : Z → Message → ClientInfo → X → outcome E (option Message * X)) : Prop := {
  asked_handled : ∀ id query client x reply x', handler id query client x = Ok (reply, x') →
    ∀ i, asked_by i x' = asked_by i x ++ (if decide (i = id) then [(query, client)] else []);
  told_handled : ∀ id query client x reply x', handler id query client x = Ok (reply, x') →
    ∀ i, told_to i x' = told_to i x ++ (if decide (i = id) then option_list reply else []);
}.

(** The queries handed over for a connection. *)
Definition passed (id : Z) (log : list TcpEvent) : list (Message * ClientInfo) :=
  omap (λ e, match e with Handed i _ query client => if decide (i = id) then Some (query, client) else None | _ => None end) log.

Lemma passed_app id log log' : passed id (log ++ log') = passed id log ++ passed id log'.
Proof. apply omap_app. Qed.
Lemma answered_app id log log' : answered id (log ++ log') = answered id log ++ answered id log'.
Proof. apply bind_app. Qed.
Lemma length_passed id log : length (passed id log) = length (handed id log).
Proof. unfold passed, handed. induction log as [|[] log IH]; cbn; repeat case_decide; cbn; auto. Qed.

(** Events that are neither. *)
Definition aside (e : TcpEvent) : Prop := match e with Handed _ _ _ _ | Answered _ _ => False | _ => True end.

Lemma aside_nothing id es : Forall aside es → passed id es = [] ∧ answered id es = [].
Proof. induction 1 as [|[] es He _ [IH1 IH2]]; by try done. Qed.

(** ** Steps that concern no query *)

Record quiet (s s' : TcpListener) : Prop := {
  qu_conns : ∀ id c', tl_connections s' !! id = Some c' → ∃ c, tl_connections s !! id = Some c ∧ length (c_in c') ≤ length (c_in c);
  qu_next : tl_next_id s' = tl_next_id s;
  qu_log : ∃ es, tl_log s' = tl_log s ++ es ∧ Forall aside es;
}.

Global Instance quiet_refl : Reflexive quiet.
Proof. intros s. split; [by eauto|done|]. exists []. by rewrite app_nil_r. Qed.
Global Instance quiet_trans : Transitive quiet.
Proof.
  intros s1 s2 s3 [Hc1 Hn1 (es1 & E1 & H1)] [Hc2 Hn2 (es2 & E2 & H2)]. split; [|congruence|].
  - intros id c3 (c2 & Hc & Hl)%Hc2. destruct (Hc1 id c2 Hc) as (c1 & ? & ?). exists c1. split; [done|lia].
  - exists (es1 ++ es2). rewrite E2, E1, app_assoc. split; [done|by apply Forall_app].
Qed.

(** By assignments to the members, with at most one event. *)
Lemma quiet_same s s' : tl_connections s' = tl_connections s → tl_next_id s' = tl_next_id s → tl_log s' = tl_log s → quiet s s'.
Proof. intros E1 E2 E3. split; [rewrite E1; by eauto|done|]. exists []. by rewrite app_nil_r. Qed.
Lemma quiet_log s s' e : tl_connections s' = tl_connections s → tl_next_id s' = tl_next_id s → tl_log s' = tl_log s ++ [e] → aside e → quiet s s'.
Proof. intros E1 E2 E3 He. split; [rewrite E1; by eauto|done|]. exists [e]. by repeat constructor. Qed.
Lemma quiet_put s s' id c c' : tl_connections s !! id = Some c → tl_connections s' = <[id := c']> (tl_connections s) → length (c_in c') ≤ length (c_in c) →
  tl_next_id s' = tl_next_id s → tl_log s' = tl_log s → quiet s s'.
Proof.
  intros Hc E1 Hl E2 E3. split; [|done|exists []; by rewrite app_nil_r]. rewrite E1. intros i ci [[<- <-]|[_ Hi]]%lookup_insert_Some; eauto.
Qed.

Section steps.
Context {Err X : Type} `{Recorder X} (clock : nat → Z) (handler : Z → Message → ClientInfo → X → outcome Err (option Message * X)).
Context (sends : nat → list SendResult) (ctl : nat → bool).
Implicit Types (s : TcpListener) (x : X).

Lemma close_quiet id s : quiet s (close id s).
Proof.
  unfold close. destruct (_ !! id) as [c|] eqn:Hc; [|done]. split; [|done|exists [ClosedFd (c_fd c)]; by repeat constructor].
  cbn. intros i ci [_ Hi]%lookup_delete_Some. eauto.
Qed.
Lemma arm_quiet id s : quiet s (arm_idle_timer clock id s).
Proof.
  unfold arm_idle_timer. destruct (_ !! id) as [c|] eqn:Hc; [|done]. destruct (add_timer _ _ _ _) as [y l]. by eapply quiet_put.
Qed.
Lemma flush_quiet id s : quiet s (flush clock sends id s).
Proof.
  unfold flush. destruct (_ !! id) as [c|] eqn:Hc; [|done]. destruct (flush_loop _ _ _) as [sent gone]. set (s1 := logged _ _).
  assert (H1 : quiet s s1) by (by eapply quiet_log). destruct gone; [etrans; [exact H1|apply close_quiet]|]. case_decide; [|exact H1].
  etrans; [exact H1|]. etrans; [|apply arm_quiet]. by eapply (quiet_put s1).
Qed.
Lemma update_quiet id s : quiet s (update ctl id s).
Proof.
  unfold update. destruct (_ !! id) as [c|] eqn:Hc; [|done]. destruct (_ && _); [apply close_quiet|]. destruct (_ =? _)%Z; [done|].
  destruct (modify_fd _ _ _); [by apply quiet_same|]. by eapply quiet_put.
Qed.
Lemma on_idle_quiet id s : quiet s (on_idle clock id s).
Proof.
  unfold on_idle. destruct (_ !! id) as [c|] eqn:Hc; [|done]. set (s1 := put_conn s id _). assert (H1 : quiet s s1) by (by eapply quiet_put).
  destruct (_ <? _)%Z; (etrans; [exact H1|]); [apply arm_quiet|]. etrans; [|apply close_quiet]. by apply quiet_same.
Qed.

(** ** The records agree *)

Context `{!KeepsRecord handler}.

Definition owed_to (id : Z) (owe : option (Z * Message)) : list Message :=
  match owe with Some (i, m) => if decide (i = id) then [m] else [] | None => [] end.

(** [owe]: a response that the handler has given and the listener has yet to
    take. *)
Record linked (owe : option (Z * Message)) s x : Prop := {
  lk_asked : ∀ id c, tl_connections s !! id = Some c → passed id (tl_log s) = asked_by id x;
  lk_told : ∀ id c, tl_connections s !! id = Some c → answered id (tl_log s) ++ owed_to id owe = told_to id x;
  lk_fresh : ∀ id, (tl_next_id s ≤ id)%Z → asked_by id x = [] ∧ told_to id x = [] ∧ passed id (tl_log s) = [] ∧ answered id (tl_log s) = [];
  lk_ids : ∀ id c, tl_connections s !! id = Some c → (id < tl_next_id s)%Z;
  lk_taken : ∀ id, answered id (tl_log s) `prefix_of` told_to id x;
}.

Lemma quiet_linked owe s s' x : quiet s s' → linked owe s x → linked owe s' x.
Proof.
  intros [Hc En (es & El & He)] [Ha Ht Hf Hi Hk]. pose proof (λ id, aside_nothing id es He) as Hn.
  assert (Ep : ∀ id, passed id (tl_log s') = passed id (tl_log s)) by (intros id; rewrite El, passed_app, (proj1 (Hn id)); apply app_nil_r).
  assert (Ew : ∀ id, answered id (tl_log s') = answered id (tl_log s)) by (intros id; rewrite El, answered_app, (proj2 (Hn id)); apply app_nil_r).
  split; rewrite ?En.
  - intros id c' (c & Hcc & _)%Hc. rewrite Ep. by eapply Ha.
  - intros id c' (c & Hcc & _)%Hc. rewrite Ew. by eapply Ht.
  - intros id Hid. rewrite Ep, Ew. by apply Hf.
  - intros id c' (c & Hcc & _)%Hc. by eapply Hi.
  - intros id. by rewrite Ew.
Qed.

(** The response is taken, or nobody is left to take it. *)
Lemma linked_gone id m s x : tl_connections s !! id = None → linked (Some (id, m)) s x → linked None s x.
Proof.
  intros Hn [Ha Ht Hf Hi Hk]. split; [done| |done..]. intros i c Hc. specialize (Ht i c Hc). cbn [owed_to] in *. rewrite decide_False in Ht; [done|congruence].
Qed.

Lemma linked_answer id m c c' s x : tl_connections s !! id = Some c → linked (Some (id, m)) s x →
  linked None (logged (counted (put_conn s id c') TResponses) (Answered id m)) x.
Proof.
  intros Hc [Ha Ht Hf Hi Hk].
  assert (Hold : ∀ i ci, <[id := c']> (tl_connections s) !! i = Some ci → ∃ ci', tl_connections s !! i = Some ci').
  { intros i ci [[<- <-]|[_ ?]]%lookup_insert_Some; eauto. }
  split; cbn [logged counted put_conn with_table tl_connections tl_log tl_next_id].
  - intros i ci [ci' Hci]%Hold. rewrite passed_app. cbn [passed omap list_omap]. rewrite app_nil_r. by eapply Ha.
  - intros i ci [ci' Hci]%Hold. rewrite <-(Ht i ci' Hci), answered_app. cbn [owed_to]. rewrite app_nil_r. f_equal.
    unfold answered. cbn. by rewrite app_nil_r.
  - intros i Hi'. destruct (Hf i Hi') as (? & ? & Hp & Hw). rewrite passed_app, answered_app, Hp, Hw. split_and!; [done..|].
    unfold answered. cbn. rewrite decide_False; [done|]. specialize (Hi id c Hc). lia.
  - intros i ci [ci' Hci]%Hold. by eapply Hi.
  - intros i. rewrite answered_app. unfold answered at 2. cbn. rewrite app_nil_r. case_decide; [|by rewrite app_nil_r].
    subst i. rewrite <-(Ht id c Hc). cbn [owed_to]. by rewrite decide_True.
Qed.

(** The handler is asked. *)
Lemma linked_handed id body query client c c' s x reply x' : tl_connections s !! id = Some c → linked None s x → handler id query client x = Ok (reply, x') →
  linked ((λ m, (id, m)) <$> reply) (logged (put_conn (counted s TQueries) id c') (Handed id body query client)) x'.
Proof.
  intros Hc [Ha Ht Hf Hi Hk] Eh. pose proof (asked_handled _ _ _ _ _ _ Eh) as Hask. pose proof (told_handled _ _ _ _ _ _ Eh) as Htell.
  assert (Hold : ∀ i ci, <[id := c']> (tl_connections s) !! i = Some ci → ∃ ci', tl_connections s !! i = Some ci').
  { intros i ci [[<- <-]|[_ ?]]%lookup_insert_Some; eauto. }
  assert (Hp : ∀ i, passed i [Handed id body query client] = if decide (i = id) then [(query, client)] else []).
  { intros i. unfold passed. cbn. destruct (decide (id = i)), (decide (i = id)); by try congruence. }
  split; cbn [logged counted put_conn with_table tl_connections tl_log tl_next_id].
  - intros i ci [ci' Hci]%Hold. by rewrite passed_app, Hask, (Ha i ci' Hci), Hp.
  - intros i ci [ci' Hci]%Hold. rewrite answered_app, Htell, <-(Ht i ci' Hci). cbn [owed_to]. rewrite app_nil_r. cbn. rewrite app_nil_r. f_equal.
    destruct reply as [m|]; cbn; [|by case_decide]. destruct (decide (id = i)), (decide (i = id)); by try congruence.
  - intros i Hi'. destruct (Hf i Hi') as (? & ? & Hp' & Hw). specialize (Hi id c Hc). rewrite Hask, Htell, passed_app, answered_app, Hp', Hw, Hp, !decide_False by lia.
    split_and!; [by rewrite app_nil_r|by rewrite app_nil_r|done|done].
  - intros i ci [ci' Hci]%Hold. by eapply Hi.
  - intros i. rewrite answered_app, Htell. cbn. rewrite app_nil_r. by apply prefix_app_r.
Qed.

(** ** Answering and processing *)

(** Connections stay or go, and what is buffered of them only shrinks. *)
Definition shrinks s s' : Prop := ∀ id c', tl_connections s' !! id = Some c' → ∃ c, tl_connections s !! id = Some c ∧ length (c_in c') ≤ length (c_in c).

Lemma shrinks_trans s1 s2 s3 : shrinks s1 s2 → shrinks s2 s3 → shrinks s1 s3.
Proof. intros H1 H2 id c3 (c2 & Hc & Hl)%H2. destruct (H1 id c2 Hc) as (c1 & ? & ?). exists c1. split; [done|lia]. Qed.
Lemma shrinks_put s s' id c c' : tl_connections s !! id = Some c → tl_connections s' = <[id := c']> (tl_connections s) → length (c_in c') ≤ length (c_in c) → shrinks s s'.
Proof. intros Hc E Hl i ci. rewrite E. intros [[<- <-]|[_ Hi]]%lookup_insert_Some; eauto. Qed.

Definition follows owe s x s' x' : Prop := (linked owe s x → linked None s' x') ∧ shrinks s s'.

Lemma respond_follows process id m s x s' x' : (∀ s x s' x', process id s x = Ok (E:=Err) (s', x') → follows None s x s' x') →
  respond_with clock sends ctl process id m s x = Ok (s', x') → follows (Some (id, m)) s x s' x'.
Proof.
  intros Hp. unfold respond_with. destruct (tl_connections s !! id) as [c|] eqn:Hc.
  2:{ intros [= <- <-]. split; [by apply linked_gone|]. intros i ci Hi. eauto. }
  cbv zeta. set (s1 := logged _ _). pose proof (flush_quiet id s1) as Hq. set (s2 := flush _ _ _ _) in *.
  assert (Hs : shrinks s s2) by (eapply (shrinks_trans _ s1); [by eapply shrinks_put|exact (qu_conns _ _ Hq)]).
  assert (Hl : linked (Some (id, m)) s x → linked None s2 x) by (intros Hl; eapply quiet_linked; [exact Hq|]; by eapply linked_answer).
  destruct (tl_connections s2 !! id); [|by intros [= <- <-]]. destruct (process id s2 x) as [[s3 x3]| |] eqn:E; [|done..]. rewrite bind_Ok. intros [= <- <-].
  destruct (Hp _ _ _ _ E) as [Hl3 Hs3]. split; [intros H0; eapply quiet_linked; [apply update_quiet|]; auto|].
  eapply shrinks_trans; [exact Hs|]. eapply shrinks_trans; [exact Hs3|]. exact (qu_conns _ _ (update_quiet id s3)).
Qed.

Lemma process_loop_follows resp id fuel : (∀ m s x s' x', resp id m s x = Ok (s', x') → follows (Some (id, m)) s x s' x') → ∀ used s x used' s' x',
  process_loop clock handler resp fuel id used s x = Ok (used', s', x') → follows None s x s' x'.
Proof.
  intros Hr. induction fuel as [|fuel IH]; intros used s x used' s' x'; cbn [process_loop]; [done|].
  assert (Hstop : Ok (used, s, x) = Ok (E:=Err) (used', s', x') → follows None s x s' x') by (intros [= <- <- <-]; split; [done|]; intros i ci Hi; eauto).
  destruct (tl_connections s !! id) as [c|] eqn:Hc; [|exact Hstop]. destruct (drop used (c_in c)) as [|hi [|lo rest]]; [exact Hstop..|].
  destruct (negb _); [exact Hstop|]. case_decide; [exact Hstop|]. clear Hstop.
  assert (Hbad : ∀ u, Ok (u, close id (counted s TMalformed), x) = Ok (E:=Err) (used', s', x') → follows None s x s' x').
  { intros u [= _ <- <-]. assert (Hq : quiet s (close id (counted s TMalformed))) by (etrans; [|apply close_quiet]; by apply quiet_same).
    split; [by apply quiet_linked|exact (qu_conns _ _ Hq)]. }
  destruct (parse _) as [query| |]; [|by apply Hbad..]. destruct (h_qr _); [by apply Hbad|]. clear Hbad.
  set (client := mkClient _ _). set (s0 := logged _ _). pose proof (arm_quiet id s0) as Hq. set (s1 := arm_idle_timer _ _ _) in *.
  destruct (handler id query client x) as [[reply x1]| |] eqn:Eh; [|done..]. rewrite bind_Ok.
  assert (Hs1 : shrinks s s1) by (eapply (shrinks_trans _ s0); [by eapply shrinks_put|exact (qu_conns _ _ Hq)]).
  assert (Hl1 : linked None s x → linked ((λ m, (id, m)) <$> reply) s1 x1) by (intros Hl; eapply quiet_linked; [exact Hq|]; by eapply linked_handed).
  destruct (match reply with Some response => _ | None => _ end) as [[s2 x2]| |] eqn:E; [|done..]. rewrite bind_Ok. intros [Hl3 Hs3]%IH.
  assert (H2 : follows ((λ m, (id, m)) <$> reply) s1 x1 s2 x2).
  { destruct reply as [m|]; [by apply Hr|]. injection E as <- <-. split; [done|]. intros i ci Hi. eauto. }
  destruct H2 as [Hl2 Hs2]. split; [auto|]. eapply shrinks_trans; [exact Hs1|]. by eapply shrinks_trans.
Qed.

Lemma process_messages_follows depth id : ∀ s x s' x', process_messages clock handler sends ctl depth id s x = Ok (s', x') → follows None s x s' x'.
Proof.
  induction depth as [|depth IH]; intros s x s' x'; cbn [process_messages]; [done|].
  assert (Hstop : Ok (s, x) = Ok (E:=Err) (s', x') → follows None s x s' x') by (intros [= <- <-]; split; [done|]; intros i ci Hi; eauto).
  destruct (tl_connections s !! id) as [c|] eqn:Hc; [|exact Hstop]. destruct (c_processing c); [exact Hstop|]. clear Hstop. set (s0 := put_conn s id _).
  assert (H0 : quiet s s0) by (by eapply quiet_put). destruct (process_loop _ _ _ _ _ _ s0 x) as [[[used s1] x1]| |] eqn:E; [|done..]. rewrite bind_Ok.
  apply process_loop_follows in E as [Hl1 Hs1]; [|intros m s2 x2 s3 x3; by apply respond_follows].
  assert (H1 : follows None s x s1 x1).
  { split; [intros Hl; apply Hl1; by eapply quiet_linked|]. eapply shrinks_trans; [exact (qu_conns _ _ H0)|exact Hs1]. }
  destruct (tl_connections s1 !! id) as [c1|] eqn:Hc1; intros [= <- <-]; [|exact H1]. destruct H1 as [Hl Hs].
  assert (Hq : quiet s1 (put_conn s1 id (set_processing (set_in c1 (drop used (c_in c1))) false))) by (eapply quiet_put; [exact Hc1|done| |done..]; cbn; rewrite length_drop; lia).
  split; [intros Hk; eapply quiet_linked; [exact Hq|]; auto|]. eapply shrinks_trans; [exact Hs|exact (qu_conns _ _ Hq)].
Qed.

Lemma respond_all_follows id m s x s' x' : respond clock handler sends ctl id m s x = Ok (s', x') → follows (Some (id, m)) s x s' x'.
Proof. apply respond_follows. intros s1 x1 s2 x2. apply process_messages_follows. Qed.

(** ** Any operation *)

Lemma accept_one_linked fd peer s x : (1 ≤ tl_next_id s < 18446744073709551615)%Z → linked None s x →
  linked None (accept_one clock ctl fd peer s) x ∧ (tl_next_id s ≤ tl_next_id (accept_one clock ctl fd peer s) ≤ tl_next_id s + 1)%Z.
Proof.
  intros Hn Hl. unfold accept_one. destruct (_ || _); [split; [eapply quiet_linked; [|exact Hl]; by eapply quiet_log|cbn; lia]|].
  assert (Eu : u64 (tl_next_id s + 1) = (tl_next_id s + 1)%Z) by (apply Z.mod_small; lia).
  assert (Hl1 : ∀ l, linked None (tick (with_loop (with_next s (u64 (tl_next_id s + 1))) l)) x).
  { intros l. destruct Hl as [Ha Ht Hf Hi Hk]. split; cbn [tick with_loop with_next tl_connections tl_log tl_next_id]; rewrite ?Eu; [done|done| | |done].
    - intros id Hid. apply Hf. lia.
    - intros id c Hc%Hi. lia. }
  destruct (add_fd _ _ _ _) as [[err|] l]; specialize (Hl1 l); cbn [with_loop tick with_next tl_loop tl_connections tl_per_client] in *;
    [split; [eapply quiet_linked; [|exact Hl1]; by eapply quiet_log|cbn; lia]|].
  match goal with |- context [arm_idle_timer clock _ (counted ?s0 TAccepted)] => set (s1 := s0) end.
  pose proof (arm_quiet (tl_next_id s) (counted s1 TAccepted)) as Hq. rewrite (qu_next _ _ Hq). split; [|cbn; lia].
  eapply quiet_linked; [exact Hq|]. destruct (tl_connections s !! tl_next_id s) as [c0|] eqn:E0; [by apply (lk_ids _ _ _ Hl) in E0; lia|].
  destruct Hl1 as [Ha Ht Hf Hi Hk]. destruct (lk_fresh _ _ _ Hl (tl_next_id s) ltac:(lia)) as (F1 & F2 & F3 & F4).
  split; cbn [counted with_table s1 tick with_loop with_next tl_connections tl_log tl_next_id] in *; [..|done| |done].
  - intros id c [[<- _]|[_ Hc]]%lookup_insert_Some; [by rewrite F1, F3|by eapply Ha].
  - intros id c [[<- _]|[_ Hc]]%lookup_insert_Some; [by rewrite F2, F4|by eapply Ht].
  - intros id c [[<- _]|[_ Hc]]%lookup_insert_Some; [lia|by eapply Hi].
Qed.

Lemma accept_loop_linked fuel : ∀ accepts s x, (1 ≤ tl_next_id s)%Z → (tl_next_id s + Z.of_nat fuel < 18446744073709551616)%Z → linked None s x →
  linked None (accept_loop clock ctl fuel accepts s) x.
Proof.
  induction fuel as [|fuel IH]; intros accepts s x Hn Hf Hl; [done|]. destruct accepts as [|[| | |fd peer] accepts]; cbn [accept_loop]; [done|done| |apply IH; [done|lia|done]|].
  - destruct (add_timer _ _ _ _) as [y l]. eapply quiet_linked; [|exact Hl]. by apply quiet_same.
  - destruct (accept_one_linked fd peer s x ltac:(lia) Hl) as [Hl1 Hn1]. apply IH; [lia|lia|done].
Qed.

Lemma read_from_linked id recvs s x s' x' : read_from clock handler sends ctl id recvs s x = Ok (s', x') → linked None s x → linked None s' x'.
Proof.
  intros E Hl. unfold read_from in E. destruct (tl_connections s !! id) as [c|] eqn:Hc; [|by injection E as <- <-].
  destruct (recv_retry recvs) as [| | |[|byte bytes]]; try (injection E as <- <-); [done|done|eapply quiet_linked; [apply close_quiet|done]|eapply quiet_linked; [|exact Hl]; by eapply quiet_put|].
  apply process_messages_follows in E as [Hf _]. apply Hf. clear Hf. destruct Hl as [Ha Ht Hf Hi Hk].
  set (s1 := logged _ _). assert (Hold : ∀ i ci, tl_connections s1 !! i = Some ci → ∃ ci', tl_connections s !! i = Some ci').
  { intros i ci. cbn. intros [[<- <-]|[_ ?]]%lookup_insert_Some; eauto. }
  assert (Ep : ∀ i, passed i (tl_log s1) = passed i (tl_log s)) by (intros i; cbn [s1 logged tl_log put_conn with_table]; rewrite passed_app; apply app_nil_r).
  assert (Ew : ∀ i, answered i (tl_log s1) = answered i (tl_log s)) by (intros i; cbn [s1 logged tl_log put_conn with_table]; rewrite answered_app; apply app_nil_r).
  split; [intros i ci [ci' ?]%Hold; rewrite Ep; by eapply Ha|intros i ci [ci' ?]%Hold; rewrite Ew; by eapply Ht|intros i Hi'; rewrite Ep, Ew; by apply Hf| |intros i; by rewrite Ew].
  intros i ci [ci' ?]%Hold. by eapply Hi.
Qed.

(** What an operation owes when it starts. *)
Definition owing (op : TcpOp) : option (Z * Message) := match op with Respond id m => Some (id, m) | _ => None end.

(** Whatever the operation, the records agree afterwards. *)
Lemma tcp_exec_linked b op s x s' x' : tcp_inv calm b s → match op with AcceptReady _ => (tl_next_id s + Z.of_nat kMaxAcceptsPerWakeup < 18446744073709551616)%Z | _ => True end →
  tcp_exec clock handler sends ctl op s x = Ok (s', x') → linked (owing op) s x → linked None s' x'.
Proof.
  intros Hinv Hop E Hl. pose proof (wi_next _ _ _ _ _ _ _ _ (tv_wires _ _ _ Hinv)) as Hn. destruct op as [accepts|id events recvs|id m|at_time newest]; cbn [tcp_exec owing] in *.
  - injection E as <- <-. by apply accept_loop_linked.
  - unfold on_event in E. destruct (_ !! id); [|by injection E as <- <-]. destruct (has_events _ _); [injection E as <- <-; eapply quiet_linked; [apply close_quiet|done]|].
    destruct (if has_events _ _ then _ else _) as [[s1 x1]| |] eqn:E1; [|done..]. rewrite bind_Ok in E. injection E as <- <-.
    assert (Hl1 : linked None s1 x1) by (destruct (has_events events kReadable); [by eapply read_from_linked|by injection E1 as <- <-]).
    eapply quiet_linked; [apply update_quiet|]. destruct (has_events events kWritable); [|done]. eapply quiet_linked; [apply flush_quiet|done].
  - by apply respond_all_follows in E as [Hf _]; apply Hf.
  - destruct (pop_due _ _ _) as [[[y []] l]|]; injection E as <- <-; [eapply quiet_linked; [|exact Hl]; by apply quiet_same| |done].
    eapply quiet_linked; [apply on_idle_quiet|]. eapply quiet_linked; [|exact Hl]; by apply quiet_same.
Qed.
End steps.
