(* ===== verification/UdpListener.v ===== *)
(** * The UDP listener: [net/udp_listener.cpp]

    Receiving datagrams, handing the well-formed queries to the query handler,
    and sending each response to the client it belongs to, sized to its EDNS
    buffer, from the address the query was sent to.

    - The socket is gone ([None]) once the listener is destroyed: responders
      hold weak references only.
    - As in [TcpListener], [handler n] is the response the handler gives at
      once, if any, and [sends n] are the results of the n-th response's calls
      of [sendmsg] (when they run out, the send buffer is full).
    - [ul_log] records what is handed over and what is sent, in order. *)

From stdpp Require Import base tactics numbers list gmap fin_maps strings.
From Stdlib Require Import ZArith Lia.
From S2P Require Import Prelude Names Types Wire Builder Acl QueryProcessor EventLoop SocketAddress.

(** ** The address a query arrived on *)

Definition kMaxDatagram : Z := 65535.
Definition kMaxPacketsPerWakeup : nat := 64.
Definition IPPROTO_IP : Z := 0.
Definition IP_PKTINFO : Z := 8.
Definition IPPROTO_IPV6 : Z := 41.
Definition IPV6_PKTINFO : Z := 50.

(** A control message, with its data as bytes. *)
Record cmsghdr := mkCmsg { cmsg_level : Z; cmsg_type : Z; cmsg_data : list Z }.

(** The two structures of the kernel's, field by field, each in its bytes. *)
Record in_pktinfo := mkPktinfo { ipi_ifindex : list Z; ipi_spec_dst : list Z; ipi_addr : list Z }.
Record in6_pktinfo := mkPktinfo6 { ipi6_addr : list Z; ipi6_ifindex : list Z }.
Inductive LocalAddress := NoLocal | Local4 (info : in_pktinfo) | Local6 (info : in6_pktinfo).

Definition pktinfo_of (data : list Z) : in_pktinfo := mkPktinfo (take 4 data) (take 4 (drop 4 data)) (take 4 (drop 8 data)).
Definition pktinfo_bytes (i : in_pktinfo) : list Z := ipi_ifindex i ++ ipi_spec_dst i ++ ipi_addr i.
Definition pktinfo6_of (data : list Z) : in6_pktinfo := mkPktinfo6 (take 16 data) (take 4 (drop 16 data)).
Definition pktinfo6_bytes (i : in6_pktinfo) : list Z := ipi6_addr i ++ ipi6_ifindex i.

Fixpoint read_local_address (control : list cmsghdr) : LocalAddress :=
  match control with
  | [] => NoLocal
  | c :: control =>
    if ((cmsg_level c =? IPPROTO_IP) && (cmsg_type c =? IP_PKTINFO))%Z then Local4 (pktinfo_of (cmsg_data c)) else
    if ((cmsg_level c =? IPPROTO_IPV6) && (cmsg_type c =? IPV6_PKTINFO))%Z then Local6 (pktinfo6_of (cmsg_data c)) else
    read_local_address control
  end.

(** ** State *)

Record UdpListenerConfig := mkUdpConfig { uc_address : list Z; uc_port : Z; uc_max_response_size : Z }.

Record UdpListenerStats := mkUdpStats {
  us_queries : Z; us_dropped_malformed : Z; us_dropped_responses : Z; us_responses_sent : Z; us_send_errors : Z;
}.
Inductive UdpCounter := UQueries | UMalformed | UResponses | USent | USendErrors.
Definition udp_count (x : UdpCounter) (s : UdpListenerStats) : UdpListenerStats :=
  let up n (b : bool) := if b then u64 (n + 1) else n in
  mkUdpStats (up (us_queries s) match x with UQueries => true | _ => false end)
    (up (us_dropped_malformed s) match x with UMalformed => true | _ => false end)
    (up (us_dropped_responses s) match x with UResponses => true | _ => false end)
    (up (us_responses_sent s) match x with USent => true | _ => false end)
    (up (us_send_errors s) match x with USendErrors => true | _ => false end).

(** What [sendmsg] is given. *)
Record Packet := mkPacket { pk_bytes : list Z; pk_to : sockaddr; pk_namelen : Z; pk_control : list cmsghdr }.

(** What a responder captures. *)
Record UdpResponder := mkUdpResponder { ur_peer : sockaddr; ur_local : LocalAddress; ur_max_size : Z }.

Inductive UdpEvent :=
| UdpHanded (query : Message) (client : ClientInfo) (respond : UdpResponder)
| UdpSent (response : Message) (p : Packet) (ok : bool).

Record UdpSocket := mkUdpSocket { so_fd : Z; so_stats : UdpListenerStats }.

Inductive UdpIo := UdpReadable.
Record UdpListener := mkUdpListener {
  ul_loop : EventLoop UdpIo Empty_set; ul_socket : option UdpSocket; ul_max_response_size : Z; ul_ticks : nat; ul_log : list UdpEvent;
}.

Definition udp_counted (s : UdpListener) (x : UdpCounter) : UdpListener :=
  mkUdpListener (ul_loop s) ((λ k, mkUdpSocket (so_fd k) (udp_count x (so_stats k))) <$> ul_socket s) (ul_max_response_size s) (ul_ticks s) (ul_log s).
Definition udp_tick (s : UdpListener) : UdpListener :=
  mkUdpListener (ul_loop s) (ul_socket s) (ul_max_response_size s) (S (ul_ticks s)) (ul_log s).
Definition udp_logged (s : UdpListener) (e : UdpEvent) : UdpListener :=
  mkUdpListener (ul_loop s) (ul_socket s) (ul_max_response_size s) (ul_ticks s) (ul_log s ++ [e]).

(** ** Sending *)

(** The control message that pins the source address of a response. *)
Definition source_control (local : LocalAddress) : list cmsghdr :=
  match local with
  | NoLocal => []
  | Local4 info => [mkCmsg IPPROTO_IP IP_PKTINFO (pktinfo_bytes (mkPktinfo (replicate 4 0%Z) (ipi_spec_dst info) (ipi_addr info)))]
  | Local6 info => [mkCmsg IPPROTO_IPV6 IPV6_PKTINFO (pktinfo6_bytes info)]
  end.

Inductive SendMsg := MsgInterrupted | MsgFailed | MsgSent.

(** The [do ... while] around [sendmsg]: whether the packet was taken. *)
Fixpoint sendmsg_retry (results : list SendMsg) : bool :=
  match results with [] | MsgFailed :: _ => false | MsgSent :: _ => true | MsgInterrupted :: results => sendmsg_retry results end.

Section listener.
Context (handler : nat → option Message) (sends : nat → list SendMsg).

Definition send (response : Message) (peer : sockaddr) (local : LocalAddress) (max_size : Z) (s : UdpListener) : UdpListener :=
  let bytes := build response (mkOptions max_size true) in
  let packet := mkPacket bytes peer (address_length peer) (source_control local) in
  let ok := sendmsg_retry (sends (ul_ticks s)) in
  udp_counted (udp_logged (udp_tick s) (UdpSent response packet ok)) (if ok then USent else USendErrors).

(** Calling a responder: nothing once the socket is gone. *)
Definition udp_respond (r : UdpResponder) (response : Message) (s : UdpListener) : UdpListener :=
  match ul_socket s with None => s | Some _ => send response (ur_peer r) (ur_local r) (ur_max_size r) s end.

(** ** Receiving *)

Inductive RecvMsg := DatagramAgain | DatagramError | Datagram (bytes : list Z) (peer : sockaddr) (control : list cmsghdr).

Definition on_datagram (bytes : list Z) (peer : sockaddr) (control : list cmsghdr) (s : UdpListener) : UdpListener :=
  match parse (take (Z.to_nat kMaxDatagram) bytes) with
  | Ok query =>
    if h_qr (m_header query) then udp_counted s UResponses else
    let s := udp_counted s UQueries in
    let max_size := max_udp_response_size (m_edns query) (ul_max_response_size s) in
    let r := mkUdpResponder peer (read_local_address control) max_size in
    let s := udp_logged s (UdpHanded query (mkClient peer Udp) r) in
    match handler (ul_ticks s) with Some response => udp_respond r response (udp_tick s) | None => udp_tick s end
  | _ => udp_counted s UMalformed
  end.

(** The [for] of [on_readable]. *)
Fixpoint readable_loop (i : nat) (recvs : list RecvMsg) (s : UdpListener) : UdpListener :=
  match i, recvs with
  | 0, _ | _, [] | _, DatagramAgain :: _ => s
  | S i, DatagramError :: recvs => readable_loop i recvs s
  | S i, Datagram bytes peer control :: recvs => readable_loop i recvs (on_datagram bytes peer control s)
  end.
Definition on_readable : list RecvMsg → UdpListener → UdpListener := readable_loop kMaxPacketsPerWakeup.

(** ** Setup and teardown *)

(** What the system calls of [create] return. *)
Record BindCalls := mkBindCalls { bc_socket : Z; bc_options_ok : bool; bc_bind_ok : bool; bc_bound : option sockaddr; bc_add_fd_ok : bool }.

(** The descriptors closed, and the listener and its port, if all went well. *)
Definition create_udp `{InetPton} (l : EventLoop UdpIo Empty_set) (cfg : UdpListenerConfig) (calls : BindCalls) :
    list Z * option (UdpListener * Z) :=
  match make_address (uc_address cfg) (uc_port cfg) with
  | None => ([], None)
  | Some _ =>
    let fd := bc_socket calls in
    if (fd <? 0)%Z then ([], None) else
    if negb (bc_options_ok calls && bc_bind_ok calls) then ([fd], None) else
    match bc_bound calls with
    | None => ([fd], None)
    | Some bound =>
      match add_fd l fd UdpReadable (bc_add_fd_ok calls) with
      | (Some _, _) => ([fd], None)
      | (None, l) =>
        ([], Some (mkUdpListener l (Some (mkUdpSocket fd (mkUdpStats 0 0 0 0 0))) (uc_max_response_size cfg) 0 [], port_of bound))
      end
    end
  end.

(** [remove_fd], and the socket closed with its last owner. *)
Definition destroy_udp (s : UdpListener) : list Z * UdpListener :=
  match ul_socket s with
  | None => ([], s)
  | Some k => ([so_fd k], mkUdpListener (remove_fd (ul_loop s) (so_fd k)) None (ul_max_response_size s) (ul_ticks s) (ul_log s))
  end.

(** ** Operations, as the event loop, the handler and the owner cause them *)

Inductive UdpOp := UdpReady (recvs : list RecvMsg) | UdpRespond (r : UdpResponder) (response : Message) | UdpDestroy.

Definition udp_exec (op : UdpOp) (s : UdpListener) : UdpListener :=
  match op with
  | UdpReady recvs => match ul_socket s with Some _ => on_readable recvs s | None => s end
  | UdpRespond r response => udp_respond r response s
  | UdpDestroy => (destroy_udp s).2
  end.

Definition udp_run (ops : list UdpOp) (s : UdpListener) : UdpListener := fold_left (λ s op, udp_exec op s) ops s.
End listener.
