(* ===== verification/UdpProps.v ===== *)
(** * What the UDP listener guarantees

    Over any run: exactly the datagrams that are well-formed queries reach the
    handler, in order, and every packet sent answers one of them: it goes to
    that query's sender, from the address it was sent to, within the size the
    sender can take. *)

From stdpp Require Import base tactics numbers list gmap fin_maps strings.
From Stdlib Require Import ZArith Lia.
From S2P Require Import Prelude Names Types Wire Builder Acl QueryProcessor EventLoop SocketAddress UdpListener.

(** ** The reference: what should be handed over *)

Definition datagram : Type := list Z * sockaddr * list cmsghdr.

(** The datagrams of one wakeup. *)
Fixpoint datagrams (n : nat) (recvs : list RecvMsg) : list datagram :=
  match n, recvs with
  | 0, _ | _, [] | _, DatagramAgain :: _ => []
  | S n, DatagramError :: recvs => datagrams n recvs
  | S n, Datagram bytes peer control :: recvs => (take (Z.to_nat kMaxDatagram) bytes, peer, control) :: datagrams n recvs
  end.

Fixpoint received (ops : list UdpOp) : list datagram :=
  match ops with
  | [] | UdpDestroy :: _ => []
  | UdpReady recvs :: ops => datagrams kMaxPacketsPerWakeup recvs ++ received ops
  | UdpRespond _ _ :: ops => received ops
  end.

Definition kind_of (d : datagram) : UdpCounter :=
  match parse d.1.1 with Ok query => if h_qr (m_header query) then UResponses else UQueries | _ => UMalformed end.

(** What the handler is given for a datagram. *)
Definition query_of (limit : Z) (d : datagram) : option (Message * ClientInfo * UdpResponder) :=
  match parse d.1.1 with
  | Ok query =>
    if h_qr (m_header query) then None else
    Some (query, mkClient d.1.2 Udp, mkUdpResponder d.1.2 (read_local_address d.2) (max_udp_response_size (m_edns query) limit))
  | _ => None
  end.

Definition udp_handed (log : list UdpEvent) : list (Message * ClientInfo * UdpResponder) :=
  omap (λ e, match e with UdpHanded query client r => Some (query, client, r) | _ => None end) log.
Definition udp_sends (b : bool) (log : list UdpEvent) : list Packet :=
  omap (λ e, match e with UdpSent _ p ok => if eqb ok b then Some p else None | _ => None end) log.

#[global] Instance UdpCounter_eq_dec : EqDecision UdpCounter.
Proof. solve_decision. Defined.
Definition of_kind (x : UdpCounter) (ds : list datagram) : list datagram := filter (λ d, kind_of d = x) ds.

(** The packet a responder sends. *)
Definition reply_packet (r : UdpResponder) (response : Message) : Packet :=
  mkPacket (build response (mkOptions (ur_max_size r) true)) (ur_peer r) (address_length (ur_peer r)) (source_control (ur_local r)).

(** ** The reference: the address a reply comes from

    As ip(7) and ipv6(7) have it.  The control message IP_PKTINFO (level 0, type
    8) of a datagram received holds the interface, the local address it arrived
    on and the destination in its header, four bytes each; given to [sendmsg],
    the second is the source address, and an interface of 0 leaves the route to
    the system.  IPV6_PKTINFO (level 41, type 50) holds the 16 bytes of the
    address and the interface, both ways. *)

Definition is_pktinfo4 (c : cmsghdr) : Prop := cmsg_level c = 0%Z ∧ cmsg_type c = 8%Z.
Definition is_pktinfo6 (c : cmsghdr) : Prop := cmsg_level c = 41%Z ∧ cmsg_type c = 50%Z.

(** What the system gives: whole structures. *)
Definition control_wf (control : list cmsghdr) : Prop :=
  Forall (λ c, (is_pktinfo4 c → length (cmsg_data c) = 12) ∧ (is_pktinfo6 c → length (cmsg_data c) = 20)) control.

Definition no_pktinfo (control : list cmsghdr) : Prop := Forall (λ c, ¬ is_pktinfo4 c ∧ ¬ is_pktinfo6 c) control.

(** [replies_from asked reply]: a datagram that came with [asked] is answered
    with [reply], from the address it arrived on. *)
Inductive replies_from : list cmsghdr → list cmsghdr → Prop :=
| from_address4 before interface arrived_on destination after :
    no_pktinfo before → length interface = 4 → length arrived_on = 4 → length destination = 4 →
    replies_from (before ++ mkCmsg 0 8 (interface ++ arrived_on ++ destination) :: after)
      [mkCmsg 0 8 ([0; 0; 0; 0]%Z ++ arrived_on ++ destination)]
| from_address6 before arrived_on interface after :
    no_pktinfo before → length arrived_on = 16 → length interface = 4 →
    replies_from (before ++ mkCmsg 41 50 (arrived_on ++ interface) :: after) [mkCmsg 41 50 (arrived_on ++ interface)]
| from_any control : no_pktinfo control → replies_from control [].

Lemma replies_from_cons c asked reply : ¬ is_pktinfo4 c → ¬ is_pktinfo6 c → replies_from asked reply → replies_from (c :: asked) reply.
Proof.
  intros H4 H6 [before i a d after Hb|before a i after Hb|control Hb]; [rewrite app_comm_cons; constructor..|constructor]; try done; by constructor.
Qed.

Lemma pktinfo_split (data : list Z) : length data = 12 → ∃ i a d, data = i ++ a ++ d ∧ length i = 4 ∧ length a = 4 ∧ length d = 4.
Proof.
  intros Hl. exists (take 4 data), (take 4 (drop 4 data)), (drop 8 data). rewrite !length_take, !length_drop, Hl. split_and!; try done.
  rewrite <-(take_drop 4 data) at 1. f_equal. by rewrite <-(take_drop 4 (drop 4 data)) at 1; rewrite drop_drop.
Qed.

Lemma source_control_spec control : control_wf control → replies_from control (source_control (read_local_address control)).
Proof.
  induction 1 as [|[level type data] control [H4 H6] _ IH]; cbn [read_local_address cmsg_level cmsg_type cmsg_data] in *; [apply from_any; constructor|].
  unfold is_pktinfo4, is_pktinfo6 in *. cbn [cmsg_level cmsg_type cmsg_data] in *. unfold IPPROTO_IP, IP_PKTINFO, IPPROTO_IPV6, IPV6_PKTINFO.
  destruct ((level =? 0) && (type =? 8))%Z eqn:E4.
  { apply andb_true_iff in E4 as [->%Z.eqb_eq ->%Z.eqb_eq]. destruct (pktinfo_split data) as (i & a & d & -> & Hi & Ha & Hd); [by apply H4|].
    unfold pktinfo_of. cbn [source_control pktinfo_bytes ipi_ifindex ipi_spec_dst ipi_addr].
    rewrite (drop_app_length' i), (take_app_length' a) by done. assert (drop 8 (i ++ a ++ d) = d) as -> by (rewrite app_assoc, drop_app_length'; [done|by rewrite length_app, Hi, Ha]).
    rewrite (take_ge d) by lia.
    apply (from_address4 [] i a d control); [constructor|done..]. }
  destruct ((level =? 41) && (type =? 50))%Z eqn:E6.
  { apply andb_true_iff in E6 as [->%Z.eqb_eq ->%Z.eqb_eq]. rewrite <-(take_drop 16 data) at 1.
    unfold pktinfo6_of. cbn [source_control pktinfo6_bytes ipi6_addr ipi6_ifindex]. rewrite (take_ge (drop 16 data)) by (rewrite length_drop; lia).
    apply (from_address6 [] (take 16 data) (drop 16 data) control); [constructor|rewrite length_take; lia|rewrite length_drop; lia]. }
  apply replies_from_cons; [..|exact IH]; unfold is_pktinfo4, is_pktinfo6; cbn; lia.
Qed.

(** ** The invariant *)

Record udp_stats_ok (ds : list datagram) (log : list UdpEvent) (st : UdpListenerStats) : Prop := {
  uk_queries : us_queries st = u64 (zlen (of_kind UQueries ds));
  uk_malformed : us_dropped_malformed st = u64 (zlen (of_kind UMalformed ds));
  uk_responses : us_dropped_responses st = u64 (zlen (of_kind UResponses ds));
  uk_sent : us_responses_sent st = u64 (zlen (udp_sends true log));
  uk_errors : us_send_errors st = u64 (zlen (udp_sends false log));
}.

Record udp_inv (limit : Z) (ds : list datagram) (s : UdpListener) : Prop := {
  uv_limit : ul_max_response_size s = limit;
  uv_handed : udp_handed (ul_log s) = omap (query_of limit) ds;
  uv_sends : ∀ pre response p ok post, ul_log s = pre ++ UdpSent response p ok :: post →
    ∃ query client r, UdpHanded query client r ∈ pre ∧ p = reply_packet r response;
  uv_stats : ∀ k, ul_socket s = Some k → udp_stats_ok ds (ul_log s) (so_stats k);
}.

Lemma omap_snoc {A B} (f : A → option B) xs x : omap f (xs ++ [x]) = omap f xs ++ option_list (f x).
Proof. rewrite omap_app. cbn. by destruct (f x). Qed.

Lemma of_kind_snoc x ds d : of_kind x (ds ++ [d]) = of_kind x ds ++ (if decide (kind_of d = x) then [d] else []).
Proof. unfold of_kind. by rewrite filter_app. Qed.

Lemma queries_handed limit ds : zlen (omap (query_of limit) ds) = zlen (of_kind UQueries ds).
Proof.
  unfold zlen. f_equal. induction ds as [|d ds IH]; [done|]. unfold of_kind in *. cbn [omap list_omap]. rewrite filter_cons.
  assert (Hq : kind_of d = UQueries ↔ is_Some (query_of limit d)).
  { unfold kind_of, query_of. destruct (parse d.1.1) as [q| |]; [|by split; [|intros []]..]. destruct (h_qr _); by split; [|intros []]. }
  case_decide as E; [apply Hq in E as [x ->]; cbn [length]; by rewrite <-IH|]. destruct (query_of limit d) eqn:Ed; [|exact IH]. exfalso. apply E, Hq. by eexists.
Qed.

Lemma udp_sends_snoc b log e : udp_sends b (log ++ [e]) =
  udp_sends b log ++ option_list match e with UdpSent _ p ok => if eqb ok b then Some p else None | _ => None end.
Proof. apply omap_snoc. Qed.

Lemma u64_succ n : u64 (u64 n + 1) = u64 (n + 1).
Proof. unfold u64. by rewrite Z.add_mod_idemp_l. Qed.

Lemma snoc_split {A} (xs pre post : list A) x y : xs ++ [x] = pre ++ y :: post → (post = [] ∧ xs = pre ∧ x = y) ∨ ∃ post', xs = pre ++ y :: post'.
Proof.
  destruct post as [|z post' _] using rev_ind.
  - intros [-> [= ->]]%app_inj_tail. by left.
  - rewrite app_comm_cons, app_assoc. intros [-> _]%app_inj_tail. right. by exists post'.
Qed.

Section ops.
Context (handler : nat → option Message) (sends : nat → list SendMsg) (limit : Z).

Lemma udp_tick_inv ds s : udp_inv limit ds s → udp_inv limit ds (udp_tick s).
Proof. by intros []. Qed.

(** Dropping a datagram. *)
Lemma udp_drop_inv ds s d : udp_inv limit ds s → kind_of d ≠ UQueries → query_of limit d = None → udp_inv limit (ds ++ [d]) (udp_counted s (kind_of d)).
Proof.
  intros [Hl Hh Hs Hst] Hk Hq. split; [done| |done|].
  - cbn [udp_counted ul_log]. by rewrite Hh, omap_snoc, Hq, app_nil_r.
  - cbn [udp_counted ul_socket ul_log]. destruct (ul_socket s) as [k|]; [|done]. intros k' [= <-]. destruct (Hst k eq_refl) as [H1 H2 H3 H4 H5].
    split; cbn; rewrite ?H1, ?H2, ?H3, ?H4, ?H5, ?of_kind_snoc; unfold kind_of in *; destruct (parse d.1.1) as [q| |]; try (destruct (h_qr _)); try done;
      rewrite ?u64_succ, ?app_nil_r, ?zlen_app; done.
Qed.

Lemma udp_respond_inv ds s r response : udp_inv limit ds s → (∃ query client, UdpHanded query client r ∈ ul_log s) → udp_inv limit ds (udp_respond sends r response s).
Proof.
  intros Hi (query & client & Hin). pose proof Hi as [Hl Hh Hs Hst]. unfold udp_respond. destruct (ul_socket s) as [k|] eqn:Ek; [|done]. unfold send.
  set (ok := sendmsg_retry _). split; [done| | |].
  - cbn [udp_counted udp_logged udp_tick ul_log]. unfold udp_handed. rewrite omap_snoc. cbn. by rewrite app_nil_r.
  - cbn [udp_counted udp_logged udp_tick ul_log]. intros pre rsp p ok' post [(-> & <- & [= <- <- <-])|(post' & E)]%snoc_split; [|by eapply Hs]. by exists query, client, r.
  - cbn [udp_counted udp_logged udp_tick ul_socket ul_log]. rewrite Ek. intros k' [= <-]. destruct (Hst k eq_refl) as [H1 H2 H3 H4 H5].
    destruct ok; split; cbn; rewrite ?udp_sends_snoc, ?H1, ?H2, ?H3, ?H4, ?H5, ?u64_succ, ?app_nil_r, ?zlen_app; done.
Qed.

Lemma udp_handed_inv ds s d query client r : udp_inv limit ds s → kind_of d = UQueries → query_of limit d = Some (query, client, r) →
  udp_inv limit (ds ++ [d]) (udp_logged (udp_counted s UQueries) (UdpHanded query client r)).
Proof.
  intros [Hl Hh Hs Hst] Hk Hq. split; [done| | |].
  - cbn [udp_counted udp_logged ul_log]. unfold udp_handed in *. by rewrite !omap_snoc, Hh, Hq.
  - cbn [udp_counted udp_logged ul_log]. intros pre rsp p ok' post [(-> & <- & [=])|(post' & E)]%snoc_split. by eapply Hs.
  - cbn [udp_counted udp_logged ul_socket ul_log]. destruct (ul_socket s) as [k|]; [|done]. intros k' [= <-]. destruct (Hst k eq_refl) as [H1 H2 H3 H4 H5].
    split; cbn; rewrite ?udp_sends_snoc, ?H1, ?H2, ?H3, ?H4, ?H5, ?of_kind_snoc, ?Hk, ?u64_succ, ?app_nil_r, ?zlen_app; done.
Qed.

Lemma on_datagram_inv ds s bytes peer control : udp_inv limit ds s →
  udp_inv limit (ds ++ [(take (Z.to_nat kMaxDatagram) bytes, peer, control)]) (on_datagram handler sends bytes peer control s).
Proof.
  intros Hi. unfold on_datagram. set (d := (_, peer, control)). pose proof (uv_limit _ _ _ Hi) as El. change (take _ bytes) with d.1.1.
  pose proof (udp_drop_inv ds s d Hi) as Hdrop. pose proof (udp_handed_inv ds s d) as Hhand. unfold kind_of, query_of in Hdrop, Hhand.
  destruct (parse d.1.1) as [query| |]; [|by apply Hdrop..]. destruct (h_qr _); [by apply Hdrop|].
  cbn [udp_counted ul_max_response_size]. rewrite El. set (r := mkUdpResponder _ _ _). specialize (Hhand _ _ _ Hi eq_refl eq_refl).
  destruct (handler _); apply udp_tick_inv in Hhand; [|exact Hhand]. apply udp_respond_inv; [exact Hhand|].
  exists query, (mkClient peer Udp). cbn [udp_tick udp_logged ul_log]. apply elem_of_app. right. by apply list_elem_of_singleton.
Qed.

Lemma readable_loop_inv n : ∀ recvs ds s, udp_inv limit ds s → udp_inv limit (ds ++ datagrams n recvs) (readable_loop handler sends n recvs s).
Proof.
  induction n as [|n IH]; intros recvs ds s Hi; [by rewrite app_nil_r|]. destruct recvs as [|[| |bytes peer control] recvs]; cbn [datagrams readable_loop];
    [by rewrite app_nil_r|by rewrite app_nil_r|by apply IH|]. rewrite cons_middle, app_assoc. by apply IH, on_datagram_inv.
Qed.

(** ** Runs *)

(** Only responders that were handed over are called. *)
Fixpoint responders_handed (ops : list UdpOp) (s : UdpListener) : Prop :=
  match ops with
  | [] => True
  | op :: ops =>
    match op with UdpRespond r _ => ∃ query client, UdpHanded query client r ∈ ul_log s | _ => True end ∧
    responders_handed ops (udp_exec handler sends op s)
  end.

(** Once the socket is gone, nothing happens any more. *)
Lemma udp_gone ops s : ul_socket s = None → udp_run handler sends ops s = s.
Proof.
  intros Hs. unfold udp_run. induction ops as [|op ops IH]; [done|]. cbn [fold_left].
  assert (udp_exec handler sends op s = s) as -> by (destruct op; cbn [udp_exec]; unfold udp_respond, destroy_udp; by rewrite Hs). exact IH.
Qed.

Lemma on_readable_socket n : ∀ recvs s, is_Some (ul_socket s) → is_Some (ul_socket (readable_loop handler sends n recvs s)).
Proof.
  assert (Hc : ∀ s x, is_Some (ul_socket s) → is_Some (ul_socket (udp_counted s x))) by (intros s x [k Hk]; cbn; rewrite Hk; by eexists).
  assert (Hr : ∀ r m s, is_Some (ul_socket s) → is_Some (ul_socket (udp_respond sends r m s))).
  { intros r m s Hs. unfold udp_respond. destruct (ul_socket s) eqn:E; [|done]. unfold send. by apply Hc. }
  induction n as [|n IH]; intros recvs s Hs; [done|]. destruct recvs as [|[| |bytes peer control] recvs]; cbn [readable_loop]; [done|done|by apply IH|].
  apply IH. unfold on_datagram. destruct (parse _); [|by apply Hc..]. destruct (h_qr _); [by apply Hc|]. cbv zeta.
  destruct (handler _); [apply Hr|]; cbn [udp_tick udp_logged ul_socket]; by apply Hc.
Qed.

Lemma udp_run_inv ops : ∀ ds s, udp_inv limit ds s → is_Some (ul_socket s) → responders_handed ops s →
  udp_inv limit (ds ++ received ops) (udp_run handler sends ops s).
Proof.
  induction ops as [|op ops IH]; intros ds s Hi Hs Hr; [by rewrite app_nil_r|].
  change (udp_run handler sends (op :: ops) s) with (udp_run handler sends ops (udp_exec handler sends op s)). destruct Hr as [Hop Hr].
  destruct op as [recvs|r response|]; cbn [received udp_exec] in *.
  - destruct (ul_socket s) eqn:Es; [|by destruct Hs]. rewrite app_assoc. apply IH; [by apply readable_loop_inv| |done]. apply on_readable_socket. by rewrite Es.
  - apply IH; [by apply udp_respond_inv| |done]. unfold udp_respond. destruct (ul_socket s) eqn:E; [|done]. unfold send. cbn. rewrite E. by eexists.
  - rewrite app_nil_r. destruct Hs as [k Hk]. unfold destroy_udp in *. rewrite Hk in *. cbn [snd] in *. rewrite udp_gone by done. destruct Hi. by split.
Qed.
End ops.

Lemma create_udp_inv `{InetPton} l cfg calls closed s port : create_udp l cfg calls = (closed, Some (s, port)) →
  udp_inv (uc_max_response_size cfg) [] s ∧ is_Some (ul_socket s) ∧ ul_log s = [].
Proof.
  unfold create_udp. destruct (make_address _ _); [|done]. destruct (_ <? _)%Z; [done|]. destruct (negb _); [done|]. destruct (bc_bound calls); [|done].
  destruct (add_fd _ _ _ _) as [[|] l']; [done|]. intros [= <- <- <-]. split_and!; [|by eexists|done]. split; try done.
  - by intros [] ? ? ? ?.
  - by intros k [= <-].
Qed.

(** ** The properties *)

Section props.
Context `{InetPton} (handler : nat → option Message) (sends : nat → list SendMsg).
Context (l : EventLoop UdpIo Empty_set) (cfg : UdpListenerConfig) (calls : BindCalls) (closed : list Z) (s0 : UdpListener) (port : Z).
Context (Hcreated : create_udp l cfg calls = (closed, Some (s0, port))).

(** Over any run of a listener that [create] gave, the queries handed to
    the handler are exactly the datagrams received, up to 64 per wakeup and
    until the listener is destroyed, that parse and are not responses: each
    once, in order, with its sender and a responder that knows the sender, the
    address asked and the size allowed.  While the socket is open every counter
    is the number of datagrams or packets it names, modulo 2^64. *)
Lemma udp_queries_handed ops : responders_handed handler sends ops s0 →
  let s := udp_run handler sends ops s0 in
  udp_handed (ul_log s) = omap (query_of (uc_max_response_size cfg)) (received ops) ∧
  ∀ k, ul_socket s = Some k →
    us_queries (so_stats k) = u64 (zlen (udp_handed (ul_log s))) ∧
    us_dropped_malformed (so_stats k) = u64 (zlen (of_kind UMalformed (received ops))) ∧
    us_dropped_responses (so_stats k) = u64 (zlen (of_kind UResponses (received ops))) ∧
    us_responses_sent (so_stats k) = u64 (zlen (udp_sends true (ul_log s))) ∧
    us_send_errors (so_stats k) = u64 (zlen (udp_sends false (ul_log s))).
Proof using Hcreated.
  intros Hr s. destruct (create_udp_inv _ _ _ _ _ _ Hcreated) as (Hi & Hs & _). destruct (udp_run_inv handler sends _ ops [] s0 Hi Hs Hr) as [_ Hh _ Hst].
  rewrite app_nil_l in Hh, Hst. fold s in Hh, Hst. split; [exact Hh|]. intros k Hk. destruct (Hst k Hk) as [H1 H2 H3 H4 H5].
  split_and!; [|done..]. by rewrite H1, Hh, queries_handed.
Qed.

(** C36: every packet answers a datagram received before: a well-formed query,
    handed over before the packet was given to the system.  It goes to that
    datagram's sender, from the very address the datagram arrived on: its control
    message pins that address as the source, on any interface for IPv4 and on the
    same one for IPv6, and there is none only if the datagram had none.  Without
    EDNS it is at most 512 bytes, and otherwise within the size the sender
    advertised, or 512 if it advertised less, and within the listener's own
    limit.  Nothing is ever sent for garbage or for a response. *)
Theorem udp_replies_sound ops pre response p ok post : responders_handed handler sends ops s0 →
  ul_log (udp_run handler sends ops s0) = pre ++ UdpSent response p ok :: post →
  ∃ d query r, d ∈ received ops ∧ parse d.1.1 = Ok query ∧ h_qr (m_header query) = false ∧ UdpHanded query (mkClient d.1.2 Udp) r ∈ pre ∧
    pk_bytes p = build response (mkOptions (ur_max_size r) true) ∧ pk_to p = d.1.2 ∧ pk_namelen p = address_length d.1.2 ∧
    (control_wf d.2 → replies_from d.2 (pk_control p)) ∧
    (zlen (pk_bytes p) ≤ Z.max (uc_max_response_size cfg) kClassicUdpSize)%Z ∧
    (zlen (pk_bytes p) ≤ match m_edns query with Some e => Z.max (e_udp_payload_size e) kClassicUdpSize | None => kClassicUdpSize end)%Z.
Proof using Hcreated.
  intros Hr El. destruct (create_udp_inv _ _ _ _ _ _ Hcreated) as (Hi & Hs & _). destruct (udp_run_inv handler sends _ ops [] s0 Hi Hs Hr) as [_ Hh Hsend _].
  destruct (Hsend _ _ _ _ _ El) as (query & client & r & Hin & Hp).
  assert (Hq : (query, client, r) ∈ udp_handed (ul_log (udp_run handler sends ops s0))).
  { apply list_elem_of_omap. exists (UdpHanded query client r). split; [|done]. rewrite El. apply elem_of_app. by left. }
  rewrite Hh in Hq. apply list_elem_of_omap in Hq as (d & Hd & Eq). unfold query_of in Eq. destruct (parse d.1.1) as [q| |] eqn:Ep; [|done..].
  destruct (h_qr _) eqn:Eqr; [done|]. injection Eq as <- <- Er. exists d, q, r. subst r p. cbn [reply_packet ur_max_size ur_peer ur_local pk_bytes] in *.
  pose proof (build_size response (mkOptions (max_udp_response_size (m_edns q) (uc_max_response_size cfg)) true)) as Hb. cbn [o_max_size] in Hb.
  split_and!; try done; [by apply source_control_spec|..].
  - pose proof (max_udp_response_size_bounds (m_edns q) (uc_max_response_size cfg)). lia.
  - unfold max_udp_response_size, clamp in *. destruct (m_edns q) as [e|]; [|lia].
    destruct (Z.ltb_spec (e_udp_payload_size e) kClassicUdpSize); [lia|]. destruct (Z.ltb_spec (Z.max (uc_max_response_size cfg) kClassicUdpSize) (e_udp_payload_size e)); lia.
Qed.
End props.

(** ** A run *)

Definition ex_udp_config : UdpListenerConfig := mkUdpConfig (str "192.168.0.0") 53 1232.
Definition ex_udp_calls : BindCalls := mkBindCalls 3 true true (Some (SockV4 [192; 168; 0; 0]%Z 5353)) true.
Definition ex_udp_peer : sockaddr := SockV4 [10; 0; 0; 1]%Z 4000.
Definition ex_udp_control : list cmsghdr := [mkCmsg 0 8 [2; 0; 0; 0; 192; 168; 0; 5; 192; 168; 0; 5]%Z].
Definition ex_udp_answer : Message :=
  mkMessage (mkHeader 7 true 0 false false true true false false RCode.NoError 0 0 0 0) [mkQuestion ex_name RRType.A 1] [] [] [] None.

(** A query that is answered at once, garbage, and a response that is not. *)
Definition ex_udp_handler (n : nat) : option Message := if decide (n = 0) then Some ex_udp_answer else None.
Definition ex_udp_sends (_ : nat) : list SendMsg := [MsgInterrupted; MsgSent].
Definition ex_udp_ops : list UdpOp :=
  [UdpReady [DatagramError; Datagram Wire.ex_query ex_udp_peer ex_udp_control; Datagram [1; 2]%Z ex_udp_peer [];
             Datagram (build ex_udp_answer (mkOptions 512 true)) ex_udp_peer []; DatagramAgain]].
Definition ex_udp_start : UdpListener :=
  mkUdpListener (add_fd new_loop 3 UdpReadable true).2 (Some (mkUdpSocket 3 (mkUdpStats 0 0 0 0 0))) 1232 0 [].

Lemma ex_udp_created : create_udp (H:=ex_pton) new_loop ex_udp_config ex_udp_calls = ([], Some (ex_udp_start, 5353%Z)).
Proof. vm_compute. reflexivity. Qed.

Lemma udp_queries_handed_witness : length (udp_handed (ul_log (udp_run ex_udp_handler ex_udp_sends ex_udp_ops ex_udp_start))) = 1.
Proof.
  destruct (udp_queries_handed (H:=ex_pton) ex_udp_handler ex_udp_sends _ _ _ _ _ _ ex_udp_created ex_udp_ops) as [Hh _]; [by split|].
  rewrite Hh. vm_compute. reflexivity.
Defined.

Definition ex_udp_log : list UdpEvent := Eval vm_compute in ul_log (udp_run ex_udp_handler ex_udp_sends ex_udp_ops ex_udp_start).
Definition ex_udp_packet : Packet := match ex_udp_log with [_; UdpSent _ p _] => p | _ => mkPacket [] SockOther 0 [] end.

(** The packet is sent from 192.168.0.5, where the query arrived. *)
Lemma udp_replies_sound_witness : ∃ d, d ∈ received ex_udp_ops ∧ pk_to ex_udp_packet = d.1.2 ∧ (control_wf d.2 → replies_from d.2 (pk_control ex_udp_packet)).
Proof.
  destruct (udp_replies_sound (H:=ex_pton) ex_udp_handler ex_udp_sends _ _ _ _ _ _ ex_udp_created ex_udp_ops (take 1 ex_udp_log) ex_udp_answer ex_udp_packet true [])
    as (d & q & r & Hd & _ & _ & _ & _ & Hto & _ & Hfrom & _); [by split|vm_compute; reflexivity|]. exists d. split_and!; [exact Hd|exact Hto|exact Hfrom].
Defined.

Example ex_udp_source : control_wf ex_udp_control ∧ pk_control ex_udp_packet = [mkCmsg 0 8 [0; 0; 0; 0; 192; 168; 0; 5; 192; 168; 0; 5]%Z].
Proof. split; [|reflexivity]. constructor; [by split; [|intros []]|constructor]. Qed.
