(* ===== verification/Server.v ===== *)
(** * The server: the service behind its two listeners

    Both listeners hand their queries to the service, and the service's replies
    leave through them: from datagram to packet, and from one stream to the
    other.

    - A reply goes back through the responder its query came with ([Responder]):
      the datagram's sender, or the connection.
    - A query that is answered at once is answered from inside the listener's
      call of the handler.  The others are answered as the resolver's callbacks
      are delivered, one after the other ([server_deliver]): [finish] runs them
      last, so that nothing of the resolver's operation is left to do when the
      first one runs.  A reply over TCP may let in queries that were waiting
      behind the pipelining limit, which go to the pipeline and the resolver
      before the next callback runs.
    - [Sockets] is what the system calls of the listeners return. *)

From stdpp Require Import base tactics numbers list gmap fin_maps.
From Stdlib Require Import ZArith Lia.
From S2P Require Import Prelude Names Types Wire Builder Acl Rrl Rebinding Blocklist Blocklists Trie EventLoop Interfaces ServerSelection.
From S2P Require Import Resolver ResolverLinks ResolverInv ResolverSteps ResolverProps ResolverLog ResolverRuns.
From S2P Require Import QueryProcessor Service ServiceProps SocketAddress TcpListener TcpProofs TcpLinks UdpListener UdpProps.

(** What a responder captures. *)
Inductive Responder := UdpTo (r : UdpResponder) | TcpTo (id : Z).

Record Sockets := mkSockets {
  so_sends : nat → list SendMsg; so_clock : nat → Z; so_tcp_sends : nat → list Upstream.SendResult; so_ctl : nat → bool;
}.

(** The reply given at once. *)
Definition first_reply {L C U R} (s s' : Service L C U R) : option Message := snd <$> head (new_replies s s').

Section server.
Context `{InetPton} {L T : Type} `{RateLimit L} `{Blocklist T} {C U : Type} `{AnswerCache C} `{Interfaces.UpstreamService U}.
Context (clock : nat → Z) (random : nat → Z → Z) (case_bits : nat → nat → Z) (calls : nat → Upstream.SendCalls) (times : nat → Z) (net : Sockets).

Record Server := mkServer { sr_service : Service L C U Responder; sr_udp : UdpListener; sr_tcp : TcpListener }.

(** ** Over UDP *)

(** One datagram, through the handler. *)
Definition server_datagram (lists : Lists (T:=T)) (bytes : list Z) (peer : sockaddr) (control : list cmsghdr) (s : Server) :
    outcome SubnetError Server :=
  match query_of (ul_max_response_size (sr_udp s)) (take (Z.to_nat kMaxDatagram) bytes, peer, control) with
  | None => Ok (mkServer (sr_service s) (on_datagram (λ _, None) (so_sends net) bytes peer control (sr_udp s)) (sr_tcp s))
  | Some (query, client, r) =>
    service ← handle_query clock random case_bits calls times lists query client (UdpTo r) (sr_service s);
    Ok (mkServer service (on_datagram (λ _, first_reply (sr_service s) service) (so_sends net) bytes peer control (sr_udp s)) (sr_tcp s))
  end.

(** [on_readable]. *)
Fixpoint server_readable (lists : Lists (T:=T)) (i : nat) (recvs : list RecvMsg) (s : Server) : outcome SubnetError Server :=
  match i, recvs with
  | 0, _ | _, [] | _, DatagramAgain :: _ => Ok s
  | S i, DatagramError :: recvs => server_readable lists i recvs s
  | S i, Datagram bytes peer control :: recvs =>
    s ← server_datagram lists bytes peer control s; server_readable lists i recvs s
  end.

(** ** Over TCP *)

Definition tcp_handler (lists : Lists (T:=T)) (id : Z) (query : Message) (client : ClientInfo) (service : Service L C U Responder) :
    outcome SubnetError (option Message * Service L C U Responder) :=
  service' ← handle_query clock random case_bits calls times lists query client (TcpTo id) service;
  Ok (first_reply service service', service').

Definition server_tcp (lists : Lists (T:=T)) (op : TcpOp) (s : Server) : outcome SubnetError Server :=
  '(tcp, service) ← tcp_exec (so_clock net) (tcp_handler lists) (so_tcp_sends net) (so_ctl net) op (sr_tcp s) (sr_service s);
  Ok (mkServer service (sr_udp s) tcp).

(** ** Replies that come later *)

Definition send_reply (lists : Lists (T:=T)) (reply : nat * Responder * Message) (s : Server) : outcome SubnetError Server :=
  match reply.1.2 with
  | UdpTo r => Ok (mkServer (sr_service s) (udp_respond (so_sends net) r reply.2 (sr_udp s)) (sr_tcp s))
  | TcpTo id => server_tcp lists (Respond id reply.2) s
  end.
Fixpoint send_replies (lists : Lists (T:=T)) (replies : list (nat * Responder * Message)) (s : Server) : outcome SubnetError Server :=
  match replies with [] => Ok s | reply :: replies => s ← send_reply lists reply s; send_replies lists replies s end.

(** The resolver's callbacks. *)
Fixpoint server_deliver (lists : Lists (T:=T)) (events : list Event) (s : Server) : outcome SubnetError Server :=
  match events with
  | [] => Ok s
  | e :: events =>
    service ← deliver_event clock random case_bits calls times lists e (sr_service s);
    s ← send_replies lists (new_replies (sr_service s) service) (mkServer service (sr_udp s) (sr_tcp s));
    server_deliver lists events s
  end.

Definition server_resolver (lists : Lists (T:=T)) (op : Op) (s : Server) : outcome SubnetError Server :=
  let rs := sv_resolver (sr_service s) in
  '(_, rs') ← lift (exec clock random case_bits calls op rs);
  server_deliver lists (news rs rs') (mkServer (with_resolver (sr_service s) rs') (sr_udp s) (sr_tcp s)).

(** ** What the loop makes the server do *)

Inductive ServerOp :=
| ServerReadable (recvs : list RecvMsg)
| ServerAccept (accepts : list Accept)
| ServerConnection (id events : Z) (recvs : list Upstream.Recv)
| ServerTcpTimers (at_time newest : Z)
| ServerPrime
| ServerTimers (at_time newest : Z)
| ServerUpstream (ev : Interfaces.UpstreamEvent).

Definition server_exec (lists : Lists (T:=T)) (op : ServerOp) (s : Server) : outcome SubnetError Server :=
  match op with
  | ServerReadable recvs => server_readable lists kMaxPacketsPerWakeup recvs s
  | ServerAccept accepts => server_tcp lists (AcceptReady accepts) s
  | ServerConnection id events recvs => server_tcp lists (Ready id events recvs) s
  | ServerTcpTimers at_time newest => server_tcp lists (TcpTimersDue at_time newest) s
  | ServerPrime => server_resolver lists (PrimeRoot 0) s
  | ServerTimers at_time newest => server_resolver lists (TimersDue at_time newest) s
  | ServerUpstream ev => server_resolver lists (UpstreamCalls ev) s
  end.

Fixpoint server_run (ops : list (Lists (T:=T) * ServerOp)) (s : Server) : outcome SubnetError Server :=
  match ops with [] => Ok s | (lists, op) :: ops => s ← server_exec lists op s; server_run ops s end.

(** ** What the environment provides *)

(** The most that waits on one connection. *)
Definition buffered (tcp : TcpListener) : nat := max_list_with (λ kv, length (c_in kv.2)) (map_to_list (tl_connections tcp)).

Definition tcp_fits (op : TcpOp) (s : Server) : Prop :=
  room (tl_loop (sr_tcp s)) (cost op (sr_tcp s)) ∧ can_take calls (intake op (sr_tcp s)) (sv_resolver (sr_service s)) ∧
  match op with
  | AcceptReady _ => tl_accept_retry (sr_tcp s) = 0%Z ∧ (tl_next_id (sr_tcp s) + Z.of_nat kMaxAcceptsPerWakeup < 18446744073709551616)%Z
  | _ => True
  end.

(** The resolver's operation, and then room for the queries that its answers may
    let in. *)
Definition resolver_fits (op : Op) (s : Server) : Prop :=
  let rs := sv_resolver (sr_service s) in
  can_run calls op rs ∧
  match exec clock random case_bits calls op rs with
  | Ok (_, rs') =>
    let n := length (pipeline_callbacks (called (news rs rs'))) in
    can_take calls (n * S (buffered (sr_tcp s))) rs' ∧ room (tl_loop (sr_tcp s)) (n * (3 + 2 * buffered (sr_tcp s)))
  | _ => True
  end.

Definition server_can_run (op : ServerOp) (s : Server) : Prop :=
  match op with
  | ServerReadable _ => can_take calls kMaxPacketsPerWakeup (sv_resolver (sr_service s))
  | ServerAccept accepts => tcp_fits (AcceptReady accepts) s
  | ServerConnection id events recvs => tcp_fits (Ready id events recvs) s
  | ServerTcpTimers at_time newest => tcp_fits (TcpTimersDue at_time newest) s
  | ServerPrime => resolver_fits (PrimeRoot 0) s
  | ServerTimers at_time newest => resolver_fits (TimersDue at_time newest) s
  | ServerUpstream ev => resolver_fits (UpstreamCalls ev) s
  end.

Fixpoint server_all_can_run (ops : list (Lists (T:=T) * ServerOp)) (s : Server) : Prop :=
  match ops with
  | [] => True
  | (lists, op) :: ops => server_can_run op s ∧ match server_exec lists op s with Ok s => server_all_can_run ops s | _ => True end
  end.

(** The datagrams received over a run. *)
Definition server_received (ops : list (Lists (T:=T) * ServerOp)) : list datagram :=
  ops.*2 ≫= λ op, match op with ServerReadable recvs => datagrams kMaxPacketsPerWakeup recvs | _ => [] end.
End server.
Arguments Server L C U : clear implicits.
