(* ===== verification/ServerProps.v ===== *)
(** * What the server guarantees

    The server never faults, and each query gets its own reply, from the
    listener it came through: the packets given to the system are the replies
    given over UDP, and on every open connection the bytes written and queued are
    the replies given on it, in order.

    Facts about the service that hold whatever listeners it has
    ([ServiceFact]) hold of the server's: this is how [Counts] follows the
    limiters' counters. *)

From stdpp Require Import base tactics numbers list gmap fin_maps fin_sets.
From Stdlib Require Import ZArith Lia.
From S2P Require Import Prelude Names Types Wire Builder Acl Rrl Rebinding Blocklist Blocklists Trie EventLoop Interfaces ServerSelection.
From S2P Require Import Resolver ResolverLinks ResolverInv ResolverSteps ResolverProps ResolverLog ResolverRuns.
From S2P Require Import QueryProcessor Service ServiceProps SocketAddress TcpListener TcpProofs TcpProps TcpLinks UdpListener UdpProps Server.

(** ** Queries and replies by listener *)

Section logs.
Implicit Types (log : list (ServiceEvent Responder)).

Definition via_udp {A} (x : A * Responder) : option (A * UdpResponder) := match x.2 with UdpTo r => Some (x.1, r) | TcpTo _ => None end.
Definition via_tcp {A} (id : Z) (x : A * Responder) : option A := match x.2 with TcpTo i => if decide (i = id) then Some x.1 else None | UdpTo _ => None end.

Definition udp_asked log : list (Message * ClientInfo * UdpResponder) := omap via_udp (queried log).
Definition tcp_asked (id : Z) log : list (Message * ClientInfo) := omap (via_tcp id) (queried log).
Definition said log : list (Message * Responder) := (λ reply, (reply.2, reply.1.2)) <$> replied log.
Definition udp_told log : list (Message * UdpResponder) := omap via_udp (said log).
Definition tcp_told (id : Z) log : list Message := omap (via_tcp id) (said log).

Lemma said_app log replies log' : replied log' = replied log ++ replies → said log' = said log ++ ((λ reply, (reply.2, reply.1.2)) <$> replies).
Proof. unfold said. intros ->. apply fmap_app. Qed.

(** No connection is told more than it asked. *)
Definition asked_numbers (id : Z) log : list nat :=
  omap (λ e, match e with QueryIn i _ _ (TcpTo j) => if decide (j = id) then Some i else None | _ => None end) log.
Definition told_numbers (id : Z) log : list nat :=
  omap (λ e, match e with ReplyOut i (TcpTo j) _ => if decide (j = id) then Some i else None | _ => None end) log.

Lemma length_asked id log : length (asked_numbers id log) = length (tcp_asked id log).
Proof. unfold asked_numbers, tcp_asked, queried. induction log as [|[i q c [r|j]| | | | |] log IH]; cbn; repeat case_decide; cbn; auto. Qed.
Lemma length_told id log : length (told_numbers id log) = length (tcp_told id log).
Proof. unfold told_numbers, tcp_told, said, replied. induction log as [|[|i [r|j] m| | | |] log IH]; cbn; repeat case_decide; cbn; auto. Qed.
Lemma told_sublist id log : told_numbers id log `sublist_of` replies log.
Proof. unfold told_numbers, replies. induction log as [|[|i [r|j] m| | | |] log IH]; cbn; repeat case_decide; by try constructor. Qed.
End logs.

Lemma passed_parsed id log : Forall event_parsed log → Forall2 (λ body q, parse body = Ok q.1) (handed id log) (passed id log).
Proof.
  unfold handed, passed. induction 1 as [|[| i body query client | | |] log He _ IH]; cbn; [constructor|done| |done..]. case_decide; [|done]. by constructor; [apply He|].
Qed.

(** The packets given to [sendmsg], with the messages they carry, whether it
    took them or not. *)
Definition packets (log : list UdpEvent) : list (Message * Packet) :=
  omap (λ e, match e with UdpSent response p _ => Some (response, p) | _ => None end) log.

Lemma packets_app log log' : packets (log ++ log') = packets log ++ packets log'.
Proof. apply omap_app. Qed.

(** The packet of a reply. *)
Definition reply_of (reply : Message * UdpResponder) : Message * Packet := (reply.1, reply_packet reply.2 reply.1).

Lemma counted_socket u x : is_Some (ul_socket u) → is_Some (ul_socket (udp_counted u x)).
Proof. intros [k Hk]. cbn. rewrite Hk. by eexists. Qed.

Lemma udp_respond_log sends r m u : is_Some (ul_socket u) →
  is_Some (ul_socket (udp_respond sends r m u)) ∧ ul_max_response_size (udp_respond sends r m u) = ul_max_response_size u ∧
  ∃ ok, ul_log (udp_respond sends r m u) = ul_log u ++ [UdpSent m (reply_packet r m) ok].
Proof.
  intros Hs. unfold udp_respond. destruct (ul_socket u) eqn:E; [|by destruct Hs]. unfold send. split_and!; [|done|by eexists].
  apply counted_socket. cbn [udp_logged udp_tick ul_socket]. by rewrite E.
Qed.

(** What handling a datagram adds to the listener's log. *)
Lemma on_datagram_log reply sends bytes peer control u : is_Some (ul_socket u) →
  let d := (take (Z.to_nat kMaxDatagram) bytes, peer, control) in
  let u' := on_datagram (λ _, reply) sends bytes peer control u in
  is_Some (ul_socket u') ∧ ul_max_response_size u' = ul_max_response_size u ∧
  match query_of (ul_max_response_size u) d with
  | None => ul_log u' = ul_log u
  | Some (query, client, r) =>
    ∃ ok, ul_log u' = ul_log u ++ UdpHanded query client r :: match reply with Some m => [UdpSent m (reply_packet r m) ok] | None => [] end
  end.
Proof.
  intros Hs d u'. unfold u', on_datagram, query_of. cbn [d fst snd].
  destruct (parse _) as [query| |]; [|split_and!; [by apply counted_socket|done..]..]. destruct (h_qr _); [split_and!; [by apply counted_socket|done..]|].
  cbn [udp_counted ul_max_response_size]. set (r := mkUdpResponder _ _ _). set (u1 := udp_tick _).
  assert (Hs1 : is_Some (ul_socket u1)) by (by apply (counted_socket u UQueries)).
  assert (El : ul_log u1 = ul_log u ++ [UdpHanded query (mkClient peer Udp) r]) by done.
  assert (Em : ul_max_response_size u1 = ul_max_response_size u) by done. clearbody u1. destruct reply as [m|]; [|split_and!; [done|done|by exists true]].
  destruct (udp_respond_log sends r m u1 Hs1) as (Hs2 & Em2 & ok & E). split_and!; [done|by rewrite Em2|]. exists ok. by rewrite E, El, <-app_assoc.
Qed.

Lemma omap_fmap_option {A B C} (f : A → option B) (x : option C) (g : C → A) :
  omap f (option_list (g <$> x)) = option_list (x ≫= λ y, f (g y)).
Proof. destruct x as [y|]; cbn; [|done]. by destruct (f (g y)). Qed.

Lemma buffered_le tcp M : buffered tcp ≤ M ↔ ∀ id c, tl_connections tcp !! id = Some c → length (c_in c) ≤ M.
Proof.
  unfold buffered. assert (Hl : ∀ l : list (Z * Connection), max_list_with (λ kv, length (c_in kv.2)) l ≤ M ↔ ∀ kv, kv ∈ l → length (c_in kv.2) ≤ M).
  { induction l as [|kv l IH]; cbn; [split; [by intros _ kv ?%elem_of_nil|lia]|]. rewrite Nat.max_lub_iff, IH. split; [intros [? ?] x [-> |?]%elem_of_cons; auto|].
    intros Hx. split; [apply Hx; left|]. intros x ?. apply Hx. by right. }
  rewrite Hl. split; [intros Hx id c Hc; apply (Hx (id, c)); by apply elem_of_map_to_list|]. intros Hx [id c] Hc%elem_of_map_to_list. by eapply Hx.
Qed.

(** ** The listeners' handler *)

Section handler.
Context `{InetPton} {L T : Type} `{SteadyAction L} `{Blocklist T} {C U : Type} `{AnswerCache C} `{Interfaces.UpstreamService U}.
Context (clock : nat → Z) (random : nat → Z → Z) (case_bits : nat → nat → Z) (calls : nat → Upstream.SendCalls) (times : nat → Z).
Implicit Types (sv : Service L C U Responder) (lists : Lists (T:=T)).

(** What handling a query records. *)
Lemma handle_query_said lists query client r sv sv' : handle_query clock random case_bits calls times lists query client r sv = Ok sv' →
  queried (sv_log sv') = queried (sv_log sv) ++ [(query, client, r)] ∧
  said (sv_log sv') = said (sv_log sv) ++ option_list ((λ m, (m, r)) <$> first_reply sv sv').
Proof.
  intros E. destruct (handle_query_log clock random case_bits calls times lists query client r sv sv' E) as (Eq & reply & Er). split; [done|].
  assert (Hg : sv_log sv `prefix_of` sv_log sv') by (by eapply (service_exec_grows clock random case_bits calls times lists (HandleQuery query client r))).
  rewrite (said_app _ _ _ (replied_prefix _ _ Hg)). f_equal. unfold first_reply. rewrite Er. by destruct reply.
Qed.

Global Instance service_recorder : Recorder (Service L C U Responder) :=
  {| asked_by id sv := tcp_asked id (sv_log sv); told_to id sv := tcp_told id (sv_log sv) |}.

Global Instance tcp_handler_record lists : KeepsRecord (tcp_handler clock random case_bits calls times lists).
Proof.
  split; intros id query client sv reply sv' E i; unfold tcp_handler in E; cbn [asked_by told_to service_recorder];
    (destruct (handle_query _ _ _ _ _ _ _ _ _ _) as [sv1| |] eqn:Eh; [|done..]); rewrite bind_Ok in E; injection E as <- <-;
    destruct (handle_query_said _ _ _ _ _ _ Eh) as [Eq Es].
  - unfold tcp_asked. rewrite Eq, omap_app. f_equal. cbn. destruct (decide (id = i)), (decide (i = id)); by try congruence.
  - unfold tcp_told. rewrite Es, omap_app. f_equal. destruct (first_reply sv sv1); cbn; destruct (decide (id = i)), (decide (i = id)); by try congruence.
Qed.
End handler.

(** ** The invariant *)

Section server_inv.
Context `{InetPton} `{!InetPtonLiterals} {L T : Type} `{SteadyAction L} `{Blocklist T} {C U : Type} `{AnswerCache C} `{Interfaces.UpstreamService U}.
Context (clock : nat → Z) (random : nat → Z → Z) (case_bits : nat → nat → Z) (calls : nat → Upstream.SendCalls) (times : nat → Z).
Context (net : Sockets) (cfg : ResolverConfig) (p0 : QueryProcessor (L:=L)) (limit : Z) (tcp_cfg : TcpListenerConfig).
Context (Hcfg : rconfig_ok cfg) (Hrandom : uniform random) (Htcp : limits_ok tcp_cfg).
Implicit Types (s : Server L C U) (sv : Service L C U Responder) (lists : Lists (T:=T)).
Abbreviation handle := (handle_query clock random case_bits calls times).

(** Kept by whatever the service does. *)
Class ServiceFact (Q : Service L C U Responder → Prop) : Prop := {
  sf_handle : ∀ iss owed lists query client r sv sv', service_inv cfg p0 iss None owed sv → Q sv → handle lists query client r sv = Ok sv' → Q sv';
  sf_deliver : ∀ iss owed lists e sv sv', service_inv cfg p0 iss None owed sv → Q sv →
    deliver_event clock random case_bits calls times lists e sv = Ok sv' → Q sv';
  sf_resolver : ∀ sv rs, Q sv → Q (with_resolver sv rs);
}.
Context (Q : Service L C U Responder → Prop) `{!ServiceFact Q}.

(** [ds]: the datagrams received so far; [owed]: queries whose callback has been
    called but not delivered yet; [owe]: a reply on its way to a connection;
    [b]: registrations with the loop that the TCP listener may still make. *)
Record server_inv (ds : list datagram) (owed : list nat) (owe : option (Z * Message)) (b : nat) s : Prop := {
  sn_service : ∃ iss, service_inv cfg p0 iss None owed (sr_service s);
  sn_fact : Q (sr_service s);
  sn_socket : is_Some (ul_socket (sr_udp s));
  sn_limit : ul_max_response_size (sr_udp s) = limit;
  sn_queries : udp_asked (sv_log (sr_service s)) = omap (query_of limit) ds;
  sn_packets : packets (ul_log (sr_udp s)) = reply_of <$> udp_told (sv_log (sr_service s));
  sn_tcp : tcp_inv calm b (sr_tcp s);
  sn_tcp_config : tl_config (sr_tcp s) = tcp_cfg;
  sn_parsed : Forall event_parsed (tl_log (sr_tcp s));
  sn_linked : linked owe (sr_tcp s) (sr_service s);
}.

(** The service as the TCP listener sees it. *)
Definition steady (owed : list nat) (asked : list (Message * ClientInfo * UdpResponder)) (told : list (Message * UdpResponder)) (n : nat) sv : Prop :=
  (∃ iss, service_inv cfg p0 iss None owed sv) ∧ Q sv ∧ can_take calls n (sv_resolver sv) ∧ udp_asked (sv_log sv) = asked ∧ udp_told (sv_log sv) = told.

Lemma handle_steady owed asked told n lists id query client sv : steady owed asked told (S n) sv →
  ∃ reply sv', tcp_handler clock random case_bits calls times lists id query client sv = Ok (reply, sv') ∧ steady owed asked told n sv'.
Proof.
  intros ([iss Hs] & HQ & Ht & Ea & Et). unfold tcp_handler.
  destruct (handle_query_inv clock random case_bits calls times cfg p0 n iss owed sv lists query client (TcpTo id) Hcfg Hrandom Hs Ht) as (sv' & iss' & E & Hs' & Ht' & _).
  rewrite E, bind_Ok. do 2 eexists. split; [done|]. destruct (handle_query_said _ _ _ _ _ _ _ _ _ _ _ E) as [Eq Es].
  split_and!; [by eexists|exact (sf_handle _ _ _ _ _ _ _ _ Hs HQ E)|done| |].
  - unfold udp_asked. rewrite Eq, omap_app. cbn. by rewrite app_nil_r.
  - unfold udp_told. rewrite Es, omap_app. rewrite omap_fmap_option. by destruct (first_reply sv sv'); cbn; rewrite app_nil_r.
Qed.

Lemma steady_less owed asked told n n' sv : n' ≤ n → steady owed asked told n sv → steady owed asked told n' sv.
Proof. intros Hle (? & ? & ? & ? & ?). split_and!; [done|done|by eapply can_take_less|done|done]. Qed.

Definition tcp_takes owed asked told lists : TakesQueries (tcp_handler clock random case_bits calls times lists) :=
  {| spare := steady owed asked told; spare_less := steady_less owed asked told;
     spare_takes n id query client sv := handle_steady owed asked told n lists id query client sv |}.

Lemma told_asked iss owed sv id : service_inv cfg p0 iss None owed sv → length (tcp_told id (sv_log sv)) ≤ length (tcp_asked id (sv_log sv)).
Proof.
  intros Hs. rewrite <-length_asked, <-length_told. apply submseteq_length, NoDup_submseteq.
  - eapply sublist_NoDup; [exact (si_replies _ _ _ _ _ _ Hs)|apply told_sublist].
  - intros i (e & He & Ei)%list_elem_of_omap. destruct e as [|j [r|j'] m| | | |]; try done. case_decide; [|done]. injection Ei as ->. subst j'.
    destruct (si_replied _ _ _ _ _ _ Hs i (TcpTo id) m He) as (_ & _ & query & client & Hq & _). apply list_elem_of_omap. eexists. split; [exact Hq|].
    cbn. by rewrite decide_True.
Qed.

(** The TCP listener has run, with the service as its handler. *)
Lemma server_tcp_rebuild ds owed owe b n s tcp sv : server_inv ds owed owe 0 s → kept (sr_tcp s) tcp → tcp_inv calm b tcp →
  steady owed (udp_asked (sv_log (sr_service s))) (udp_told (sv_log (sr_service s))) n sv →
  linked None tcp sv → server_inv ds owed None b (mkServer sv (sr_udp s) tcp).
Proof.
  intros [Hs HQ Hk Hl Hq Hp Ht Hc Hpa Hli] Hkept Hi (Hsv & HQ' & Htake & Ea & Et) Hlinked. split; cbn [sr_service sr_udp sr_tcp]; try done.
  - by rewrite Ea.
  - by rewrite Et.
  - by rewrite (proj1 Hkept).
  - destruct Hkept as (_ & _ & es & -> & Hes). by apply Forall_app.
Qed.

Lemma server_tcp_inv ds owed lists op s : owing op = None → server_inv ds owed None 0 s → tcp_fits calls op s →
  ∃ s', server_tcp clock random case_bits calls times net lists op s = Ok s' ∧ server_inv ds owed None 0 s'.
Proof.
  intros Hop Hi (Hroom & Htake & Hacc). pose proof Hi as [Hs HQ Hk Hl Hq Hp Ht Hc Hpa Hli]. unfold server_tcp.
  set (takes := tcp_takes owed (udp_asked (sv_log (sr_service s))) (udp_told (sv_log (sr_service s))) lists).
  destruct (tcp_exec_spare (TakesQueries0 := takes) (so_clock net) (tcp_handler clock random case_bits calls times lists) (so_tcp_sends net) (so_ctl net) 0 op (sr_tcp s) (sr_service s) Ht)
    as (tcp & sv & E & Hi' & Hst).
  - rewrite Hc. by destruct Htcp as [_ []].
  - split_and!; [done|by split_and!|]. by destruct op.
  - rewrite Nat.add_0_r. by split_and!.
  - rewrite E, bind_Ok. eexists. split; [done|]. eapply server_tcp_rebuild; [done|by eapply tcp_exec_kept|done|exact Hst|].
    refine (tcp_exec_linked (so_clock net) _ (so_tcp_sends net) (so_ctl net) 0 op _ _ _ _ Ht _ E _); [by destruct op as [? | | |]; [apply Hacc|..]|by rewrite Hop].
Qed.

(** A reply that comes later, over TCP. *)
Lemma server_respond_inv ds owed lists m M b n id s : server_inv ds owed (Some (id, m)) (3 + 2 * M + b) s → buffered (sr_tcp s) ≤ M →
  can_take calls (S M + n) (sv_resolver (sr_service s)) →
  ∃ s', server_tcp clock random case_bits calls times net lists (Respond id m) s = Ok s' ∧ server_inv ds owed None b s' ∧
    can_take calls n (sv_resolver (sr_service s')) ∧ buffered (sr_tcp s') ≤ M.
Proof.
  intros Hi HM Htake. pose proof Hi as [Hs HQ Hk Hl Hq Hp Ht Hc Hpa Hli]. unfold server_tcp. cbn [tcp_exec].
  pose proof (proj1 (buffered_le _ _) HM) as Hbuf.
  set (takes := tcp_takes owed (udp_asked (sv_log (sr_service s))) (udp_told (sv_log (sr_service s))) lists).
  assert (Hst : ∀ k, k ≤ S M + n → steady owed (udp_asked (sv_log (sr_service s))) (udp_told (sv_log (sr_service s))) k (sr_service s))
    by (intros k Hle; split_and!; [done|done|by eapply can_take_less|done|done]).
  destruct (respond_inv (TakesQueries0 := takes) (so_clock net) (tcp_handler clock random case_bits calls times lists) (so_tcp_sends net) (so_ctl net) n b id m (sr_tcp s) (sr_service s))
    as (tcp & sv & E & Hi' & Hst').
  - intros c Hic. specialize (Hbuf id c Hic). split_and!; [|eapply tcp_inv_less; [|exact Ht]; lia|apply Hst; lia].
    destruct Hs as [iss Hs]. pose proof (told_asked _ _ _ id Hs) as Hta. destruct Hli as [Hask Htold _ _ _].
    specialize (Hask id c Hic). specialize (Htold id c Hic). cbn [owed_to asked_by told_to service_recorder] in *. rewrite decide_True in Htold by done.
    rewrite (so_pending _ _ _ _ (sr_ok _ _ _ _ (tv_streams _ _ _ Ht) id c Hic)). unfold zlen. rewrite <-length_passed, Hask. rewrite <-Htold, length_app in Hta. cbn in Hta. lia.
  - eapply tcp_inv_less; [|exact Ht]. lia.
  - apply Hst. lia.
  - rewrite E, bind_Ok. eexists. split; [done|]. pose proof Hst' as (_ & _ & Htake' & _). destruct (respond_all_follows _ _ _ _ _ _ _ _ _ _ E) as [Hf Hsh]. split_and!; [|done|].
    + eapply server_tcp_rebuild; [|by eapply (tcp_exec_kept _ _ _ _ (Respond id m))|done|exact Hst'|].
      * destruct Hi. split; try done. eapply tcp_inv_less; [|done]. lia.
      * by apply Hf.
    + cbn [sr_tcp]. apply buffered_le. intros i c' Hc'.
      destruct (Hsh i c' Hc') as (c & Hic & Hle). specialize (Hbuf i c Hic). cbn. lia.
Qed.

(** ** The resolver's callbacks *)

(** The reply that an event gives, if any, and what is left to do with it. *)
Lemma event_inv ds owed lists e b s : server_inv ds (pipeline_callbacks (called [e]) ++ owed) None b s →
  ∃ sv, deliver_event clock random case_bits calls times lists e (sr_service s) = Ok sv ∧ sv_resolver sv = sv_resolver (sr_service s) ∧
    length (new_replies (sr_service s) sv) ≤ length (pipeline_callbacks (called [e])) ∧
    match new_replies (sr_service s) sv with
    | [] => server_inv ds owed None b (mkServer sv (sr_udp s) (sr_tcp s))
    | [(_, UdpTo r, m)] => server_inv ds owed None b (mkServer sv (udp_respond (so_sends net) r m (sr_udp s)) (sr_tcp s))
    | [(_, TcpTo id, m)] => server_inv ds owed (Some (id, m)) b (mkServer sv (sr_udp s) (sr_tcp s))
    | _ => False
    end.
Proof.
  intros [[iss Hs] HQ Hk Hl Hq Hp Ht Hc Hpa Hli].
  destruct (deliver_event_inv clock random case_bits calls times cfg p0 iss owed lists e (sr_service s) Hs) as (sv & E & Hs' & Eq & Er & Hlen).
  exists sv. split_and!; [done..|]. pose proof (sf_deliver _ _ _ _ _ _ Hs HQ E) as HQ'.
  pose proof (said_app _ _ _ (replied_prefix _ _ (deliver_event_grows _ _ _ _ _ _ _ _ _ E))) as Esaid.
  assert (Ea : udp_asked (sv_log sv) = udp_asked (sv_log (sr_service s))) by (unfold udp_asked; by rewrite Eq).
  assert (Hlink : ∀ owe, (∀ id, tcp_told id (sv_log sv) = tcp_told id (sv_log (sr_service s)) ++ owed_to id owe) →
    (∀ id m, owe = Some (id, m) → (id < tl_next_id (sr_tcp s))%Z) →
    linked owe (sr_tcp s) sv).
  { intros owe Htold Hid. destruct Hli as [Hask Hto Hf Hi Htk]. cbn [asked_by told_to service_recorder owed_to] in *.
    assert (Et : ∀ id, tcp_asked id (sv_log sv) = tcp_asked id (sv_log (sr_service s))) by (intros id; unfold tcp_asked; by rewrite Eq).
    split; cbn [asked_by told_to service_recorder].
    - intros id c Hic. rewrite Et. by eapply Hask.
    - intros id c Hic. rewrite Htold, <-(Hto id c Hic). by rewrite app_nil_r.
    - intros id Hn. rewrite Et, Htold. destruct (Hf id Hn) as (F1 & F2 & F3 & F4). rewrite F1, F2. split_and!; [done| |done|done].
      destruct owe as [[j m]|]; cbn; [|done]. rewrite decide_False; [done|]. intros <-. specialize (Hid j m eq_refl). lia.
    - done.
    - intros id. rewrite Htold. by apply prefix_app_r. }
  destruct (new_replies (sr_service s) sv) as [|[[i r] m] [|]].
  - rewrite app_nil_r in Esaid. split; cbn [sr_service sr_udp sr_tcp]; try done; [by eexists|by rewrite Ea|by unfold udp_told; rewrite Esaid|].
    apply Hlink; [|done]. intros id. unfold tcp_told. by rewrite Esaid, app_nil_r.
  - cbn in Esaid. destruct r as [r|id].
    + destruct (udp_respond_log (so_sends net) r m (sr_udp s) Hk) as (Hk' & El & ok & Elog). split; cbn [sr_service sr_udp sr_tcp]; try done.
      * by eexists.
      * by rewrite El.
      * by rewrite Ea.
      * unfold udp_told in *. rewrite Elog, packets_app, Hp, Esaid, omap_app, fmap_app. done.
      * apply Hlink; [|done]. intros id. unfold tcp_told. by rewrite Esaid, omap_app.
    + split; cbn [sr_service sr_udp sr_tcp]; try done; [by eexists|by rewrite Ea|unfold udp_told in *; by rewrite Esaid, omap_app, app_nil_r|].
      apply Hlink.
      * intros j. unfold tcp_told. rewrite Esaid, omap_app. f_equal. cbn. by case_decide.
      * intros j m' [= <- <-]. destruct (Z.lt_ge_cases id (tl_next_id (sr_tcp s))) as [|Hge]; [done|]. destruct (lk_fresh _ _ _ Hli id Hge) as [F _].
        pose proof (told_asked _ _ _ id Hs') as Hta. cbn [asked_by service_recorder] in F. unfold tcp_told, tcp_asked in *. rewrite Eq, F, Esaid, omap_app, length_app in Hta.
        cbn in Hta. rewrite decide_True in Hta by done. cbn in Hta. lia.
  - assert (Hone : length (pipeline_callbacks (called [e])) ≤ 1) by (destruct e; cbn; lia). cbn [length] in Hlen. lia.
Qed.

Lemma server_inv_less ds owed owe b b' s : b' ≤ b → server_inv ds owed owe b s → server_inv ds owed owe b' s.
Proof. intros Hle []. split; try done. by eapply tcp_inv_less. Qed.

Lemma server_deliver_inv ds lists M events : ∀ b s, let n := length (pipeline_callbacks (called events)) in
  server_inv ds (pipeline_callbacks (called events)) None (n * (3 + 2 * M) + b) s → buffered (sr_tcp s) ≤ M → can_take calls (n * S M) (sv_resolver (sr_service s)) →
  ∃ s', server_deliver clock random case_bits calls times net lists events s = Ok s' ∧ server_inv ds [] None b s'.
Proof.
  induction events as [|e events IH]; intros b s n Hi HM Htake; [by exists s|]. cbn [server_deliver].
  assert (Ecb : pipeline_callbacks (called (e :: events)) = pipeline_callbacks (called [e]) ++ pipeline_callbacks (called events)).
  { change (e :: events) with ([e] ++ events). unfold called. by rewrite bind_app, callbacks_app. }
  unfold n in *. clear n. rewrite Ecb in *. rewrite length_app in *. set (k := length (pipeline_callbacks (called events))) in *.
  destruct (event_inv ds _ lists e _ s Hi) as (sv & -> & Er & Hlen & Hcase). rewrite bind_Ok. set (s1 := mkServer sv (sr_udp s) (sr_tcp s)) in *.
  destruct (new_replies (sr_service s) sv) as [|[[i r] m] [|]]; [| |by destruct r].
  - cbn [send_replies]. rewrite bind_Ok. apply IH; [eapply server_inv_less; [|exact Hcase]; fold k; lia|done|]. cbn [s1 sr_service]. rewrite Er.
    eapply can_take_less; [|exact Htake]. fold k. lia.
  - assert (length (pipeline_callbacks (called [e])) = 1) as El by (cbn in Hlen; destruct e; cbn in *; lia). rewrite El in *. destruct r as [r|id]; cbn [send_replies]; unfold send_reply; cbn [fst snd].
    + rewrite !bind_Ok. apply IH; [eapply server_inv_less; [|exact Hcase]; fold k; lia|done|]. cbn [s1 sr_service]. rewrite Er.
      eapply can_take_less; [|exact Htake]. fold k. lia.
    + destruct (server_respond_inv ds (pipeline_callbacks (called events)) lists m M (k * (3 + 2 * M) + b) (k * S M) id s1) as (s2 & -> & Hi2 & Ht2 & HM2);
        [eapply server_inv_less; [|exact Hcase]; lia|done|cbn [s1 sr_service]; rewrite Er; eapply can_take_less; [|exact Htake]; lia|].
      rewrite !bind_Ok. by apply IH.
Qed.

Lemma server_resolver_inv ds lists op s : pipeline_callbacks (issued op) = [] → server_inv ds [] None 0 s → resolver_fits clock random case_bits calls op s →
  ∃ s', server_resolver clock random case_bits calls times net lists op s = Ok s' ∧ server_inv ds [] None 0 s'.
Proof.
  intros Hop [[iss Hs] HQ Hk Hl Hq Hp Ht Hc Hpa Hli] [Hrun Hfits]. unfold server_resolver.
  destruct (resolver_ran_inv clock random case_bits calls cfg p0 iss op (sr_service s) Hcfg Hrandom Hs Hop Hrun) as (rs & E & Hs'). rewrite E in *. cbn [lift]. rewrite bind_Ok.
  destruct Hfits as [Htake Hroom]. eapply (server_deliver_inv ds lists (buffered (sr_tcp s))); [|done|done].
  split; cbn [sr_service sr_udp sr_tcp]; try done; [by eexists|by apply sf_resolver|rewrite Nat.add_0_r; by eapply tcp_inv_room|by destruct Hli].
Qed.

(** ** Datagrams *)

Lemma server_datagram_inv ds lists bytes peer control n s : server_inv ds [] None 0 s → can_take calls (S n) (sv_resolver (sr_service s)) →
  ∃ s', server_datagram clock random case_bits calls times net lists bytes peer control s = Ok s' ∧
    server_inv (ds ++ [(take (Z.to_nat kMaxDatagram) bytes, peer, control)]) [] None 0 s' ∧ can_take calls n (sv_resolver (sr_service s')).
Proof.
  intros [[iss Hs] HQ Hsock Hlim Hq Hp Ht Hc Hpa Hli] Htake. unfold server_datagram. rewrite Hlim. set (d := (_, peer, control)).
  assert (Hlog : ∀ reply, let u' := on_datagram (λ _, reply) (so_sends net) bytes peer control (sr_udp s) in is_Some (ul_socket u') ∧ ul_max_response_size u' = limit ∧
    packets (ul_log u') = packets (ul_log (sr_udp s)) ++ match query_of limit d, reply with Some (_, _, r), Some m => [(m, reply_packet r m)] | _, _ => [] end).
  { intros reply u'. destruct (on_datagram_log reply (so_sends net) bytes peer control (sr_udp s) Hsock) as (? & ? & Hl). rewrite Hlim in *. fold d u' in Hl.
    split_and!; [done|done|]. destruct (query_of limit d) as [[[query client] r]|]; [|by rewrite Hl, app_nil_r].
    destruct Hl as [ok ->]. rewrite packets_app. by destruct reply. }
  destruct (query_of limit d) as [[[query client] r]|] eqn:Ed.
  - destruct (handle_query_inv clock random case_bits calls times cfg p0 n iss [] (sr_service s) lists query client (UdpTo r) Hcfg Hrandom Hs Htake)
      as (sv & iss' & Eh & Hs' & Htake' & _). rewrite Eh, bind_Ok. eexists. split; [done|]. split; [|done].
    destruct (handle_query_said _ _ _ _ _ _ _ _ _ _ _ Eh) as [Eq Es]. destruct (Hlog (first_reply (sr_service s) sv)) as (Hsk & Hl' & Hp').
    split; cbn [sr_service sr_udp sr_tcp]; try done; [by eexists|exact (sf_handle _ _ _ _ _ _ _ _ Hs HQ Eh)|..].
    + unfold udp_asked in *. rewrite Eq, omap_app, Hq, omap_snoc, Ed. done.
    + rewrite Hp', Hp. unfold udp_told. rewrite Es, omap_app, fmap_app. f_equal. by destruct (first_reply _ _).
    + destruct Hli as [Hask Hto Hf Hi Htk]. cbn [asked_by told_to service_recorder owed_to] in *.
      assert (Ea : ∀ id, tcp_asked id (sv_log sv) = tcp_asked id (sv_log (sr_service s))) by (intros id; unfold tcp_asked; rewrite Eq, omap_app; apply app_nil_r).
      assert (Et : ∀ id, tcp_told id (sv_log sv) = tcp_told id (sv_log (sr_service s))).
      { intros id. unfold tcp_told. rewrite Es, omap_app. destruct (first_reply _ _); apply app_nil_r. }
      split; cbn [asked_by told_to service_recorder owed_to]; [intros id c; rewrite Ea; apply Hask|intros id c; rewrite Et; apply Hto|intros id; rewrite Ea, Et; apply Hf|done|intros id; rewrite Et; apply Htk].
  - eexists. split; [done|]. split; [|by eapply can_take_less; [|exact Htake]; lia]. destruct (Hlog None) as (Hsk & Hl' & Hp').
    split; cbn [sr_service sr_udp sr_tcp]; try done; [by eexists|by rewrite Hq, omap_snoc, Ed, app_nil_r|by rewrite Hp', app_nil_r].
Qed.

Lemma server_readable_inv lists i : ∀ recvs ds s, server_inv ds [] None 0 s → can_take calls i (sv_resolver (sr_service s)) →
  ∃ s', server_readable clock random case_bits calls times net lists i recvs s = Ok s' ∧ server_inv (ds ++ datagrams i recvs) [] None 0 s'.
Proof.
  induction i as [|i IH]; intros recvs ds s Hi Htake; [exists s; by rewrite app_nil_r|].
  destruct recvs as [|[| |bytes peer control] recvs]; cbn [server_readable datagrams]; [exists s; by rewrite app_nil_r..|apply IH; [done|eapply can_take_less; [|exact Htake]; lia]|].
  destruct (server_datagram_inv ds lists bytes peer control i s Hi Htake) as (s1 & E & Hi1 & Ht1). rewrite E, bind_Ok.
  rewrite cons_middle, app_assoc. by apply IH.
Qed.

(** ** Any operation *)

Lemma server_exec_inv ds lists op s : server_inv ds [] None 0 s → server_can_run clock random case_bits calls op s →
  ∃ s', server_exec clock random case_bits calls times net lists op s = Ok s' ∧
    server_inv (ds ++ match op with ServerReadable recvs => datagrams kMaxPacketsPerWakeup recvs | _ => [] end) [] None 0 s'.
Proof.
  intros Hi. destruct op as [recvs|accepts|id events recvs|at_time newest| |at_time newest|ev]; cbn [server_exec server_can_run];
    [|rewrite app_nil_r; intros Hrun; first [by apply server_tcp_inv|by apply server_resolver_inv]..].
  generalize kMaxPacketsPerWakeup. intros n. by apply server_readable_inv.
Qed.

Lemma server_run_inv ops : ∀ ds s, server_inv ds [] None 0 s → server_all_can_run clock random case_bits calls times net ops s →
  ∃ s', server_run clock random case_bits calls times net ops s = Ok s' ∧ server_inv (ds ++ server_received ops) [] None 0 s'.
Proof.
  induction ops as [|[lists op] ops IH]; intros ds s Hi Hrun; [exists s; by rewrite app_nil_r|]. destruct Hrun as [Hop Hrest].
  destruct (server_exec_inv ds lists op s Hi Hop) as (s1 & E & Hi1). cbn [server_run]. rewrite E in *. rewrite bind_Ok.
  destruct (IH _ s1 Hi1 Hrest) as (s' & E' & Hi'). exists s'. split; [done|]. unfold server_received. rewrite fmap_cons, bind_cons, app_assoc. exact Hi'.
Qed.
End server_inv.

(** ** From datagrams to packets, from stream to stream *)

(** The log of the service tells the story of the listeners: over UDP the
    queries are the datagrams received that are well-formed queries, and the
    packets given to the system are the replies, each to its query's sender from
    the address that was asked; on every open connection what arrived is the
    queries, framed, in order, and then what is buffered, and what was written,
    followed by what is queued, is the replies.  Each reply is one that the policy allows, to a
    query that came through the same responder; no query has two; and each has
    its reply, or the resolver is working on its question, or it is excused. *)
Record accounted `{InetPton} {L C U : Type} `{RateLimit L} (p0 : QueryProcessor (L:=L)) (limit : Z) (ds : list datagram) (s : Server L C U) : Prop := {
  at_udp : udp_asked (sv_log (sr_service s)) = omap (query_of limit) ds;
  at_packets : packets (ul_log (sr_udp s)) = reply_of <$> udp_told (sv_log (sr_service s));
  at_streams : ∀ id c, tl_connections (sr_tcp s) !! id = Some c →
    (∃ bodies, framed_as bodies (arrived id (tl_log (sr_tcp s))) (c_in c) ∧ Forall2 (λ body q, parse body = Ok q.1) bodies (tcp_asked id (sv_log (sr_service s)))) ∧
    written id (tl_log (sr_tcp s)) ++ c_out c = mjoin (tcp_bytes <$> tcp_told id (sv_log (sr_service s)));
  at_once : NoDup (queries (sv_log (sr_service s))) ∧ NoDup (replies (sv_log (sr_service s)));
  at_replies : ∀ i r m, ReplyOut i r m ∈ sv_log (sr_service s) → ∃ query client, QueryIn i query client r ∈ sv_log (sr_service s) ∧ reply_ok p0 query client m;
  at_queries : ∀ i query client r, QueryIn i query client r ∈ sv_log (sr_service s) →
    i ∈ replies (sv_log (sr_service s)) ∨ waited_for (sr_service s) i query ∨ excused p0 client;
}.

Section props.
Context `{InetPton} {L T : Type} `{SteadyAction L} `{Blocklist T} {C U : Type} `{AnswerCache C} `{Interfaces.UpstreamService U}.
Context (clock : nat → Z) (random : nat → Z → Z) (case_bits : nat → nat → Z) (calls : nat → Upstream.SendCalls) (times : nat → Z).
Context (net : Sockets) (cfg : ResolverConfig) (p0 : QueryProcessor (L:=L)).

Lemma server_inv_accounted (Q : Service L C U Responder → Prop) limit tcp_cfg ds (s : Server L C U) : 
  server_inv cfg p0 limit tcp_cfg Q ds [] None 0 s → accounted p0 limit ds s.
Proof.
  intros [[iss Hinv] _ _ _ Hq Hp Ht _ Hpa Hli]. pose proof Hinv as [_ Hres _ Hask Hpen _ _ Hqs Hnd Hrep _ Hacc]. split; [done|done| | | |].
  - intros id c Hc. destruct (sr_ok _ _ _ _ (tv_streams _ _ _ Ht) id c Hc) as [_ _ [_ Hin] Hout _].
    pose proof (lk_asked _ _ _ Hli id c Hc) as Ha. pose proof (lk_told _ _ _ Hli id c Hc) as Hto. cbn [asked_by told_to service_recorder owed_to] in *. rewrite app_nil_r in Hto.
    rewrite <-Ha, <-Hto. split; [|done]. exists (handed id (tl_log (sr_tcp s))). split; [done|by apply passed_parsed].
  - split; [rewrite Hqs; apply NoDup_seq|done].
  - intros i r m Hm. by destruct (Hrep i r m Hm) as (_ & _ & ?).
  - intros i query client r Hi. destruct (Hacc i query client r Hi) as [? |[? |[Hpd|?]]]; [done|by left| |by right; right]. right. left.
    apply Hpen in Hpd. cbn [app] in Hpd. apply elem_of_callbacks in Hpd as [q Hw]. exists q. split; [|done].
    assert (Hq' : ClientDone i q ∈ iss) by (rewrite <-(iv_callers _ _ _ _ _ _ Hres); apply elem_of_app; by left).
    destruct (Hask i q Hq') as (query' & client' & r' & Hi' & Hq2). by destruct (query_unique _ _ _ _ _ _ _ _ _ _ _ _ _ Hinv Hi Hi') as (-> & _).
Qed.

Lemma new_server_inv (Q : Service L C U Responder → Prop) udp_cfg bind_calls closed udp port tcp_cfg listen_calls closed' tcp tcp_port rs : starts random cfg rs → limits_ok tcp_cfg →
  create_udp new_loop udp_cfg bind_calls = (closed, Some (udp, port)) → create_tcp new_loop tcp_cfg listen_calls = (closed', Some (tcp, tcp_port)) → Q (new_service p0 rs) →
  server_inv cfg p0 (uc_max_response_size udp_cfg) tcp_cfg Q [] [] None 0 (mkServer (new_service p0 rs) udp tcp).
Proof.
  intros Hs Hlim Hcreated (_ & -> & _)%create_tcp_start HQ. destruct (create_udp_inv _ _ _ _ _ _ Hcreated) as (Hu & Hsock & Elog).
  split; cbn [sr_service sr_udp sr_tcp]; try done; [exists []; by apply (new_service_inv random)|by destruct Hu|by rewrite Elog|by apply tcp_start_inv].
Qed.

Global Instance no_fact : ServiceFact (T:=T) clock random case_bits calls times cfg p0 (λ _ : Service L C U Responder, True).
Proof. by split. Qed.

(** C3: a server answers its clients.  Let the listeners be ones that [create]
    gave and the resolver a new one, and let any datagrams, connections and
    bytes arrive, timers and upstream events happen and lists be swapped.  The
    server never faults, not even where a reply lets in queries from inside a
    callback of the resolver.  Over UDP the packets given to the system are the
    replies to the datagrams that are well-formed queries, each to its query's
    sender from the address that was asked; on every open connection the bytes written and
    queued are the replies to the queries among the bytes that arrived.  Each
    reply is to a query that came the same way, of which it echoes the id and
    question, and obeys the access list and the rebinding protection; no query
    has two replies; and each has its reply, or the resolver is working on its
    question, or a limit that drops may have taken it. *)
Theorem clients_answered udp_cfg bind_calls closed udp port tcp_cfg listen_calls closed' tcp tcp_port rs ops : InetPtonLiterals → starts random cfg rs → limits_ok tcp_cfg →
  create_udp new_loop udp_cfg bind_calls = (closed, Some (udp, port)) → create_tcp new_loop tcp_cfg listen_calls = (closed', Some (tcp, tcp_port)) →
  let s0 := mkServer (new_service p0 rs) udp tcp in
  server_all_can_run clock random case_bits calls times net ops s0 →
  ∃ s, server_run (T:=T) clock random case_bits calls times net ops s0 = Ok s ∧ accounted p0 (uc_max_response_size udp_cfg) (server_received ops) s.
Proof.
  intros Hlit Hs Hlim Hcreated Hlisten s0 Hrun.
  pose proof (new_server_inv (λ _, True) _ _ _ _ _ _ _ _ _ _ rs Hs Hlim Hcreated Hlisten I) as Hi.
  destruct (server_run_inv clock random case_bits calls times net cfg p0 (uc_max_response_size udp_cfg) tcp_cfg (st_config _ _ _ Hs) (st_random _ _ _ Hs) Hlim (λ _, True) ops [] s0 Hi Hrun)
    as (s & E & Hinv). exists s. split; [done|]. by eapply server_inv_accounted.
Qed.
End props.

(** ** Checking that a run can be made *)

Section checking.
Context `{InetPton} {L T : Type} `{RateLimit L} `{Blocklist T} `{AnswerCache Cache.Cache}.
Implicit Types (s : Server L Cache.Cache Upstream.UpstreamClient).

Definition can_take_b (n : nat) (rs : Resolver Cache.Cache Upstream.UpstreamClient) : bool :=
  ready_b rs && ((r_next_task_id rs + Z.of_nat n <? 18446744073709551616) && (el_next_token (r_loop rs) + Z.of_nat (2 * n) <? 18446744073709551616) &&
    (el_next_timer_id (r_loop rs) + Z.of_nat (2 * n) <? 18446744073709551616))%Z.
Definition room_b {Io Tm} (l : EventLoop Io Tm) (n : nat) : bool :=
  ((el_next_token l + Z.of_nat n <? 18446744073709551616) && (el_next_timer_id l + Z.of_nat n <? 18446744073709551616))%Z.

Lemma can_take_b_sound n rs : can_take_b n rs = true → can_take ex_sends n rs.
Proof.
  unfold can_take_b. rewrite !andb_true_iff, !Z.ltb_lt. intros [Hr [[? ?] ?]]. apply ready_b_sound in Hr as (_ & _ & ?). by split_and!.
Qed.
Lemma room_b_sound {Io Tm} (l : EventLoop Io Tm) n : room_b l n = true → room l n.
Proof. unfold room_b. by rewrite andb_true_iff, !Z.ltb_lt. Qed.

Definition tcp_fits_b (op : TcpOp) s : bool :=
  room_b (tl_loop (sr_tcp s)) (cost op (sr_tcp s)) && can_take_b (intake op (sr_tcp s)) (sv_resolver (sr_service s)) &&
  match op with
  | AcceptReady _ => (tl_accept_retry (sr_tcp s) =? 0)%Z && (tl_next_id (sr_tcp s) + Z.of_nat kMaxAcceptsPerWakeup <? 18446744073709551616)%Z
  | _ => true
  end.
Lemma tcp_fits_b_sound op s : tcp_fits_b op s = true → tcp_fits ex_sends op s.
Proof.
  unfold tcp_fits_b. rewrite !andb_true_iff. intros [[Hr%room_b_sound Ht%can_take_b_sound] Ho]. split_and!; [done|done|].
  destruct op; [|done..]. by rewrite andb_true_iff, Z.eqb_eq, Z.ltb_lt in Ho.
Qed.

Definition resolver_fits_b (op : Op) s : bool :=
  let rs := sv_resolver (sr_service s) in
  match op with UpstreamCalls ev => ready_b (set_service rs (us_event (r_upstream rs) ev).2 (r_owner rs) (r_sends rs)) | _ => ready_b rs end &&
  match exec ex_clock ex_random ex_case_bits ex_sends op rs with
  | Ok (_, rs') => let n := length (pipeline_callbacks (called (news rs rs'))) in
    can_take_b (n * S (buffered (sr_tcp s))) rs' && room_b (tl_loop (sr_tcp s)) (n * (3 + 2 * buffered (sr_tcp s)))
  | _ => true
  end.
Lemma resolver_fits_b_sound op s : resolver_fits_b op s = true → resolver_fits ex_clock ex_random ex_case_bits ex_sends op s.
Proof.
  unfold resolver_fits_b. rewrite andb_true_iff. intros [Hr He]. split; [destruct op; by apply ready_b_sound|].
  destruct (exec _ _ _ _ _ _) as [[[] rs']| |]; [|done..]. rewrite andb_true_iff in He. destruct He. split; [by apply can_take_b_sound|by apply room_b_sound].
Qed.

Definition server_ready_b (op : ServerOp) s : bool :=
  match op with
  | ServerReadable _ => can_take_b kMaxPacketsPerWakeup (sv_resolver (sr_service s))
  | ServerAccept accepts => tcp_fits_b (AcceptReady accepts) s
  | ServerConnection id events recvs => tcp_fits_b (Ready id events recvs) s
  | ServerTcpTimers at_time newest => tcp_fits_b (TcpTimersDue at_time newest) s
  | ServerPrime => resolver_fits_b (PrimeRoot 0) s
  | ServerTimers at_time newest => resolver_fits_b (TimersDue at_time newest) s
  | ServerUpstream ev => resolver_fits_b (UpstreamCalls ev) s
  end.
Lemma server_ready_b_sound op s : server_ready_b op s = true → server_can_run ex_clock ex_random ex_case_bits ex_sends op s.
Proof.
  destruct op; unfold server_ready_b, server_can_run; [|by intros ?%tcp_fits_b_sound..|by intros ?%resolver_fits_b_sound|by intros ?%resolver_fits_b_sound|by intros ?%resolver_fits_b_sound].
  generalize kMaxPacketsPerWakeup. intros n. apply can_take_b_sound.
Qed.
End checking.

(** ** A run: one client asks over UDP and over TCP, an outsider is refused *)

#[local] Existing Instance ex_pton.
#[local] Existing Instance ex_cache_instance.

Definition ex_wire_query : list Z := Eval vm_compute in build QueryProcessor.ex_query (mkOptions 512 true).
Definition ex_stream_query : list Z := Eval vm_compute in build_tcp QueryProcessor.ex_query (mkOptions 512 true).
Definition ex_net : Sockets := mkSockets ex_udp_sends ex_tcp_clock (λ _, [Upstream.SendAccepted 1000]) ex_tcp_ctl.
Definition ex_server_ops : list (Lists (T:=BlocklistTrie) * ServerOp) := (λ op, (ex_in_use, op)) <$>
  [ServerReadable [Datagram ex_wire_query (ci_addr ex_inside) ex_udp_control; Datagram [1; 2]%Z ex_udp_peer []; DatagramError;
                   Datagram ex_wire_query (ci_addr ex_outside) []; DatagramAgain];
   ServerAccept [Accepted 17 (ci_addr ex_inside)]; ServerConnection 1 kReadable [Upstream.Received (take 9 ex_stream_query)];
   ServerTimers 1000000000 1000; ServerConnection 1 kReadable [Upstream.Received (drop 9 ex_stream_query)];
   ServerUpstream (FdEvent 7 false true [] [Upstream.Received (Upstream.ex_bytes 4660)])].
Definition ex_server : Server unit Cache.Cache Upstream.UpstreamClient := mkServer (new_service ex_processor (ex_start 8)) ex_udp_start ex_tcp_start.
Abbreviation ex_server_exec := (server_exec ex_clock ex_random ex_case_bits ex_sends ex_times ex_net).
Abbreviation ex_server_run := (server_run ex_clock ex_random ex_case_bits ex_sends ex_times ex_net).

Fixpoint server_runs_b (ops : list (Lists (T:=BlocklistTrie) * ServerOp)) (s : Server unit Cache.Cache Upstream.UpstreamClient) : bool :=
  match ops with
  | [] => true
  | (lists, op) :: ops => server_ready_b op s && match ex_server_exec lists op s with Ok s => server_runs_b ops s | _ => true end
  end.
Lemma server_runs_b_sound ops : ∀ s, server_runs_b ops s = true →
  server_all_can_run ex_clock ex_random ex_case_bits ex_sends ex_times ex_net ops s.
Proof.
  induction ops as [|[lists op] ops IH]; intros s Hb; [done|]. cbn [server_runs_b server_all_can_run] in *. apply andb_true_iff in Hb as [Hop Hrest].
  split; [by apply server_ready_b_sound|]. destruct (ex_server_exec lists op s) as [s'| |]; [|done..]. by apply IH.
Qed.

Lemma ex_server_runs : server_all_can_run ex_clock ex_random ex_case_bits ex_sends ex_times ex_net ex_server_ops ex_server.
Proof. apply server_runs_b_sound. vm_compute. reflexivity. Qed.

(** Both queries of the client are answered by the one upstream response. *)
Example ex_server_summary : match ex_server_run ex_server_ops ex_server with
  | Ok s => map (λ p, (h_rcode (m_header p.1), m_answers p.1, pk_to p.2)) (packets (ul_log (sr_udp s))) =
      [(RCode.Refused, [], ci_addr ex_outside); (RCode.NoError, m_answers (Upstream.ex_reply 0), ci_addr ex_inside)] ∧
      map m_answers (answered 1 (tl_log (sr_tcp s))) = [m_answers (Upstream.ex_reply 0)]
  | _ => False
  end.
Proof. vm_compute. done. Qed.

Lemma clients_answered_witness : ∃ s, ex_server_run ex_server_ops ex_server = Ok s ∧ accounted ex_processor (uc_max_response_size ex_udp_config) (server_received ex_server_ops) s.
Proof.
  exact (clients_answered ex_clock ex_random ex_case_bits ex_sends ex_times ex_net (ex_limits 8) ex_processor ex_udp_config ex_udp_calls [] ex_udp_start
    5353%Z ex_tcp_config ex_tcp_calls [] ex_tcp_start 5353%Z (ex_start 8) ex_server_ops ex_pton_literals (ex_starts 8 ltac:(lia)) ex_tcp_limits ex_udp_created ex_tcp_created ex_server_runs).
Defined.
