(* ===== verification/Counts.v ===== *)
(** * The counters explain every missing reply

    The daemon reports how many queries were over a client's limit and how many
    responses were dropped by RRL.  Over any run of the service these numbers
    are the truth: every query is replied to, waited for, dropped by the access
    list, or counted by one of the two limiters, and by one only.  A reply over
    UDP is a packet that the system took or refused; a reply over TCP is put into
    its connection's stream, unless the connection is gone.

    The counters are 64 bits wide, so the true counts are kept beside them. *)

From stdpp Require Import base tactics numbers list gmap fin_maps.
From Stdlib Require Import ZArith Lia.
From S2P Require Import Prelude Names Types Builder Acl Rrl Rebinding Blocklist CnameCheck Blocklists Trie TrieLookup RateLimiter Interfaces ServerSelection.
From S2P Require Import Resolver ResolverLinks ResolverInv ResolverSteps ResolverProps TcpListener TcpProofs TcpLinks QueryProcessor Service ServiceProps UdpListener UdpProps Server ServerProps.

(** ** The limiters' counters *)

Lemma count_dropped (rl : ResponseRateLimiter) (e : Rrl.Entry) (now y : Z) : rl_dropped rl = u64 y → let '(v, _, rl') := Rrl.count rl e now in
  rl_dropped rl' = u64 (y + match v with RrlDrop => 1 | _ => 0 end)%Z.
Proof.
  intros E. unfold Rrl.count. cbv zeta. generalize (if (rl_window rl <=? now - en_window_start e)%Z then mkCount now 0 0 else e). intros e1. destruct (_ <=? window_cap rl)%Z; [by rewrite Z.add_0_r|].
  destruct ((0 <? _)%Z && _); cbn [add_slipped add_dropped rl_dropped]; [by rewrite Z.add_0_r|]. by rewrite E, u64_succ.
Qed.

Lemma rrl_check_dropped rl addr m now y : rl_dropped rl = u64 y → let '(v, rl') := rrl_check rl addr m now in
  rl_dropped rl' = u64 (y + match v with RrlDrop => 1 | _ => 0 end)%Z.
Proof.
  intros E. rewrite rrl_check_key. destruct (request_key rl addr m) as [k|]; [|by rewrite Z.add_0_r]. unfold check_key.
  destruct (rl_entries rl !! k) as [e|].
  { pose proof (count_dropped rl e now y E) as Hc. destruct (Rrl.count rl e now) as [[v e'] rl']. exact Hc. }
  cbv zeta. set (rl1 := if _ && _ then forget_expired rl now else rl). assert (E1 : rl_dropped rl1 = u64 y) by (unfold rl1; by destruct (_ && _)). clearbody rl1.
  destruct (_ <=? _)%Z.
  - pose proof (count_dropped rl1 (if rl_overflow_used rl1 then rl_overflow rl1 else mkCount now 0 0) now y E1) as Hc. destruct (Rrl.count rl1 _ now) as [[v e'] rl']. exact Hc.
  - pose proof (count_dropped rl1 (mkCount now 0 0) now y E1) as Hc. destruct (Rrl.count rl1 _ now) as [[v e'] rl']. exact Hc.
Qed.

Lemma take_token_limited l b now x : rt_limited l = u64 x → let '(ok, _, l') := take_token l b now in rt_limited l' = u64 (x + if ok : bool then 0 else 1)%Z.
Proof. intros E. unfold take_token. destruct (SpecFloat.SFltb _ _); cbn [rt_limited]; [by rewrite E, u64_succ|by rewrite Z.add_0_r]. Qed.

Lemma allow_limited l addr now x : rt_limited l = u64 x → let '(ok, l') := allow l addr now in rt_limited l' = u64 (x + if ok : bool then 0 else 1)%Z.
Proof.
  intros E. unfold allow. destruct (limiter_enabled l); cbn [negb]; [|by rewrite Z.add_0_r]. destruct (ip_address addr) as [ip|]; [|by rewrite Z.add_0_r].
  destruct (any_contains _ _); [by rewrite Z.add_0_r|]. destruct (rt_buckets l !! RateLimiter.ip_key ip) as [b|].
  { pose proof (take_token_limited l b now x E) as Ht. destruct (take_token l b now) as [[ok b'] l']. exact Ht. }
  cbv zeta. set (l1 := if _ && _ then forget_idle l now else l). assert (E1 : rt_limited l1 = u64 x) by (unfold l1; by destruct (_ && _)). clearbody l1.
  destruct (table_full l1).
  - pose proof (take_token_limited l1 (if rt_overflow_used l1 then rt_overflow l1 else new_bucket l1 now) now x E1) as Ht.
    destruct (take_token l1 _ now) as [[ok b'] l']. exact Ht.
  - pose proof (take_token_limited l1 (new_bucket l1 now) now x E1) as Ht. destruct (take_token l1 _ now) as [[ok b'] l']. exact Ht.
Qed.

(** ** The pipeline *)

Section pipeline.
Context `{InetPton}.
Abbreviation Processor := (QueryProcessor (L:=RateLimiter)).
Implicit Types (p : Processor) (lists : Lists (T:=BlocklistTrie)).

(** [over]: queries refused a token so far; [dropped]: responses RRL dropped. *)
Definition counts_are p (over dropped : Z) : Prop :=
  rt_limited (ck_rate_limit (qp_checks p)) = u64 over ∧ rl_dropped (ck_rrl (qp_checks p)) = u64 dropped.

(** Of the queries over the limit, those that get no answer. *)
Definition unanswered p (over : Z) : Z := if decide (rate_action (ck_rate_limit (qp_checks p)) = DropQuery) then over else 0%Z.

(** Dropped because of where it comes from. *)
Definition dropped_by_access (a : AccessConfig) (client : ClientInfo) : bool :=
  negb (allows a (ci_addr client)) && bool_decide (ac_deny a = DropQuery).

(** Lengths of the effect lists at hand. *)
Ltac zlens := unfold zlen in *; cbn [sent QueryProcessor.asks omap list_omap length app] in *; repeat case_decide; try done; lia.

Lemma respond_counts p addr limited m now over dropped : counts_are p over dropped →
  let '(effects, p') := respond p addr limited m now in
  ∃ dropped', counts_are p' over dropped' ∧ (dropped ≤ dropped' ∧ 1 + dropped = zlen (sent effects) + dropped')%Z.
Proof.
  intros [Ho Hd]. unfold respond. destruct limited; [|exists dropped; split; [done|zlens]]. pose proof (rrl_check_dropped (ck_rrl (qp_checks p)) addr m now dropped Hd) as Hc.
  destruct (rrl_check _ _ _ _) as [v rl]. eexists. split; [split; [exact Ho|exact Hc]|]. destruct v; zlens.
Qed.

Lemma zlen_sent_report p q chain match_ effects : zlen (sent (report p q chain match_ ++ effects)) = zlen (sent effects).
Proof. unfold report. by destruct (qp_on_block p). Qed.

Lemma asks_report p q chain match_ effects : QueryProcessor.asks (report p q chain match_ ++ effects) = QueryProcessor.asks effects.
Proof. unfold report. by destruct (qp_on_block p). Qed.

Lemma handle_counts p lists query client limit_now now effects p' over dropped : counts_are p over dropped →
  handle p lists query client limit_now now = Ok (effects, p') →
  ∃ over' dropped', counts_are p' over' dropped' ∧ (over ≤ over' ≤ over + 1)%Z ∧ (dropped ≤ dropped')%Z ∧
    (1 + unanswered p over + dropped = zlen (sent effects) + zlen (QueryProcessor.asks effects) +
      (if dropped_by_access (ck_access (qp_checks p)) client then 1 else 0) + unanswered p over' + dropped')%Z.
Proof.
  intros Hc. unfold handle, dropped_by_access.
  assert (Hend : ∀ p1 m over1 effects p', counts_are p1 over1 dropped → respond p1 (ci_addr client) (limits p client) m now = (effects, p') →
    QueryProcessor.asks effects = [] ∧ ∃ dropped', counts_are p' over1 dropped' ∧ (dropped ≤ dropped' ∧ 1 + dropped = zlen (sent effects) + dropped')%Z).
  { intros p1 m over1 es p2 Hc1 E. split; [|pose proof (respond_counts p1 (ci_addr client) (limits p client) m now over1 dropped Hc1) as Hr; by rewrite E in Hr].
    pose proof (respond_sent p1 (ci_addr client) (limits p client) m now) as [Ha _]. by rewrite E in Ha. }
  destruct (allows (ck_access (qp_checks p)) (ci_addr client)); cbn [negb andb].
  2:{ destruct (ac_deny _).
      - intros [= E]. destruct (Hend _ _ _ _ _ Hc E) as (-> & dropped' & Hc' & Hle & Eq). exists over, dropped'. split_and!; [done|lia|lia|lia|]. rewrite bool_decide_false by done. zlens.
      - intros [= <- <-]. exists over, dropped. split_and!; [done|lia|lia|lia|]. rewrite bool_decide_true by done. zlens. }
  pose proof (allow_limited (ck_rate_limit (qp_checks p)) (ci_addr client) limit_now over (proj1 Hc)) as Hl.
  pose proof (rate_action_kept (ck_rate_limit (qp_checks p)) (ci_addr client) limit_now) as Hact.
  change (rate_allow (ck_rate_limit (qp_checks p)) (ci_addr client) limit_now) with (allow (ck_rate_limit (qp_checks p)) (ci_addr client) limit_now) in *.
  destruct (allow _ _ _) as [ok l]. cbn [snd] in Hact.
  assert (Hc1 : counts_are (set_rate_limit p l) (over + if ok then 0 else 1) dropped) by (split; [exact Hl|exact (proj2 Hc)]).
  destruct ok; cbn [negb].
  2:{ destruct (rate_action l) eqn:Er; unfold unanswered; rewrite <-Hact.
      - intros [= E]. destruct (Hend _ _ _ _ _ Hc1 E) as (-> & dropped' & Hc' & Hle & Eq). exists (over + 1)%Z, dropped'. split_and!; [done|lia|lia|lia|zlens].
      - intros [= <- <-]. exists (over + 1)%Z, dropped. split_and!; [done|lia|lia|lia|zlens]. }
  rewrite Z.add_0_r in Hc1. destruct (reject_reason query) as [rcode|] eqn:Er.
  { intros [= E]. destruct (Hend _ _ _ _ _ Hc1 E) as (-> & dropped' & Hc' & Hle & Eq). exists over, dropped'. split_and!; [done|lia|lia|lia|zlens]. }
  destruct (m_questions query) as [|q qs]; [done|]. destruct (tr_matched _ && bool_decide _).
  - destruct (blocked_response _ _) as [m| |]; [|done..]. rewrite bind_Ok. destruct (respond _ _ _ m now) as [es p2] eqn:E. intros [= <- <-].
    destruct (Hend _ _ _ _ _ Hc1 E) as (Ha & dropped' & Hc' & Hle & Eq). exists over, dropped'. split_and!; [done|lia|lia|lia|]. rewrite zlen_sent_report.
    rewrite asks_report, Ha. zlens.
  - intros [= <- <-]. exists over, dropped. split_and!; [done|lia|lia|lia|zlens].
Qed.

Lemma on_resolved_counts p lists k (result : ResolveError.t + Message) now effects p' over dropped : counts_are p over dropped →
  on_resolved p lists k result now = Ok (effects, p') →
  ∃ dropped', counts_are p' over dropped' ∧ (dropped ≤ dropped' ∧ 1 + dropped = zlen (sent effects) + dropped')%Z.
Proof.
  intros Hc. assert (Hend : ∀ m effects p', respond p (pd_addr k) (pd_limited k) m now = (effects, p') →
    ∃ dropped', counts_are p' over dropped' ∧ (dropped ≤ dropped' ∧ 1 + dropped = zlen (sent effects) + dropped')%Z).
  { intros m es p2 E. pose proof (respond_counts p (pd_addr k) (pd_limited k) m now over dropped Hc) as Hr. by rewrite E in Hr. }
  unfold on_resolved. destruct result as [e|res]; [intros [= E]; by eapply Hend|]. destruct (m_questions (pd_response k)) as [|asked qs]; [done|].
  destruct (if pd_check_chain k then _ else _) as [[c|]| |]; [..|done|done]; rewrite bind_Ok.
  - destruct (blocked_response _ _) as [m| |]; [|done..]. rewrite bind_Ok. destruct (respond _ _ _ m now) as [es p2] eqn:E. intros [= <- <-].
    rewrite zlen_sent_report. by eapply Hend.
  - unfold finish. destruct (strip _ _ _) as [[removed kept]| |]; [|done..]. rewrite bind_Ok. cbv beta iota zeta. destruct (respond _ _ _ _ now) as [es p2] eqn:E.
    intros [= <- <-]. apply Hend in E. destruct removed; [exact E|]. unfold report_rebinding. by destruct (qp_on_rebinding p).
Qed.
End pipeline.

(** ** The service *)

Section service.
Context `{InetPton} `{!InetPtonLiterals} {C U : Type} `{AnswerCache C} `{Interfaces.UpstreamService U} {R : Type}.
Context (clock : nat → Z) (random : nat → Z → Z) (case_bits : nat → nat → Z) (calls : nat → Upstream.SendCalls) (times : nat → Z).
Context (cfg : ResolverConfig) (p0 : QueryProcessor (L:=RateLimiter)).
Implicit Types (s : Service RateLimiter C U R) (lists : Lists (T:=BlocklistTrie)).

Definition dropped_queries (qs : list (Message * ClientInfo * R)) : list (Message * ClientInfo * R) :=
  filter (λ q, dropped_by_access (ck_access (qp_checks p0)) q.1.2 = true) qs.

(** Nothing is lost: the queries are those replied to, those waited for, and
    those dropped, each for a reason that is counted. *)
Definition conserved s : Prop := ∃ over dropped, counts_are (sv_processor s) over dropped ∧
  (0 ≤ over ≤ zlen (queried (sv_log s)))%Z ∧ (0 ≤ dropped)%Z ∧
  (zlen (queried (sv_log s)) = zlen (replied (sv_log s)) + Z.of_nat (size (sv_pending s)) + zlen (dropped_queries (queried (sv_log s))) +
    unanswered p0 over + dropped)%Z.

Lemma dropped_queries_app qs qs' : dropped_queries (qs ++ qs') = dropped_queries qs ++ dropped_queries qs'.
Proof. apply filter_app. Qed.

Lemma told_counts i r effects log : zlen (replied (log ++ omap (told i r) effects) : list (nat * R * Message)) = (zlen (replied log) + zlen (sent effects))%Z ∧
  queried (log ++ omap (told i r) effects) = queried log.
Proof. rewrite replied_app, replied_told, queried_app, queried_told, app_nil_r, zlen_app. split; [|done]. unfold zlen. by rewrite length_fmap. Qed.

Lemma new_service_conserved (rs : Resolver C U) : counts_are p0 0 0 → conserved (new_service p0 rs).
Proof.
  intros Hc. exists 0%Z, 0%Z. split_and!; [exact Hc|done..|]. cbn [new_service sv_log sv_pending queried replied omap list_omap]. rewrite map_size_empty. unfold unanswered. by case_decide.
Qed.

Lemma saw_conserved s e : conserved s → queried [e] = [] → replied [e] = [] → conserved (saw s e).
Proof.
  intros (over & dropped & Hc & Ho & Hd & E) Eq Er. exists over, dropped. split; [done|]. cbn [saw sv_log sv_pending]. by rewrite queried_app, replied_app, Eq, Er, !app_nil_r.
Qed.

Lemma deliver_event_conserved iss owed lists e s s' : service_inv cfg p0 iss None owed s → conserved s →
  deliver_event clock random case_bits calls times lists e s = Ok s' → conserved s'.
Proof.
  intros Hinv Hcon. destruct e as [i q result|k result| | |alert]; cbn [deliver_event]; [|intros [= <-]; by apply saw_conserved|by intros [= <-]..|intros [= <-]; by apply saw_conserved].
  destruct (sv_pending s !! i) as [[k r]|] eqn:Hi; [|done]. destruct (si_captured _ _ _ _ _ _ Hinv i k r Hi) as (query & client & _ & Hk).
  destruct (on_resolved_replies (sv_processor s) lists query client k (match result with inl e => inl e | inr res => inr (rs_response res) end)
    (times (sv_ticks s)) (captured_same _ _ _ _ _ (si_settings _ _ _ _ _ _ Hinv) Hk)) as (effects & p' & Eo & Hs & Ha & _). rewrite Eo, bind_Ok.
  rewrite perform_told by done. intros [= <-]. destruct Hcon as (over & dropped & Hc & Hov & Hdr & E).
  destruct (on_resolved_counts _ _ _ _ _ _ _ _ _ Hc Eo) as (dropped' & Hc' & Hle & Ed).
  exists over, dropped'. cbn [with_pending with_processor with_ticks sv_processor sv_log sv_pending]. split; [done|].
  destruct (told_counts i r effects (sv_log s)) as [-> ->]. split_and!; [lia..|]. rewrite (map_size_delete_Some _ _ (mk_is_Some _ _ Hi)).
  assert (size (sv_pending s) ≠ 0) by (intros E0%map_size_empty_inv; by rewrite E0 in Hi). lia.
Qed.

Lemma handle_query_conserved iss owed lists query client r s s' : service_inv cfg p0 iss None owed s → conserved s →
  handle_query clock random case_bits calls times lists query client r s = Ok s' → conserved s'.
Proof.
  intros Hinv Hcon. pose proof (si_settings _ _ _ _ _ _ Hinv) as Hset. unfold handle_query. cbn [saw sv_processor sv_resolver sv_pending sv_next sv_ticks sv_log].
  destruct (handle_replies (sv_processor s) lists query client (times (sv_ticks s)) (times (S (sv_ticks s)))) as (effects & p' & Eh & Hs & Hcase).
  rewrite Eh, bind_Ok. destruct Hcon as (over & dropped & Hc & Hov & Hdr & E). destruct (handle_counts _ _ _ _ _ _ _ _ _ _ Hc Eh) as (over' & dropped' & Hc' & Hle & Hle' & Ed).
  assert (Eu : ∀ x, unanswered (sv_processor s) x = unanswered p0 x) by (intros x; unfold unanswered; by rewrite (sc_action _ _ Hset)).
  rewrite !Eu, (sc_access _ _ Hset) in Ed.
  assert (Eq : queried (sv_log s ++ [QueryIn (sv_next s) query client r]) = queried (sv_log s) ++ [(query, client, r)]) by (by rewrite queried_app).
  assert (Er : replied (sv_log s ++ [QueryIn (sv_next s) query client r]) = replied (sv_log s)) by (by rewrite replied_app, app_nil_r).
  assert (Edq : zlen (dropped_queries [(query, client, r)]) = if dropped_by_access (ck_access (qp_checks p0)) client then 1%Z else 0%Z).
  { unfold dropped_queries. rewrite filter_cons. cbn [fst snd]. destruct (dropped_by_access _ _); [by rewrite decide_True|by rewrite decide_False]. }
  destruct Hcase as [(q & cc & Hq & Hall & ->)|(Ha & _)].
  - cbn [perform sv_resolver]. destruct (lift _) as [[? rs]| |]; [|done..]. rewrite bind_Ok. intros [= <-]. exists over', dropped'. split; [exact Hc'|].
    cbn [with_pending with_resolver sv_log sv_pending]. rewrite Eq, Er, dropped_queries_app, !zlen_app, Edq, map_size_insert_None.
    + unfold zlen in *. cbn [sent QueryProcessor.asks omap list_omap length] in *. lia.
    + apply eq_None_not_Some. intros [[k' r'] Hx]. destruct (si_captured _ _ _ _ _ _ Hinv _ _ _ Hx) as (q' & c' & Hin & _).
      assert (Hj : sv_next s ∈ queries (sv_log s)) by (apply elem_of_queries; eauto). rewrite (si_queries _ _ _ _ _ _ Hinv) in Hj. apply elem_of_seq in Hj. lia.
  - rewrite perform_told by done. intros [= <-]. exists over', dropped'. split; [exact Hc'|]. cbn [sv_log sv_pending].
    destruct (told_counts (sv_next s) r effects (sv_log s ++ [QueryIn (sv_next s) query client r])) as [-> ->].
    rewrite Eq, Er, dropped_queries_app, !zlen_app, Edq. rewrite Ha in Ed. unfold zlen in *. cbn [length] in *. lia.
Qed.
End service.

(** ** The server *)

(** The replies given on connections. *)
Definition tcp_said (log : list (ServiceEvent Responder)) : list (Message * Z) :=
  omap (λ x, match x.2 with TcpTo id => Some (x.1, id) | UdpTo _ => None end) (said log).

Lemma said_split log : zlen (replied log) = (zlen (udp_told log) + zlen (tcp_said log))%Z.
Proof. unfold udp_told, tcp_said, said, zlen. induction (replied log) as [|[[i [r|id]] m] rs IH]; cbn; lia. Qed.

(** Of the packets given to the system, those it took and those it did not. *)
Lemma packets_split log : zlen (packets log) = (zlen (udp_sends true log) + zlen (udp_sends false log))%Z.
Proof. unfold packets, udp_sends, zlen. induction log as [|[|m p [|]] log IH]; cbn; lia. Qed.

(** The responses the TCP listener has put into a stream. *)
Definition answers (log : list TcpEvent) : list (Message * Z) :=
  omap (λ e, match e with Answered id m => Some (m, id) | _ => None end) log.

(** Of replies on connections, those on one. *)
Definition on_connection {A} (id : Z) (replies : list (A * Z)) : list A := omap (λ x, if decide (x.2 = id) then Some x.1 else None) replies.

Lemma answered_on id log : answered id log = on_connection id (answers log).
Proof. unfold answered, on_connection, answers. induction log as [|[] log IH]; cbn; try done. case_decide; cbn; [by f_equal|done]. Qed.
Lemma told_on id log : tcp_told id log = on_connection id (tcp_said log).
Proof. unfold tcp_told, on_connection, tcp_said. induction (said log) as [|[m [r|j]] rs IH]; cbn; try done. case_decide; cbn; [by f_equal|done]. Qed.

Lemma on_connection_perm {A} id (l l' : list (A * Z)) : l ≡ₚ l' → on_connection id l ≡ₚ on_connection id l'.
Proof. unfold on_connection. by intros ->. Qed.

(** What is contained connection by connection is contained. *)
Lemma by_connection {A} (l : list (A * Z)) : ∀ l', (∀ id, on_connection id l ⊆+ on_connection id l') → l ⊆+ l'.
Proof.
  induction l as [|[m i] l IH]; intros l' Hl; [apply submseteq_nil_l|].
  assert (Hin : (m, i) ∈ l').
  { specialize (Hl i). cbn in Hl. rewrite decide_True in Hl by done. assert (Hm : m ∈ on_connection i l') by (eapply elem_of_submseteq; [|exact Hl]; left).
    apply list_elem_of_omap in Hm as ([m' j] & Hm & E). cbn in E. by case_decide; simplify_eq. }
  apply elem_of_Permutation in Hin as [k Hk]. rewrite Hk. apply submseteq_skip, IH. intros id. specialize (Hl id).
  rewrite (on_connection_perm id _ _ Hk) in Hl. cbn in Hl. case_decide; [|done]. exact (submseteq_app_inv_l _ _ [m] Hl).
Qed.

Section server.
Context `{InetPton} `{!InetPtonLiterals} {C U : Type} `{AnswerCache C} `{Interfaces.UpstreamService U}.
Context (clock : nat → Z) (random : nat → Z → Z) (case_bits : nat → nat → Z) (calls : nat → Upstream.SendCalls) (times : nat → Z).
Context (cfg : ResolverConfig) (p0 : QueryProcessor (L:=RateLimiter)) (limit : Z) (tcp_cfg : TcpListener.TcpListenerConfig).
Implicit Types (s : Server RateLimiter C U).

Global Instance conserved_fact : ServiceFact (T:=BlocklistTrie) clock random case_bits calls times cfg p0 (conserved p0).
Proof.
  split.
  - intros. by eapply handle_query_conserved.
  - intros. by eapply deliver_event_conserved.
  - intros sv rs (over & dropped & Hc). by exists over, dropped.
Qed.

(** The replies on connections are those put into their streams, and those whose
    connection is gone. *)
Definition undelivered s (lost : list (Message * Z)) : Prop :=
  tcp_said (sv_log (sr_service s)) ≡ₚ answers (tl_log (sr_tcp s)) ++ lost ∧ Forall (λ reply, tl_connections (sr_tcp s) !! reply.2 = None) lost.

Lemma replies_delivered (Q : Service RateLimiter C U Responder → Prop) ds s : server_inv cfg p0 limit tcp_cfg Q ds [] None 0 s → ∃ lost, undelivered s lost.
Proof.
  intros Hinv. pose proof (sn_linked _ _ _ _ _ _ _ _ _ _ Hinv) as Hli.
  assert (Hsub : answers (tl_log (sr_tcp s)) ⊆+ tcp_said (sv_log (sr_service s))).
  { apply by_connection. intros id. rewrite <-answered_on, <-told_on. destruct (lk_taken _ _ _ Hli id) as [k Hk].
    cbn [told_to service_recorder] in Hk. rewrite Hk. apply submseteq_inserts_r. done. }
  apply submseteq_Permutation in Hsub as [lost Hlost]. exists lost. split; [done|]. apply Forall_forall. intros [m id] Hin.
  destruct (tl_connections (sr_tcp s) !! id) as [c|] eqn:Hc; [exfalso|done]. pose proof (lk_told _ _ _ Hli id c Hc) as Ht.
  cbn [told_to service_recorder owed_to] in Ht. rewrite app_nil_r, answered_on, told_on in Ht.
  apply (on_connection_perm id), Permutation_length in Hlost. rewrite <-Ht in Hlost. unfold on_connection in Hlost at 2. rewrite omap_app, length_app in Hlost.
  assert (Hm : m ∈ on_connection id lost) by (apply list_elem_of_omap; exists (m, id); split; [done|]; cbn; by rewrite decide_True).
  apply list_elem_of_lookup in Hm as [k Hk%lookup_lt_Some]. unfold on_connection in *. lia.
Qed.

(** What a reader of the counters concludes: the queries are those that a packet
    was sent for, those whose packet the system refused, those answered on a
    connection, those whose connection had gone, those waited for, those dropped
    by the access list, those over the limit (where that drops) and those dropped
    by RRL, in exactly the numbers reported. *)
Definition silence_counted s (lost : list (Message * Z)) : Prop :=
  let log := sv_log (sr_service s) in
  let checks := qp_checks (sv_processor (sr_service s)) in
  (zlen (queried log) = zlen (udp_sends true (ul_log (sr_udp s))) + zlen (udp_sends false (ul_log (sr_udp s))) +
    zlen (answers (tl_log (sr_tcp s))) + zlen lost + Z.of_nat (size (sv_pending (sr_service s))) + zlen (dropped_queries p0 (queried log)) +
    (if decide (rate_action (ck_rate_limit (qp_checks p0)) = DropQuery) then rt_limited (ck_rate_limit checks) else 0) + rl_dropped (ck_rrl checks))%Z.

Lemma conserved_counted ds s lost : server_inv cfg p0 limit tcp_cfg (conserved p0) ds [] None 0 s → undelivered s lost →
  (zlen (queried (sv_log (sr_service s))) < 2 ^ 64)%Z → silence_counted s lost.
Proof.
  intros [_ (over & dropped & [Ho Hd] & Hov & Hdr & E) _ _ _ Hp _ _ _ _] [Hlost _] Hlt. unfold silence_counted. rewrite <-packets_split, Hp, Ho, Hd.
  set (log := sv_log (sr_service s)) in *. unfold unanswered in E. pose proof (said_split log) as Hsplit.
  apply Permutation_length in Hlost. rewrite length_app in Hlost.
  assert (zlen (tcp_said log) = zlen (answers (tl_log (sr_tcp s))) + zlen lost)%Z as Hsaid by (unfold zlen; lia).
  assert (zlen (reply_of <$> udp_told log) = zlen (udp_told log)) as -> by (unfold zlen; by rewrite length_fmap).
  pose proof (zlen_nonneg (replied log)). pose proof (zlen_nonneg (dropped_queries p0 (queried log))).
  unfold u64. rewrite !Z.mod_small; case_decide; lia.
Qed.
End server.
