(* ===== verification/Config.v ===== *)
(** * The configuration: [server/config.cpp]

    Reading the YAML document into the components' settings.

    - yaml-cpp is the class [Yaml]: loading a text, the kind of a node, its
      scalar text, its pairs or items in order, the value at a key, its line
      and its reading as a bool.
    - A [ConfigError] is thrown; here it is the [Err] of an [outcome], with the
      line of the node at fault and what is wrong with it as data instead of
      its English text.
    - [Section] is [Settings]: the mapping, its path, and the keys ticked off.
      A reader is a computation on the section it reads from ([conf]); it is
      given the setting's present value, the [out] parameter of the source, and
      returns its new one.  [subsection] opens a nested mapping, reads it and
      ends with [finish], as every section of the source does. *)

From stdpp Require Import base tactics numbers list gmap fin_sets strings.
From Stdlib Require Import ZArith Lia.
From S2P Require Import Prelude Names Types Acl Cache Rrl Rebinding Blocklists RateLimiter Resolver SocketAddress TcpListener UdpListener.

(** ** Errors *)

(** [name] is the full name of the setting at fault. *)
Inductive What :=
| MustBeMapping (path : list Z)
| NotPlainWord
| SetTwice (name : list Z)
| UnknownSetting (name : list Z)
| NotAWholeNumber (name : list Z)
| OutOfRange (name : list Z) (min max : Z) (got : list Z)
| NotABool (name : list Z)
| NotAString (name : list Z)
| NotAddressPort (name : list Z)
| InvalidIp (name host : list Z)
| InvalidPort (name : list Z)
| NotAZoneMap (name : list Z)
| InvalidZone (name text : list Z)
| ListedTwice (name text : list Z)
| NeedsServers (name zone : list Z)
| Ipv6Server (name text : list Z)
| InvalidServer (name text : list Z)
| NotASubnetList (name : list Z)
| BadSubnet (name : list Z) (e : SubnetError)
| NotADenyAction (name : list Z)
| NobodyAllowed (name : list Z)
| NotAPath (name : list Z)
| NotADomainList (name : list Z)
| InvalidDomain (name text : list Z)
| ExemptsEverything (name : list Z)
| NotABlockResponse (name : list Z)
| ForwardNotImplemented
| NotAMode
| TimeoutAboveMax (query max : Z)
| MinAboveMaxTtl (min max : Z).

Record ConfigError := mkConfigError { er_line : option Z; er_what : What }.

(** What [YAML::Load] throws. *)
Inductive YamlError := ParserException (line : Z) (msg : list Z) | OtherException (what : list Z).

Class Yaml := {
  node : Type;
  yaml_load : list Z → YamlError + node;
  is_null : node → bool;
  is_map : node → bool;
  is_sequence : node → bool;
  is_scalar : node → bool;
  scalar : node → list Z;
  pairs : node → list (node * node);
  items : node → list node;
  value_at : node → list Z → option node;
  mark_line : node → Z;
  decode_bool : node → option bool;
}.

(** ** The settings read *)

Record Config := mkConfig {
  cf_udp : UdpListenerConfig; cf_tcp : TcpListenerConfig; cf_resolver : ResolverConfig; cf_cache : CacheConfig; cf_access : AccessConfig;
  cf_rate_limit : RateLimitConfig; cf_rrl : RrlConfig; cf_lists : ListsConfig; cf_rebinding : RebindingConfig;
  cf_not_implemented : list (list Z);
}.

Definition default_config `{InetPton} : Config :=
  mkConfig (mkUdpConfig (str "0.0.0.0") 53 1232) (mkTcpConfig (str "0.0.0.0") 53 10000 200 10) default_resolver_config default_cache_config
    (mkAccess localhost Refuse) (mkRateConfig 100 200 DropQuery [] 65536) default_rrl_config (mkLists [] [] NullIp 60 true 60)
    (mkRebinding true (default [] default_exempt)) [].

(** [std::from_chars] into a [uint64_t], all of the text. *)
Fixpoint uint_loop (digits : list Z) (acc : Z) : option Z :=
  match digits with
  | [] => Some acc
  | c :: rest =>
    if is_digit_byte c then
      let acc := (acc * 10 + (c - 48))%Z in
      if (acc <? 18446744073709551616)%Z then uint_loop rest acc else None
    else None
  end.
Definition to_uint (text : list Z) : option Z := match text with [] => None | _ :: _ => uint_loop text 0 end.

(** [text.find(c)]. *)
Fixpoint find_char (c : Z) (text : list Z) : option nat :=
  match text with [] => None | x :: text => if (x =? c)%Z then Some 0 else S <$> find_char c text end.

Section config.
Context `{Yaml}.

(** ** Sections *)

Record Settings := mkSettings { se_node : option node; se_path : list Z; se_used : gset (list Z) }.

Definition conf (A : Type) : Type := Settings → outcome ConfigError (A * Settings).
Global Instance conf_ret : MRet conf := λ A a s, Ok (a, s).
Global Instance conf_bind : MBind conf := λ A B k m s,
  match m s with Ok (a, s) => k a s | Err e => Err e | Fault f => Fault f end.

Definition error_at (at_node : node) (what : What) : ConfigError :=
  mkConfigError (if (0 <=? mark_line at_node)%Z then Some (mark_line at_node + 1)%Z else None) what.
Definition fail {A} (at_node : node) (what : What) : conf A := λ _, Err (error_at at_node what).

Definition scalar_or_empty (n : node) : list Z := if is_scalar n then scalar n else [].

Definition name_in (path key : list Z) : list Z := match path with [] => key | _ :: _ => path ++ str "." ++ key end.
Definition name_of (key : list Z) : conf (list Z) := λ s, Ok (name_in (se_path s) key, s).

(** The loop of the constructor; [keys]: those seen. *)
Fixpoint check_keys (path : list Z) (kvs : list (node * node)) (keys : gset (list Z)) : outcome ConfigError unit :=
  match kvs with
  | [] => Ok ()
  | (k, _) :: kvs =>
    if negb (is_scalar k) then Err (error_at k NotPlainWord) else
    if bool_decide (scalar k ∈ keys) then Err (error_at k (SetTwice (name_in path (scalar k)))) else
    check_keys path kvs ({[scalar k]} ∪ keys)
  end.

Definition open_section (n : option node) (path : list Z) : outcome ConfigError Settings :=
  match n with
  | None => Ok (mkSettings n path ∅)
  | Some d =>
    if is_null d then Ok (mkSettings n path ∅) else
    if negb (is_map d) then Err (error_at d (MustBeMapping path)) else
    _ ← check_keys path (pairs d) ∅; Ok (mkSettings n path ∅)
  end.

Definition child (n : option node) (key : list Z) : option node :=
  match n with Some d => if is_map d then value_at d key else None | None => None end.
Definition take_key (key : list Z) : conf (option node) := λ s,
  Ok (child (se_node s) key, mkSettings (se_node s) (se_path s) (se_used s ∪ {[key]})).

Fixpoint finish_loop (s : Settings) (kvs : list (node * node)) : outcome ConfigError unit :=
  match kvs with
  | [] => Ok ()
  | (k, _) :: kvs =>
    if bool_decide (scalar k ∈ se_used s) then finish_loop s kvs else Err (error_at k (UnknownSetting (name_in (se_path s) (scalar k))))
  end.
Definition finish_section (s : Settings) : outcome ConfigError unit :=
  match se_node s with Some d => if is_map d then finish_loop s (pairs d) else Ok () | None => Ok () end.

Definition read_section {A} (n : option node) (path : list Z) (body : conf A) : outcome ConfigError A :=
  s ← open_section n path;
  '(a, s) ← body s;
  _ ← finish_section s;
  Ok a.

Definition lift {A} (m : outcome ConfigError A) : conf A := λ s, a ← m; Ok (a, s).

Definition subsection {A} (key path : list Z) (body : conf A) : conf A :=
  n ← take_key key;
  lift (read_section n path body).

(** ** Readers *)

(** A [w]-bit setting between [min] and [max]. *)
Definition type_max (w : Z) : Z := (2 ^ w - 1)%Z.
Definition read_uint (w : Z) (key : list Z) (out min max : Z) : conf Z :=
  n ← take_key key;
  match n with
  | None => mret out
  | Some n =>
    name ← name_of key;
    match to_uint (scalar_or_empty n) with
    | None => fail n (NotAWholeNumber name)
    | Some v => if ((v <? min) || (max <? v))%Z then fail n (OutOfRange name min max (scalar n)) else mret (v mod 2 ^ w)%Z
    end
  end.

Definition read_bool (key : list Z) (out : bool) : conf bool :=
  n ← take_key key;
  match n with
  | None => mret out
  | Some n =>
    name ← name_of key;
    match (if is_scalar n then decode_bool n else None) with Some b => mret b | None => fail n (NotABool name) end
  end.

Definition read_string (key : list Z) (out : list Z) : conf (list Z) :=
  n ← take_key key;
  match n with
  | None => mret out
  | Some n => name ← name_of key; match scalar_or_empty n with [] => fail n (NotAString name) | _ :: _ => mret (scalar n) end
  end.

(** The host and port texts of ["0.0.0.0:53"] or ["[::]:53"]. *)
Definition split_endpoint (text : list Z) : option (Z * list Z * list Z) :=
  match text with
  | 91%Z :: _ =>
    match find_char 93 text with
    | None => None
    | Some close =>
      if bool_decide (take 1 (drop (close + 1) text) = str ":")
      then Some (AF_INET6, take (close - 1) (drop 1 text), drop (close + 2) text) else None
    end
  | _ =>
    match find_char 58 text with
    | None => None
    | Some colon =>
      match find_char 58 (drop (colon + 1) text) with
      | Some _ => None
      | None => Some (AF_INET, take colon text, drop (colon + 1) text)
      end
    end
  end.

Context `{InetPton}.

Definition read_listen_address (key address : list Z) (port : Z) : conf (list Z * Z) :=
  n ← take_key key;
  match n with
  | None => mret (address, port)
  | Some n =>
    name ← name_of key;
    match split_endpoint (scalar_or_empty n) with
    | None => fail n (NotAddressPort name)
    | Some (family, host, port_text) =>
      match inet_pton family (c_str host) with
      | None => fail n (InvalidIp name host)
      | Some _ =>
        match to_uint port_text with
        | Some number => if ((number =? 0) || (65535 <? number))%Z then fail n (InvalidPort name) else mret (host, u16 number)
        | None => fail n (InvalidPort name)
        end
      end
    end
  end.

(** The servers of a stub zone. *)
Fixpoint read_servers (name : list Z) (servers : list node) : conf (list Z) :=
  match servers with
  | [] => mret []
  | server :: servers =>
    let text := scalar_or_empty server in
    match inet_pton AF_INET (c_str text) with
    | Some v4 => rest ← read_servers name servers; mret (in_addr v4 :: rest)
    | None =>
      match inet_pton AF_INET6 (c_str text) with
      | Some _ => fail server (Ipv6Server name text)
      | None => fail server (InvalidServer name text)
      end
    end
  end.

Fixpoint read_zones (name : list Z) (kvs : list (node * node)) (out : list StubZone) : conf (list StubZone) :=
  match kvs with
  | [] => mret out
  | (k, servers) :: kvs =>
    let zone_text := scalar_or_empty k in
    match from_string zone_text with
    | None => fail k (InvalidZone name zone_text)
    | Some zone =>
      if existsb (λ existing, name_eqb (st_zone existing) zone) out then fail k (ListedTwice name (to_string zone)) else
      if negb (is_sequence servers) || bool_decide (items servers = []) then fail servers (NeedsServers name (to_string zone)) else
      addresses ← read_servers name (items servers);
      read_zones name kvs (out ++ [mkStub zone addresses])
    end
  end.

Definition read_stub_zones (out : list StubZone) : conf (list StubZone) :=
  n ← take_key (str "stub_zones");
  match n with
  | None => mret out
  | Some n =>
    if is_null n then mret out else
    name ← name_of (str "stub_zones");
    if negb (is_map n) then fail n (NotAZoneMap name) else read_zones name (pairs n) out
  end.

Fixpoint parse_subnets (name : list Z) (list' : list node) : conf (list Subnet) :=
  match list' with
  | [] => mret []
  | item :: list' =>
    match parse_subnet (scalar_or_empty item) with
    | inl e => fail item (BadSubnet name e)
    | inr subnet => rest ← parse_subnets name list'; mret (subnet :: rest)
    end
  end.
Definition read_subnets (key : list Z) (out : list Subnet) : conf (option node * list Subnet) :=
  n ← take_key key;
  match n with
  | None => mret (None, out)
  | Some n =>
    name ← name_of key;
    if negb (is_sequence n) then fail n (NotASubnetList name) else
    subnets ← parse_subnets name (items n);
    mret (Some n, subnets)
  end.

Definition read_deny_action (key : list Z) (out : DenyAction) : conf DenyAction :=
  n ← take_key key;
  match n with
  | None => mret out
  | Some n =>
    let action := scalar_or_empty n in
    if bool_decide (action = str "refuse") then mret Refuse else
    if bool_decide (action = str "drop") then mret DropQuery else
    name ← name_of key;
    fail n (NotADenyAction name)
  end.

Fixpoint check_paths (name : list Z) (list' : list node) (out : list (list Z)) : conf (list (list Z)) :=
  match list' with
  | [] => mret out
  | item :: list' =>
    let path := scalar_or_empty item in
    if bool_decide (path = []) then fail item (NotAPath name) else
    if bool_decide (path ∈ out) then fail item (ListedTwice name path) else
    check_paths name list' (out ++ [path])
  end.
Definition read_paths (key : list Z) (out : list (list Z)) : conf (list (list Z)) :=
  n ← take_key key;
  match n with
  | None => mret out
  | Some n =>
    if is_null n then mret out else
    name ← name_of key;
    check_paths name (if is_sequence n then items n else [n]) []
  end.

(** ** The sections *)

(** [listen]: the two endpoints, and what is asked for but not implemented. *)
Definition note_key (key : list Z) (noted : list Z) (out : list (list Z)) : conf (list (list Z)) :=
  n ← take_key key;
  mret match n with Some _ => out ++ [noted] | None => out end.

Definition read_listen (c : Config) : conf Config :=
  '(udp_address, udp_port) ← read_listen_address (str "udp") (uc_address (cf_udp c)) (uc_port (cf_udp c));
  '(tcp_address, tcp_port) ← read_listen_address (str "tcp") udp_address udp_port;
  dot ← name_of (str "dot");
  ni ← note_key (str "dot") dot (cf_not_implemented c);
  doh ← name_of (str "doh");
  ni ← note_key (str "doh") doh ni;
  let t := cf_tcp c in
  mret (mkConfig (mkUdpConfig udp_address udp_port (uc_max_response_size (cf_udp c)))
          (mkTcpConfig tcp_address tcp_port (tc_idle_timeout_ms t) (tc_max_connections t) (tc_max_per_client t))
          (cf_resolver c) (cf_cache c) (cf_access c) (cf_rate_limit c) (cf_rrl c) (cf_lists c) (cf_rebinding c) ni).

Definition read_mode : conf unit :=
  n ← take_key (str "mode");
  match n with
  | None => mret ()
  | Some n =>
    let m := scalar_or_empty n in
    if bool_decide (m = str "forward") then fail n ForwardNotImplemented else
    if bool_decide (m = str "recursive") then mret () else fail n NotAMode
  end.

Definition read_resolver (r : ResolverConfig) : conf ResolverConfig :=
  _ ← read_mode;
  hints ← read_string (str "root_hints") (rc_root_hints_path r);
  minimise ← read_bool (str "qname_minimisation") (rc_qname_minimisation r);
  use_0x20 ← read_bool (str "use_0x20") (rc_use_0x20 r);
  edns ← read_uint 16 (str "edns_buffer") (rc_edns_buffer r) 512 4096;
  queries ← read_uint 32 (str "max_upstream_queries") (rc_max_upstream_queries r) 1 (type_max 32);
  depth ← read_uint 16 (str "max_referral_depth") (rc_max_referral_depth r) 1 (type_max 16);
  cname ← read_uint 8 (str "max_cname_chain") (rc_max_cname_chain r) 0 (type_max 8);
  glueless ← read_uint 8 (str "max_glueless_ns") (rc_max_glueless_ns r) 1 (type_max 8);
  timeout ← read_uint 32 (str "query_timeout_ms") (rc_query_timeout_ms r) 1 (type_max 32);
  max_timeout ← read_uint 32 (str "max_query_timeout_ms") (rc_max_query_timeout_ms r) 1 (type_max 32);
  deadline ← read_uint 32 (str "overall_deadline_ms") (rc_overall_deadline_ms r) 1 (type_max 32);
  spoof ← read_uint 32 (str "spoof_tcp_threshold") (rc_spoof_tcp_threshold r) 0 (type_max 32);
  stubs ← read_stub_zones (rc_stub_zones r);
  mret (mkResolverConfig hints minimise use_0x20 edns queries depth cname glueless timeout max_timeout deadline
          (rc_explore_one_in r) spoof (rc_upstream_port r) stubs).

Definition read_serve_stale (k : CacheConfig) : conf (bool * Z * Z) :=
  enabled ← read_bool (str "enabled") (cc_serve_stale k);
  ttl ← read_uint 32 (str "stale_ttl") (cc_stale_ttl k) 0 (type_max 32);
  age ← read_uint 32 (str "max_stale_age") (cc_max_stale_age k) 0 (type_max 32);
  mret (enabled, ttl, age).

Definition read_prefetch (k : CacheConfig) : conf (bool * Z) :=
  enabled ← read_bool (str "enabled") (cc_prefetch k);
  pct ← read_uint 8 (str "threshold_pct") (cc_prefetch_threshold k) 0 100;
  mret (enabled, pct).

Definition read_cache (k : CacheConfig) : conf CacheConfig :=
  mb ← read_uint 64 (str "max_memory_mb") (Z.shiftr (cc_max_memory_bytes k) 20) 1 (2 ^ 20);
  shards ← read_uint 64 (str "shards") (cc_num_shards k) 1 1024;
  min_ttl ← read_uint 32 (str "min_ttl") (cc_min_ttl k) 0 (type_max 32);
  max_ttl ← read_uint 32 (str "max_ttl") (cc_max_ttl k) 0 (type_max 32);
  '(stale, stale_ttl, stale_age) ← subsection (str "serve_stale") (str "cache.serve_stale") (read_serve_stale k);
  '(prefetch, pct) ← subsection (str "prefetch") (str "cache.prefetch") (read_prefetch k);
  mret (mkCacheConfig (u64 (Z.shiftl mb 20)) shards min_ttl max_ttl stale stale_ttl stale_age prefetch pct).

Definition read_access_body (a : AccessConfig) : conf AccessConfig :=
  '(given, allow) ← read_subnets (str "allow") (ac_allow a);
  name ← name_of (str "allow");
  _ ← match given with Some n => if bool_decide (allow = []) then fail n (NobodyAllowed name) else mret () | None => mret () end;
  deny ← read_deny_action (str "deny_action") (ac_deny a);
  mret (mkAccess allow deny).
Definition read_access (a : AccessConfig) : conf AccessConfig := subsection (str "access") (str "access") (read_access_body a).

Definition read_per_client (r : RateLimitConfig) : conf RateLimitConfig :=
  qps ← read_uint 32 (str "qps") (rlc_qps r) 0 (type_max 32);
  burst ← read_uint 32 (str "burst") (rlc_burst r) 1 (type_max 32);
  action ← read_deny_action (str "action") (rlc_action r);
  mret (mkRateConfig qps burst action (rlc_exempt r) (rlc_max_clients r)).

Definition read_rrl (r : RrlConfig) : conf RrlConfig :=
  rps ← read_uint 32 (str "responses_per_second") (rc_responses_per_second r) 0 (type_max 32);
  window ← read_uint 32 (str "window_seconds") (rc_window_seconds r) 1 3600;
  slip ← read_uint 32 (str "slip") (rc_slip r) 0 10;
  v4 ← read_uint 8 (str "ipv4_prefix") (rc_ipv4_prefix r) 8 32;
  v6 ← read_uint 8 (str "ipv6_prefix") (rc_ipv6_prefix r) 16 128;
  mret (mkRrlConfig rps window slip v4 v6 (rc_exempt r) (rc_max_entries r)).

Definition read_rate_limit_body (c : RateLimitConfig) (r : RrlConfig) : conf (RateLimitConfig * RrlConfig) :=
  c ← subsection (str "per_client") (str "rate_limit.per_client") (read_per_client c);
  r ← subsection (str "rrl") (str "rate_limit.rrl") (read_rrl r);
  '(_, exempt) ← read_subnets (str "exempt") (rlc_exempt c);
  mret (mkRateConfig (rlc_qps c) (rlc_burst c) (rlc_action c) exempt (rlc_max_clients c),
        mkRrlConfig (rc_responses_per_second r) (rc_window_seconds r) (rc_slip r) (rc_ipv4_prefix r) (rc_ipv6_prefix r) exempt (rc_max_entries r)).
Definition read_rate_limit (c : RateLimitConfig) (r : RrlConfig) : conf (RateLimitConfig * RrlConfig) :=
  subsection (str "rate_limit") (str "rate_limit") (read_rate_limit_body c r).

(** The domains of [rebinding_protection.exempt]. *)
Fixpoint read_domains (name : list Z) (list' : list node) (out : list Name) : conf (list Name) :=
  match list' with
  | [] => mret out
  | item :: list' =>
    let text := scalar_or_empty item in
    match from_string text with
    | None => fail item (InvalidDomain name text)
    | Some domain =>
      if decide (label_count domain = 0) then fail item (ExemptsEverything name) else
      if existsb (λ d, name_eqb d domain) out then fail item (ListedTwice name (to_string domain)) else
      read_domains name list' (out ++ [domain])
    end
  end.

Definition read_rebinding_body (r : RebindingConfig) : conf RebindingConfig :=
  enabled ← read_bool (str "enabled") (rb_enabled r);
  n ← take_key (str "exempt");
  name ← name_of (str "exempt");
  exempt ← match n with
    | None => mret (rb_exempt r)
    | Some n => if negb (is_sequence n) then fail n (NotADomainList name) else read_domains name (items n) []
    end;
  mret (mkRebinding enabled exempt).

(** Stub zones may resolve to private addresses. *)
Definition exempt_stub (exempt : list Name) (stub : StubZone) : list Name :=
  if existsb (λ zone, is_subdomain_of (st_zone stub) zone) exempt then exempt else exempt ++ [st_zone stub].
Definition exempt_stubs (stubs : list StubZone) (r : RebindingConfig) : RebindingConfig :=
  mkRebinding (rb_enabled r) (fold_left exempt_stub stubs (rb_exempt r)).

Definition read_rebinding (stubs : list StubZone) (r : RebindingConfig) : conf RebindingConfig :=
  r ← subsection (str "rebinding_protection") (str "policy.rebinding_protection") (read_rebinding_body r);
  mret (exempt_stubs stubs r).

Definition read_block_response (out : BlockResponse) : conf BlockResponse :=
  n ← take_key (str "block_response");
  match n with
  | None => mret out
  | Some n =>
    let r := scalar_or_empty n in
    if bool_decide (r = str "null_ip") then mret NullIp else
    if bool_decide (r = str "nxdomain") then mret NxDomain else
    name ← name_of (str "block_response");
    fail n (NotABlockResponse name)
  end.

Definition read_policy_body (stubs : list StubZone) (l : ListsConfig) (r : RebindingConfig) : conf (ListsConfig * RebindingConfig) :=
  block ← read_paths (str "blocklists") (lc_blocklists l);
  allow ← read_paths (str "allowlist") (lc_allowlists l);
  response ← read_block_response (lc_response l);
  ttl ← read_uint 32 (str "block_ttl") (lc_block_ttl l) 0 86400;
  reload ← read_uint 32 (str "reload_check_seconds") (lc_reload_check_seconds l) 0 86400;
  chain ← read_bool (str "check_cname_chain") (lc_check_cname_chain l);
  r ← read_rebinding stubs r;
  mret (mkLists block allow response ttl chain reload, r).
Definition read_policy (stubs : list StubZone) (l : ListsConfig) (r : RebindingConfig) : conf (ListsConfig * RebindingConfig) :=
  subsection (str "policy") (str "policy") (read_policy_body stubs l r).

(** ** The document *)

Definition check (ok : bool) (what : What) : conf unit := λ s, if ok then Ok ((), s) else Err (mkConfigError None what).

Definition parse_top (c : Config) : conf Config :=
  c ← subsection (str "listen") (str "listen") (read_listen c);
  r ← subsection (str "resolver") (str "resolver") (read_resolver (cf_resolver c));
  _ ← check (rc_query_timeout_ms r <=? rc_max_query_timeout_ms r)%Z (TimeoutAboveMax (rc_query_timeout_ms r) (rc_max_query_timeout_ms r));
  let udp := mkUdpConfig (uc_address (cf_udp c)) (uc_port (cf_udp c)) (rc_edns_buffer r) in
  let ni := cf_not_implemented c ++ (if rc_qname_minimisation r then [str "resolver.qname_minimisation"] else []) in
  k ← subsection (str "cache") (str "cache") (read_cache (cf_cache c));
  _ ← check (cc_min_ttl k <=? cc_max_ttl k)%Z (MinAboveMaxTtl (cc_min_ttl k) (cc_max_ttl k));
  let ni := ni ++ (if cc_serve_stale k then [str "cache.serve_stale"] else []) ++ (if cc_prefetch k then [str "cache.prefetch"] else []) in
  access ← read_access (cf_access c);
  '(rate, rrl) ← read_rate_limit (cf_rate_limit c) (cf_rrl c);
  '(lists, rebinding) ← read_policy (rc_stub_zones r) (cf_lists c) (cf_rebinding c);
  ni ← note_key (str "ml") (str "ml") ni;
  ni ← note_key (str "telemetry") (str "telemetry") ni;
  mret (mkConfig udp (cf_tcp c) r k access rate rrl lists rebinding ni).

Definition parse (document : node) : outcome ConfigError Config := read_section (Some document) [] (parse_top default_config).

Inductive ParseFailure := InvalidConfig (e : ConfigError) | InvalidYaml (line : Z) (msg : list Z) | YamlFailure (what : list Z).

Definition parse_config (yaml : list Z) : outcome ParseFailure Config :=
  match yaml_load yaml with
  | inr document => match parse document with Ok c => Ok c | Err e => Err (InvalidConfig e) | Fault f => Fault f end
  | inl (ParserException line msg) => Err (InvalidYaml (line + 1) msg)
  | inl (OtherException what) => Err (YamlFailure what)
  end.

(** [contents]: the file's bytes, or nothing if it cannot be opened. *)
Inductive LoadFailure := CannotOpenFile (path : list Z) | BadFile (path : list Z) (e : ParseFailure).
Definition load_config (path : list Z) (contents : option (list Z)) : outcome LoadFailure Config :=
  match contents with
  | None => Err (CannotOpenFile path)
  | Some text => match parse_config text with Ok c => Ok c | Err e => Err (BadFile path e) | Fault f => Fault f end
  end.
End config.
