(* ===== verification/ConfigProps.v ===== *)
(** * What a loaded configuration guarantees

    A document that is accepted has no setting that is misspelt or given
    twice, every setting it gives takes effect, and the result is one the
    other components' theorems apply to.  For a document that is rejected, the
    error is explained: what it says is true of the node whose line it gives. *)

From stdpp Require Import base tactics numbers list gmap fin_sets strings.
From Stdlib Require Import ZArith Lia.
From S2P Require Import Prelude Names Types Acl Cache Rrl Rebinding Blocklists RateLimiter Resolver ResolverInv SocketAddress TcpListener TcpProofs UdpListener Config.

(** ** Reasoning about readers *)

Section yields.
Context `{Yaml}.

(** Reading with [m], if it succeeds, gives a value in [Q] of the section's
    node, and ticks off [keys] and nothing else. *)
Definition yields {A} (m : conf A) (keys : list (list Z)) (Q : option node → A → Prop) : Prop :=
  ∀ s a s', m s = Ok (a, s') → Q (se_node s) a ∧ s' = mkSettings (se_node s) (se_path s) (se_used s ∪ list_to_set keys).

Lemma yields_mono {A} (m : conf A) keys (P Q : option node → A → Prop) : yields m keys P → (∀ n a, P n a → Q n a) → yields m keys Q.
Proof. intros Hm HPQ s a s' E. destruct (Hm s a s' E). auto. Qed.

Lemma yields_ret {A} (a : A) (Q : option node → A → Prop) : (∀ n, Q n a) → yields (mret a) [] Q.
Proof. intros HQ [n p u] b s' [= <- <-]. cbn. split; [done|]. by rewrite union_empty_r_L. Qed.

Lemma yields_bind {A B} (m : conf A) (f : A → conf B) k1 k2 (P : option node → A → Prop) (Q : option node → B → Prop) :
  yields m k1 P → (∀ a, yields (f a) k2 (λ n b, P n a → Q n b)) → yields (m ≫= f) (k1 ++ k2) Q.
Proof.
  intros Hm Hf s b s'. unfold mbind, conf_bind. destruct (m s) as [[a s1]| |] eqn:E; [|done..]. intros E2.
  destruct (Hm _ _ _ E) as [Ha ->]. destruct (Hf a _ _ _ E2) as [Hb ->]. cbn in *. split; [auto|].
  by rewrite list_to_set_app_L, union_assoc_L.
Qed.

Lemma yields_fail {A} d what keys (Q : option node → A → Prop) : yields (fail d what) keys Q.
Proof. by intros s a s'. Qed.

Lemma yields_take key (Q : option node → option node → Prop) : (∀ n, Q n (child n key)) → yields (take_key key) [key] Q.
Proof. intros HQ s a s' [= <- <-]. split; [done|]. f_equal. by rewrite list_to_set_singleton_L. Qed.

Lemma yields_name key (Q : option node → list Z → Prop) : (∀ n name, Q n name) → yields (name_of key) [] Q.
Proof. intros HQ [n p u] a s' [= <- <-]. cbn. split; [done|]. by rewrite union_empty_r_L. Qed.

Lemma yields_lift {A} (m : outcome ConfigError A) (Q : option node → A → Prop) : (∀ n a, m = Ok a → Q n a) → yields (lift m) [] Q.
Proof.
  intros HQ [n p u] a s'. unfold lift. destruct m as [b| |] eqn:E; cbn; [|done..]. intros [= <- <-]. cbn. split; [auto|]. by rewrite union_empty_r_L.
Qed.

Lemma yields_check ok what (Q : option node → () → Prop) : (ok = true → ∀ n, Q n ()) → yields (check ok what) [] Q.
Proof. intros HQ [n p u] [] s'. unfold check. destruct ok; [|done]. intros [= <-]. cbn. split; [auto|]. by rewrite union_empty_r_L. Qed.

(** ** Sections *)

(** An accepted section: absent, empty, or a mapping whose keys are plain
    words, each given once and each of them known. *)
Definition section_checked (n : option node) (known : list (list Z)) : Prop :=
  match n with
  | None => True
  | Some d =>
    is_null d = true ∨
    is_map d = true ∧ Forall (λ kv, is_scalar kv.1 = true) (pairs d) ∧ NoDup (scalar ∘ fst <$> pairs d) ∧
    Forall (λ kv, scalar kv.1 ∈ known) (pairs d)
  end.

Lemma check_keys_ok path kvs : ∀ keys, check_keys path kvs keys = Ok () →
  Forall (λ kv, is_scalar kv.1 = true) kvs ∧ NoDup (scalar ∘ fst <$> kvs) ∧ Forall (λ kv, scalar kv.1 ∉ keys) kvs.
Proof.
  induction kvs as [|[k v] kvs IH]; intros keys; cbn [check_keys]; [by repeat constructor|].
  destruct (is_scalar k) eqn:Ek; [|done]. cbn [negb]. case_bool_decide as Hk; [done|]. intros (H1 & H2 & H3)%IH. rewrite Forall_forall in H3.
  split_and!; [by constructor| |].
  - cbn [fmap list_fmap compose fst]. constructor; [|done]. intros ([k' v'] & E & Hin)%list_elem_of_fmap. specialize (H3 _ Hin). cbn in *. set_solver.
  - constructor; [done|]. apply Forall_forall. intros kv Hin. specialize (H3 _ Hin). set_solver.
Qed.

Lemma finish_loop_ok s kvs : finish_loop s kvs = Ok () → Forall (λ kv, scalar kv.1 ∈ se_used s) kvs.
Proof. induction kvs as [|[k v] kvs IH]; cbn [finish_loop]; [constructor|]. case_bool_decide; [|done]. by constructor; [|apply IH]. Qed.

Lemma read_section_ok {A} n path (body : conf A) known (Q : option node → A → Prop) a : yields body known Q →
  read_section n path body = Ok a → section_checked n known ∧ Q n a.
Proof.
  intros Hb. unfold read_section. destruct (open_section n path) as [s| |] eqn:Eo; [|done..]. rewrite bind_Ok.
  assert (Hs : s = mkSettings n path ∅ ∧ match n with Some d => is_null d = true ∨ is_map d = true ∧ check_keys path (pairs d) ∅ = Ok () | None => True end).
  { unfold open_section in Eo. destruct n as [d|]; [|by injection Eo as <-]. destruct (is_null d); [injection Eo as <-; auto|].
    destruct (is_map d); [|done]. cbn [negb] in Eo. destruct (check_keys _ _ _) as [[]| |] eqn:Ec; [|done..]. injection Eo as <-. auto. }
  destruct Hs as [-> Hn]. destruct (body _) as [[b s']| |] eqn:Eb; [|done..]. rewrite bind_Ok. destruct (Hb _ _ _ Eb) as [HQ ->]. cbn [se_node se_path se_used] in *.
  destruct (finish_section _) as [[]| |] eqn:Ef; [|done..]. intros [= <-]. split; [|done]. destruct n as [d|]; [|done].
  destruct Hn as [Hn|[Hm Hk]]; [by left|right]. apply check_keys_ok in Hk as (H1 & H2 & _). unfold finish_section in Ef. cbn in Ef. rewrite Hm in Ef.
  apply finish_loop_ok in Ef. cbn in Ef. split_and!; [done..|]. eapply Forall_impl; [exact Ef|]. cbn. set_solver.
Qed.

Lemma yields_subsection {A} key path (body : conf A) known (Q : option node → A → Prop) : yields body known Q →
  yields (subsection key path body) [key] (λ n a, section_checked (child n key) known ∧ Q (child n key) a).
Proof.
  intros Hb. unfold subsection. apply (yields_bind _ _ [key] [] (λ n v, v = child n key)); [by apply yields_take|]. intros v. apply yields_lift.
  intros n a Ha ->. by eapply read_section_ok.
Qed.

(** ** Settings *)

(** What a number, a truth value or a text of the document sets: nothing if it
    is absent. *)
Definition uint_set (n : option node) (key : list Z) (min max old v : Z) : Prop :=
  match child n key with
  | None => v = old
  | Some d => to_uint (scalar_or_empty d) = Some v ∧ (min ≤ v ≤ max)%Z
  end.
Definition bool_set (n : option node) (key : list Z) (old v : bool) : Prop :=
  match child n key with None => v = old | Some d => is_scalar d = true ∧ decode_bool d = Some v end.

Lemma uint_loop_nonneg digits : ∀ acc v, (0 ≤ acc)%Z → uint_loop digits acc = Some v → (0 ≤ v < 18446744073709551616)%Z ∨ digits = [].
Proof.
  induction digits as [|c digits IH]; intros acc v Ha; cbn [uint_loop]; [by right|]. unfold is_digit_byte.
  destruct (Z.leb_spec 48 c); [|done]. destruct (c <=? 57)%Z; [|done]. cbn [andb]. destruct (Z.ltb_spec (acc * 10 + (c - 48)) 18446744073709551616); [|done].
  intros E. left. destruct (IH (acc * 10 + (c - 48))%Z v ltac:(lia) E) as [?| ->]; [done|]. injection E as <-. lia.
Qed.

Lemma to_uint_range text v : to_uint text = Some v → (0 ≤ v < 18446744073709551616)%Z.
Proof. unfold to_uint. destruct text; [done|]. intros [?|?]%uint_loop_nonneg; done. Qed.

Lemma yields_uint w key old min max : (0 ≤ w)%Z → (max < 2 ^ w)%Z → yields (read_uint w key old min max) [key] (λ n v, uint_set n key min max old v).
Proof.
  intros Hw Hm. unfold read_uint. apply (yields_bind _ _ [key] [] (λ n v, v = child n key)); [by apply yields_take|]. intros [d|].
  - apply (yields_bind _ _ [] [] (λ _ _, True)); [by apply yields_name|]. intros name. destruct (to_uint _) as [v|] eqn:Ev; [|apply yields_fail].
    destruct (_ || _) eqn:Er; [apply yields_fail|]. apply orb_false_iff in Er as [H1%Z.ltb_ge H2%Z.ltb_ge]. apply yields_ret. intros n _ Hd. unfold uint_set.
    rewrite <-Hd, Ev. apply to_uint_range in Ev. rewrite Z.mod_small by lia. done.
  - apply yields_ret. intros n Hd. unfold uint_set. by rewrite <-Hd.
Qed.

Lemma yields_bool key old : yields (read_bool key old) [key] (λ n v, bool_set n key old v).
Proof.
  unfold read_bool. apply (yields_bind _ _ [key] [] (λ n v, v = child n key)); [by apply yields_take|]. intros [d|].
  - apply (yields_bind _ _ [] [] (λ _ _, True)); [by apply yields_name|]. intros name. destruct (is_scalar d) eqn:Es; [|apply yields_fail].
    destruct (decode_bool d) as [b|] eqn:Ed; [|apply yields_fail]. apply yields_ret. intros n _ Hd. unfold bool_set. by rewrite <-Hd.
  - apply yields_ret. intros n Hd. unfold bool_set. by rewrite <-Hd.
Qed.

Lemma yields_string key old : yields (read_string key old) [key] (λ n v, match child n key with None => v = old | Some d => is_scalar d = true ∧ v = scalar d ∧ v ≠ [] end).
Proof.
  unfold read_string. apply (yields_bind _ _ [key] [] (λ n v, v = child n key)); [by apply yields_take|]. intros [d|].
  - apply (yields_bind _ _ [] [] (λ _ _, True)); [by apply yields_name|]. intros name. unfold scalar_or_empty.
    destruct (is_scalar d) eqn:Es; [|apply yields_fail]. destruct (scalar d) eqn:Ed; [apply yields_fail|]. apply yields_ret. intros n _ <-. by rewrite Es, Ed.
  - apply yields_ret. by intros n <-.
Qed.

(** Anything that only takes a key, when the value does not matter. *)
Lemma yields_note key noted out : yields (note_key key noted out) [key] (λ _ _, True).
Proof. unfold note_key. apply (yields_bind _ _ [key] [] (λ _ _, True)); [by apply yields_take|]. intros v. by apply yields_ret. Qed.
End yields.

(** Proving [yields] for a reader in straight-line form: one step per bind, with
    the lemma for what is bound. *)
Ltac yields_step lem := refine (yields_bind _ _ _ _ _ _ lem _); intros ?.

Section readers.
Context `{Yaml} `{InetPton}.

(** ** Lists and endpoints *)

Definition endpoint_ok (address : list Z) (port : Z) : Prop := is_Some (make_address address port) ∧ (1 ≤ port ≤ 65535)%Z.

Lemma yields_listen_address key address port : yields (read_listen_address key address port) [key] (λ _ v, endpoint_ok address port → endpoint_ok v.1 v.2).
Proof.
  unfold read_listen_address. yields_step (yields_take key (λ _ _, True) (λ _, I)). destruct a as [d|]; [|by apply yields_ret].
  yields_step (yields_name key (λ _ _, True) (λ _ _, I)). destruct (split_endpoint _) as [[[family host] port_text]|] eqn:Es; [|apply yields_fail].
  destruct (inet_pton family (c_str host)) as [b|] eqn:Ep; [|apply yields_fail]. destruct (to_uint port_text) as [v|] eqn:Ev; [|apply yields_fail].
  destruct (_ || _) eqn:Er; [apply yields_fail|]. apply orb_false_iff in Er as [H1%Z.eqb_neq H2%Z.ltb_ge]. apply to_uint_range in Ev. apply yields_ret.
  intros n _ _ _. cbn. unfold u16. rewrite Z.mod_small by lia. split; [|lia]. unfold make_address.
  assert (Hf : family = AF_INET ∨ family = AF_INET6).
  { unfold split_endpoint in Es. repeat case_match; simplify_eq; auto. }
  destruct (inet_pton AF_INET (c_str host)) eqn:E4; [done|]. destruct Hf as [-> | ->]; [congruence|]. rewrite Ep. done.
Qed.

Definition stubs_ok (zs : list StubZone) : Prop := NoDup (labels ∘ st_zone <$> zs) ∧ Forall (λ z, st_servers z ≠ []) zs.

Lemma yields_servers name servers : yields (read_servers name servers) [] (λ _ v, length v = length servers).
Proof.
  induction servers as [|server servers IH]; cbn [read_servers]; [by apply yields_ret|]. destruct (inet_pton AF_INET _) as [v4|].
  - yields_step IH. apply yields_ret. intros n Hl. cbn. by rewrite Hl.
  - destruct (inet_pton AF_INET6 _); apply yields_fail.
Qed.

Lemma yields_zones name kvs : ∀ out, yields (read_zones name kvs out) [] (λ _ zs, stubs_ok out → stubs_ok zs).
Proof.
  induction kvs as [|[k servers] kvs IH]; intros out; cbn [read_zones]; [by apply yields_ret|]. destruct (from_string _) as [zone|]; [|apply yields_fail].
  destruct (existsb _ out) eqn:Ex; [apply yields_fail|]. destruct (negb _ || _) eqn:En; [apply yields_fail|]. yields_step (yields_servers name (items servers)).
  eapply yields_mono; [apply IH|]. intros n zs Hz Hl [Hnd Hs]. apply Hz. apply orb_false_iff in En as [_ Hne%bool_decide_eq_false]. split.
  - rewrite fmap_app. apply NoDup_app. split_and!; [done| |apply NoDup_singleton]. intros x (z & -> & Hin)%list_elem_of_fmap E%list_elem_of_singleton.
    assert (existsb (λ existing, name_eqb (st_zone existing) zone) out = true); [|congruence].
    apply existsb_exists. exists z. split; [by apply list_elem_of_In|]. unfold name_eqb. by apply bool_decide_eq_true.
  - apply Forall_app. split; [done|]. apply Forall_singleton. cbn. intros ->. destruct (items servers); done.
Qed.

Lemma yields_stub_zones out : yields (read_stub_zones out) [str "stub_zones"] (λ _ zs, stubs_ok out → stubs_ok zs).
Proof.
  unfold read_stub_zones. yields_step (yields_take (str "stub_zones") (λ _ _, True) (λ _, I)). destruct a as [d|]; [|by apply yields_ret].
  destruct (is_null d); [by apply yields_ret|]. yields_step (yields_name (str "stub_zones") (λ _ _, True) (λ _ _, I)).
  destruct (negb _); [apply yields_fail|]. eapply yields_mono; [apply yields_zones|]. auto.
Qed.

Lemma yields_subnets key out : yields (read_subnets key out) [key] (λ _ v, Forall subnet_wf out → Forall subnet_wf v.2 ∧ (v.1 = None → v.2 = out)).
Proof.
  unfold read_subnets. yields_step (yields_take key (λ _ _, True) (λ _, I)). destruct a as [d|]; [|by apply yields_ret].
  yields_step (yields_name key (λ _ _, True) (λ _ _, I)). destruct (negb _); [apply yields_fail|].
  assert (Hl : ∀ l, yields (parse_subnets a l) [] (λ _ v, Forall subnet_wf v)).
  { induction l as [|item l IH]; cbn [parse_subnets]; [by apply yields_ret|]. destruct (parse_subnet _) as [e|s] eqn:Es; [apply yields_fail|].
    yields_step IH. apply yields_ret. intros n Hw. constructor; [|done]. by eapply parse_subnet_wf. }
  yields_step (Hl (items d)). apply yields_ret. by intros n Hw _ _ _.
Qed.

Lemma yields_deny_action key out : yields (read_deny_action key out) [key] (λ n v,
  match child n key with None => v = out | Some d => scalar_or_empty d = match v with Refuse => str "refuse" | DropQuery => str "drop" end end).
Proof.
  unfold read_deny_action. yields_step (yields_take key (λ n v, v = child n key) (λ _, eq_refl)). destruct a as [d|]; [|apply yields_ret; by intros n <-].
  case_bool_decide; [apply yields_ret; by intros n <-|]. case_bool_decide; [apply yields_ret; by intros n <-|].
  yields_step (yields_name key (λ _ _, True) (λ _ _, I)). apply yields_fail.
Qed.

Definition paths_ok (ps : list (list Z)) : Prop := NoDup ps ∧ Forall (λ p, p ≠ []) ps.

Lemma yields_paths key out : yields (read_paths key out) [key] (λ _ ps, paths_ok out → paths_ok ps).
Proof.
  unfold read_paths. yields_step (yields_take key (λ _ _, True) (λ _, I)). destruct a as [d|]; [|by apply yields_ret].
  destruct (is_null d); [by apply yields_ret|]. yields_step (yields_name key (λ _ _, True) (λ _ _, I)).
  assert (Hl : ∀ l ps, yields (check_paths a l ps) [] (λ _ v, paths_ok ps → paths_ok v)).
  { induction l as [|item l IH]; intros ps; cbn [check_paths]; [by apply yields_ret|]. case_bool_decide as He; [apply yields_fail|].
    case_bool_decide as Hin; [apply yields_fail|]. eapply yields_mono; [apply IH|]. intros n v Hv [Hnd Hne]. apply Hv. split.
    - apply NoDup_app. split_and!; [done| |apply NoDup_singleton]. intros x Hx ->%list_elem_of_singleton. done.
    - apply Forall_app. split; [done|]. by apply Forall_singleton. }
  eapply yields_mono; [apply Hl|]. intros n v Hv _ _ _. apply Hv. split; constructor.
Qed.
End readers.

(** ** The settings of each section *)

Definition uint_table (C : Type) : Type := list (list Z * Z * Z * (C → Z)).
Definition bool_table (C : Type) : Type := list (list Z * (C → bool)).

Definition resolver_uints : uint_table ResolverConfig :=
  [(str "edns_buffer", 512, 4096, rc_edns_buffer); (str "max_upstream_queries", 1, 4294967295, rc_max_upstream_queries);
   (str "max_referral_depth", 1, 65535, rc_max_referral_depth); (str "max_cname_chain", 0, 255, rc_max_cname_chain);
   (str "max_glueless_ns", 1, 255, rc_max_glueless_ns); (str "query_timeout_ms", 1, 4294967295, rc_query_timeout_ms);
   (str "max_query_timeout_ms", 1, 4294967295, rc_max_query_timeout_ms); (str "overall_deadline_ms", 1, 4294967295, rc_overall_deadline_ms);
   (str "spoof_tcp_threshold", 0, 4294967295, rc_spoof_tcp_threshold)]%Z.
Definition resolver_bools : bool_table ResolverConfig := [(str "qname_minimisation", rc_qname_minimisation); (str "use_0x20", rc_use_0x20)].
Definition cache_uints : uint_table CacheConfig :=
  [(str "max_memory_mb", 1, 1048576, λ k, Z.shiftr (cc_max_memory_bytes k) 20); (str "shards", 1, 1024, cc_num_shards);
   (str "min_ttl", 0, 4294967295, cc_min_ttl); (str "max_ttl", 0, 4294967295, cc_max_ttl)]%Z.
Definition stale_uints : uint_table CacheConfig :=
  [(str "stale_ttl", 0, 4294967295, cc_stale_ttl); (str "max_stale_age", 0, 4294967295, cc_max_stale_age)]%Z.
Definition prefetch_uints : uint_table CacheConfig := [(str "threshold_pct", 0, 100, cc_prefetch_threshold)]%Z.
Definition per_client_uints : uint_table RateLimitConfig := [(str "qps", 0, 4294967295, rlc_qps); (str "burst", 1, 4294967295, rlc_burst)]%Z.
Definition rrl_uints : uint_table RrlConfig :=
  [(str "responses_per_second", 0, 4294967295, rc_responses_per_second); (str "window_seconds", 1, 3600, rc_window_seconds); (str "slip", 0, 10, rc_slip);
   (str "ipv4_prefix", 8, 32, rc_ipv4_prefix); (str "ipv6_prefix", 16, 128, rc_ipv6_prefix)]%Z.
Definition policy_uints : uint_table ListsConfig :=
  [(str "block_ttl", 0, 86400, lc_block_ttl); (str "reload_check_seconds", 0, 86400, lc_reload_check_seconds)]%Z.

(** The keys each section knows. *)
Definition listen_keys : list (list Z) := [str "udp"; str "tcp"; str "dot"; str "doh"].
Definition resolver_keys : list (list Z) :=
  [str "mode"; str "root_hints"; str "qname_minimisation"; str "use_0x20"; str "edns_buffer"; str "max_upstream_queries"; str "max_referral_depth";
   str "max_cname_chain"; str "max_glueless_ns"; str "query_timeout_ms"; str "max_query_timeout_ms"; str "overall_deadline_ms"; str "spoof_tcp_threshold";
   str "stub_zones"].
Definition stale_keys : list (list Z) := [str "enabled"; str "stale_ttl"; str "max_stale_age"].
Definition prefetch_keys : list (list Z) := [str "enabled"; str "threshold_pct"].
Definition cache_keys : list (list Z) := [str "max_memory_mb"; str "shards"; str "min_ttl"; str "max_ttl"; str "serve_stale"; str "prefetch"].
Definition access_keys : list (list Z) := [str "allow"; str "deny_action"].
Definition per_client_keys : list (list Z) := [str "qps"; str "burst"; str "action"].
Definition rrl_keys : list (list Z) := [str "responses_per_second"; str "window_seconds"; str "slip"; str "ipv4_prefix"; str "ipv6_prefix"].
Definition rate_limit_keys : list (list Z) := [str "per_client"; str "rrl"; str "exempt"].
Definition rebinding_keys : list (list Z) := [str "enabled"; str "exempt"].
Definition policy_keys : list (list Z) :=
  [str "blocklists"; str "allowlist"; str "block_response"; str "block_ttl"; str "reload_check_seconds"; str "check_cname_chain"; str "rebinding_protection"].
Definition top_keys : list (list Z) :=
  [str "listen"; str "resolver"; str "cache"; str "access"; str "rate_limit"; str "policy"; str "ml"; str "telemetry"].

Ltac each_entry H := repeat (let E := fresh in apply Forall_cons in H as [E H]).

Section sections.
Context `{Yaml} `{InetPton}.

Definition uints_set {C} (n : option node) (table : uint_table C) (old c : C) : Prop :=
  Forall (λ '(key, min, max, f), uint_set n key min max (f old) (f c)) table.
Definition bools_set {C} (n : option node) (table : bool_table C) (old c : C) : Prop :=
  Forall (λ '(key, f), bool_set n key (f old) (f c)) table.

Lemma yields_listen c : yields (read_listen c) listen_keys (λ _ c',
  (endpoint_ok (uc_address (cf_udp c)) (uc_port (cf_udp c)) →
   endpoint_ok (uc_address (cf_udp c')) (uc_port (cf_udp c')) ∧ endpoint_ok (tc_address (cf_tcp c')) (tc_port (cf_tcp c'))) ∧
  tc_max_connections (cf_tcp c') = tc_max_connections (cf_tcp c) ∧ tc_max_per_client (cf_tcp c') = tc_max_per_client (cf_tcp c) ∧
  cf_resolver c' = cf_resolver c ∧ cf_cache c' = cf_cache c ∧ cf_access c' = cf_access c ∧ cf_rate_limit c' = cf_rate_limit c ∧ cf_rrl c' = cf_rrl c ∧
  cf_lists c' = cf_lists c ∧ cf_rebinding c' = cf_rebinding c).
Proof.
  unfold read_listen. yields_step (yields_listen_address (str "udp") (uc_address (cf_udp c)) (uc_port (cf_udp c))). destruct a as [ua up].
  yields_step (yields_listen_address (str "tcp") ua up). destruct a as [ta tp].
  yields_step (yields_name (str "dot") (λ _ _, True) (λ _ _, I)). yields_step (yields_note (str "dot") a (cf_not_implemented c)).
  yields_step (yields_name (str "doh") (λ _ _, True) (λ _ _, I)). yields_step (yields_note (str "doh") a1 a0).
  apply yields_ret. intros n _ _ _ _ Ht Hu. cbn in *. split_and!; auto.
Qed.

Lemma yields_mode : yields read_mode [str "mode"] (λ n _, match child n (str "mode") with None => True | Some d => scalar_or_empty d = str "recursive" end).
Proof.
  unfold read_mode. yields_step (yields_take (str "mode") (λ n v, v = child n (str "mode")) (λ _, eq_refl)). destruct a as [d|]; [|apply yields_ret; by intros n <-].
  case_bool_decide; [apply yields_fail|]. case_bool_decide; [|apply yields_fail]. apply yields_ret. by intros n <-.
Qed.

(** One keyed setting. *)
Ltac yields_key :=
  refine (yields_bind _ _ [_] _ _ _ _ _);
  [first [apply yields_bool | apply yields_uint; [done|done] | apply yields_string | apply yields_deny_action | apply yields_paths]|intros ?].

(** The entries of a table, one by one. *)
Ltac each_set H := unfold uints_set, bools_set in H; each_entry H.
Ltac all_set := repeat (apply Forall_cons; split; [assumption|]); apply Forall_nil_2.

Lemma yields_resolver r : yields (read_resolver r) resolver_keys (λ n r',
  uints_set n resolver_uints r r' ∧ bools_set n resolver_bools r r' ∧ (stubs_ok (rc_stub_zones r) → stubs_ok (rc_stub_zones r'))).
Proof.
  unfold read_resolver. yields_step yields_mode. do 12 yields_key. yields_step (yields_stub_zones (rc_stub_zones r)).
  apply yields_ret. intros n **. split_and!; [all_set|all_set|assumption].
Qed.

Lemma yields_serve_stale k : yields (read_serve_stale k) stale_keys (λ n v,
  bool_set n (str "enabled") (cc_serve_stale k) v.1.1 ∧ uint_set n (str "stale_ttl") 0 4294967295 (cc_stale_ttl k) v.1.2 ∧
  uint_set n (str "max_stale_age") 0 4294967295 (cc_max_stale_age k) v.2).
Proof. unfold read_serve_stale. do 3 yields_key. apply yields_ret. intros n **. split_and!; assumption. Qed.

Lemma yields_prefetch k : yields (read_prefetch k) prefetch_keys (λ n v,
  bool_set n (str "enabled") (cc_prefetch k) v.1 ∧ uint_set n (str "threshold_pct") 0 100 (cc_prefetch_threshold k) v.2).
Proof. unfold read_prefetch. do 2 yields_key. apply yields_ret. intros n **. split_and!; assumption. Qed.

Lemma mb_shift mb : (0 ≤ mb ≤ 1048576)%Z → Z.shiftr (u64 (Z.shiftl mb 20)) 20 = mb.
Proof.
  intros Hm. rewrite Z.shiftl_mul_pow2, Z.shiftr_div_pow2 by lia. unfold u64. rewrite Z.mod_small by (cbn; lia). apply Z.div_mul. lia.
Qed.

Lemma uint_set_range n key min max old v : uint_set n key min max old v → (min ≤ old ≤ max)%Z → (min ≤ v ≤ max)%Z.
Proof. unfold uint_set. destruct (child n key); [by intros []|by intros ->]. Qed.

(** The three sections of the cache; its memory is whole megabytes. *)
Lemma yields_cache k : yields (read_cache k) cache_keys (λ n k', (1 ≤ Z.shiftr (cc_max_memory_bytes k) 20 ≤ 1048576)%Z →
  let stale := child n (str "serve_stale") in let prefetch := child n (str "prefetch") in
  section_checked stale stale_keys ∧ section_checked prefetch prefetch_keys ∧
  uints_set n cache_uints k k' ∧ uints_set stale stale_uints k k' ∧ uints_set prefetch prefetch_uints k k' ∧
  bools_set stale [(str "enabled", cc_serve_stale)] k k' ∧ bools_set prefetch [(str "enabled", cc_prefetch)] k k' ∧
  cc_max_memory_bytes k' = Z.shiftl (Z.shiftr (cc_max_memory_bytes k') 20) 20).
Proof.
  unfold read_cache. do 4 yields_key. yields_step (yields_subsection (str "serve_stale") (str "cache.serve_stale") _ _ _ (yields_serve_stale k)).
  destruct a3 as [[stale stale_ttl] stale_age]. yields_step (yields_subsection (str "prefetch") (str "cache.prefetch") _ _ _ (yields_prefetch k)). destruct a3 as [prefetch pct].
  apply yields_ret. intros n [Hp [Hp1 Hp2]] [Hs (Hs1 & Hs2 & Hs3)] H4 H3 H2 H1 Hmb. cbn in Hp1, Hp2, Hs1, Hs2, Hs3. pose proof (uint_set_range _ _ _ _ _ _ H1 Hmb) as Hr.
  assert (Em : Z.shiftr (u64 (Z.shiftl a 20)) 20 = a) by (apply mb_shift; cbn in Hr; lia).
  assert (Hm : uint_set n (str "max_memory_mb") 1 1048576 (Z.shiftr (cc_max_memory_bytes k) 20) (Z.shiftr (u64 (Z.shiftl a 20)) 20)) by (rewrite Em; exact H1).
  split_and!; [done|done|all_set..|]. cbn [cc_max_memory_bytes]. rewrite Em. rewrite Z.shiftl_mul_pow2 by lia. unfold u64. apply Z.mod_small. cbn in *. lia.
Qed.

Lemma yields_access_body a : yields (read_access_body a) access_keys (λ _ a',
  Forall subnet_wf (ac_allow a) → ac_allow a ≠ [] → Forall subnet_wf (ac_allow a') ∧ ac_allow a' ≠ []).
Proof.
  unfold read_access_body. yields_step (yields_subnets (str "allow") (ac_allow a)). destruct a0 as [given allow].
  yields_step (yields_name (str "allow") (λ _ _, True) (λ _ _, I)).
  refine (yields_bind _ _ [] _ (λ _ _, given ≠ None → allow ≠ []) _ _ _).
  { destruct given; [|by apply yields_ret]. case_bool_decide; [apply yields_fail|by apply yields_ret]. }
  intros _. yields_key. apply yields_ret. intros n _ Hg _ Hs Hw Hne. cbn in *. destruct (Hs Hw) as [Hw' Hd]. split; [done|].
  destruct given; [by apply Hg|]. by rewrite Hd.
Qed.

Lemma yields_access a : yields (read_access a) [str "access"] (λ n a', section_checked (child n (str "access")) access_keys ∧
  (Forall subnet_wf (ac_allow a) → ac_allow a ≠ [] → Forall subnet_wf (ac_allow a') ∧ ac_allow a' ≠ [])).
Proof. exact (yields_subsection _ _ _ _ _ (yields_access_body a)). Qed.

Lemma yields_per_client c : yields (read_per_client c) per_client_keys (λ n c', uints_set n per_client_uints c c' ∧ rlc_exempt c' = rlc_exempt c).
Proof. unfold read_per_client. do 3 yields_key. apply yields_ret. intros n **. split; [all_set|done]. Qed.

Lemma yields_rrl r : yields (read_rrl r) rrl_keys (λ n r', uints_set n rrl_uints r r').
Proof. unfold read_rrl. do 5 yields_key. apply yields_ret. intros n **. all_set. Qed.

Lemma yields_rate_limit_body c r : yields (read_rate_limit_body c r) rate_limit_keys (λ top v,
  section_checked (child top (str "per_client")) per_client_keys ∧ section_checked (child top (str "rrl")) rrl_keys ∧
  uints_set (child top (str "per_client")) per_client_uints c v.1 ∧ uints_set (child top (str "rrl")) rrl_uints r v.2 ∧
  (Forall subnet_wf (rlc_exempt c) → Forall subnet_wf (rlc_exempt v.1)) ∧ rc_exempt v.2 = rlc_exempt v.1).
Proof.
  unfold read_rate_limit_body. yields_step (yields_subsection (str "per_client") (str "rate_limit.per_client") _ _ _ (yields_per_client c)).
  yields_step (yields_subsection (str "rrl") (str "rate_limit.rrl") _ _ _ (yields_rrl r)). yields_step (yields_subnets (str "exempt") (rlc_exempt a)).
  destruct a1 as [given exempt]. apply yields_ret. intros n Hs [Hr1 Hr2] [Hp1 [Hp2 He]]. cbn [fst snd rlc_exempt rc_exempt] in *. rewrite He in Hs.
  each_set Hp2. each_set Hr2. split_and!; [done|done|all_set|all_set| |done]. intros Hw. by apply Hs.
Qed.

Lemma yields_rate_limit c r : yields (read_rate_limit c r) [str "rate_limit"] (λ n v,
  let top := child n (str "rate_limit") in
  section_checked top rate_limit_keys ∧ section_checked (child top (str "per_client")) per_client_keys ∧ section_checked (child top (str "rrl")) rrl_keys ∧
  uints_set (child top (str "per_client")) per_client_uints c v.1 ∧ uints_set (child top (str "rrl")) rrl_uints r v.2 ∧
  (Forall subnet_wf (rlc_exempt c) → Forall subnet_wf (rlc_exempt v.1)) ∧ rc_exempt v.2 = rlc_exempt v.1).
Proof. exact (yields_subsection _ _ _ _ _ (yields_rate_limit_body c r)). Qed.

(** Every stub zone is exempt afterwards, and what was exempt stays so. *)
Lemma exempt_stubs_cover stubs : ∀ es,
  (∀ z, existsb (λ zone, is_subdomain_of z zone) es = true → existsb (λ zone, is_subdomain_of z zone) (fold_left exempt_stub stubs es) = true) ∧
  Forall (λ stub, existsb (λ zone, is_subdomain_of (st_zone stub) zone) (fold_left exempt_stub stubs es) = true) stubs.
Proof.
  induction stubs as [|stub stubs IH]; intros es; [by split|]. cbn [fold_left]. destruct (IH (exempt_stub es stub)) as [Hk Hc].
  assert (Hgrow : ∀ z, existsb (λ zone, is_subdomain_of z zone) es = true → existsb (λ zone, is_subdomain_of z zone) (exempt_stub es stub) = true).
  { intros z Hz. unfold exempt_stub. case_match; [done|]. by rewrite existsb_app, Hz. }
  split; [auto|]. constructor; [|done]. apply Hk. unfold exempt_stub. destruct (existsb _ es) eqn:E; [done|]. rewrite existsb_app. cbn.
  by rewrite is_subdomain_of_refl, orb_true_r.
Qed.

Lemma yields_rebinding_body r : yields (read_rebinding_body r) rebinding_keys (λ n r', bools_set n [(str "enabled", rb_enabled)] r r').
Proof.
  unfold read_rebinding_body. yields_key. yields_step (yields_take (str "exempt") (λ _ _, True) (λ _, I)).
  yields_step (yields_name (str "exempt") (λ _ _, True) (λ _ _, I)). refine (yields_bind _ _ [] _ (λ _ _, True) _ _ _).
  - destruct a0 as [d|]; [|by apply yields_ret]. destruct (negb _); [apply yields_fail|]. generalize (@nil Name). induction (items d) as [|item l IH]; intros out; cbn [read_domains].
    + by apply yields_ret.
    + destruct (from_string _); [|apply yields_fail]. case_decide; [apply yields_fail|]. destruct (existsb _ _); [apply yields_fail|]. apply IH.
  - intros exempt. apply yields_ret. intros n **. all_set.
Qed.

Lemma yields_rebinding stubs r : yields (read_rebinding stubs r) [str "rebinding_protection"] (λ n r',
  section_checked (child n (str "rebinding_protection")) rebinding_keys ∧ bools_set (child n (str "rebinding_protection")) [(str "enabled", rb_enabled)] r r' ∧
  Forall (λ stub, exempt r' (st_zone stub) = true) stubs).
Proof.
  unfold read_rebinding. yields_step (yields_subsection (str "rebinding_protection") (str "policy.rebinding_protection") _ _ _ (yields_rebinding_body r)).
  apply yields_ret. intros n [Hs Hr]. each_set Hr. split_and!; [done|all_set|]. unfold exempt, exempt_stubs. cbn. apply exempt_stubs_cover.
Qed.

Lemma yields_block_response out : yields (read_block_response out) [str "block_response"] (λ _ _, True).
Proof.
  unfold read_block_response. yields_step (yields_take (str "block_response") (λ _ _, True) (λ _, I)). destruct a as [d|]; [|by apply yields_ret].
  case_bool_decide; [by apply yields_ret|]. case_bool_decide; [by apply yields_ret|].
  yields_step (yields_name (str "block_response") (λ _ _, True) (λ _ _, I)). apply yields_fail.
Qed.

Lemma yields_policy_body stubs l r : yields (read_policy_body stubs l r) policy_keys (λ top v,
  section_checked (child top (str "rebinding_protection")) rebinding_keys ∧
  uints_set top policy_uints l v.1 ∧ bools_set top [(str "check_cname_chain", lc_check_cname_chain)] l v.1 ∧
  bools_set (child top (str "rebinding_protection")) [(str "enabled", rb_enabled)] r v.2 ∧
  (paths_ok (lc_blocklists l) → paths_ok (lc_blocklists v.1)) ∧ (paths_ok (lc_allowlists l) → paths_ok (lc_allowlists v.1)) ∧
  Forall (λ stub, exempt v.2 (st_zone stub) = true) stubs).
Proof.
  unfold read_policy_body. do 2 yields_key.
  yields_step (yields_block_response (lc_response l)). do 3 yields_key. yields_step (yields_rebinding stubs r). apply yields_ret.
  intros n (Hr1 & Hr2 & Hr3) **. cbn [fst snd]. split_and!; [done|all_set|all_set|exact Hr2|assumption|assumption|done].
Qed.

Lemma yields_policy stubs l r : yields (read_policy stubs l r) [str "policy"] (λ n v,
  let top := child n (str "policy") in
  section_checked top policy_keys ∧ section_checked (child top (str "rebinding_protection")) rebinding_keys ∧
  uints_set top policy_uints l v.1 ∧ bools_set top [(str "check_cname_chain", lc_check_cname_chain)] l v.1 ∧
  bools_set (child top (str "rebinding_protection")) [(str "enabled", rb_enabled)] r v.2 ∧
  (paths_ok (lc_blocklists l) → paths_ok (lc_blocklists v.1)) ∧ (paths_ok (lc_allowlists l) → paths_ok (lc_allowlists v.1)) ∧
  Forall (λ stub, exempt v.2 (st_zone stub) = true) stubs).
Proof. exact (yields_subsection _ _ _ _ _ (yields_policy_body stubs l r)). Qed.
End sections.

(** ** The whole document *)

(** Where the settings are, and where they end up. *)
Definition within {C} (path : list (list Z)) (part : Config → C) (table : uint_table C) : list (list (list Z) * list Z * Z * Z * (Config → Z)) :=
  (λ '(key, min, max, f), (path, key, min, max, λ c, f (part c))) <$> table.
Definition bools_within {C} (path : list (list Z)) (part : Config → C) (table : bool_table C) : list (list (list Z) * list Z * (Config → bool)) :=
  (λ '(key, f), (path, key, λ c, f (part c))) <$> table.

Definition uint_settings : list (list (list Z) * list Z * Z * Z * (Config → Z)) :=
  within [str "resolver"] cf_resolver resolver_uints ++ within [str "cache"] cf_cache cache_uints ++
  within [str "cache"; str "serve_stale"] cf_cache stale_uints ++ within [str "cache"; str "prefetch"] cf_cache prefetch_uints ++
  within [str "rate_limit"; str "per_client"] cf_rate_limit per_client_uints ++ within [str "rate_limit"; str "rrl"] cf_rrl rrl_uints ++
  within [str "policy"] cf_lists policy_uints.
Definition bool_settings : list (list (list Z) * list Z * (Config → bool)) :=
  bools_within [str "resolver"] cf_resolver resolver_bools ++ bools_within [str "cache"; str "serve_stale"] cf_cache [(str "enabled", cc_serve_stale)] ++
  bools_within [str "cache"; str "prefetch"] cf_cache [(str "enabled", cc_prefetch)] ++
  bools_within [str "policy"] cf_lists [(str "check_cname_chain", lc_check_cname_chain)] ++
  bools_within [str "policy"; str "rebinding_protection"] cf_rebinding [(str "enabled", rb_enabled)].

Definition known_settings : list (list (list Z) * list (list Z)) :=
  [([], top_keys); ([str "listen"], listen_keys); ([str "resolver"], resolver_keys); ([str "cache"], cache_keys);
   ([str "cache"; str "serve_stale"], stale_keys); ([str "cache"; str "prefetch"], prefetch_keys); ([str "access"], access_keys);
   ([str "rate_limit"], rate_limit_keys); ([str "rate_limit"; str "per_client"], per_client_keys); ([str "rate_limit"; str "rrl"], rrl_keys);
   ([str "policy"], policy_keys); ([str "policy"; str "rebinding_protection"], rebinding_keys)].

Section document.
Context `{Yaml} `{InetPton}.

Definition node_at (n : option node) (path : list (list Z)) : option node := fold_left child path n.

Lemma within_set {C} n path (part : Config → C) table c c' : uints_set (node_at n path) table (part c) (part c') →
  Forall (λ '(path, key, min, max, f), uint_set (node_at n path) key min max (f c) (f c')) (within path part table).
Proof. intros Hs. apply Forall_fmap. eapply Forall_impl; [exact Hs|]. by intros [[[key min] max] f]. Qed.
Lemma bools_within_set {C} n path (part : Config → C) table c c' : bools_set (node_at n path) table (part c) (part c') →
  Forall (λ '(path, key, f), bool_set (node_at n path) key (f c) (f c')) (bools_within path part table).
Proof. intros Hs. apply Forall_fmap. eapply Forall_impl; [exact Hs|]. by intros [key f]. Qed.

(** Everything [parse_top] establishes about what it was given ([c]) and what
    it returns ([c']). *)
Record loaded (c : Config) (n : option node) (c' : Config) : Prop := {
  ld_known : Forall (λ '(path, keys), section_checked (node_at n path) keys) (tail known_settings);
  ld_uints : Forall (λ '(path, key, min, max, f), uint_set (node_at n path) key min max (f c) (f c')) uint_settings;
  ld_bools : Forall (λ '(path, key, f), bool_set (node_at n path) key (f c) (f c')) bool_settings;
  ld_endpoints : endpoint_ok (uc_address (cf_udp c)) (uc_port (cf_udp c)) →
    endpoint_ok (uc_address (cf_udp c')) (uc_port (cf_udp c')) ∧ endpoint_ok (tc_address (cf_tcp c')) (tc_port (cf_tcp c'));
  ld_size : uc_max_response_size (cf_udp c') = rc_edns_buffer (cf_resolver c');
  ld_tcp : tc_max_connections (cf_tcp c') = tc_max_connections (cf_tcp c) ∧ tc_max_per_client (cf_tcp c') = tc_max_per_client (cf_tcp c);
  ld_timeouts : (rc_query_timeout_ms (cf_resolver c') ≤ rc_max_query_timeout_ms (cf_resolver c'))%Z;
  ld_ttls : (cc_min_ttl (cf_cache c') ≤ cc_max_ttl (cf_cache c'))%Z;
  ld_memory : cc_max_memory_bytes (cf_cache c') = Z.shiftl (Z.shiftr (cc_max_memory_bytes (cf_cache c')) 20) 20;
  ld_stubs : stubs_ok (rc_stub_zones (cf_resolver c)) → stubs_ok (rc_stub_zones (cf_resolver c'));
  ld_exempt_stubs : Forall (λ stub, exempt (cf_rebinding c') (st_zone stub) = true) (rc_stub_zones (cf_resolver c'));
  ld_access : Forall subnet_wf (ac_allow (cf_access c)) → ac_allow (cf_access c) ≠ [] → Forall subnet_wf (ac_allow (cf_access c')) ∧ ac_allow (cf_access c') ≠ [];
  ld_limits : Forall subnet_wf (rlc_exempt (cf_rate_limit c)) → Forall subnet_wf (rlc_exempt (cf_rate_limit c'));
  ld_shared : rc_exempt (cf_rrl c') = rlc_exempt (cf_rate_limit c');
  ld_blocklists : paths_ok (lc_blocklists (cf_lists c)) → paths_ok (lc_blocklists (cf_lists c'));
  ld_allowlists : paths_ok (lc_allowlists (cf_lists c)) → paths_ok (lc_allowlists (cf_lists c'));
}.

Lemma yields_top c : (1 ≤ Z.shiftr (cc_max_memory_bytes (cf_cache c)) 20 ≤ 1048576)%Z → yields (parse_top c) top_keys (loaded c).
Proof.
  intros Hmb. unfold parse_top. yields_step (yields_subsection (str "listen") (str "listen") _ _ _ (yields_listen c)). rename a into c1.
  yields_step (yields_subsection (str "resolver") (str "resolver") _ _ _ (yields_resolver (cf_resolver c1))). rename a into r.
  refine (yields_bind _ _ [] _ (λ _ _, (rc_query_timeout_ms r ≤ rc_max_query_timeout_ms r)%Z) _ _ _); [apply yields_check; by intros ?%Z.leb_le|intros _].
  yields_step (yields_subsection (str "cache") (str "cache") _ _ _ (yields_cache (cf_cache c1))). rename a into k.
  refine (yields_bind _ _ [] _ (λ _ _, (cc_min_ttl k ≤ cc_max_ttl k)%Z) _ _ _); [apply yields_check; by intros ?%Z.leb_le|intros _].
  yields_step (yields_access (cf_access c1)). yields_step (yields_rate_limit (cf_rate_limit c1) (cf_rrl c1)). destruct a0 as [rate rrl].
  yields_step (yields_policy (rc_stub_zones r) (cf_lists c1) (cf_rebinding c1)). destruct a0 as [lists rebinding].
  do 2 refine (yields_bind _ _ [_] _ (λ _ _, True) _ (yields_note _ _ _) (λ _, _)).
  apply yields_ret. intros n _ _ (Hp1 & Hp2 & Hp3 & Hp4 & Hp5 & Hp6 & Hp7 & Hp8) (Hl1 & Hl2 & Hl3 & Hl4 & Hl5 & Hl6 & Hl7) [Ha1 Ha2] Httl [Hc1 Hc] Htime (Hr1 & Hr2 & Hr3 & Hr4)
    (Hn1 & Hn2 & Hn3 & Hn4 & Er & Ec & Ea & El & El' & Els & Erb).
  rewrite Er, Ec, Ea, El, El', Els, Erb in *. destruct (Hc Hmb) as (Hc2 & Hc3 & Hc4 & Hc5 & Hc6 & Hc7 & Hc8 & Hc9). clear Hc.
  split; cbn [cf_udp cf_tcp cf_resolver cf_cache cf_access cf_rate_limit cf_rrl cf_lists cf_rebinding uc_address uc_port uc_max_response_size fst snd] in *; try done.
  - repeat (apply Forall_cons; split; [assumption|]). apply Forall_nil_2.
  - repeat (apply Forall_app; split); apply within_set; assumption.
  - repeat (apply Forall_app; split); apply bools_within_set; assumption.
Qed.

Lemma parse_loaded document c : parse document = Ok c → section_checked (Some document) top_keys ∧ loaded default_config (Some document) c.
Proof. intros E. unfold parse in E. eapply read_section_ok; [|exact E]. apply yields_top. split; apply Z.leb_le; reflexivity. Qed.

End document.

(** ** What errors say *)

(** The name of a setting, and the items of a setting that is a text or a list
    of them. *)
Definition dotted (keys : list (list Z)) : list Z := fold_left name_in keys [].
Definition texts `{Yaml} (n : node) : list node := if is_sequence n then items n else [n].

(** Membership in one of the tables of settings. *)
Ltac in_table := first [apply list_elem_of_here | apply list_elem_of_further; in_table].

Section blame.
Context `{Yaml} `{InetPton}.

(** The lines of a file are counted from 1; yaml-cpp counts them from 0, and
    gives -1 for a node it knows no line of. *)
Definition at_line (n : node) (line : option Z) : Prop :=
  (0 ≤ mark_line n ∧ line = Some (mark_line n + 1))%Z ∨ (mark_line n < 0)%Z ∧ line = None.

(** A later entry of a list reads as an earlier one does. *)
Definition repeats (l : list node) (n : node) (same : node → node → Prop) : Prop :=
  ∃ before after earlier, l = before ++ n :: after ∧ earlier ∈ before ∧ same earlier n.
Definition same_name (n1 n2 : node) : Prop :=
  ∃ z1 z2, from_string (scalar_or_empty n1) = Some z1 ∧ from_string (scalar_or_empty n2) = Some z2 ∧ labels z1 = labels z2.

(** [wrong name v n what]: the setting [name] has the value [v], and [what] is
    true of [n], which is [v] itself or the entry of it that is at fault. *)
Inductive wrong (name : list Z) (v : node) : node → What → Prop :=
| wrong_number : to_uint (scalar_or_empty v) = None → wrong name v v (NotAWholeNumber name)
| wrong_bool : (is_scalar v = true → decode_bool v = None) → wrong name v v (NotABool name)
| wrong_string : scalar_or_empty v = [] → wrong name v v (NotAString name)
| wrong_endpoint : split_endpoint (scalar_or_empty v) = None → wrong name v v (NotAddressPort name)
| wrong_ip family host port : split_endpoint (scalar_or_empty v) = Some (family, host, port) → inet_pton family (c_str host) = None →
    wrong name v v (InvalidIp name host)
| wrong_port family host port : split_endpoint (scalar_or_empty v) = Some (family, host, port) →
    (∀ p, to_uint port = Some p → p = 0 ∨ 65535 < p)%Z → wrong name v v (InvalidPort name)
| wrong_zone_map : is_map v = false → wrong name v v (NotAZoneMap name)
| wrong_zone n servers : (n, servers) ∈ pairs v → from_string (scalar_or_empty n) = None → wrong name v n (InvalidZone name (scalar_or_empty n))
| wrong_second_zone n z : repeats (pairs v).*1 n same_name → from_string (scalar_or_empty n) = Some z → wrong name v n (ListedTwice name (to_string z))
| wrong_servers k z n : (k, n) ∈ pairs v → from_string (scalar_or_empty k) = Some z → is_sequence n = false ∨ items n = [] →
    wrong name v n (NeedsServers name (to_string z))
| wrong_family k servers n : (k, servers) ∈ pairs v → n ∈ items servers → inet_pton AF_INET (c_str (scalar_or_empty n)) = None →
    is_Some (inet_pton AF_INET6 (c_str (scalar_or_empty n))) → wrong name v n (Ipv6Server name (scalar_or_empty n))
| wrong_server k servers n : (k, servers) ∈ pairs v → n ∈ items servers → inet_pton AF_INET (c_str (scalar_or_empty n)) = None →
    inet_pton AF_INET6 (c_str (scalar_or_empty n)) = None → wrong name v n (InvalidServer name (scalar_or_empty n))
| wrong_subnets : is_sequence v = false → wrong name v v (NotASubnetList name)
| wrong_subnet n e : n ∈ items v → parse_subnet (scalar_or_empty n) = inl e → wrong name v n (BadSubnet name e)
| wrong_nobody : is_sequence v = true → items v = [] → wrong name v v (NobodyAllowed name)
| wrong_action : scalar_or_empty v ∉ [str "refuse"; str "drop"] → wrong name v v (NotADenyAction name)
| wrong_path n : n ∈ texts v → scalar_or_empty n = [] → wrong name v n (NotAPath name)
| wrong_second_path n : repeats (texts v) n (λ n1 n2, scalar_or_empty n1 = scalar_or_empty n2) → wrong name v n (ListedTwice name (scalar_or_empty n))
| wrong_domains : is_sequence v = false → wrong name v v (NotADomainList name)
| wrong_domain n : n ∈ items v → from_string (scalar_or_empty n) = None → wrong name v n (InvalidDomain name (scalar_or_empty n))
| wrong_root n z : n ∈ items v → from_string (scalar_or_empty n) = Some z → label_count z = 0 → wrong name v n (ExemptsEverything name)
| wrong_second_domain n z : repeats (items v) n same_name → from_string (scalar_or_empty n) = Some z → wrong name v n (ListedTwice name (to_string z))
| wrong_response : scalar_or_empty v ∉ [str "null_ip"; str "nxdomain"] → wrong name v v (NotABlockResponse name)
| wrong_forward : name = str "resolver.mode" → scalar_or_empty v = str "forward" → wrong name v v ForwardNotImplemented
| wrong_mode : name = str "resolver.mode" → scalar_or_empty v ∉ [str "forward"; str "recursive"] → wrong name v v NotAMode.

Context (document : node).
Abbreviation section keys := (node_at (Some document) keys).

(** [blamed n what]: [what] is true of the node [n] of the document: of a
    section, of a key of one, or of a setting, each under its full name and
    against the settings the section knows. *)
Inductive blamed : node → What → Prop :=
| blamed_section keys known n : (keys, known) ∈ known_settings → section keys = Some n → is_null n = false → is_map n = false →
    blamed n (MustBeMapping (dotted keys))
| blamed_key keys known d n v : (keys, known) ∈ known_settings → section keys = Some d → (n, v) ∈ pairs d → is_scalar n = false → blamed n NotPlainWord
| blamed_second keys known d n : (keys, known) ∈ known_settings → section keys = Some d → repeats (pairs d).*1 n (λ n1 n2, scalar n1 = scalar n2) →
    blamed n (SetTwice (dotted (keys ++ [scalar n])))
| blamed_unknown keys known d n v : (keys, known) ∈ known_settings → section keys = Some d → (n, v) ∈ pairs d → scalar n ∉ known →
    blamed n (UnknownSetting (dotted (keys ++ [scalar n])))
| blamed_range keys key min max f n x : (keys, key, min, max, f) ∈ uint_settings → section (keys ++ [key]) = Some n →
    to_uint (scalar_or_empty n) = Some x → (x < min ∨ max < x)%Z → blamed n (OutOfRange (dotted (keys ++ [key])) min max (scalar n))
| blamed_setting keys known key v n what : (keys, known) ∈ known_settings → key ∈ known → section (keys ++ [key]) = Some v →
    wrong (dotted (keys ++ [key])) v n what → blamed n what.

(** The two errors that compare two settings blame no node. *)
Inductive disordered : What → Prop :=
| disordered_timeouts query max : (max < query)%Z →
    uint_set (section [str "resolver"]) (str "query_timeout_ms") 1 4294967295 (rc_query_timeout_ms default_resolver_config) query →
    uint_set (section [str "resolver"]) (str "max_query_timeout_ms") 1 4294967295 (rc_max_query_timeout_ms default_resolver_config) max →
    disordered (TimeoutAboveMax query max)
| disordered_ttls min max : (max < min)%Z →
    uint_set (section [str "cache"]) (str "min_ttl") 0 4294967295 (cc_min_ttl default_cache_config) min →
    uint_set (section [str "cache"]) (str "max_ttl") 0 4294967295 (cc_max_ttl default_cache_config) max →
    disordered (MinAboveMaxTtl min max).

Definition explained (e : ConfigError) : Prop :=
  (∃ n, blamed n (er_what e) ∧ at_line n (er_line e)) ∨ disordered (er_what e) ∧ er_line e = None.

Definition errs {A} (m : outcome ConfigError A) : Prop := match m with Ok _ => True | Err e => explained e | Fault _ => False end.

(** Reading the section at [keys] with [m] ends, and fails only with an error
    that is explained. *)
Definition conf_errs {A} (keys : list (list Z)) (m : conf A) : Prop := ∀ s, se_node s = section keys → se_path s = dotted keys → errs (m s).

Lemma explained_at n what : blamed n what → explained (error_at n what).
Proof.
  intros Hb. left. exists n. split; [exact Hb|]. unfold at_line, error_at. cbn. destruct (Z.leb_spec 0 (mark_line n)); auto.
Qed.

Lemma conf_errs_bind {A B} keys (m : conf A) (f : A → conf B) ks (P : option node → A → Prop) : yields m ks P → conf_errs keys m →
  (∀ a, P (section keys) a → conf_errs keys (f a)) → conf_errs keys (m ≫= f).
Proof.
  intros Hy Hm Hf s Hn Hp. unfold mbind, conf_bind. specialize (Hm s Hn Hp). destruct (m s) as [[a s1]| |] eqn:E; [|done..].
  destruct (Hy _ _ _ E) as [Ha ->]. rewrite Hn in Ha |- *. by apply Hf.
Qed.
Lemma conf_errs_ret {A} keys (a : A) : conf_errs keys (mret a).
Proof. by intros s. Qed.
Lemma section_app keys key : section (keys ++ [key]) = child (section keys) key.
Proof. unfold node_at. by rewrite fold_left_app. Qed.
Lemma dotted_app keys key : dotted (keys ++ [key]) = name_in (dotted keys) key.
Proof. unfold dotted. by rewrite fold_left_app. Qed.
Lemma conf_errs_take {B} keys key (f : option node → conf B) : conf_errs keys (f (section (keys ++ [key]))) → conf_errs keys (take_key key ≫= f).
Proof. intros Hf s Hn Hp. rewrite section_app, <-Hn in Hf. by apply Hf. Qed.
Lemma conf_errs_name {B} keys key (f : list Z → conf B) : conf_errs keys (f (dotted (keys ++ [key]))) → conf_errs keys (name_of key ≫= f).
Proof. intros Hf s Hn Hp. rewrite dotted_app, <-Hp in Hf. by apply Hf. Qed.
Lemma conf_errs_fail {A} keys n what : blamed n what → conf_errs keys (@fail _ A n what).
Proof. intros Hb s _ _. by apply explained_at. Qed.

Lemma conf_errs_setting {A} keys known key v n what : (keys, known) ∈ known_settings → key ∈ known → section (keys ++ [key]) = Some v →
  wrong (dotted (keys ++ [key])) v n what → conf_errs keys (@fail _ A n what).
Proof. intros Hk Hi Hv Hw. apply conf_errs_fail. by eapply blamed_setting. Qed.
Lemma conf_errs_ends {A B} keys (m : conf A) (f : A → conf B) : conf_errs keys m → (∀ a s, errs (f a s)) → conf_errs keys (m ≫= f).
Proof. intros Hm Hf s Hn Hp. unfold mbind, conf_bind. specialize (Hm s Hn Hp). destruct (m s) as [[a s1]| |]; [apply Hf|done..]. Qed.

(** ** Errors of a section *)

Lemma here_in {A} (x : A) before after : x ∈ before ++ x :: after.
Proof. apply elem_of_app. right. constructor. Qed.

Lemma check_keys_errs keys known d : (keys, known) ∈ known_settings → section keys = Some d → ∀ kvs before seen, pairs d = before ++ kvs →
  (∀ x, x ∈ seen → x ∈ (scalar ∘ fst <$> before)) → errs (check_keys (dotted keys) kvs seen).
Proof.
  intros Hk Hd. induction kvs as [|[k v] kvs IH]; intros before seen Hp Hseen; cbn [check_keys]; [done|].
  destruct (is_scalar k) eqn:Ek; cbn [negb]; [|apply explained_at; eapply blamed_key; [done..|rewrite Hp; apply here_in|done]].
  case_bool_decide as Hin.
  - apply explained_at. rewrite <-dotted_app. eapply blamed_second; [done..|]. apply Hseen in Hin. apply list_elem_of_fmap in Hin as ([k' v'] & E & Hin). cbn in E.
    exists (before.*1), (kvs.*1), k'. split_and!; [by rewrite Hp, fmap_app|by apply (list_elem_of_fmap_2 fst _ (k', v'))|done].
  - apply (IH (before ++ [(k, v)])); [by rewrite <-app_assoc|]. intros x [->%elem_of_singleton|Hx]%elem_of_union; rewrite fmap_app, elem_of_app; [right; by constructor|left; auto].
Qed.

Lemma finish_loop_errs keys known d s : (keys, known) ∈ known_settings → section keys = Some d → se_path s = dotted keys → se_used s = list_to_set known →
  ∀ kvs, (∀ kv, kv ∈ kvs → kv ∈ pairs d) → errs (finish_loop s kvs).
Proof.
  intros Hk Hd Hp Hu. induction kvs as [|[k v] kvs IH]; intros Hin; cbn [finish_loop]; [done|]. case_bool_decide as Hs.
  - apply IH. intros kv Hkv. apply Hin. by constructor.
  - apply explained_at. rewrite Hp, <-dotted_app. eapply blamed_unknown; [done..|apply Hin; constructor|]. by rewrite Hu, elem_of_list_to_set in Hs.
Qed.

Lemma read_section_errs {A} keys known (body : conf A) (Q : option node → A → Prop) : (keys, known) ∈ known_settings → yields body known Q →
  conf_errs keys body → errs (read_section (section keys) (dotted keys) body).
Proof.
  intros Hk Hy Hb. unfold read_section.
  assert (Ho : match open_section (section keys) (dotted keys) with Ok s => s = mkSettings (section keys) (dotted keys) ∅ | r => errs r end).
  { unfold open_section. destruct (section keys) as [d|] eqn:Ed; [|done]. destruct (is_null d) eqn:En; [done|].
    destruct (is_map d) eqn:Em; cbn [negb]; [|apply explained_at; by eapply blamed_section].
    pose proof (check_keys_errs keys known d Hk Ed (pairs d) [] ∅ eq_refl) as Hc. by destruct (check_keys _ _ _); [|apply Hc..]. }
  destruct (open_section _ _) as [s1| |]; [subst s1|done..]. rewrite bind_Ok. specialize (Hb (mkSettings (section keys) (dotted keys) ∅) eq_refl eq_refl). pose proof (Hy (mkSettings (section keys) (dotted keys) ∅)) as Hs.
  destruct (body _) as [[a s2]| |]; [|done..]. destruct (Hs _ _ eq_refl) as [_ ->]. rewrite bind_Ok. cbn [se_node se_path se_used].
  assert (Hf : errs (finish_section (mkSettings (section keys) (dotted keys) (∅ ∪ list_to_set known)))); [|by destruct (finish_section _)].
  unfold finish_section. cbn [se_node]. destruct (section keys) as [d|] eqn:Ed; [|done]. destruct (is_map d); [|done].
  eapply finish_loop_errs; [done..|cbn; by rewrite union_empty_l_L|done].
Qed.

Lemma subsection_errs {A} keys known key path (body : conf A) (Q : option node → A → Prop) : (keys ++ [key], known) ∈ known_settings →
  path = dotted (keys ++ [key]) → yields body known Q → conf_errs (keys ++ [key]) body → conf_errs keys (subsection key path body).
Proof.
  intros Hk -> Hy Hb. apply conf_errs_take. intros s _ _. unfold lift. pose proof (read_section_errs _ _ _ _ Hk Hy Hb) as He.
  by destruct (read_section _ _ _).
Qed.

(** ** Errors of a setting *)

Section settings.
Context (keys known : list (list Z)) (key : list Z) (Hknown : (keys, known) ∈ known_settings) (Hkey : key ∈ known).

Ltac take_setting d Hd := apply conf_errs_take; destruct (section (keys ++ [key])) as [d|] eqn:Hd; [|apply conf_errs_ret]; try apply conf_errs_name.
Ltac blame := eapply conf_errs_setting; [exact Hknown|exact Hkey|eassumption|].

Lemma uint_errs w out min max f : (keys, key, min, max, f) ∈ uint_settings → conf_errs keys (read_uint w key out min max).
Proof using Hknown Hkey.
  intros Hf. take_setting d Hd. destruct (to_uint _) as [x|] eqn:Ex; [|blame; by constructor]. destruct (_ || _) eqn:Er; [|apply conf_errs_ret].
  apply conf_errs_fail. eapply blamed_range; [done..|]. apply orb_true_iff in Er. lia.
Qed.
Lemma bool_errs out : conf_errs keys (read_bool key out).
Proof using Hknown Hkey.
  take_setting d Hd. destruct (if is_scalar d then _ else _) eqn:E; [apply conf_errs_ret|]. blame. constructor. intros Es. by rewrite Es in E.
Qed.
Lemma string_errs out : conf_errs keys (read_string key out).
Proof using Hknown Hkey. take_setting d Hd. destruct (scalar_or_empty d) eqn:E; [|apply conf_errs_ret]. blame. by constructor. Qed.
Lemma listen_address_errs address port : conf_errs keys (read_listen_address key address port).
Proof using Hknown Hkey.
  take_setting d Hd. destruct (split_endpoint _) as [[[family host] port_text]|] eqn:Es; [|blame; by constructor].
  destruct (inet_pton family (c_str host)) eqn:Ep; [|blame; by econstructor].
  destruct (to_uint port_text) as [p|] eqn:En; [|blame; eapply wrong_port; [exact Es|by rewrite En]].
  destruct (_ || _) eqn:Er; [|apply conf_errs_ret]. blame. eapply wrong_port; [exact Es|]. rewrite En. intros ? [= <-]. apply orb_true_iff in Er. lia.
Qed.
Lemma note_errs noted out : conf_errs keys (note_key key noted out).
Proof using. apply conf_errs_take, conf_errs_ret. Qed.

Lemma deny_errs out : conf_errs keys (read_deny_action key out).
Proof using Hknown Hkey.
  take_setting d Hd. cbv zeta. case_bool_decide; [apply conf_errs_ret|]. case_bool_decide; [apply conf_errs_ret|]. apply conf_errs_name. blame. constructor.
  rewrite !not_elem_of_cons. auto using not_elem_of_nil.
Qed.

(** The node is what the list was read from, and each entry one subnet. *)
Lemma subnets_errs out : conf_errs keys (read_subnets key out).
Proof using Hknown Hkey.
  take_setting d Hd. destruct (is_sequence d) eqn:Es; cbn [negb]; [|blame; by constructor]. apply conf_errs_ends; [|done].
  assert (Hl : ∀ l, (∀ n, n ∈ l → n ∈ items d) → conf_errs keys (parse_subnets (dotted (keys ++ [key])) l)); [|by apply Hl].
  induction l as [|n l IH]; intros Hin; cbn [parse_subnets]; [apply conf_errs_ret|].
  destruct (parse_subnet _) as [e|subnet] eqn:Ep; [blame; apply wrong_subnet; [apply Hin; constructor|done]|].
  apply conf_errs_ends; [|done]. apply IH. intros n' Hn'. apply Hin. by constructor.
Qed.

Lemma paths_errs out : conf_errs keys (read_paths key out).
Proof using Hknown Hkey.
  apply conf_errs_take. destruct (section (keys ++ [key])) as [d|] eqn:Hd; [|apply conf_errs_ret]. destruct (is_null d); [apply conf_errs_ret|]. apply conf_errs_name.
  change (if is_sequence d then items d else [d]) with (texts d).
  assert (Hl : ∀ l before ps, texts d = before ++ l → (∀ p, p ∈ ps → p ∈ (scalar_or_empty <$> before)) → conf_errs keys (check_paths (dotted (keys ++ [key])) l ps));
    [|by apply (Hl (texts d) [])].
  induction l as [|n l IH]; intros before ps Ed Hps; cbn [check_paths]; [apply conf_errs_ret|].
  case_bool_decide as He; [blame; apply wrong_path; [rewrite Ed; apply here_in|done]|]. case_bool_decide as Hin.
  - blame. apply wrong_second_path. apply Hps, list_elem_of_fmap in Hin as (n' & E & Hn'). by exists before, l, n'.
  - apply (IH (before ++ [n])); [by rewrite <-app_assoc|]. intros p. rewrite fmap_app, !elem_of_app. intros [Hp|Hp]; [left; auto|by right].
Qed.
End settings.

(** ** Errors of one setting in particular *)

Lemma servers_errs keys known key v k servers : (keys, known) ∈ known_settings → key ∈ known → section (keys ++ [key]) = Some v → (k, servers) ∈ pairs v →
  ∀ l, (∀ n, n ∈ l → n ∈ items servers) → conf_errs keys (read_servers (dotted (keys ++ [key])) l).
Proof.
  intros Hk Hi Hv Hp. induction l as [|n l IH]; intros Hin; cbn [read_servers]; [apply conf_errs_ret|].
  destruct (inet_pton AF_INET _) eqn:E4; [apply conf_errs_ends; [|done]; apply IH; intros n' Hn'; apply Hin; by constructor|].
  assert (Hn : n ∈ items servers) by (apply Hin; constructor).
  destruct (inet_pton AF_INET6 _) eqn:E6; (eapply conf_errs_setting; [done..|]); [eapply wrong_family|eapply wrong_server]; done.
Qed.

Lemma zones_errs keys known key v : (keys, known) ∈ known_settings → key ∈ known → section (keys ++ [key]) = Some v → ∀ kvs before out, pairs v = before ++ kvs →
  (∀ stub, stub ∈ out → ∃ n z, n ∈ before.*1 ∧ from_string (scalar_or_empty n) = Some z ∧ labels z = labels (st_zone stub)) →
  conf_errs keys (read_zones (dotted (keys ++ [key])) kvs out).
Proof.
  intros Hk Hi Hv. induction kvs as [|[k servers] kvs IH]; intros before out Hp Hout; cbn [read_zones]; [apply conf_errs_ret|].
  assert (Hin : (k, servers) ∈ pairs v) by (rewrite Hp; apply here_in).
  destruct (from_string _) as [zone|] eqn:Ez; [|eapply conf_errs_setting; [done..|]; by eapply wrong_zone].
  destruct (existsb _ _) eqn:Ex.
  { eapply conf_errs_setting; [done..|]. apply wrong_second_zone; [|done]. apply existsb_exists in Ex as (stub & Hs%list_elem_of_In & El%bool_decide_eq_true).
    destruct (Hout _ Hs) as (n & z & Hn & En & Enz). exists (before.*1), (kvs.*1), n. rewrite Hp, fmap_app. split_and!; [done|done|]. exists z, zone. by rewrite Enz. }
  destruct (_ || _) eqn:En.
  { eapply conf_errs_setting; [done..|]. eapply wrong_servers; [done|done|]. apply orb_true_iff in En as [?%negb_true_iff|?%bool_decide_eq_true]; auto. }
  eapply conf_errs_bind; [apply yields_servers|by eapply servers_errs|]. intros addresses _. apply (IH (before ++ [(k, servers)])); [by rewrite <-app_assoc|].
  intros stub. rewrite fmap_app. intros [Hs|Hs%list_elem_of_singleton]%elem_of_app; [|subst stub; exists k, zone; split; [apply elem_of_app; right; constructor|done]].
  destruct (Hout _ Hs) as (n & z & Hn & ?). exists n, z. split; [|done]. apply elem_of_app. by left.
Qed.

Lemma stub_zones_errs : conf_errs [str "resolver"] (read_stub_zones []).
Proof.
  apply conf_errs_take. destruct (section _) as [d|] eqn:Hd; [|apply conf_errs_ret]. destruct (is_null d); [apply conf_errs_ret|]. apply conf_errs_name.
  assert (Hk : ([str "resolver"], resolver_keys) ∈ known_settings) by in_table. assert (Hi : str "stub_zones" ∈ resolver_keys) by in_table.
  destruct (is_map d) eqn:Em; cbn [negb]; [|eapply conf_errs_setting; [done..|]; by constructor]. apply (zones_errs _ _ _ _ Hk Hi Hd (pairs d) []); [done|].
  by intros stub ?%not_elem_of_nil.
Qed.


Lemma domains_errs keys known key v : (keys, known) ∈ known_settings → key ∈ known → section (keys ++ [key]) = Some v → ∀ l before out, items v = before ++ l →
  (∀ domain, domain ∈ out → ∃ n z, n ∈ before ∧ from_string (scalar_or_empty n) = Some z ∧ labels z = labels domain) →
  conf_errs keys (read_domains (dotted (keys ++ [key])) l out).
Proof.
  intros Hk Hi Hv. induction l as [|n l IH]; intros before out Hp Hout; cbn [read_domains]; [apply conf_errs_ret|].
  assert (Hin : n ∈ items v) by (rewrite Hp; apply here_in).
  destruct (from_string _) as [domain|] eqn:Ed; [|eapply conf_errs_setting; [done..|]; by apply wrong_domain].
  case_decide; [eapply conf_errs_setting; [done..|]; by eapply wrong_root|]. destruct (existsb _ _) eqn:Ex.
  { eapply conf_errs_setting; [done..|]. apply wrong_second_domain; [|done]. apply existsb_exists in Ex as (d & Hd%list_elem_of_In & El%bool_decide_eq_true).
    destruct (Hout _ Hd) as (n' & z & Hn & En & Enz). exists before, l, n'. split_and!; [done|done|]. exists z, domain. by rewrite Enz. }
  apply (IH (before ++ [n])); [by rewrite <-app_assoc|].
  intros d [Hd|Hd%list_elem_of_singleton]%elem_of_app; [|subst d; exists n, domain; split; [apply elem_of_app; right; constructor|done]].
  destruct (Hout _ Hd) as (n' & z & Hn & ?). exists n', z. split; [|done]. apply elem_of_app. by left.
Qed.

(** ** Errors of each section *)

(** One setting after another: the lemma for its errors, and what is known of
    its value. *)
Ltac errs_setting :=
  first [refine (conf_errs_bind _ _ _ _ _ (yields_bool _ _) _ _) | refine (conf_errs_bind _ _ _ _ _ (yields_uint _ _ _ _ _ _ _) _ _); [done|done|..]
    | refine (conf_errs_bind _ _ _ _ _ (yields_string _ _) _ _) | refine (conf_errs_bind _ _ _ _ _ (yields_deny_action _ _) _ _)
    | refine (conf_errs_bind _ _ _ _ _ (yields_paths _ _) _ _)];
  [first [eapply bool_errs | eapply uint_errs | eapply string_errs | eapply deny_errs | eapply paths_errs]; in_table|intros ? _].
Ltac errs_subsection known lem :=
  eapply (subsection_errs _ known); [in_table|reflexivity|apply lem|].

Lemma listen_errs c : conf_errs [str "listen"] (read_listen c).
Proof.
  assert (Hk : ([str "listen"], listen_keys) ∈ known_settings) by in_table. unfold read_listen.
  eapply conf_errs_bind; [apply yields_listen_address|eapply listen_address_errs; in_table|intros [ua up] _].
  eapply conf_errs_bind; [apply yields_listen_address|eapply listen_address_errs; in_table|intros [ta tp] _].
  apply conf_errs_name. eapply conf_errs_bind; [apply yields_note|apply note_errs|intros ni _].
  apply conf_errs_name. apply conf_errs_ends; [apply note_errs|done].
Qed.

Lemma mode_errs : conf_errs [str "resolver"] read_mode.
Proof.
  apply conf_errs_take. destruct (section _) as [d|] eqn:Hd; [|apply conf_errs_ret]. cbv zeta.
  assert (Hb : ∀ what, wrong (dotted [str "resolver"; str "mode"]) d d what → conf_errs [str "resolver"] (@fail _ unit d what)).
  { intros what Hw. eapply (conf_errs_setting _ resolver_keys (str "mode")); [in_table|in_table|exact Hd|exact Hw]. }
  case_bool_decide; [apply Hb; by constructor|]. case_bool_decide; [apply conf_errs_ret|]. apply Hb. constructor; [done|].
  rewrite !not_elem_of_cons. auto using not_elem_of_nil.
Qed.

Lemma resolver_errs r : rc_stub_zones r = [] → conf_errs [str "resolver"] (read_resolver r).
Proof.
  intros Hr. unfold read_resolver. eapply conf_errs_bind; [apply yields_mode|apply mode_errs|intros _ _]. do 12 errs_setting.
  apply conf_errs_ends; [|done]. rewrite Hr. apply stub_zones_errs.
Qed.

Lemma cache_errs k : conf_errs [str "cache"] (read_cache k).
Proof.
  unfold read_cache. do 4 errs_setting.
  eapply conf_errs_bind; [apply yields_subsection, yields_serve_stale|errs_subsection stale_keys yields_serve_stale|intros [[stale ttl] age] _].
  { unfold read_serve_stale. do 3 errs_setting. apply conf_errs_ret. }
  apply conf_errs_ends; [|by intros []]. errs_subsection prefetch_keys yields_prefetch.
  unfold read_prefetch. do 2 errs_setting. apply conf_errs_ret.
Qed.

(** The list given is empty exactly if what it was read to is. *)
Lemma yields_given key out : yields (read_subnets key out) [key] (λ n v, v.1 = child n key ∧
  (∀ d, v.1 = Some d → is_sequence d = true ∧ length v.2 = length (items d))).
Proof.
  unfold read_subnets. yields_step (yields_take key (λ n v, v = child n key) (λ _, eq_refl)). destruct a as [d|]; [|by apply yields_ret].
  yields_step (yields_name key (λ _ _, True) (λ _ _, I)). destruct (is_sequence d) eqn:Es; cbn [negb]; [|apply yields_fail].
  assert (Hl : ∀ l, yields (parse_subnets a l) [] (λ _ v, length v = length l)).
  { induction l as [|item l IH]; cbn [parse_subnets]; [by apply yields_ret|]. destruct (parse_subnet _); [apply yields_fail|].
    yields_step IH. apply yields_ret. intros n Hl. cbn. by rewrite Hl. }
  yields_step (Hl (items d)). apply yields_ret. intros n Hv _ Hd. split; [done|]. by intros ? [= <-].
Qed.

Lemma access_errs a : conf_errs [str "access"] (read_access_body a).
Proof.
  assert (Hk : ([str "access"], access_keys) ∈ known_settings) by in_table. unfold read_access_body.
  eapply conf_errs_bind; [apply yields_given|eapply subnets_errs; in_table|]. intros [given allow] [Hg Hs]. cbn [fst snd] in *. apply conf_errs_name.
  eapply (conf_errs_bind _ _ _ [] (λ _ _, True)); [|destruct given as [d|]; [|apply conf_errs_ret]; case_bool_decide as Ha; [|apply conf_errs_ret]|intros _ _].
  - destruct given; [|by apply yields_ret]. case_bool_decide; [apply yields_fail|by apply yields_ret].
  - destruct (Hs d eq_refl) as [Hq Hl]. eapply (conf_errs_setting _ access_keys (str "allow")); [in_table|in_table|by rewrite section_app|].
    apply wrong_nobody; [done|]. rewrite Ha in Hl. by apply nil_length_inv.
  - errs_setting. apply conf_errs_ret.
Qed.

Lemma rate_limit_errs c r : conf_errs [str "rate_limit"] (read_rate_limit_body c r).
Proof.
  unfold read_rate_limit_body. eapply conf_errs_bind; [apply yields_subsection, yields_per_client|errs_subsection per_client_keys yields_per_client|intros c' _].
  { unfold read_per_client. do 3 errs_setting. apply conf_errs_ret. }
  eapply conf_errs_bind; [apply yields_subsection, yields_rrl|errs_subsection rrl_keys yields_rrl|intros r' _].
  { unfold read_rrl. do 5 errs_setting. apply conf_errs_ret. }
  apply conf_errs_ends; [|by intros []]. eapply (subnets_errs _ rate_limit_keys); in_table.
Qed.

Lemma rebinding_errs r : conf_errs [str "policy"; str "rebinding_protection"] (read_rebinding_body r).
Proof.
  set (keys := [str "policy"; str "rebinding_protection"]). assert (Hk : (keys, rebinding_keys) ∈ known_settings) by in_table.
  assert (Hi : str "exempt" ∈ rebinding_keys) by in_table. unfold read_rebinding_body. errs_setting. apply conf_errs_take, conf_errs_name, conf_errs_ends; [|done].
  destruct (section (keys ++ [str "exempt"])) as [d|] eqn:Hd; [|apply conf_errs_ret].
  destruct (is_sequence d) eqn:Es; cbn [negb]; [|eapply conf_errs_setting; [done..|]; by constructor].
  apply (domains_errs _ _ _ _ Hk Hi Hd (items d) []); [done|]. by intros domain ?%not_elem_of_nil.
Qed.

Lemma block_response_errs out : conf_errs [str "policy"] (read_block_response out).
Proof.
  apply conf_errs_take. destruct (section _) as [d|] eqn:Hd; [|apply conf_errs_ret]. cbv zeta. case_bool_decide; [apply conf_errs_ret|].
  case_bool_decide; [apply conf_errs_ret|]. apply conf_errs_name. eapply (conf_errs_setting _ policy_keys (str "block_response")); [in_table|in_table|exact Hd|]. constructor.
  rewrite !not_elem_of_cons. auto using not_elem_of_nil.
Qed.

Lemma policy_errs stubs l r : conf_errs [str "policy"] (read_policy_body stubs l r).
Proof.
  unfold read_policy_body. do 2 errs_setting. eapply conf_errs_bind; [apply yields_block_response|apply block_response_errs|intros response _]. do 3 errs_setting.
  apply conf_errs_ends; [|done]. unfold read_rebinding. apply conf_errs_ends; [|done]. errs_subsection rebinding_keys yields_rebinding_body. apply rebinding_errs.
Qed.

Lemma check_errs keys ok what : (ok = false → disordered what) → conf_errs keys (check ok what).
Proof. intros Hd s _ _. unfold check. destruct ok; [done|]. right. auto. Qed.

(** The value of an entry of a table. *)
Ltac from_table Hs := unfold uints_set in Hs; each_entry Hs; assumption.

Lemma top_errs : conf_errs [] (parse_top default_config).
Proof.
  unfold parse_top. eapply conf_errs_bind; [apply yields_subsection, yields_listen|errs_subsection listen_keys yields_listen; apply listen_errs|].
  intros c (_ & _ & _ & _ & Er & Ec & _). eapply conf_errs_bind; [apply yields_subsection, yields_resolver|errs_subsection resolver_keys yields_resolver|].
  { apply resolver_errs. by rewrite Er. }
  intros r (_ & Hr & _). rewrite Er in Hr. eapply (conf_errs_bind _ _ _ [] (λ _ _, True)); [by apply yields_check|apply check_errs|intros _ _].
  { intros Hlt%Z.leb_gt. constructor; [done|from_table Hr..]. }
  eapply conf_errs_bind; [apply yields_subsection, yields_cache|errs_subsection cache_keys yields_cache; apply cache_errs|]. rewrite Ec.
  intros k [_ Hc]. destruct (Hc ltac:(split; apply Z.leb_le; reflexivity)) as (_ & _ & Hu & _).
  eapply (conf_errs_bind _ _ _ [] (λ _ _, True)); [by apply yields_check|apply check_errs|intros _ _].
  { intros Hlt%Z.leb_gt. constructor; [done|from_table Hu..]. }
  eapply conf_errs_bind; [apply yields_access|errs_subsection access_keys yields_access_body; apply access_errs|intros access _].
  eapply conf_errs_bind; [apply yields_rate_limit|errs_subsection rate_limit_keys yields_rate_limit_body; apply rate_limit_errs|intros [rate rrl] _].
  eapply conf_errs_bind; [apply yields_policy|errs_subsection policy_keys yields_policy_body; apply policy_errs|intros [lists rebinding] _].
  eapply conf_errs_bind; [apply yields_note|apply note_errs|intros ni1 _]. apply conf_errs_ends; [apply note_errs|done].
Qed.

Lemma parse_errs : errs (parse document).
Proof. eapply (read_section_errs [] top_keys); [in_table|apply yields_top; split; apply Z.leb_le; reflexivity|apply top_errs]. Qed.
End blame.

(** ** The properties *)

(** A configuration the components were proved for. *)
Record config_valid `{InetPton} (c : Config) : Prop := {
  cv_ranges : Forall (λ '(_, _, min, max, f), (min ≤ f c ≤ max)%Z) uint_settings;
  cv_udp : endpoint_ok (uc_address (cf_udp c)) (uc_port (cf_udp c));
  cv_tcp : endpoint_ok (tc_address (cf_tcp c)) (tc_port (cf_tcp c)) ∧ limits_ok (cf_tcp c);
  cv_response_size : uc_max_response_size (cf_udp c) = rc_edns_buffer (cf_resolver c);
  cv_resolver : rc_max_cname_chain (cf_resolver c) ≠ 255%Z → rconfig_ok (cf_resolver c);
  cv_timeouts : (rc_query_timeout_ms (cf_resolver c) ≤ rc_max_query_timeout_ms (cf_resolver c))%Z;
  cv_cache : Cache.config_ok (cf_cache c) ∧ (cc_min_ttl (cf_cache c) ≤ cc_max_ttl (cf_cache c))%Z;
  cv_rate_limit : rlc_qps (cf_rate_limit c) ≠ 0%Z → RateLimiter.config_ok (cf_rate_limit c);
  cv_access : Forall subnet_wf (ac_allow (cf_access c)) ∧ ac_allow (cf_access c) ≠ [];
  cv_exempt : Forall subnet_wf (rlc_exempt (cf_rate_limit c)) ∧ rc_exempt (cf_rrl c) = rlc_exempt (cf_rate_limit c);
  cv_stubs : stubs_ok (rc_stub_zones (cf_resolver c)) ∧ Forall (λ stub, exempt (cf_rebinding c) (st_zone stub) = true) (rc_stub_zones (cf_resolver c));
  cv_lists : paths_ok (lc_blocklists (cf_lists c)) ∧ paths_ok (lc_allowlists (cf_lists c));
}.

Lemma default_ranges `{InetPton} : Forall (λ '(_, _, min, max, f), (min ≤ f default_config ≤ max)%Z) uint_settings.
Proof. repeat (apply Forall_cons; split; [split; apply Z.leb_le; reflexivity|]). apply Forall_nil_2. Qed.

Lemma ranges_kept `{Yaml} n (c c' : Config) : Forall (λ '(_, _, min, max, f), (min ≤ f c ≤ max)%Z) uint_settings →
  Forall (λ '(path, key, min, max, f), uint_set (node_at n path) key min max (f c) (f c')) uint_settings →
  Forall (λ '(_, _, min, max, f), (min ≤ f c' ≤ max)%Z) uint_settings.
Proof.
  intros Hc Hs. rewrite Forall_forall in Hc, Hs |- *. intros [[[[path key] min] max] f] Hin. specialize (Hc _ Hin). specialize (Hs _ Hin). cbn in *.
  by eapply uint_set_range.
Qed.

Lemma localhost_ok `{InetPtonLiterals} : Forall subnet_wf localhost ∧ localhost ≠ [].
Proof.
  unfold localhost. cbn [omap list_omap]. pose proof (parse_subnet_wf (str "127.0.0.0/8")) as H4. pose proof (parse_subnet_wf (str "::1/128")) as H6.
  pose proof literal_v4 as L4. rewrite !Forall_cons in L4. cbn [fst snd] in L4. destruct_and?.
  assert (E : parse_subnet (str "127.0.0.0/8") = inr (mkSubnet AF_INET (into_array [127; 0; 0; 0]%Z) 8)).
  { eapply parse_v4_literal; [vm_compute; reflexivity|vm_compute; reflexivity|eassumption|vm_compute; reflexivity|lia|vm_compute; reflexivity]. }
  rewrite E in *. split; [|done]. constructor; [by apply H4|]. destruct (parse_subnet (str "::1/128")) as [|s6]; [constructor|].
  apply Forall_singleton. by apply H6.
Qed.

Lemma default_endpoint `{InetPtonLiterals} : endpoint_ok (str "0.0.0.0") 53.
Proof.
  pose proof literal_v4 as L4. rewrite !Forall_cons in L4. cbn [fst snd] in L4. destruct_and?. split; [|lia]. unfold make_address.
  change (c_str (str "0.0.0.0")) with (str "0.0.0.0"). by destruct (inet_pton AF_INET (str "0.0.0.0")).
Qed.

Section props.
Context `{Yaml} `{InetPton}.

(** C38: every setting takes effect.  In a configuration read from a document,
    each of the numbers and switches the sections know has the value the
    document gives it, read as a decimal number within its range or as a truth
    value, and otherwise its default. *)
Theorem config_settings_exact document c : parse document = Ok c →
  Forall (λ '(path, key, min, max, f), match child (node_at (Some document) path) key with
    | Some d => to_uint (scalar_or_empty d) = Some (f c) ∧ (min ≤ f c ≤ max)%Z
    | None => f c = f default_config
    end) uint_settings ∧
  Forall (λ '(path, key, f), match child (node_at (Some document) path) key with
    | Some d => is_scalar d = true ∧ decode_bool d = Some (f c)
    | None => f c = f default_config
    end) bool_settings.
Proof. intros [_ Hl]%parse_loaded. destruct Hl as [_ Hu Hb _ _ _ _ _ _ _ _ _ _ _ _ _]. split; [exact Hu|exact Hb]. Qed.

(** C39: a misspelt setting is an error.  In an accepted document every section
    is absent, empty, or a mapping whose keys are plain words, each given once
    and each one of those the section knows. *)
Theorem config_rejects_unknown document c : parse document = Ok c →
  Forall (λ '(path, known), section_checked (node_at (Some document) path) known) known_settings.
Proof. intros [Ht Hl]%parse_loaded. constructor; [exact Ht|exact (ld_known _ _ _ Hl)]. Qed.

(** C40: an error says what is wrong, and where.  Reading a document ends: with
    a configuration, or with an error whose line is the line of the node of the
    document it is about, if yaml-cpp knows one.  What it says is true of that
    node: a section that is not a mapping; a key of a section that is not a
    plain word, that an earlier key of it is too, or that the section does not
    know; a number outside the range of the setting it is given to; or the
    value, or the entry of the value, of a setting the section knows, which
    does not read as the setting has to.  The setting is given by its full
    name.  Only the two errors that compare two settings name no line; they
    give the values those have. *)
Theorem config_errors_located document :
  match parse document with Ok _ => True | Err e => explained document e | Fault _ => False end.
Proof. apply parse_errs. Qed.
End props.

Lemma parsed_config_valid `{Yaml} `{InetPton} document c : InetPtonLiterals → parse document = Ok c → config_valid c.
Proof.
  intros Hlit [_ Hl]%parse_loaded. pose proof (ranges_kept _ _ _ default_ranges (ld_uints _ _ _ Hl)) as Hr.
  destruct localhost_ok as [Hlw Hln]. destruct (ld_endpoints _ _ _ Hl default_endpoint) as [Hu Ht].
  pose proof (ld_access _ _ _ Hl Hlw Hln) as Ha. pose proof (ld_limits _ _ _ Hl ltac:(constructor)) as Hx.
  pose proof (ld_stubs _ _ _ Hl ltac:(split; constructor)) as Hs. pose proof (ld_blocklists _ _ _ Hl ltac:(split; constructor)) as Hb.
  pose proof (ld_allowlists _ _ _ Hl ltac:(split; constructor)) as Hw. destruct Hl as [_ _ _ _ Hsize [Htc Htp] Htime Httl Hmem _ Hex _ _ Hsh _ _].
  pose proof Hr as Hr'. each_entry Hr'. clear Hr'. cbn beta iota in *. split; try done.
  - split; [done|]. unfold limits_ok. rewrite Htc, Htp. cbn. lia.
  - intros Hne. split; lia.
  - split; [|done]. split; unfold is_u32; [|lia..]. rewrite Hmem, Z.shiftl_mul_pow2 by lia. cbn. lia.
  - intros Hne. unfold RateLimiter.config_ok. lia.
Qed.

(** C37: an accepted configuration is one the components were proved for.  Every
    number is within its documented range; both listeners get an address the
    socket layer accepts and a port from 1 to 65535; the limits of the TCP
    listener, the cache, the resolver and the rate limiters are those their
    theorems assume, with the one exception of a CNAME limit of 255; timeouts
    and TTL bounds are in order; somebody may use the resolver, every subnet is
    well formed, and both rate limits exempt the same clients; stub zones are
    distinct, have servers and may resolve to private addresses; no list file
    is named twice. *)
Theorem accepted_config_valid `{Yaml} `{InetPton} document c : InetPtonLiterals → parse document = Ok c → config_valid c.
Proof. apply parsed_config_valid. Qed.

(** ** Documents *)

#[local] Set Warnings "-register-all".

(** Documents as trees with line numbers. *)
Inductive tree :=
| TNull (line : nat)
| TScalar (line : nat) (text : list Z)
| TSequence (line : nat) (l : list tree)
| TMap (line : nat) (kvs : list (tree * tree)).

Definition tree_scalar (t : tree) : list Z := match t with TScalar _ text => text | _ => [] end.
Definition tree_pairs (t : tree) : list (tree * tree) := match t with TMap _ kvs => kvs | _ => [] end.
Definition tree_line (t : tree) : nat := match t with TNull line => line | TScalar line _ => line | TSequence line _ => line | TMap line _ => line end.
Definition tree_yaml : Yaml := {|
  node := tree;
  yaml_load text := inr (TScalar 0 text);
  is_null t := match t with TNull _ => true | _ => false end;
  is_map t := match t with TMap _ _ => true | _ => false end;
  is_sequence t := match t with TSequence _ _ => true | _ => false end;
  is_scalar t := match t with TScalar _ _ => true | _ => false end;
  scalar := tree_scalar;
  pairs := tree_pairs;
  items t := match t with TSequence _ l => l | _ => [] end;
  value_at t key := snd <$> List.find (λ kv, bool_decide (tree_scalar kv.1 = key)) (tree_pairs t);
  mark_line t := Z.of_nat (tree_line t);
  decode_bool t := if bool_decide (tree_scalar t = str "true") then Some true else if bool_decide (tree_scalar t = str "false") then Some false else None;
|}.

Definition word (line : nat) (text : string) : tree := TScalar line (str text).
Definition ex_document : tree := TMap 0
  [(word 0 "listen", TMap 1 [(word 1 "udp", word 1 "192.168.0.0:5353")]);
   (word 2 "resolver", TMap 3 [(word 3 "edns_buffer", word 3 "1400"); (word 4 "use_0x20", word 4 "false");
      (word 5 "stub_zones", TMap 6 [(word 6 "lab.", TSequence 6 [word 6 "10.0.0.0"])])]);
   (word 7 "cache", TNull 7);
   (word 8 "access", TMap 9 [(word 9 "allow", TSequence 9 [word 9 "10.0.0.0/8"; word 9 "::1/128"])]);
   (word 10 "policy", TMap 11 [(word 11 "blocklists", word 11 "ads.txt")])].
Definition ex_misspelt : tree := TMap 0 [(word 0 "resolver", TMap 1 [(word 1 "edns_bufer", word 1 "1400")])].

Abbreviation ex_parse := (@parse tree_yaml ex_pton).
Definition ex_loaded : Config := match ex_parse ex_document with Ok c => c | _ => @default_config ex_pton end.

Lemma ex_parsed : ex_parse ex_document = Ok ex_loaded.
Proof. vm_compute. reflexivity. Qed.

Example misspelt_rejected : ex_parse ex_misspelt = Err (mkConfigError (Some 2%Z) (UnknownSetting (str "resolver.edns_bufer"))).
Proof. vm_compute. reflexivity. Qed.

Example settings_read : rc_edns_buffer (cf_resolver ex_loaded) = 1400%Z ∧ uc_port (cf_udp ex_loaded) = 5353%Z ∧ tc_port (cf_tcp ex_loaded) = 5353%Z.
Proof. vm_compute. done. Qed.

(** The CNAME limit at which the resolver's hop counter wraps is accepted. *)
Example cname_limit_255 : match ex_parse (TMap 0 [(word 0 "resolver", TMap 0 [(word 0 "max_cname_chain", word 0 "255")])]) with
  Ok c => rc_max_cname_chain (cf_resolver c) = 255%Z | _ => False end.
Proof. vm_compute. reflexivity. Qed.

(** An empty document leaves every default, and says which of them are not
    implemented. *)
Example empty_document : ex_parse (TNull 0) = Ok (let c := @default_config ex_pton in
  mkConfig (cf_udp c) (cf_tcp c) (cf_resolver c) (cf_cache c) (cf_access c) (cf_rate_limit c) (cf_rrl c) (cf_lists c) (cf_rebinding c)
    [str "resolver.qname_minimisation"; str "cache.serve_stale"; str "cache.prefetch"]).
Proof. vm_compute. reflexivity. Qed.

Lemma config_settings_exact_witness : Forall (λ '(path, key, min, max, f),
  @uint_set tree_yaml (@node_at tree_yaml (Some ex_document) path) key min max (f (@default_config ex_pton)) (f ex_loaded)) uint_settings.
Proof. exact (proj1 (@config_settings_exact tree_yaml ex_pton ex_document ex_loaded ex_parsed)). Defined.

Lemma config_rejects_unknown_witness : @section_checked tree_yaml (Some ex_document) top_keys.
Proof. exact (Forall_inv (@config_rejects_unknown tree_yaml ex_pton ex_document ex_loaded ex_parsed)). Defined.

Lemma config_errors_located_witness :
  @explained tree_yaml ex_pton ex_misspelt (mkConfigError (Some 2%Z) (UnknownSetting (str "resolver.edns_bufer"))).
Proof.
  pose proof (@config_errors_located tree_yaml ex_pton ex_misspelt) as Hl. rewrite misspelt_rejected in Hl. exact Hl.
Defined.

Lemma accepted_config_valid_witness : @config_valid ex_pton ex_loaded.
Proof. exact (@accepted_config_valid tree_yaml ex_pton ex_document ex_loaded ex_pton_literals ex_parsed). Defined.
