(* ===== verification/Main.v ===== *)
(** * The daemon: [main.cpp]

    The command line, what is written to the log, start-up with all its ways to
    fail, and what the daemon itself does while the loop runs: reloading the
    block lists and reporting the rate limits, beside the server of [Server].

    - The machine the daemon starts on is [Machine]: what each file holds, what
      the system calls of the start-up return and the two clock readings.
    - One event loop serves every component.  As everywhere in this library
      each component has its own view of it, with its own registrations; the
      view here holds the daemon's timers and the descriptor SIGHUP writes to.
    - A line of the log is its text where [main.cpp] composes it from data of
      this library, and the error or report it prints otherwise ([Line]).
    - Start-up is a computation that writes lines and either goes on or leaves
      [main] with an exit code ([boot]).
    - The worker thread of a reload is an operation of its own ([WorkerDone]),
      which may come at any time.  [prime_root], the last thing [main] does
      before the loop runs, is the operation [ServerPrime] of the server. *)

From stdpp Require Import base tactics numbers list gmap fin_maps strings.
From Stdlib Require Import ZArith Lia.
From S2P Require Import Prelude Names Types Acl Cache Rrl Rebinding Trie Blocklist Blocklists RateLimiter QueryProcessor Upstream EventLoop RootHints Interfaces.
From S2P Require Import Resolver Service SocketAddress TcpListener UdpListener UdpProps Server Config.

(** ** The command line *)

Definition kDefaultConfig : list Z := str "config/dnsentinel.yaml".

Inductive Args := RunWith (config_path : list Z) | ShowHelp | BadUsage.

Fixpoint parse_args (args : list (list Z)) (config_path : list Z) : Args :=
  match args with
  | [] => RunWith config_path
  | arg :: rest =>
    let help := if bool_decide (arg = str "-h" ∨ arg = str "--help") then ShowHelp else BadUsage in
    match rest with
    | value :: rest => if bool_decide (arg = str "-c" ∨ arg = str "--config") then parse_args rest value else help
    | [] => help
    end
  end.

(** ** Texts *)

Definition endpoint (address : list Z) (port : Z) : list Z :=
  (match find_char 58 address with Some _ => str "[" ++ address ++ str "]" | None => address end) ++ str ":" ++ to_decimal port.

(** The loop of [join]; [out]: what is written so far. *)
Definition join (items : list (list Z)) : list Z :=
  fold_left (λ out item, out ++ (if bool_decide (out = []) then [] else str ", ") ++ item) items [].

Definition describe_slip (slip : Z) : list Z :=
  if (slip =? 0)%Z then str " (more are dropped)"
  else if (slip =? 1)%Z then str " (more are sent truncated)"
  else str " (1 in " ++ to_decimal slip ++ str " more is sent truncated, the rest dropped)".

(** The rate limiters' counters. *)
Record LimitCounts := mkCounts { over_client_limit : Z; rrl_dropped : Z; rrl_truncated : Z }.

Global Instance LimitCounts_eq_dec : EqDecision LimitCounts.
Proof. solve_decision. Defined.

Definition zero_counts : LimitCounts := mkCounts 0 0 0.
Definition counts_of (p : QueryProcessor (L:=RateLimiter)) : LimitCounts :=
  mkCounts (rt_limited (ck_rate_limit (qp_checks p))) (rl_dropped (ck_rrl (qp_checks p))) (rl_slipped (ck_rrl (qp_checks p))).
Definition counts_minus (a b : LimitCounts) : LimitCounts :=
  mkCounts (u64 (over_client_limit a - over_client_limit b)) (u64 (rrl_dropped a - rrl_dropped b)) (u64 (rrl_truncated a - rrl_truncated b)).

Definition describe_counts (c : LimitCounts) : list Z :=
  to_decimal (over_client_limit c) ++ str " queries over a client's limit; " ++ to_decimal (rrl_dropped c) ++
  str " responses dropped and " ++ to_decimal (rrl_truncated c) ++ str " truncated by RRL".

(** ** The log *)

Inductive Line :=
| Log (message : list Z)
| Warning (message : list Z)
| ConfigFailed (e : LoadFailure)
| HintsFailed (e : RootHints.LoadError)
| ListsFailed (e : Blocklists.LoadError)
| ReloadFailed (e : Blocklists.LoadError)
| ListsLoaded (domains : Z)
| CannotCreateLoop
| CannotListen (transport at_endpoint : list Z)
| CannotCreateEventfd
| CannotWatchEventfd.

Definition list_line (file : ListReport) : list Z :=
  (match lr_action file with Block => str "  block " | Allow => str "  allow " end) ++ lr_path file ++ str ": " ++
  to_decimal (st_rules (lr_stats file)) ++ str " domains" ++
  (if (0 <? st_skipped (lr_stats file))%Z then str " (" ++ to_decimal (st_skipped (lr_stats file)) ++ str " unusable lines skipped)" else []).

(** The last line also has the memory and the duration, which a [LoadReport]
    here does not. *)
Definition log_lists (report : LoadReport) : list Line :=
  map (λ file, Log (list_line file)) (lr_files report) ++ [ListsLoaded (lr_domains report)].

Definition cannot_listen (transport at_endpoint : list Z) (port : Z) (permission_denied : bool) (argv0 : list Z) : list Line :=
  CannotListen transport at_endpoint ::
  (if permission_denied && (port <? 1024)%Z
   then [Log (str "ports below 1024 need a capability: sudo setcap 'cap_net_bind_service=+ep' " ++ argv0)] else []).

Section texts.
Context `{InetNtop}.

Definition describe_limits (c : Config) : list Z :=
  let l := cf_rate_limit c in
  let r := cf_rrl c in
  str "rate limits: " ++
  (if (rlc_qps l =? 0)%Z then str "none per client"
   else to_decimal (rlc_qps l) ++ str " queries/s per client (burst " ++ to_decimal (rlc_burst l) ++ str ", then " ++
        (if decide (rlc_action l = DropQuery) then str "dropped" else str "refused") ++ str ")") ++
  (if (rc_responses_per_second r =? 0)%Z then str "; response rate limiting off"
   else str "; " ++ to_decimal (rc_responses_per_second r) ++ str " identical responses/s per /" ++ to_decimal (rc_ipv4_prefix r) ++
        str " or /" ++ to_decimal (rc_ipv6_prefix r) ++ str " network" ++ describe_slip (rc_slip r)) ++
  (if bool_decide (rlc_exempt l = []) then [] else str "; exempt: " ++ join (map subnet_to_string (rlc_exempt l))).

(** The bytes of a [uint32_t] in memory. *)
Definition address_bytes_of (address : Z) : list Z :=
  [u8 address; u8 (Z.shiftr address 8); u8 (Z.shiftr address 16); u8 (Z.shiftr address 24)].
Definition ipv4_text (address : Z) : list Z := inet_ntop AF_INET (address_bytes_of address).

Definition address_text (rdata : RData) : list Z :=
  match rdata with RDataA addr => inet_ntop AF_INET addr | RDataAAAA addr => inet_ntop AF_INET6 addr | _ => str "?" end.

(** The callbacks given to [on_block], [on_rebinding], [on_spoof_alert] and
    [prime_root]. *)
Definition chain_text (chain : list Name) : list Z :=
  fold_left (λ path hop, path ++ (if bool_decide (path = []) then [] else str " -> ") ++ to_string hop) chain [].
Definition block_lines (e : BlockEvent) : list Line :=
  if decide (1 < length (be_chain e))
  then [Log (str "blocked a cloaked name: " ++ chain_text (be_chain e) ++ str " (rule " ++ tr_rule (be_match e) ++ str " in " ++ tr_source (be_match e) ++ str ")")]
  else [].
Definition rebinding_line (e : RebindingEvent) : Line :=
  Warning (str "possible DNS rebinding: " ++ to_string (q_qname (rbe_question e)) ++ str " resolved to " ++
    join (map (λ rr, address_text (rr_rdata rr)) (rbe_removed e)) ++ str " (private); " ++
    (if rbe_emptied e then str "answered NXDOMAIN" else str "removed from the answer") ++
    str ". If it is a local name, add it to policy.rebinding_protection.exempt").
Definition spoof_line (a : SpoofAlert) : Line :=
  Warning (str "possible spoofing: " ++ to_decimal (al_replies a) ++ str " forged-looking replies for " ++ to_string (q_qname (al_question a)) ++
    str " (type " ++ to_decimal (q_qtype (al_question a)) ++ str ") from " ++ ipv4_text (al_server a) ++ str "; asking it again over TCP").
Definition primed_line (result : option ResolveError.t) : Line :=
  match result with
  | None => Log (str "primed the root name servers")
  | Some e => Warning (str "root priming failed (" ++ resolve_error_to_string e ++ str "); queries start from the root hints")
  end.
Definition event_lines {R} (e : ServiceEvent R) : list Line :=
  match e with
  | QueryIn _ _ _ _ | ReplyOut _ _ _ => []
  | SawBlock e => block_lines e
  | SawRebinding e => [rebinding_line e]
  | SawSpoof a => [spoof_line a]
  | SawPrimed result => [primed_line result]
  end.

(** What [main] says about the configuration. *)
Definition access_line (a : AccessConfig) : Line :=
  Log (str "answering clients in " ++ join (map subnet_to_string (ac_allow a)) ++ str "; others are " ++
    (if decide (ac_deny a = Refuse) then str "refused" else str "ignored")).
Definition stub_line (stub : StubZone) : Line :=
  Log (str "stub zone " ++ to_string (st_zone stub) ++ str " -> " ++ join (map ipv4_text (st_servers stub))).
Definition rebinding_protection_line (r : RebindingConfig) : Line :=
  if rb_enabled r then Log (str "rebinding protection on; names that may resolve to private addresses: " ++ join (map to_string (rb_exempt r)))
  else Warning (str "rebinding protection is off: public names may resolve to private addresses").
Definition config_lines (c : Config) : list Line :=
  (if bool_decide (cf_not_implemented c = []) then [] else [Warning (str "not implemented yet, ignored: " ++ join (cf_not_implemented c))]) ++
  [access_line (cf_access c)] ++ map stub_line (rc_stub_zones (cf_resolver c)) ++ [Log (describe_limits c); rebinding_protection_line (cf_rebinding c)].
End texts.

(** ** Start-up *)

(** A computation of [main]: the lines it writes, and its value or the exit code
    it leaves with. *)
Definition boot (A : Type) : Type := list Line → outcome Empty_set (list Line * (Z + A)).
Global Instance boot_ret : MRet boot := λ A a log, Ok (log, inr a).
Global Instance boot_bind : MBind boot := λ A B k m log,
  match m log with
  | Ok (log, inr a) => k a log
  | Ok (log, inl code) => Ok (log, inl code)
  | Err e => Err e
  | Fault f => Fault f
  end.
Definition say (lines : list Line) : boot unit := λ log, Ok (log ++ lines, inr tt).
Definition leave {A} (code : Z) (lines : list Line) : boot A := λ log, Ok (log ++ lines, inl code).
Definition checked {A} (m : outcome Empty_set A) : boot A := λ log, a ← m; Ok (log, inr a).

Record Machine := mkMachine {
  mc_argv0 : list Z; mc_args : list (list Z);
  mc_file : list Z → option (list Z);     (* the configuration and the root hints *)
  mc_disk : Disk;                         (* the list files *)
  mc_epoll : Z; mc_wake : Z; mc_wake_ok : bool;
  mc_udp : BindCalls; mc_udp_denied : bool; mc_tcp : ListenCalls; mc_tcp_denied : bool;
  mc_now : Z; mc_later : Z;               (* the clock as the timers are added *)
  mc_eventfd : Z; mc_watch_ok : bool;
}.

Inductive DaemonIo := ReloadSignal.
Inductive DaemonTimer := CollectReload | CheckFiles | ReportLimits.
Global Instance DaemonTimer_eq_dec : EqDecision DaemonTimer.
Proof. solve_decision. Defined.

Definition millis (n : Z) : Z := n * 1000000.

Record Daemon := mkDaemon {
  d_config : Config; d_lists : Blocklists; d_server : Server RateLimiter Cache UpstreamClient;
  d_loop : EventLoop DaemonIo DaemonTimer; d_reload_fd : Z; d_reported : LimitCounts; d_log : list Line;
}.

Section startup.
Context `{Yaml} `{InetNtop}.

Definition load_or_leave {E A} (m : outcome E A) (failed : E → Line) : boot A := λ log,
  match m with Ok a => Ok (log, inr a) | Err e => Ok (log ++ [failed e], inl 1) | Fault f => Fault f end%Z.

Definition load_lists (m : Machine) (c : Config) : boot Blocklists :=
  let lists := new_blocklists (cf_lists c) in
  if bool_decide (lc_blocklists (cf_lists c) = []) && bool_decide (lc_allowlists (cf_lists c) = [])
  then _ ← say [Log (str "no block lists configured")]; mret lists
  else
    '(r, lists) ← checked (load lists (mc_disk m));
    match r with
    | inr report => _ ← say (log_lists report); mret lists
    | inl e => leave 1 [ListsFailed e; Log (str "the public lists come from config/lists/download_feeds.sh; policy.blocklists names the files to read")]
    end.

Definition new_processor (c : Config) : QueryProcessor :=
  mkProcessor (mkChecks (cf_access c) (new_limiter (cf_rate_limit c)) (cf_rebinding c) (new_rrl (cf_rrl c))) true true.

Definition make_resolver (c : Config) (hints : RootHints) : Resolver Cache UpstreamClient :=
  on_spoof_alert (new_resolver (cf_resolver c) hints (new_cache (cf_cache c)) (new_client (rc_spoof_tcp_threshold (cf_resolver c)))).

(** The timers: the list files are looked at only if the configuration asks for it. *)
Definition first_timers (c : Config) (now later : Z) (l : EventLoop DaemonIo DaemonTimer) : EventLoop DaemonIo DaemonTimer :=
  let seconds := lc_reload_check_seconds (cf_lists c) in
  let l := if (0 <? seconds)%Z then (EventLoop.add_timer l now (millis (1000 * seconds)) CheckFiles).2 else l in
  (EventLoop.add_timer l later (millis 10000) ReportLimits).2.

Definition start (m : Machine) (config_path : list Z) : boot Daemon :=
  config ← load_or_leave (load_config config_path (mc_file m config_path)) ConfigFailed;
  hints ← load_or_leave (load_root_hints (mc_file m (rc_root_hints_path (cf_resolver config)))) HintsFailed;
  let udp_at := endpoint (uc_address (cf_udp config)) (uc_port (cf_udp config)) in
  let tcp_at := endpoint (tc_address (cf_tcp config)) (tc_port (cf_tcp config)) in
  _ ← say (config_lines config);
  lists ← load_lists m config;
  match (create (Io:=DaemonIo) (Tm:=DaemonTimer) (mc_epoll m) (mc_wake m) (mc_wake_ok m)).2 with
  | None => leave 1 [CannotCreateLoop]
  | Some loop =>
    let service := new_service (new_processor config) (make_resolver config hints) in
    match (create_udp new_loop (cf_udp config) (mc_udp m)).2 with
    | None => leave 1 (cannot_listen (str "udp") udp_at (uc_port (cf_udp config)) (mc_udp_denied m) (mc_argv0 m))
    | Some (udp, _) =>
      match (create_tcp new_loop (cf_tcp config) (mc_tcp m)).2 with
      | None => leave 1 (cannot_listen (str "tcp") tcp_at (tc_port (cf_tcp config)) (mc_tcp_denied m) (mc_argv0 m))
      | Some (tcp, _) =>
        let loop := first_timers config (mc_now m) (mc_later m) loop in
        if (mc_eventfd m <? 0)%Z then leave 1 [CannotCreateEventfd] else
        match add_fd loop (mc_eventfd m) ReloadSignal (mc_watch_ok m) with
        | (Some _, _) => leave 1 [CannotWatchEventfd]
        | (None, loop) =>
          _ ← say [Log (str "listening on udp " ++ udp_at ++ str " and tcp " ++ tcp_at)];
          mret (mkDaemon config lists (mkServer service udp tcp) loop (mc_eventfd m) zero_counts [])
        end
      end
    end
  end.

(** [main], until the loop runs.  The usage goes to another stream. *)
Definition main (m : Machine) : boot Daemon :=
  match parse_args (mc_args m) kDefaultConfig with
  | RunWith config_path => start m config_path
  | ShowHelp => leave 0 []
  | BadUsage => leave 2 []
  end.
End startup.

(** ** While the loop runs *)

Section running.
Context `{InetNtop} `{Hcache : AnswerCache Cache}.
Context (clock : nat → Z) (random : nat → Z → Z) (case_bits : nat → nat → Z) (calls : nat → SendCalls) (times : nat → Z) (net : Sockets).

Definition with_lists (d : Daemon) (lists : Blocklists) : Daemon :=
  mkDaemon (d_config d) lists (d_server d) (d_loop d) (d_reload_fd d) (d_reported d) (d_log d).
Definition with_server (d : Daemon) (s : Server RateLimiter Cache UpstreamClient) : Daemon :=
  mkDaemon (d_config d) (d_lists d) s (d_loop d) (d_reload_fd d) (d_reported d) (d_log d).
Definition with_daemon_loop (d : Daemon) (l : EventLoop DaemonIo DaemonTimer) : Daemon :=
  mkDaemon (d_config d) (d_lists d) (d_server d) l (d_reload_fd d) (d_reported d) (d_log d).
Definition with_reported (d : Daemon) (c : LimitCounts) : Daemon :=
  mkDaemon (d_config d) (d_lists d) (d_server d) (d_loop d) (d_reload_fd d) c (d_log d).
Definition wrote (d : Daemon) (lines : list Line) : Daemon :=
  mkDaemon (d_config d) (d_lists d) (d_server d) (d_loop d) (d_reload_fd d) (d_reported d) (d_log d ++ lines).

Definition arm (d : Daemon) (now delay : Z) (cb : DaemonTimer) : Daemon := with_daemon_loop d (EventLoop.add_timer (d_loop d) now delay cb).2.

Definition collect_reload (now : Z) (d : Daemon) : Daemon :=
  match finish_reload (d_lists d) with
  | (Some (inr report), lists) => wrote (with_lists d lists) (log_lists report)
  | (Some (inl e), lists) => wrote (with_lists d lists) [ReloadFailed e]
  | (None, _) => arm d now (millis 100) CollectReload
  end.

Definition reload (why : list Z) (now : Z) (d : Daemon) : outcome Empty_set Daemon :=
  '(started, lists) ← start_reload (d_lists d);
  let d := with_lists d lists in
  if started : bool then Ok (arm (wrote d [Log (str "reloading the lists (" ++ why ++ str ")")]) now (millis 100) CollectReload) else Ok d.

Definition check_files (disk : Disk) (now later : Z) (d : Daemon) : outcome Empty_set Daemon :=
  d ← (if files_changed (d_lists d) disk then reload (str "a list file changed") now d else Ok d);
  Ok (arm d later (millis (1000 * lc_reload_check_seconds (cf_lists (d_config d)))) CheckFiles).

Definition report_limits (now : Z) (d : Daemon) : Daemon :=
  let current := counts_of (sv_processor (sr_service (d_server d))) in
  let d := if decide (current = d_reported d) then d
           else wrote d [Log (str "rate limiting in the last 10 s: " ++ describe_counts (counts_minus current (d_reported d)))] in
  arm (with_reported d current) now (millis 10000) ReportLimits.

(** A timer is due: what [stat] reports then, and the clock as timers are added. *)
Definition on_daemon_timer (cb : DaemonTimer) (disk : Disk) (now later : Z) (d : Daemon) : outcome Empty_set Daemon :=
  match cb with
  | CollectReload => Ok (collect_reload now d)
  | CheckFiles => check_files disk now later d
  | ReportLimits => Ok (report_limits now d)
  end.

Inductive DaemonOp :=
| Serve (op : ServerOp)
| Hangup (now : Z)                      (* SIGHUP *)
| Interrupt                             (* SIGINT, SIGTERM *)
| DaemonDue (at_time newest : Z) (disk : Disk) (now later : Z)
| WorkerDone (disk : Disk).

(** The lists the pipeline sees. *)
Definition in_use (s : Blocklists) : Lists (T:=BlocklistTrie) := mkListsInUse (bs_config s) (bs_trie s).

Definition daemon_exec (op : DaemonOp) (d : Daemon) : outcome SubnetError Daemon :=
  match op with
  | Serve op =>
    s ← server_exec clock random case_bits calls times net (in_use (d_lists d)) op (d_server d);
    let events := drop (length (sv_log (sr_service (d_server d)))) (sv_log (sr_service s)) in
    Ok (wrote (with_server d s) (events ≫= event_lines))
  | Hangup now => QueryProcessor.lift (reload (str "SIGHUP") now d)
  | Interrupt => Ok (with_daemon_loop d (stop (d_loop d)))
  | DaemonDue at_time newest disk now later =>
    match pop_due (d_loop d) at_time newest with
    | None => Ok d
    | Some (_, cb, l) => QueryProcessor.lift (on_daemon_timer cb disk now later (with_daemon_loop d l))
    end
  | WorkerDone disk => lists ← QueryProcessor.lift (worker_run (d_lists d) disk); Ok (with_lists d lists)
  end.

Fixpoint daemon_run (ops : list DaemonOp) (d : Daemon) : outcome SubnetError Daemon :=
  match ops with [] => Ok d | op :: ops => d ← daemon_exec op d; daemon_run ops d end.
End running.

(** After the loop: the last lines, the descriptor closed, the loop without it. *)
Definition shut_down (d : Daemon) : list Line * list Z * EventLoop DaemonIo DaemonTimer :=
  let total := counts_of (sv_processor (sr_service (d_server d))) in
  ((if decide (total = zero_counts) then [] else [Log (str "rate limiting since startup: " ++ describe_counts total)]) ++ [Log (str "shutting down")],
   [d_reload_fd d], remove_fd (d_loop d) (d_reload_fd d)).
