(* ===== verification/MainProps.v ===== *)
(** * What the daemon guarantees

    Start-up ends in one of its documented ways, and what it builds is what the
    components were proved for.  While the loop runs the lists are reloaded by
    one worker at a time, whose result is always collected; the periodic timers
    stay armed; and the server keeps its promises whatever lists are in use. *)

From stdpp Require Import base tactics numbers list gmap fin_maps strings.
From Stdlib Require Import ZArith Lia.
From S2P Require Import Prelude Names Types Acl Cache Rrl Rebinding Trie TrieBuild TrieLookup Blocklist Blocklists RateLimiter QueryProcessor.
From S2P Require Import Upstream EventLoop RootHints ServerSelection Interfaces Resolver ResolverLinks ResolverInv ResolverSteps ResolverProps ResolverRuns.
From S2P Require Import Service ServiceProps SocketAddress TcpListener TcpProofs TcpProps TcpLinks UdpListener UdpProps Server ServerProps Counts Config ConfigProps Main.

(** ** The daemon's timers *)

Section timers.
Context {Io : Type}.
Implicit Types (l : EventLoop Io DaemonTimer).

Definition timers l : list DaemonTimer := (el_timers l).*2.

Lemma emplace_perm {Tm} k (cb : Tm) m : k ∉ m.*1 → emplace k cb m ≡ₚ (k, cb) :: m.
Proof.
  induction m as [|[k' cb'] m IH]; intros Hk; cbn [emplace]; [done|]. case_decide; [done|]. rewrite decide_False by set_solver.
  rewrite IH by set_solver. apply Permutation_swap.
Qed.

Lemma add_timer_timers l now delay cb : loop_inv l → room l 1 →
  loop_inv (EventLoop.add_timer l now delay cb).2 ∧ timers (EventLoop.add_timer l now delay cb).2 ≡ₚ cb :: timers l ∧
  el_tokens (EventLoop.add_timer l now delay cb).2 = el_tokens l ∧ el_watches (EventLoop.add_timer l now delay cb).2 = el_watches l ∧
  ∀ k, room l (S k) → room (EventLoop.add_timer l now delay cb).2 k.
Proof.
  intros Hi Hr. split; [by apply add_timer_inv|]. rewrite add_timer_spec by done. cbn [snd set_timers timers el_timers el_tokens el_watches]. split_and!; [|done|done|].
  - unfold timers. cbn [set_timers el_timers]. rewrite emplace_perm; [done|]. intros Hk. apply (li_ids _ Hi) in Hk. lia.
  - intros k [? ?]. unfold room. cbn. lia.
Qed.

(** The timers a daemon has: one that collects while a reload is under way, one
    that looks at the files if that is asked for, and one that reports. *)
Definition expected (reloading checking : bool) : list DaemonTimer :=
  (if reloading then [CollectReload] else []) ++ (if checking then [CheckFiles] else []) ++ [ReportLimits].

Lemma expected_collect r c ts : CollectReload :: ts ≡ₚ expected r c → r = true ∧ ts ≡ₚ expected false c.
Proof.
  intros Hp. destruct r; [split; [done|]; by apply Permutation_cons_inv in Hp|]. exfalso.
  assert (Hin : CollectReload ∈ expected false c) by (rewrite <-Hp; left). unfold expected in Hin. destruct c; set_solver.
Qed.
End timers.

(** ** The lists *)

Section lists.
Context `{InetPton}.

(** The trie answers every question, by the entries that reading every
    configured file to its end has found. *)
Definition serves (config : ListsConfig) (t : BlocklistTrie) : Prop :=
  ∃ disk reports es, read_files disk 0 (list_files config) empty_builder [] = inr (add_all empty_builder es, reports) ∧
    Forall (listed (list_files config)) es ∧ ∀ domain, name_wf domain → trie_lookup t domain = Ok (reference_lookup es domain).

(** So do the trie in use and the one a finished reload will put in its place. *)
Definition lists_serve (s : Blocklists) : Prop :=
  serves (bs_config s) (bs_trie s) ∧ ∀ a l, bs_finished s = Some a → at_result a = inr l → serves (bs_config s) (ld_trie l).

Lemma serves_empty config : list_files config = [] → serves config empty_trie.
Proof.
  intros Hn. exists (mkDisk (λ _, None) (λ _ _, None) (λ _, false)), [], []. rewrite Hn. split_and!; [done|constructor|]. intros domain _. assert (Hd : ∀ a ls whole, deepest [] a whole ls = None) by (induction ls as [|x ls IH]; intros whole; [done|apply IH]).
  unfold reference_lookup. by rewrite !Hd.
Qed.

(** The files of a configuration can be read, or not, and what can be read fits
    the trie. *)
Definition lists_fit (config : ListsConfig) (disk : Disk) : Prop :=
  disk_wf disk ∧ ∀ b reports, read_files disk 0 (list_files config) empty_builder [] = inr (b, reports) →
    TrieLookup.fits (bd_rules b) ∧ (zlen (bd_sources b) ≤ 65536)%Z.

Lemma read_lists_total config disk : lists_fit config disk → ∃ a, read_lists config disk = Ok a ∧ ∀ l, at_result a = inr l → serves config (ld_trie l).
Proof.
  intros [Hwf Hfit]. destruct (read_files disk 0 (list_files config) empty_builder []) as [e|[b reports]] eqn:E.
  - exists (mkAttempt (stamp_files config disk) (inl e)). unfold read_lists. by rewrite E.
  - destruct (Hfit b reports eq_refl) as [Hf Hs]. destruct (read_lists_entries config disk b reports Hwf E Hf Hs) as (t & es & -> & -> & Hes & Hl).
    eexists. split; [done|]. intros l [= <-]. by exists disk, reports, es.
Qed.

Lemma use_serves s a : lists_serve s → (∀ l, at_result a = inr l → serves (bs_config s) (ld_trie l)) → lists_serve (use s a).2.
Proof. intros [Ht Hf] Ha. unfold use. destruct (at_result a) as [e|l]; (split; [|done]); [done|by apply Ha]. Qed.

Lemma finish_serves s r s' : lists_serve s → finish_reload s = (r, s') → lists_serve s'.
Proof.
  intros [Ht Hf] E. unfold finish_reload in E. destruct (bs_finished s) as [a|] eqn:Ea; [|injection E as _ <-; split; [done|]; intros a l; congruence].
  set (s1 := mkBlocklists _ _ _ _ _ _) in E. assert (Hu : lists_serve (use s1 a).2) by (apply use_serves; [by split|]; intros l El; by apply (Hf a)).
  destruct (use s1 a). by injection E as _ <-.
Qed.
End lists.

(** ** The daemon's own duties *)

Section duties.
Context `{InetPton} (c : Config).
Implicit Types (d : Daemon).

Definition checking : bool := (0 <? lc_reload_check_seconds (cf_lists c))%Z.

(** [pre]: timers that have been taken out to be run. *)
Record duties (pre : list DaemonTimer) d : Prop := {
  du_config : d_config d = c;
  du_lists : lists_inv (cf_lists c) (d_lists d);
  du_complete : list_files (cf_lists c) = [] ∨ complete (cf_lists c) (bs_trie (d_lists d));
  du_serve : lists_serve (d_lists d);
  du_loop : loop_inv (d_loop d);
  du_timers : pre ++ timers (d_loop d) ≡ₚ expected (bs_reloading (d_lists d)) checking;
  du_watch : ∃ token, el_tokens (d_loop d) !! d_reload_fd d = Some token ∧ el_watches (d_loop d) !! token = Some (mkWatch (d_reload_fd d) ReloadSignal);
}.

(** An operation on the duties leaves the server alone and uses up [n] ids. *)
Definition aside (n : nat) d d' : Prop := d_server d' = d_server d ∧ ∀ k, room (d_loop d) (n + k) → room (d_loop d') k.

Lemma arm_duties pre d now delay cb : duties (cb :: pre) d → room (d_loop d) 1 →
  duties pre (arm d now delay cb) ∧ aside 1 d (arm d now delay cb).
Proof.
  intros [Hc Hli Hcm Hsv Hl Ht Hw] Hr. destruct (add_timer_timers (d_loop d) now delay cb Hl Hr) as (Hl' & Ht' & Ek & Ew & Hroom). split.
  - split; cbn [arm with_daemon_loop d_config d_lists d_loop d_reload_fd]; [done..| |by rewrite Ek, Ew].
    rewrite Ht', <-Ht. by rewrite <-Permutation_middle.
  - split; [done|]. intros k. apply Hroom.
Qed.

Lemma finish_idle config s : lists_inv config s → ∀ r s', finish_reload s = (Some r, s') → lists_inv config s' ∧ bs_reloading s = true ∧ bs_reloading s' = false ∧
  (bs_trie s' = bs_trie s ∨ complete config (bs_trie s')).
Proof.
  intros Hi r s' E. split; [by eapply step_inv, step_finish|]. unfold finish_reload in E. destruct (bs_finished s) as [a|] eqn:Ef; [|done].
  destruct (bs_reloading s) eqn:Er; [|destruct (li_idle _ _ Hi Er); congruence]. split; [done|].
  destruct (li_busy _ _ Hi Er) as [[_ ?]|(_ & a' & Ea & Hok)]; [congruence|]. assert (a' = a) as -> by congruence.
  unfold use, attempt_ok in *. destruct (at_result a); cbn in E; injection E as _ <-; (split; [done|]); [by left|by right].
Qed.

Lemma collect_duties d now : duties [CollectReload] d → room (d_loop d) 1 → duties [] (collect_reload now d) ∧ aside 1 d (collect_reload now d).
Proof.
  intros Hd Hr. pose proof Hd as [Hc Hli Hcm Hsv Hl Ht Hw]. unfold collect_reload. destruct (finish_reload (d_lists d)) as [[res|] lists] eqn:E; [|by apply arm_duties].
  destruct (finish_idle _ _ Hli _ _ E) as (Hli' & Er & Er' & Hcm'). pose proof (finish_serves _ _ _ Hsv E) as Hsv'.
  assert (Hcm2 : list_files (cf_lists c) = [] ∨ complete (cf_lists c) (bs_trie lists)) by (destruct Hcm' as [-> | ?]; [done|by right]). apply expected_collect in Ht as [_ Ht].
  assert (Hgo : ∀ lines, duties [] (wrote (with_lists d lists) lines) ∧ aside 1 d (wrote (with_lists d lists) lines)).
  { intros lines. split; [|split; [done|]; intros k [? ?]; unfold room; cbn; lia].
    split; cbn [wrote with_lists d_config d_lists d_loop d_reload_fd app]; [done..| |done]. by rewrite Er'. }
  destruct res; apply Hgo.
Qed.

Lemma start_reload_spec config s : lists_inv config s → ∃ s', start_reload s = Ok (negb (bs_reloading s), s') ∧ lists_inv config s' ∧ bs_reloading s' = true ∧ bs_trie s' = bs_trie s ∧
  (lists_serve s → lists_serve s').
Proof.
  intros Hi. assert (Hs : ∃ s', start_reload s = Ok (negb (bs_reloading s), s') ∧ bs_reloading s' = true ∧ bs_trie s' = bs_trie s ∧ (lists_serve s → lists_serve s')).
  { unfold start_reload. destruct (bs_reloading s) eqn:Er; [by eexists|]. destruct (li_idle _ _ Hi Er) as [-> _]. by eexists. }
  destruct Hs as (s' & E & Er & Et & Hs'). exists s'. split_and!; [done| |done..]. by eapply step_inv, step_start.
Qed.

Lemma reload_duties pre why now d : duties pre d → room (d_loop d) 1 → ∃ d', reload why now d = Ok d' ∧ duties pre d' ∧ aside 1 d d'.
Proof.
  intros [Hc Hli Hcm Hsv Hl Ht Hw] Hr. unfold reload. destruct (start_reload_spec _ _ Hli) as (lists & E & Hli' & Er & Etr & Hs'). rewrite E, bind_Ok. clear E. rewrite <-Etr in Hcm. specialize (Hs' Hsv).
  destruct (bs_reloading (d_lists d)) eqn:Er0; cbn [negb]; eexists; (split; [done|]).
  - split; [|split; [done|]; intros k [? ?]; unfold room; cbn; lia]. split; cbn [with_lists d_config d_lists d_loop d_reload_fd]; [done..| |done]. by rewrite Er.
  - apply (arm_duties pre (wrote (with_lists d lists) _)); [|done]. split; cbn [wrote with_lists d_config d_lists d_loop d_reload_fd]; [done..| |done].
    rewrite Er. cbn [app]. by rewrite Ht.
Qed.

Lemma check_duties d disk now later : duties [CheckFiles] d → room (d_loop d) 2 → ∃ d', check_files disk now later d = Ok d' ∧ duties [] d' ∧ aside 2 d d'.
Proof.
  intros Hd Hr. unfold check_files.
  assert (Hgo : ∃ d1, (if files_changed (d_lists d) disk then reload (str "a list file changed") now d else Ok d) = Ok d1 ∧ duties [CheckFiles] d1 ∧ aside 1 d d1).
  { destruct (files_changed _ _); [apply reload_duties; [done|by eapply room_le; [exact Hr|lia]]|]. exists d. split; [done|]. split; [done|]. split; [done|]. intros k [? ?]. unfold room. lia. }
  destruct Hgo as (d1 & -> & Hd1 & Es & Hroom). rewrite bind_Ok. eexists. split; [done|].
  destruct (arm_duties [] d1 later (millis (1000 * lc_reload_check_seconds (cf_lists (d_config d1)))) CheckFiles Hd1) as [Hd2 [Es2 Hr2]]; [by apply Hroom|].
  split; [done|]. split; [by rewrite Es2|]. intros k Hk. apply Hr2, Hroom. exact Hk.
Qed.

Lemma report_duties d now : duties [ReportLimits] d → room (d_loop d) 1 → duties [] (report_limits now d) ∧ aside 1 d (report_limits now d).
Proof.
  intros Hd Hr. unfold report_limits. set (lines := [Log _]). set (cur := counts_of _).
  assert (Hx : ∀ d1, d1 = d ∨ d1 = wrote d lines → duties [ReportLimits] (with_reported d1 cur) ∧ d_loop d1 = d_loop d ∧ d_server d1 = d_server d).
  { destruct Hd as [Hc Hli Hcm Hsv Hl Ht Hw]. intros d1 [-> | ->]; (split; [by split|done]). }
  destruct (Hx (if decide (cur = d_reported d) then d else wrote d lines)) as (Hd1 & El & Es); [by case_decide; [left|right]|].
  set (d1 := if decide _ then _ else _) in *. clearbody d1.
  destruct (arm_duties [] (with_reported d1 cur) now (millis 10000) ReportLimits Hd1) as [Hd2 [Es2 Hr2]]; [cbn; by rewrite El|].
  split; [done|]. split; [by rewrite Es2|]. intros k Hk. apply Hr2. cbn. by rewrite El.
Qed.

Lemma pop_duties d at_time newest x cb l : duties [] d → pop_due (d_loop d) at_time newest = Some (x, cb, l) →
  duties [cb] (with_daemon_loop d l) ∧ aside 0 d (with_daemon_loop d l).
Proof.
  intros [Hc Hli Hcm Hsv Hl Ht Hw] E. destruct (pop_due_Some _ _ _ _ _ _ Hl E) as (dl & Et & _ & Hl' & En & Ek).
  assert (Ef : el_tokens l = el_tokens (d_loop d) ∧ el_watches l = el_watches (d_loop d)).
  { unfold pop_due in E. rewrite Et in E. destruct (_ || _)%Z; [done|]. by injection E as <-. }
  destruct Ef as [Ef1 Ef2]. split.
  - split; cbn [with_daemon_loop d_config d_lists d_loop d_reload_fd]; [done..| |by rewrite Ef1, Ef2]. rewrite <-Ht. unfold timers. by rewrite Et.
  - split; [done|]. intros k. unfold room. cbn. by rewrite En, Ek.
Qed.

Lemma due_duties d cb disk now later : duties [cb] d → room (d_loop d) 2 → ∃ d', on_daemon_timer cb disk now later d = Ok d' ∧ duties [] d' ∧ d_server d' = d_server d.
Proof.
  intros Hd Hr. assert (Hr1 : room (d_loop d) 1) by (eapply room_le; [exact Hr|lia]). destruct cb; cbn [on_daemon_timer].
  - destruct (collect_duties d now Hd Hr1) as (? & ? & _). eauto.
  - destruct (check_duties d disk now later Hd Hr) as (d' & ? & ? & ? & _). eauto.
  - destruct (report_duties d now Hd Hr1) as (? & ? & _). eauto.
Qed.

Lemma worker_duties d disk : duties [] d → lists_fit (cf_lists c) disk → ∃ lists, worker_run (d_lists d) disk = Ok lists ∧ duties [] (with_lists d lists).
Proof.
  intros [Hc Hli Hcm Hsv Hl Ht Hw] Hfit. destruct (read_lists_total _ _ Hfit) as (a & Ea & Ha).
  assert (Hs : ∃ lists, worker_run (d_lists d) disk = Ok lists ∧ bs_reloading lists = bs_reloading (d_lists d) ∧ bs_trie lists = bs_trie (d_lists d) ∧ lists_serve lists).
  { unfold worker_run. destruct (bs_worker (d_lists d)) as [cfg|] eqn:Ew; [|by eexists].
    assert (cfg = cf_lists c) as ->.
    { destruct Hli as [_ _ Hid Hbu]. destruct (bs_reloading (d_lists d)); [destruct (Hbu eq_refl) as [[Hx _]|[Hx _]]|destruct (Hid eq_refl) as [Hx _]]; congruence. }
    rewrite Ea, bind_Ok. eexists. split_and!; [done..|]. split; [apply Hsv|]. cbn [bs_finished bs_config]. rewrite (li_config _ _ Hli). intros a' l [= <-]. apply Ha. }
  destruct Hs as (lists & E & Er & Etr & Hsv'). exists lists. split; [done|]. split; cbn [with_lists d_config d_lists d_loop d_reload_fd]; [done| |by rewrite Etr|done|done|by rewrite Er|done].
  by eapply step_inv, step_worker.
Qed.
End duties.

(** ** Start-up *)

Definition failure (l : Line) : bool :=
  match l with
  | ConfigFailed _ | HintsFailed _ | ListsFailed _ | CannotCreateLoop | CannotListen _ _ | CannotCreateEventfd | CannotWatchEventfd => true
  | _ => false
  end.

(** [m] goes on with a value that satisfies [Q] and no failure logged, or leaves
    with exit code 1 and a failure logged. *)
Definition boots {A} (m : boot A) (Q : A → Prop) : Prop := ∀ log,
  match m log with
  | Ok (log', inr a) => (∃ new, log' = log ++ new ∧ existsb failure new = false) ∧ Q a
  | Ok (log', inl code) => (∃ new, log' = log ++ new ∧ existsb failure new = true) ∧ code = 1%Z
  | _ => False
  end.

Lemma boots_bind {A B} (m : boot A) (k : A → boot B) P Q : boots m P → (∀ a, P a → boots (k a) Q) → boots (m ≫= k) Q.
Proof.
  intros Hm Hk log. specialize (Hm log). unfold mbind, boot_bind. destruct (m log) as [[log1 [code|a]]| |]; [done| |done..].
  destruct Hm as [(new & -> & Hn) Ha]. specialize (Hk a Ha (log ++ new)). destruct (k a (log ++ new)) as [[log2 [code|b]]| |]; [..|done|done];
    (destruct Hk as [(new2 & -> & Hn2) Hb]; split; [|done]; exists (new ++ new2); rewrite existsb_app, Hn, Hn2; split; [by rewrite app_assoc|done]).
Qed.
Lemma boots_mono {A} (m : boot A) (P Q : A → Prop) : boots m P → (∀ a, P a → Q a) → boots m Q.
Proof. intros Hm HPQ log. specialize (Hm log). destruct (m log) as [[log1 [code|a]]| |]; [done| |done..]. destruct Hm. auto. Qed.
Lemma boots_ret {A} (a : A) (Q : A → Prop) : Q a → boots (mret a) Q.
Proof. intros Ha log. split; [|done]. exists []. by rewrite app_nil_r. Qed.
Lemma boots_say lines (Q : unit → Prop) : existsb failure lines = false → Q tt → boots (say lines) Q.
Proof. intros Hl HQ log. split; [|done]. by exists lines. Qed.
Lemma boots_leave {A} lines (Q : A → Prop) : existsb failure lines = true → boots (leave 1 lines) Q.
Proof. intros Hl log. split; [|done]. by exists lines. Qed.
Lemma boots_load {E A} (m : outcome E A) failed : (∀ f, m ≠ Fault f) → (∀ e, failure (failed e) = true) → boots (load_or_leave m failed) (λ a, m = Ok a).
Proof.
  intros Hm Hf log. unfold load_or_leave. destruct m as [a|e|f] eqn:Em; [| |by destruct (Hm f)].
  - split; [|done]. exists []. by rewrite app_nil_r.
  - split; [|done]. exists [failed e]. split; [done|]. cbn. by rewrite Hf.
Qed.
Lemma boots_checked {A} (m : outcome Empty_set A) a : m = Ok a → boots (checked m) (λ a', a' = a).
Proof. intros -> log. split; [|done]. exists []. by rewrite app_nil_r. Qed.

Lemma hints_no_fault `{InetPton} contents f : load_root_hints contents ≠ Fault f.
Proof.
  unfold load_root_hints. destruct contents as [text|]; [|done]. unfold parse_root_hints. rewrite parse_loop_entries by done.
  destruct (entries (RootHints.lines text) 0) as [e|es]; cbn [mbind outcome_bind]; [done|]. by destruct (fold_left _ _ _) as [[|] [|]].
Qed.

Lemma config_no_fault `{Yaml} `{InetPton} path contents f : load_config path contents ≠ Fault f.
Proof.
  unfold load_config, parse_config. destruct contents as [text|]; [|done]. destruct (yaml_load text) as [[|]|document]; [done..|].
  pose proof (parse_errs document) as He. by destruct (Config.parse document).
Qed.

Lemma loaded_config `{Yaml} `{InetPton} path contents c : InetPtonLiterals → load_config path contents = Ok c → config_valid c.
Proof.
  intros Hlit. unfold load_config, parse_config. destruct contents as [text|]; [|done]. destruct (yaml_load text) as [[|]|document]; [done..|].
  destruct (Config.parse document) as [c'| |] eqn:E; [|done..]. intros [= <-]. by apply (parsed_config_valid document).
Qed.

Section startup.
Context `{Yaml} `{InetNtop} (m : Machine).

(** What start-up has built. *)
Record started (path : list Z) (d : Daemon) : Prop := {
  sd_config : load_config path (mc_file m path) = Ok (d_config d);
  sd_hints : ∃ hints, load_root_hints (mc_file m (rc_root_hints_path (cf_resolver (d_config d)))) = Ok hints ∧
    sr_service (d_server d) = new_service (new_processor (d_config d)) (make_resolver (d_config d) hints);
  sd_udp : ∃ closed port, create_udp new_loop (cf_udp (d_config d)) (mc_udp m) = (closed, Some (sr_udp (d_server d), port));
  sd_tcp : ∃ closed port, create_tcp new_loop (cf_tcp (d_config d)) (mc_tcp m) = (closed, Some (sr_tcp (d_server d), port));
  sd_duties : duties (d_config d) [] d;
}.

Lemma lists_no_failure report : existsb failure (log_lists report) = false.
Proof. unfold log_lists. rewrite existsb_app. cbn [existsb failure orb]. rewrite orb_false_r. by induction (lr_files report). Qed.

Lemma config_no_failure c : existsb failure (config_lines c) = false.
Proof.
  unfold config_lines. rewrite !existsb_app. assert (existsb failure (map stub_line (rc_stub_zones (cf_resolver c))) = false) as -> by (by induction (rc_stub_zones _)).
  unfold rebinding_protection_line. destruct (bool_decide _), (rb_enabled _); done.
Qed.

Lemma load_lists_boots c : lists_fit (cf_lists c) (never_stopped (mc_disk m)) → boots (load_lists m c) (λ lists,
  lists_inv (cf_lists c) lists ∧ lists_serve lists ∧ bs_reloading lists = false ∧ (list_files (cf_lists c) = [] ∨ complete (cf_lists c) (bs_trie lists))).
Proof.
  intros Hfit. assert (Hnew : lists_inv (cf_lists c) (new_blocklists (cf_lists c))) by (by apply reachable_inv, reach_new). unfold load_lists.
  destruct (bool_decide _ && bool_decide _) eqn:Eb.
  { apply andb_true_iff in Eb as [E1%bool_decide_eq_true E2%bool_decide_eq_true]. eapply boots_bind; [by apply (boots_say _ (λ _, True))|].
    assert (En : list_files (cf_lists c) = []) by (unfold list_files; by rewrite E1, E2).
    intros _ _. apply boots_ret. split_and!; [done|split; [by apply serves_empty|done]|done|by left]. }
  destruct (read_lists_total _ _ Hfit) as (a & Ea & Ha). assert (El : load (new_blocklists (cf_lists c)) (mc_disk m) = Ok (use (new_blocklists (cf_lists c)) a)).
  { unfold load. cbn [new_blocklists bs_config]. by rewrite Ea. }
  eapply boots_bind; [apply (boots_checked _ _ El)|]. intros [r lists] Eu. assert (Hli : lists_inv (cf_lists c) lists).
  { eapply step_inv; [exact Hnew|]. eapply step_load. by rewrite El, Eu. }
  apply read_lists_ok in Ea. unfold use, attempt_ok in *. destruct r as [e|report]; [by apply boots_leave|].
  eapply boots_bind; [apply (boots_say _ (λ _, True)); [apply lists_no_failure|done]|]. intros _ _. apply boots_ret.
  destruct (at_result a) as [e|l]; [done|]. injection Eu as _ ->. split_and!; [done|split; [by apply Ha|done]|done|by right].
Qed.

(** The timers and the descriptor of a new daemon. *)
Lemma first_registrations c now later fd ok l : add_fd (first_timers c now later new_loop) fd ReloadSignal ok = (None, l) →
  loop_inv l ∧ timers l ≡ₚ expected false (checking c) ∧
  ∃ token, el_tokens l !! fd = Some token ∧ el_watches l !! token = Some (mkWatch fd ReloadSignal).
Proof.
  assert (Hnew : loop_inv (new_loop (Io:=DaemonIo) (Tm:=DaemonTimer))) by apply new_loop_inv.
  assert (Hl : ∃ l1, first_timers c now later new_loop = l1 ∧ loop_inv l1 ∧ timers l1 ≡ₚ expected false (checking c) ∧ el_tokens l1 = ∅ ∧ room l1 1).
  { unfold first_timers, expected, checking. cbn [app].
    destruct (0 <? _)%Z.
    - destruct (add_timer_timers new_loop now (millis (1000 * lc_reload_check_seconds (cf_lists c))) CheckFiles Hnew) as (Hl1 & Ht1 & Ek1 & _ & Hr1); [by split|].
      destruct (add_timer_timers _ later (millis 10000) ReportLimits Hl1) as (Hl2 & Ht2 & Ek2 & _ & Hr2); [apply Hr1; by split|].
      eexists. split_and!; [done|done| |by rewrite Ek2, Ek1|apply Hr2, Hr1; by split]. rewrite Ht2, Ht1. apply Permutation_swap.
    - destruct (add_timer_timers new_loop later (millis 10000) ReportLimits Hnew) as (Hl2 & Ht2 & Ek2 & _ & Hr2); [by split|].
      eexists. split_and!; [done|done|by rewrite Ht2|by rewrite Ek2|apply Hr2; by split]. }
  destruct Hl as (l1 & -> & Hl1 & Ht1 & Ek1 & Hr1). intros E. pose proof (add_fd_inv l1 fd ReloadSignal ok Hl1 Hr1) as Hl2. rewrite E in Hl2.
  unfold add_fd in E. rewrite Ek1 in E. rewrite decide_False in E by (rewrite lookup_empty; by intros []). destruct ok; [|done]. injection E as <-.
  split_and!; [done|done|]. cbn [set_fds el_tokens el_watches]. exists (el_next_token l1). by rewrite !lookup_insert_eq.
Qed.

Lemma start_boots path :
  (∀ c, load_config path (mc_file m path) = Ok c → lists_fit (cf_lists c) (never_stopped (mc_disk m))) → boots (start m path) (started path).
Proof.
  intros Hfit. unfold start.
  eapply boots_bind; [apply boots_load; [intros f; apply config_no_fault|done]|intros c Ec].
  eapply boots_bind; [apply boots_load; [intros f; by apply hints_no_fault|done]|intros hints Eh]. cbv zeta.
  eapply boots_bind; [apply (boots_say _ (λ _, True)); [apply config_no_failure|done]|intros _ _].
  eapply boots_bind; [by apply load_lists_boots, Hfit|intros lists (Hli & Hsv & Er & Hcomplete)].
  assert (Ecr : (create (Io:=DaemonIo) (Tm:=DaemonTimer) (mc_epoll m) (mc_wake m) (mc_wake_ok m)).2 = None ∨
    (create (Io:=DaemonIo) (Tm:=DaemonTimer) (mc_epoll m) (mc_wake m) (mc_wake_ok m)).2 = Some new_loop).
  { unfold create. repeat destruct (_ <? _)%Z; auto. destruct (mc_wake_ok m); auto. }
  destruct Ecr as [-> | ->]; [by apply boots_leave|].
  destruct (create_udp new_loop (cf_udp c) (mc_udp m)) as [uclosed [[udp uport]|]] eqn:Eu; cbn [snd]; [|by apply boots_leave].
  destruct (create_tcp new_loop (cf_tcp c) (mc_tcp m)) as [tclosed [[tcp tport]|]] eqn:Et; cbn [snd]; [|by apply boots_leave].
  destruct (_ <? _)%Z; [by apply boots_leave|].
  destruct (add_fd _ _ _ _) as [[e|] loop] eqn:Ef; [by apply boots_leave|].
  eapply boots_bind; [by apply (boots_say _ (λ _, True))|intros _ _]. apply boots_ret.
  apply first_registrations in Ef as (Hl & Ht & Hw). split; cbn [d_config d_server d_lists sr_service sr_udp sr_tcp]; [exact Ec|by exists hints|by exists uclosed, uport|by exists tclosed, tport|].
  split; cbn [d_config d_lists d_loop d_reload_fd app]; [done..| |done]. by rewrite Er.
Qed.

(** C7: start-up ends in one of its documented ways.  It never faults or hangs;
    help leaves with 0 and a bad command line with 2; every other failure leaves
    with 1 after an error line; and if it goes on, no error was logged, the
    configuration is one the components were proved for, the lists were read to
    their end, both listeners exist and are wired to the pipeline and a new
    resolver, and the daemon's timers and its reload descriptor are in place. *)
Theorem startup_outcome : InetPtonLiterals →
  (∀ path c, load_config path (mc_file m path) = Ok c → lists_fit (cf_lists c) (never_stopped (mc_disk m))) →
  match main m [] with
  | Ok (log, inl code) =>
    match parse_args (mc_args m) kDefaultConfig with
    | ShowHelp => code = 0%Z
    | BadUsage => code = 2%Z
    | RunWith _ => code = 1%Z ∧ existsb failure log = true
    end
  | Ok (log, inr d) => existsb failure log = false ∧
    ∃ path, parse_args (mc_args m) kDefaultConfig = RunWith path ∧ started path d ∧ config_valid (d_config d)
  | _ => False
  end.
Proof.
  intros Hlit Hfit. unfold main. destruct (parse_args _ _) as [path| |]; [|done..].
  pose proof (start_boots path (λ c, Hfit path c) []) as Hs. destruct (start m path []) as [[log [code|d]]| |]; [..|done|done].
  - destruct Hs as [(new & -> & Hn) ->]. done.
  - destruct Hs as [(new & -> & Hn) Hd]. split; [done|]. exists path. split_and!; [done|done|]. by eapply loaded_config, sd_config.
Qed.
End startup.

(** ** Runs *)

Section running.
Context `{InetNtop} `{!InetPtonLiterals} `{Hcache : AnswerCache Cache}.
Context (clock : nat → Z) (random : nat → Z → Z) (case_bits : nat → nat → Z) (calls : nat → SendCalls) (times : nat → Z) (net : Sockets).

(** What the environment provides to the next operation. *)
Definition daemon_can_run (op : DaemonOp) (d : Daemon) : Prop :=
  match op with
  | Serve op => server_can_run clock random case_bits calls op (d_server d)
  | Hangup _ | DaemonDue _ _ _ _ _ => room (d_loop d) 2
  | Interrupt => True
  | WorkerDone disk => lists_fit (cf_lists (d_config d)) disk
  end.

Fixpoint daemon_all_can_run (ops : list DaemonOp) (d : Daemon) : Prop :=
  match ops with
  | [] => True
  | op :: ops => daemon_can_run op d ∧
    match daemon_exec clock random case_bits calls times net op d with Ok d => daemon_all_can_run ops d | _ => True end
  end.

(** The datagrams received over a run. *)
Definition datagrams_of (op : DaemonOp) : list datagram :=
  match op with Serve (ServerReadable recvs) => datagrams kMaxPacketsPerWakeup recvs | _ => [] end.

Context (c : Config) (Hcfg : rconfig_ok (cf_resolver c)) (Htcp : limits_ok (cf_tcp c)) (Hrandom : uniform random).

Record daemon_inv (ds : list datagram) (d : Daemon) : Prop := {
  dv_duties : duties c [] d;
  dv_server : server_inv (cf_resolver c) (new_processor c) (uc_max_response_size (cf_udp c)) (cf_tcp c) (conserved (new_processor c)) ds [] None 0 (d_server d);
}.

Lemma daemon_exec_inv ds op d : daemon_inv ds d → daemon_can_run op d →
  ∃ d', daemon_exec clock random case_bits calls times net op d = Ok d' ∧ daemon_inv (ds ++ datagrams_of op) d'.
Proof.
  intros [Hd Hs]. destruct op as [sop|now| |at_time newest disk now later|disk]; cbn [daemon_exec daemon_can_run datagrams_of]; rewrite ?app_nil_r; intros Hrun.
  - destruct (server_exec_inv clock random case_bits calls times net (cf_resolver c) (new_processor c) (uc_max_response_size (cf_udp c)) (cf_tcp c) Hcfg Hrandom Htcp
      (conserved (new_processor c)) ds (in_use (d_lists d)) sop (d_server d) Hs Hrun) as (s' & E & Hs'). rewrite E, bind_Ok. eexists. split; [done|].
    split; [by destruct Hd|exact Hs'].
  - destruct (reload_duties c [] (str "SIGHUP") now d Hd) as (d' & E & Hd' & Es & _); [by eapply room_le; [exact Hrun|lia]|]. rewrite E. cbn [QueryProcessor.lift].
    eexists. split; [done|]. split; [done|by rewrite Es].
  - eexists. split; [done|]. split; [|done]. destruct Hd as [Hc Hli Hcm Hsv Hl Ht Hw]. split; try done. by destruct Hl.
  - destruct (pop_due (d_loop d) at_time newest) as [[[x cb] l]|] eqn:Ep; [|by exists d]. destruct (pop_duties c d at_time newest x cb l Hd Ep) as (Hd1 & Es1 & Hr1).
    destruct (due_duties c (with_daemon_loop d l) cb disk now later Hd1) as (d' & E & Hd' & Es); [by apply Hr1|]. rewrite E. cbn [QueryProcessor.lift].
    eexists. split; [done|]. split; [done|by rewrite Es].
  - rewrite (du_config _ _ _ Hd) in Hrun. destruct (worker_duties c d disk Hd Hrun) as (lists & E & Hd'). rewrite E. cbn [QueryProcessor.lift]. rewrite bind_Ok.
    eexists. split; [done|]. by split.
Qed.

Lemma daemon_run_inv ops : ∀ ds d, daemon_inv ds d → daemon_all_can_run ops d →
  ∃ d', daemon_run clock random case_bits calls times net ops d = Ok d' ∧ daemon_inv (ds ++ (ops ≫= datagrams_of)) d'.
Proof.
  induction ops as [|op ops IH]; intros ds d Hi Hrun; [exists d; by rewrite app_nil_r|]. destruct Hrun as [Hop Hrest].
  destruct (daemon_exec_inv ds op d Hi Hop) as (d1 & E & Hi1). cbn [daemon_run]. rewrite E in *. rewrite bind_Ok.
  destruct (IH _ d1 Hi1 Hrest) as (d' & E' & Hi'). exists d'. split; [done|]. rewrite bind_cons, app_assoc. exact Hi'.
Qed.
End running.

(** ** The daemon *)

Section daemon.
Context `{Yaml} `{InetNtop} (m : Machine) (sz : Sizes).
Context (clock : nat → Z) (random : nat → Z → Z) (case_bits : nat → nat → Z) (calls : nat → SendCalls) (times : nat → Z) (net : Sockets).
Context (Hrandom : uniform random).
Context (Hfit : ∀ path c, load_config path (mc_file m path) = Ok c → lists_fit (cf_lists c) (never_stopped (mc_disk m))).

(** A daemon that has started satisfies the invariant. *)
Lemma started_inv path d (Hok : Cache.config_ok (cf_cache (d_config d))) : InetPtonLiterals → started m path d → rc_max_cname_chain (cf_resolver (d_config d)) ≠ 255%Z →
  daemon_inv (Hcache := cache_answer_cache sz (cf_cache (d_config d)) Hok) (d_config d) [] d ∧ rconfig_ok (cf_resolver (d_config d)) ∧ limits_ok (cf_tcp (d_config d)).
Proof using Hrandom.
  intros Hlit Hst H255. pose proof (loaded_config _ _ _ Hlit (sd_config _ _ _ Hst)) as Hv. pose proof (cv_resolver _ Hv H255) as Hrc.
  pose proof (proj2 (cv_tcp _ Hv)) as Htcp. split; [|done].
  destruct Hst as [_ (hints & _ & Es) (closed & port & Eu) (closed' & port' & Et) Hd]. split; [done|].
  assert (d_server d = mkServer (sr_service (d_server d)) (sr_udp (d_server d)) (sr_tcp (d_server d))) as -> by (by destruct (d_server d)). rewrite Es.
  refine (new_server_inv (H3 := cache_answer_cache sz (cf_cache (d_config d)) Hok) random _ _ _ _ _ _ _ _ _ _ _ _ _ _ _ Htcp Eu Et _); [|by apply new_service_conserved].
  split; [done|done|].
  exists hints, (new_cache (cf_cache (d_config d))), (new_client (rc_spoof_tcp_threshold (cf_resolver (d_config d)))), true.
  split_and!; [done|by apply new_cache_holds| |done]. exists []. apply new_client_inv.
Qed.

Lemma main_started log d : main m [] = Ok (log, inr d) → ∃ path, started m path d.
Proof using Hfit.
  intros Em. unfold main in Em. destruct (parse_args _ _) as [path| |]; [|done..]. pose proof (start_boots m path (λ c, Hfit path c) []) as Hs. rewrite Em in Hs.
  destruct Hs as [_ Hs]. by exists path.
Qed.

(** C4: the daemon keeps running and serving.  Once start-up has succeeded (and
    the CNAME limit is not 255), whatever datagrams, connections, bytes, timers,
    upstream events, signals and worker results come, in any order, the daemon
    never faults; the lists in use come from reading every configured file to its
    end, and every look-up in them ends, with what the entries of those files say
    by the reference of [trie_refines]; while a reload is under way, and only then, exactly one timer waits to collect its
    result, so that no reload is forgotten and none is collected twice; the
    files are looked at for ever if that is asked for, and the limits reported
    for ever; SIGHUP stays watched; and every query is accounted for, over UDP and
    over TCP. *)
Theorem daemon_serves log d (Hok : Cache.config_ok (cf_cache (d_config d))) ops : InetPtonLiterals → main m [] = Ok (log, inr d) →
  rc_max_cname_chain (cf_resolver (d_config d)) ≠ 255%Z →
  daemon_all_can_run (Hcache := cache_answer_cache sz (cf_cache (d_config d)) Hok) clock random case_bits calls times net ops d →
  ∃ d', daemon_run (Hcache := cache_answer_cache sz (cf_cache (d_config d)) Hok) clock random case_bits calls times net ops d = Ok d' ∧
    (list_files (cf_lists (d_config d)) = [] ∨ complete (cf_lists (d_config d)) (bs_trie (d_lists d'))) ∧
    serves (cf_lists (d_config d)) (bs_trie (d_lists d')) ∧
    timers (d_loop d') ≡ₚ expected (bs_reloading (d_lists d')) (checking (d_config d)) ∧
    (∃ token, el_tokens (d_loop d') !! d_reload_fd d' = Some token ∧ el_watches (d_loop d') !! token = Some (mkWatch (d_reload_fd d') ReloadSignal)) ∧
    accounted (new_processor (d_config d)) (uc_max_response_size (cf_udp (d_config d))) (ops ≫= datagrams_of) (d_server d').
Proof using Hrandom Hfit.
  intros Hlit Em H255 Hrun. destruct (main_started log d Em) as [path Hst]. destruct (started_inv path d Hok Hlit Hst H255) as (Hi & Hrc & Htcp).
  destruct (daemon_run_inv (Hcache := cache_answer_cache sz (cf_cache (d_config d)) Hok) clock random case_bits calls times net (d_config d) Hrc Htcp Hrandom ops [] d Hi Hrun)
    as (d' & E & [[Hc Hli Hcm Hsv Hl Ht Hw] Hs]). destruct Hsv as [Hsv _]. rewrite (li_config _ _ Hli) in Hsv. exists d'. split_and!; [done..|].
    rewrite app_nil_l in Hs. by eapply server_inv_accounted.
Qed.

(** C5: the limits reported are the whole story.  Over any run of a daemon that
    has started (with a CNAME limit below 255, see [cname_cycle_never_ends]),
    with fewer than 2^64 queries, the queries the listeners gave to the pipeline
    are exactly these: those whose reply the system took as a packet, those whose
    packet it refused ([send_errors] counts them), those whose reply was put into
    their connection's stream, those whose connection had gone when the reply
    came, those the resolver is working on, those the access list drops, those
    counted as over a client's limit (where that drops them) and those counted
    as dropped by RRL.  No query is lost otherwise, and the numbers the daemon
    reports when it shuts down are the true ones. *)
Theorem silence_explained log d (Hok : Cache.config_ok (cf_cache (d_config d))) ops : InetPtonLiterals → main m [] = Ok (log, inr d) →
  rc_max_cname_chain (cf_resolver (d_config d)) ≠ 255%Z →
  daemon_all_can_run (Hcache := cache_answer_cache sz (cf_cache (d_config d)) Hok) clock random case_bits calls times net ops d →
  ∃ d' lost, daemon_run (Hcache := cache_answer_cache sz (cf_cache (d_config d)) Hok) clock random case_bits calls times net ops d = Ok d' ∧
    let service := sr_service (d_server d') in
    let udp := sr_udp (d_server d') in
    let tcp := sr_tcp (d_server d') in
    let total := counts_of (sv_processor service) in
    tcp_said (sv_log service) ≡ₚ answers (tl_log tcp) ++ lost ∧ Forall (λ reply, tl_connections tcp !! reply.2 = None) lost ∧
    (zlen (queried (sv_log service)) < 2 ^ 64 →
     zlen (queried (sv_log service)) = zlen (udp_sends true (ul_log udp)) + zlen (udp_sends false (ul_log udp)) +
      zlen (answers (tl_log tcp)) + zlen lost + Z.of_nat (size (sv_pending service)) +
      zlen (dropped_queries (new_processor (d_config d)) (queried (sv_log service))) +
      (if decide (rate_action (ck_rate_limit (qp_checks (new_processor (d_config d)))) = DropQuery) then over_client_limit total else 0) +
      rrl_dropped total)%Z.
Proof using Hrandom Hfit.
  intros Hlit Em H255 Hrun. destruct (main_started log d Em) as [path Hst]. destruct (started_inv path d Hok Hlit Hst H255) as (Hi & Hrc & Htcp).
  destruct (daemon_run_inv (Hcache := cache_answer_cache sz (cf_cache (d_config d)) Hok) clock random case_bits calls times net (d_config d) Hrc Htcp Hrandom ops [] d Hi Hrun)
    as (d' & E & [_ Hs]). destruct (replies_delivered _ _ _ _ _ _ _ Hs) as [lost Hlost]. exists d', lost. split; [done|]. intros service udp tcp total.
  split_and!; [by destruct Hlost..|]. intros Hlt. exact (conserved_counted _ _ _ _ _ _ _ Hs Hlost Hlt).
Qed.
End daemon.

(** ** A daemon *)

(** The C library of the examples, with addresses that can be printed too: those
    of [ex_addresses], and the letter-coded texts of [letter_ntop]. *)
Definition wide_pton (family : Z) (text : list Z) : option (list Z) :=
  match table_pton family text with Some b => Some b | None => letter_pton family text end.

Lemma table_no_letters family b : table_pton family (letter_ntop family b) = None ∧ table_pton AF_INET (letter_ntop AF_INET6 b) = None.
Proof.
  assert (Hx : ∀ f c t, (c = 52 ∨ c = 54)%Z → table_pton f (c :: t) = None).
  { intros f c t Hc. destruct (table_pton f (c :: t)) as [v|] eqn:E; [|done]. apply table_pton_find in E.
    assert (Hh : Forall (λ e, head e.1.2 ≠ Some 52 ∧ head e.1.2 ≠ Some 54)%Z ex_addresses) by by_compute.
    apply (proj1 (Forall_forall _ _) Hh) in E. cbn in E. destruct Hc as [-> | ->]; by destruct E. }
  split; apply Hx; [|by right]. destruct (family =? AF_INET)%Z; auto.
Qed.

Definition ex_wide_pton : InetPton.
Proof.
  refine {| inet_pton := wide_pton |}; intros t b; unfold wide_pton.
  - destruct (table_pton AF_INET t) as [b'|] eqn:E; [intros [= <-]; exact (@pton_v4_size ex_pton t b' E)|exact (@pton_v4_size ex_letter_pton t b)].
  - destruct (table_pton AF_INET6 t) as [b'|] eqn:E; [intros [= <-]; exact (@pton_v6_size ex_pton t b' E)|exact (@pton_v6_size ex_letter_pton t b)].
Defined.
Definition ex_wide_ntop : @InetNtop ex_wide_pton.
Proof.
  refine {| inet_ntop := letter_ntop |}; intros b Hl Hb; cbn; unfold wide_pton; rewrite ?(proj1 (table_no_letters _ b)), ?(proj2 (table_no_letters AF_INET b)).
  - exact (@ntop_v4 ex_letter_pton ex_letter_ntop b Hl Hb).
  - exact (@ntop_v6 ex_letter_pton ex_letter_ntop b Hl Hb).
Defined.
Lemma ex_wide_literals : @InetPtonLiterals ex_wide_pton.
Proof. split; by_compute. Defined.

(** Every file holds root hints, and every text is the document [ex_document]. *)
Definition ex_daemon_yaml : Yaml := {|
  node := tree; yaml_load _ := inr ex_document; is_null := @is_null tree_yaml; is_map := @is_map tree_yaml; is_sequence := @is_sequence tree_yaml;
  is_scalar := @is_scalar tree_yaml; scalar := @scalar tree_yaml; pairs := @pairs tree_yaml; items := @items tree_yaml; value_at := @value_at tree_yaml;
  mark_line := @mark_line tree_yaml; decode_bool := @decode_bool tree_yaml |}.
Definition ex_root_file : list Z := str ". 3600 IN NS a.root." ++ [10%Z] ++ str "a.root. 3600 IN A 192.168.0.0" ++ [10%Z].
Definition ex_machine : Machine :=
  mkMachine (str "dnsentinel") [] (λ _, Some ex_root_file) ex_disk 10 11 true ex_udp_calls false
    (mkListenCalls 4 true true true (Some (SockV4 [192; 168; 0; 0]%Z 5353)) true) false 0 0 5 true.

#[local] Existing Instance ex_wide_pton.
#[local] Existing Instance ex_wide_ntop.
#[local] Existing Instance ex_daemon_yaml.

Definition ex_booted : list Line * (Z + Daemon) := match main ex_machine [] with Ok r => r | _ => ([], inl 9%Z) end.
Lemma ex_booted_ok : main ex_machine [] = Ok ex_booted.
Proof. vm_compute. reflexivity. Qed.

(** One list, one domain. *)
Example ex_log : omap (λ l, match l with ListsLoaded n => Some n | _ => None end) ex_booted.1 = [1%Z].
Proof. vm_compute. reflexivity. Qed.

Lemma ex_fit path c : load_config path (mc_file ex_machine path) = Ok c → lists_fit (cf_lists c) (never_stopped (mc_disk ex_machine)).
Proof.
  assert (Hc : match load_config [] (mc_file ex_machine []) with Ok c => bool_decide (lc_blocklists (cf_lists c) = [str "ads.txt"] ∧ lc_allowlists (cf_lists c) = []) | _ => false end = true)
    by (vm_compute; reflexivity).
  intros Ec. assert (E : load_config [] (mc_file ex_machine []) = Ok c).
  { change (mc_file ex_machine path) with (mc_file ex_machine []) in Ec. unfold load_config in *. destruct (mc_file ex_machine []); [|done].
    by destruct (parse_config _). }
  rewrite E in Hc. apply bool_decide_eq_true in Hc as [Hb Ha]. split; [exact ex_disk_wf|]. unfold list_files. rewrite Hb, Ha. intros b reports Er.
  assert (Hx : match read_files (never_stopped ex_disk) 0 (map (λ p, (p, Block)) [str "ads.txt"] ++ map (λ p, (p, Allow)) []) empty_builder [] with
    inr (b, _) => bool_decide (TrieLookup.fits (bd_rules b) ∧ (zlen (bd_sources b) ≤ 65536)%Z) | _ => true end = true) by (vm_compute; reflexivity).
  change (mc_disk ex_machine) with ex_disk in Er. rewrite Er in Hx. by apply bool_decide_eq_true in Hx.
Qed.

Lemma startup_outcome_witness : match main ex_machine [] with Ok (log, inr d) => existsb failure log = false ∧ config_valid (d_config d) | _ => False end.
Proof.
  pose proof (startup_outcome ex_machine ex_wide_literals ex_fit) as Hs.
  assert (Hok : match main ex_machine [] with Ok (_, inr _) => true | _ => false end = true) by (vm_compute; reflexivity).
  destruct (main ex_machine []) as [[log [code|d]]| |]; [discriminate Hok| |discriminate Hok..].
  destruct Hs as [Hn (path & _ & _ & Hv)]. split; [exact Hn|exact Hv].
Defined.

(** The daemon that has started, then a hang-up, a client's datagram and an
    outsider's, an outsider's connection, the worker that ends, the timer that collects its result, and the
    priming. *)
Definition ex_fallback : Daemon :=
  mkDaemon default_config (new_blocklists ex_lists) (mkServer (new_service (new_processor default_config) (make_resolver default_config ex_hints)) ex_udp_start
    (new_listener new_loop 4 (cf_tcp default_config))) new_loop 5 zero_counts [].
Definition ex_daemon : Daemon := match ex_booted.2 with inr d => d | inl _ => ex_fallback end.

Lemma ex_daemon_booted : main ex_machine [] = Ok (ex_booted.1, inr ex_daemon).
Proof. vm_compute. reflexivity. Qed.
Lemma ex_daemon_cache : Cache.config_ok (cf_cache (d_config ex_daemon)).
Proof. split; by_compute. Qed.

Definition ex_daemon_instance : AnswerCache Cache := cache_answer_cache ex_sizes (cf_cache (d_config ex_daemon)) ex_daemon_cache.
#[local] Existing Instance ex_daemon_instance.
Definition ex_daemon_ops : list DaemonOp :=
  [Hangup 1000; Serve (ServerReadable [Datagram ex_wire_query (SockV4 [10; 0; 0; 7]%Z 4000) []; Datagram ex_wire_query (ci_addr ex_outside) []]);
   Serve (ServerAccept [Accepted 17 (ci_addr ex_outside)]); Serve (ServerConnection 1 kReadable [Received ex_stream_query]); WorkerDone ex_disk; DaemonDue 200000000 1000 ex_disk 200000000 200000000; Serve ServerPrime].
Abbreviation ex_daemon_exec := (daemon_exec ex_clock ex_random ex_case_bits ex_sends ex_times ex_net).

Definition lists_fit_b (config : ListsConfig) (disk : Disk) : bool :=
  match read_files disk 0 (list_files config) empty_builder [] with
  | inr (b, _) => bool_decide (TrieLookup.fits (bd_rules b)) && bool_decide (zlen (bd_sources b) ≤ 65536)%Z
  | inl _ => true
  end.
Definition daemon_ready_b (op : DaemonOp) (d : Daemon) : bool :=
  match op with
  | Serve op => server_ready_b op (d_server d)
  | Interrupt => true
  | Hangup _ | DaemonDue _ _ _ _ _ => (el_next_token (d_loop d) + 2 <? 18446744073709551616)%Z && (el_next_timer_id (d_loop d) + 2 <? 18446744073709551616)%Z
  | WorkerDone disk => lists_fit_b (cf_lists (d_config d)) disk
  end.
Fixpoint daemon_runs_b (ops : list DaemonOp) (d : Daemon) : bool :=
  match ops with
  | [] => true
  | op :: ops => daemon_ready_b op d && match ex_daemon_exec op d with Ok d => daemon_runs_b ops d | _ => true end
  end.

Lemma daemon_runs_b_sound ops : Forall (λ op, match op with WorkerDone disk => disk_wf disk | _ => True end) ops → ∀ d, daemon_runs_b ops d = true →
  daemon_all_can_run ex_clock ex_random ex_case_bits ex_sends ex_times ex_net ops d.
Proof.
  induction 1 as [|op ops Hwf _ IH]; intros d Hb; [done|]. cbn [daemon_runs_b daemon_all_can_run] in *. apply andb_true_iff in Hb as [Hop Hrest]. split.
  - assert (Hroom : (el_next_token (d_loop d) + 2 <? 18446744073709551616)%Z && (el_next_timer_id (d_loop d) + 2 <? 18446744073709551616)%Z = true → room (d_loop d) 2)
      by (unfold room; lia).
    destruct op as [sop| | | |disk]; [by apply server_ready_b_sound| |done|..]; cbn [daemon_ready_b daemon_can_run] in *; [by apply Hroom|by apply Hroom|].
    split; [done|]. intros b reports E. unfold lists_fit_b in Hop. rewrite E in Hop. apply andb_true_iff in Hop as [Hf%bool_decide_eq_true Hs%bool_decide_eq_true]. done.
  - destruct (ex_daemon_exec op d) as [d'| |]; [|done..]. by apply IH.
Qed.

Lemma ex_daemon_runs : daemon_all_can_run ex_clock ex_random ex_case_bits ex_sends ex_times ex_net ex_daemon_ops ex_daemon.
Proof. apply daemon_runs_b_sound; [repeat constructor; exact ex_disk_wf|]. vm_compute. reflexivity. Qed.

Lemma daemon_serves_witness : ∃ d', daemon_run ex_clock ex_random ex_case_bits ex_sends ex_times ex_net ex_daemon_ops ex_daemon = Ok d' ∧
  timers (d_loop d') ≡ₚ expected (bs_reloading (d_lists d')) (checking (d_config ex_daemon)).
Proof.
  destruct (daemon_serves ex_machine ex_sizes ex_clock ex_random ex_case_bits ex_sends ex_times ex_net (st_random _ _ _ (ex_starts 8 ltac:(lia)))
    ex_fit ex_booted.1 ex_daemon ex_daemon_cache ex_daemon_ops ex_wide_literals ex_daemon_booted) as (d' & E & _ & _ & Ht & _);
    [vm_compute; discriminate|exact ex_daemon_runs|]. exists d'. split; [exact E|exact Ht].
Defined.

(** The reload is over, and its result has been collected. *)
Example ex_reload_collected : match daemon_run ex_clock ex_random ex_case_bits ex_sends ex_times ex_net ex_daemon_ops ex_daemon with
  | Ok d => bs_reloading (d_lists d) = false ∧ d_log d = [Log (str "reloading the lists (SIGHUP)"); Log (str "  block ads.txt: 1 domains"); ListsLoaded 1]
  | _ => False
  end.
Proof. vm_compute. done. Qed.

(** The outsider is refused, by a packet and on a connection; the client is waited
    for; nobody is over a limit. *)
Example ex_silence : match daemon_run ex_clock ex_random ex_case_bits ex_sends ex_times ex_net ex_daemon_ops ex_daemon with
  | Ok d => let service := sr_service (d_server d) in
      (zlen (udp_sends true (ul_log (sr_udp (d_server d)))), zlen (answers (tl_log (sr_tcp (d_server d)))), size (sv_pending service), counts_of (sv_processor service)) =
      (1%Z, 1%Z, 1, zero_counts)
  | _ => False
  end.
Proof. vm_compute. reflexivity. Qed.

Lemma ex_few d' : daemon_run ex_clock ex_random ex_case_bits ex_sends ex_times ex_net ex_daemon_ops ex_daemon = Ok d' →
  (zlen (queried (sv_log (sr_service (d_server d')))) < 2 ^ 64)%Z.
Proof.
  assert (Hx : match daemon_run ex_clock ex_random ex_case_bits ex_sends ex_times ex_net ex_daemon_ops ex_daemon with
    Ok d => (zlen (queried (sv_log (sr_service (d_server d)))) <? 2 ^ 64)%Z | _ => true end = true) by (vm_compute; reflexivity).
  intros E. rewrite E in Hx. by apply Z.ltb_lt in Hx.
Qed.

Lemma silence_explained_witness : ∃ d' lost, daemon_run ex_clock ex_random ex_case_bits ex_sends ex_times ex_net ex_daemon_ops ex_daemon = Ok d' ∧
  undelivered (d_server d') lost ∧ silence_counted (new_processor (d_config ex_daemon)) (d_server d') lost.
Proof.
  destruct (silence_explained ex_machine ex_sizes ex_clock ex_random ex_case_bits ex_sends ex_times ex_net (st_random _ _ _ (ex_starts 8 ltac:(lia)))
    ex_fit ex_booted.1 ex_daemon ex_daemon_cache ex_daemon_ops ex_wide_literals ex_daemon_booted) as (d' & lost & E & Hp & Hg & Hn);
    [vm_compute; discriminate|exact ex_daemon_runs|]. exists d', lost. split; [exact E|]. split; [exact (conj Hp Hg)|exact (Hn (ex_few d' E))].
Defined.
